(** * Price-Pulse forecasting engine: [src/utils/forecasting.ts]

    A shallow embedding of the forecasting module (the business-day
    calendar, the moving-average, exponential-smoothing and simplified-ARIMA
    forecasters, the accuracy metrics and the model selector) and the
    properties its specification states about it.

    Conventions of the embedding.
    - The source is embedded twice. The first part takes a JavaScript
      [number] as a canonical rational [Qc] and the host at a fixed offset
      from UTC. It serves the properties that do not hang on the last bit
      of a double or on a change of the host's clock: what a call returns
      and throws, the lengths, dates and order of the results, what a call
      writes, and bounds that hold with room to spare. Module [Machine],
      further down, takes a [number] as an IEEE-754 double, with NaN, the
      infinities and the rounding of every operation, and the host's zone
      with its transitions; the properties about the very values the code
      computes are stated there.
    - In the first part the non-finite values are not modelled. The source
      divides by zero in three places only: the mean of an empty window
      ([windowSize = 0]), [calculateMPE] on a zero [actual], and the
      weights [1/p], [1/q] for [p = 0] or [q = 0], which it never uses (the
      coefficient arrays are empty then). There the first part follows
      [Qc], where [x / 0 = 0]; its statements exclude these cases or do not
      read the value computed there.
    - Counters, lengths and indices ([windowSize], [forecastDays], [p], [d],
      [q], loop variables) are [nat]. An array read [a[i]] is [nth i a] with a
      default; past the length guards of the forecasters every read is in
      range.
    - An ISO date string ["YYYY-MM-DD"] is the number of days since
      1970-01-01 (a Thursday), a [Z]; the order on strings of that form is
      the order on day numbers. A [Date] object is its time value in
      milliseconds, and the host's time zone, which [getDate], [setDate] and
      [getDay] read, is a parameter: a fixed offset from UTC in the first
      part, a zone with transitions in module [Machine].
    - A call ends in a value or in a thrown exception ([outcome]).
    - A [for] loop is a fold over the list of its index values; a loop whose
      body can throw is a fold in the [outcome] monad.
    - The first part passes values; module [Store] states the same
      operations over an explicit store of mutable cells, for the
      properties about what a call writes. *)

From Stdlib Require Import ZArith QArith Qabs Qcanon Qcabs Qround QOrderedType.
From stdpp Require Import base list sorting strings pretty gmap.

(** ** Numbers *)

Abbreviation number := Qc.

Definition num_of_nat (n : nat) : number := Q2Qc (inject_Z (Z.of_nat n)).

(** [parseFloat(x.toFixed(2))]: [toFixed] takes the sign off, picks the
    integer [n] with [n / 100] nearest to [|x|] (the larger one on a tie) and
    prints sign, [n / 100]; [parseFloat] reads the decimal back. *)
Definition toFixed2 (x : number) : number :=
  let n := Qfloor (Qabs (this x) * 100 + (1 # 2)) in
  Q2Qc ((if (Qnum (this x) <? 0)%Z then (- n)%Z else n) # 100).

(** [x || 0] on a number: [0] (and NaN) are falsy. *)
Definition or_zero (x : number) : number :=
  if Qc_eq_bool x 0%Qc then 0%Qc else x.

(** ** Arrays *)

(** [a.slice(i, j)] for [0 <= i <= j]. *)
Definition slice {A} (i j : nat) (a : list A) : list A := take (j - i) (drop i a).

(** [a.slice(-n)]: the last [n] elements; [-0] is [0], so [a.slice(-0)] is
    the whole array. *)
Definition slice_last {A} (n : nat) (a : list A) : list A :=
  if (n =? 0)%nat then a else drop (length a - n) a.

(** [a.reduce((sum, val) => sum + val, 0)]. *)
Definition sum_reduce (a : list number) : number := fold_left Qcplus a 0%Qc.

(** [a.shift(); a.push(x)] on a local array. *)
Definition shift_push {A} (a : list A) (x : A) : list A := tail a ++ [x].

(** ** Exceptions *)

Inductive exn : Type :=
  | Error (message : string)
  | RangeError (message : string).

(** The result of a call: a value, a thrown exception, or a loop of the
    embedding that used up its step budget (never reached, see
    [getNextBusinessDay_steps]). *)
Inductive outcome (A : Type) : Type :=
  | Returns (a : A)
  | Throws (e : exn)
  | OutOfSteps.
Arguments Returns {A} a.
Arguments Throws {A} e.
Arguments OutOfSteps {A}.

#[global] Instance outcome_bind : MBind outcome := λ A B k m,
  match m with
  | Returns a => k a
  | Throws e => Throws e
  | OutOfSteps => OutOfSteps
  end.

(** [for (const i of idxs) s = body(i, s)] where [body] can throw. *)
Fixpoint for_each {St} (idxs : list nat) (body : nat → St → outcome St)
    (s : St) : outcome St :=
  match idxs with
  | [] => Returns s
  | i :: idxs' => s' ← body i s; for_each idxs' body s'
  end.

(** ** Data model *)

Definition date : Type := Z.
Bind Scope Z_scope with date.

Record StockDataPoint : Type := mkStockDataPoint {
  sdp_date : date;
  symbol : string;
  open : number;
  high : number;
  low : number;
  close : number;
  volume : number
}.

Inductive ForecastingModel : Type :=
  | MOVING_AVERAGE
  | EXPONENTIAL_SMOOTHING
  | ARIMA.

Record PredictionResult : Type := mkPredictionResult {
  pr_date : date;
  actual : option number;
  predicted : number;
  modelName : ForecastingModel
}.

(** ** Business-day calendar *)

Definition msPerDay : Z := 86400000.
Definition msPerMinute : Z := 60000.

(** A [Date] object: its time value in milliseconds since the epoch (UTC),
    [None] for an Invalid Date. *)
Definition Date : Type := option Z.

(** [new Date(s)]: a date-only ISO string is midnight UTC of that day;
    [undefined] gives an Invalid Date. *)
Definition newDate (s : option date) : Date := (λ d, d * msPerDay)%Z <$> s.

(** [toISOString().split('T')[0]]: the calendar date in UTC. *)
Definition toISODate (t : Z) : date := (t `div` msPerDay)%Z.

(** Day of the week of a day number, [0] Sunday .. [6] Saturday. *)
Definition dayOfWeek (d : date) : Z := ((d + 4) `mod` 7)%Z.

Definition isBusinessDay (d : date) : bool :=
  negb (dayOfWeek d =? 0)%Z && negb (dayOfWeek d =? 6)%Z.

Section Host.
(** [getDate], [setDate] and [getDay] work in the local time zone of the
    host; it is modelled as a fixed offset from UTC, in minutes, positive
    to the east. *)
Variable tzOffset : Z.

(** The local calendar day that holds the instant [t]. *)
Definition localDay (t : Z) : date :=
  ((t + tzOffset * msPerMinute) `div` msPerDay)%Z.

(** [date.getDay()]. *)
Definition getDay (t : Z) : Z := dayOfWeek (localDay t).

(** [date.setDate(date.getDate() + 1)]: the next local day at the same
    local time. *)
Definition addOneDay (t : Z) : Z := (t + msPerDay)%Z.

(** The [while (businessDaysAdded < daysToAdd)] loop. *)
Fixpoint businessDayLoop (steps : nat) (t : Z)
    (businessDaysAdded daysToAdd : nat) : option Z :=
  if (businessDaysAdded <? daysToAdd)%nat then
    match steps with
    | O => None
    | S steps' =>
        let t' := addOneDay t in
        let dow := getDay t' in
        if negb (dow =? 0)%Z && negb (dow =? 6)%Z
        then businessDayLoop steps' t' (S businessDaysAdded) daysToAdd
        else businessDayLoop steps' t' businessDaysAdded daysToAdd
    end
  else Some t.

(** On an Invalid Date every [getDay()] is NaN, which differs from 0 and
    from 6: the loop ends after [daysToAdd] rounds and [toISOString]
    throws. *)
Definition getNextBusinessDay (lastDateStr : option date) (daysToAdd : nat)
    : outcome date :=
  match newDate lastDateStr with
  | None => Throws (RangeError "Invalid time value")
  | Some t =>
      match businessDayLoop (7 * daysToAdd) t 0 daysToAdd with
      | Some t' => Returns (toISODate t')
      | None => OutOfSteps
      end
  end.

(** ** Moving-average forecaster *)

Definition movingAveragePredict (data : list StockDataPoint)
    (windowSize forecastDays : nat) : outcome (list PredictionResult) :=
  if (length data <? windowSize)%nat then
    Throws (Error ("Not enough data points. Need at least "
                     +:+ pretty windowSize +:+ " points."))
  else
    let closePrices := map close data in
    let dates := map sdp_date data in
    let results :=
      fold_left (λ results i,
        let window := slice (i - windowSize) i closePrices in
        let avg := (sum_reduce window / num_of_nat (length window))%Qc in
        results ++ [ {| pr_date := nth i dates 0%Z;
                        actual := Some (nth i closePrices 0%Qc);
                        predicted := toFixed2 avg;
                        modelName := MOVING_AVERAGE |} ])
        (seq windowSize (length data - windowSize)) [] in
    st ← for_each (seq 0 forecastDays)
           (λ i '(results, lastPredictions),
             nextDate ← getNextBusinessDay (last dates) (i + 1) ;
             let avg := (sum_reduce lastPredictions
                           / num_of_nat (length lastPredictions))%Qc in
             let prediction := toFixed2 avg in
             Returns (results ++ [ {| pr_date := nextDate;
                                      actual := None;
                                      predicted := prediction;
                                      modelName := MOVING_AVERAGE |} ],
                      shift_push lastPredictions prediction))
           (results, slice_last windowSize closePrices) ;
    Returns (fst st).

(** ** Exponential-smoothing forecaster *)

Definition exponentialSmoothingPredict (data : list StockDataPoint)
    (alpha : number) (forecastDays : nat) : outcome (list PredictionResult) :=
  if (length data <? 2)%nat then
    Throws (Error "Not enough data points. Need at least 2 points.")
  else
    let closePrices := map close data in
    let dates := map sdp_date data in
    let '(forecast, results) :=
      fold_left (λ '(forecast, results) i,
        let forecast :=
          (alpha * nth (i - 1) closePrices 0 + (1 - alpha) * forecast)%Qc in
        (forecast,
         results ++ [ {| pr_date := nth i dates 0%Z;
                         actual := Some (nth i closePrices 0%Qc);
                         predicted := toFixed2 forecast;
                         modelName := EXPONENTIAL_SMOOTHING |} ]))
        (seq 1 (length data - 1)) (nth 0 closePrices 0%Qc, []) in
    let lastActual := nth (length closePrices - 1) closePrices 0%Qc in
    st ← for_each (seq 0 forecastDays)
           (λ i '(forecast, lastActual, results),
             nextDate ← getNextBusinessDay (last dates) (i + 1) ;
             let forecast :=
               (alpha * lastActual + (1 - alpha) * forecast)%Qc in
             let prediction := toFixed2 forecast in
             Returns (forecast, prediction,
                      results ++ [ {| pr_date := nextDate;
                                      actual := None;
                                      predicted := prediction;
                                      modelName := EXPONENTIAL_SMOOTHING |} ]))
           (forecast, lastActual, results) ;
    Returns (snd st).

(** ** Simplified-ARIMA forecaster *)

(** One pass of the differencing loop:
    [diffPrices.slice(1).map((val, idx) => val - diffPrices[idx])]. *)
Definition difference (diffPrices : list number) : list number :=
  imap (λ idx val, (val - nth idx diffPrices 0)%Qc) (drop 1 diffPrices).

(** The AR term of the backtest loop at position [i] of [diffPrices]. *)
Definition arComponentAt (arCoefficients diffPrices : list number)
    (p i : nat) : number :=
  fold_left (λ arComponent j,
    (arComponent + nth j arCoefficients 0 * nth (i - j - 1) diffPrices 0)%Qc)
    (seq 0 p) 0%Qc.

(** The MA term of the backtest loop; the loop test is
    [j < q && j < errors.length]. *)
Definition maComponentAt (maCoefficients errors : list number) (q : nat)
    : number :=
  fold_left (λ maComponent j,
    (maComponent
       + nth j maCoefficients 0
         * or_zero (nth (length errors - j - 1) errors 0))%Qc)
    (seq 0 (q `min` length errors)) 0%Qc.

(** The backtest loop on the differenced series; its state is the pair
    [(errors, predictions)]. *)
Definition arimaBacktest (arCoefficients maCoefficients diffPrices : list number)
    (p q : nat) : list number * list number :=
  fold_left (λ '(errors, predictions) i,
    let arComponent := arComponentAt arCoefficients diffPrices p i in
    let maComponent := maComponentAt maCoefficients errors q in
    let prediction := (arComponent + maComponent)%Qc in
    let error := (nth i diffPrices 0 - prediction)%Qc in
    (errors ++ [error], predictions ++ [prediction]))
    (seq (p `max` q) (length diffPrices - p `max` q)) ([], []).

(** The loop that takes the backtest predictions back to the original
    scale; its state is [(undiffPredictions, results)]. *)
Definition arimaUndiff (closePrices : list number) (dates : list date)
    (predictions : list number) (p d q : nat)
    : list number * list PredictionResult :=
  fold_left (λ '(undiffPredictions, results) i,
    let actualIndex := i + p `max` q + d in
    let undiffValue :=
      fold_left (λ undiffValue j,
        (undiffValue + nth (actualIndex - j - 1) closePrices 0)%Qc)
        (seq 0 d) (nth i predictions 0%Qc) in
    (undiffPredictions ++ [undiffValue],
     results ++ [ {| pr_date := nth actualIndex dates 0%Z;
                     actual := Some (nth actualIndex closePrices 0%Qc);
                     predicted := toFixed2 undiffValue;
                     modelName := ARIMA |} ]))
    (seq 0 (length predictions)) ([], []).

Definition arimaPredict (data : list StockDataPoint) (p d q forecastDays : nat)
    : outcome (list PredictionResult) :=
  if (length data <? p `max` q + d + 1)%nat then
    Throws (Error "Not enough data points for ARIMA model.")
  else
    let closePrices := map close data in
    let dates := map sdp_date data in
    let diffPrices := Nat.iter d difference closePrices in
    let arCoefficients := replicate p (1 / num_of_nat p)%Qc in
    let maCoefficients := replicate q (1 / num_of_nat q)%Qc in
    let '(errors, predictions) :=
      arimaBacktest arCoefficients maCoefficients diffPrices p q in
    let '(undiffPredictions, results) :=
      arimaUndiff closePrices dates predictions p d q in
    let lastPredictions := slice_last p predictions in
    let lastErrors := slice_last q errors in
    let lastActuals := slice_last d closePrices in
    st ← for_each (seq 0 forecastDays)
           (λ i '(lastPredictions, lastErrors, undiffPredictions, results),
             nextDate ← getNextBusinessDay (last dates) (i + 1);
             let arComponent :=
               fold_left (λ arComponent j,
                 (arComponent
                    + nth j arCoefficients 0
                      * nth (length lastPredictions - j - 1) lastPredictions 0)%Qc)
                 (seq 0 (p `min` length lastPredictions)) 0%Qc in
             let maComponent :=
               fold_left (λ maComponent j,
                 (maComponent
                    + nth j maCoefficients 0
                      * nth (length lastErrors - j - 1) lastErrors 0)%Qc)
                 (seq 0 (q `min` length lastErrors)) 0%Qc in
             let diffPrediction := (arComponent + maComponent)%Qc in
             let undiffValue :=
               fold_left (λ undiffValue j,
                 if (j <=? i)%nat then
                   (undiffValue
                      + nth (length undiffPredictions - j - 1)
                            undiffPredictions 0)%Qc
                 else
                   (undiffValue
                      + nth (length lastActuals - (j - i) - 1) lastActuals 0)%Qc)
                 (seq 0 d) diffPrediction in
             let finalPrediction := toFixed2 undiffValue in
             Returns (shift_push lastPredictions diffPrediction,
                      shift_push lastErrors 0%Qc,
                      undiffPredictions ++ [finalPrediction],
                      results ++ [ {| pr_date := nextDate;
                                      actual := None;
                                      predicted := finalPrediction;
                                      modelName := ARIMA |} ]))
           (lastPredictions, lastErrors, undiffPredictions, results);
    Returns (snd st).

(** The returned [Record<ForecastingModel, PredictionResult[]>] is read by
    key only: a function of the key. *)
Definition generateAllPredictions (data : list StockDataPoint)
    (forecastDays : nat) : outcome (ForecastingModel → list PredictionResult) :=
  ma ← movingAveragePredict data 7 forecastDays;
  es ← exponentialSmoothingPredict data (Q2Qc (3 # 10)) forecastDays;
  ar ← arimaPredict data 3 1 1 forecastDays;
  Returns (λ model,
    match model with
    | MOVING_AVERAGE => ma
    | EXPONENTIAL_SMOOTHING => es
    | ARIMA => ar
    end).

End Host.

(** ** Accuracy metrics *)

(** [p.actual as number]. *)
Definition as_number (a : option number) : number := default 0%Qc a.

Definition calculateMAE (predictions : list PredictionResult) : number :=
  let validPairs := filter (λ p, is_Some (actual p)) predictions in
  if (length validPairs =? 0)%nat then 0%Qc
  else
    let sum :=
      fold_left (λ acc p, (acc + Qcabs (as_number (actual p) - predicted p))%Qc)
        validPairs 0%Qc in
    toFixed2 (sum / num_of_nat (length validPairs))%Qc.

Definition calculateMPE (predictions : list PredictionResult) : number :=
  let validPairs := filter (λ p, is_Some (actual p)) predictions in
  if (length validPairs =? 0)%nat then 0%Qc
  else
    let sum :=
      fold_left (λ acc p,
        let actual := as_number (actual p) in
        (acc + (predicted p - actual) / actual * Q2Qc 100)%Qc)
        validPairs 0%Qc in
    toFixed2 (sum / num_of_nat (length validPairs))%Qc.

(** ** Model selector *)

#[global] Instance ForecastingModel_eq_dec : EqDecision ForecastingModel.
Proof. solve_decision. Defined.

Record ModelMetrics : Type := mkModelMetrics { mae : number; mpe : number }.

(** [Record<ForecastingModel, { mae, mpe }>]: an object keeps its string keys
    in insertion order, which [Object.entries] walks. *)
Definition MetricsRecord : Type := list (ForecastingModel * ModelMetrics).

(** [metrics[model]]. *)
Definition metricsOf (metrics : MetricsRecord) (model : ForecastingModel)
    : option ModelMetrics :=
  (λ found, found.2.2) <$> list_find (λ entry, entry.1 = model) metrics.

Record ModelRecommendation : Type := mkModelRecommendation {
  bestModel : ForecastingModel;
  metrics : MetricsRecord
}.

Definition determineBestModel
    (predictions : ForecastingModel → list PredictionResult)
    : ModelRecommendation :=
  let metrics : MetricsRecord :=
    [ (MOVING_AVERAGE,
       {| mae := calculateMAE (predictions MOVING_AVERAGE);
          mpe := calculateMPE (predictions MOVING_AVERAGE) |});
      (EXPONENTIAL_SMOOTHING,
       {| mae := calculateMAE (predictions EXPONENTIAL_SMOOTHING);
          mpe := calculateMPE (predictions EXPONENTIAL_SMOOTHING) |});
      (ARIMA,
       {| mae := calculateMAE (predictions ARIMA);
          mpe := calculateMPE (predictions ARIMA) |}) ] in
  let bestModel := MOVING_AVERAGE in
  let lowestMAE := from_option mae 0%Qc (metricsOf metrics MOVING_AVERAGE) in
  let '(bestModel, lowestMAE) :=
    fold_left (λ '(bestModel, lowestMAE) '(model, m),
      if bool_decide (mae m < lowestMAE)%Qc then (model, mae m)
      else (bestModel, lowestMAE))
      metrics (bestModel, lowestMAE) in
  {| bestModel := bestModel; metrics := metrics |}.

(** ** Reference notions used by the statements *)

(** The whole days by which the host's local calendar is ahead of the UTC
    calendar at midnight UTC: [0] from UTC eastwards up to UTC+23:59, [-1]
    west of UTC. *)
Definition dayShift (tzOffset : Z) : Z := ((tzOffset * msPerMinute) `div` msPerDay)%Z.

(** The first day after [d] that the host sees as Monday to Friday; at most
    two days in a row are not. *)
Definition nextBusinessDayAfter (shift : Z) (d : date) : date :=
  if isBusinessDay (d + 1 + shift)%Z then (d + 1)%Z
  else if isBusinessDay (d + 2 + shift)%Z then (d + 2)%Z
  else (d + 3)%Z.

(** The [k]-th such day after [d], advancing one business day at a time. *)
Definition nthBusinessDayAfter (shift : Z) (d : date) (k : nat) : date :=
  Nat.iter k (nextBusinessDayAfter shift) d.

(** How many of the days [d + 1 .. d + len] are Monday to Friday. *)
Fixpoint businessDaysWithin (d : date) (len : nat) : nat :=
  match len with
  | O => 0
  | S len' =>
      businessDaysWithin d len'
      + (if isBusinessDay (d + Z.of_nat len)%Z then 1 else 0)
  end.

(** Sum and mean of a list of numbers. *)
Definition sumQc (l : list number) : number := foldr Qcplus 0%Qc l.

Definition mean (l : list number) : number :=
  (sumQc l / num_of_nat (length l))%Qc.

(** The last [n] elements of a list. *)
Definition lastN {A} (n : nat) (l : list A) : list A := drop (length l - n) l.

(** Entries with and without an actual value. *)
Definition backtestPortion (rs : list PredictionResult) : list PredictionResult :=
  filter (λ r, is_Some (actual r)) rs.

Definition forecastPortion (rs : list PredictionResult) : list PredictionResult :=
  filter (λ r, actual r = None) rs.

(** The rolling window of the moving-average forecast before its [k]-th
    step: it starts as the last [windowSize] closes, and each step drops the
    oldest element and appends the rounded mean just emitted. *)
Fixpoint maWindow (closes : list number) (windowSize k : nat) : list number :=
  match k with
  | O => lastN windowSize closes
  | S k' =>
      let W := maWindow closes windowSize k' in
      tail W ++ [toFixed2 (mean W)]
  end.

(** One turn of the window kept by the forecast loop of
    [movingAveragePredict]. *)
Definition maStep (W : list number) : list number :=
  shift_push W (toFixed2 (mean W)).

(** The entries [movingAveragePredict] emits: the backtest over the indices
    [windowSize .. length data - 1], then [forecastDays] forecasts from the
    window [W0]. *)
Definition maBacktest (data : list StockDataPoint) (windowSize : nat)
    : list PredictionResult :=
  map (λ i, {| pr_date := nth i (map sdp_date data) 0%Z;
               actual := Some (nth i (map close data) 0%Qc);
               predicted :=
                 toFixed2 (mean (slice (i - windowSize) i (map close data)));
               modelName := MOVING_AVERAGE |})
      (seq windowSize (length data - windowSize)).

Definition maForecast (shift : Z) (lastDate : date) (W0 : list number)
    (first forecastDays : nat) : list PredictionResult :=
  map (λ k, {| pr_date := nthBusinessDayAfter shift lastDate (first + k + 1);
               actual := None;
               predicted := toFixed2 (mean (Nat.iter k maStep W0));
               modelName := MOVING_AVERAGE |})
      (seq 0 forecastDays).

(** The smoothed level of exponential smoothing at index [i]: seeded with
    the first close and updated with the close just before [i]. *)
Fixpoint esLevel (alpha : number) (closes : list number) (i : nat) : number :=
  match i with
  | O => nth 0 closes 0%Qc
  | S i' => (alpha * nth i' closes 0 + (1 - alpha) * esLevel alpha closes i')%Qc
  end.

Definition esBacktest (alpha : number) (data : list StockDataPoint)
    : list PredictionResult :=
  map (λ i, {| pr_date := nth i (map sdp_date data) 0%Z;
               actual := Some (nth i (map close data) 0%Qc);
               predicted := toFixed2 (esLevel alpha (map close data) i);
               modelName := EXPONENTIAL_SMOOTHING |})
      (seq 1 (length data - 1)).

(** The pair [(forecast, lastActual)] kept by the forecast loop of
    [exponentialSmoothingPredict], and one turn of it. *)
Definition esStep (alpha : number) (st : number * number) : number * number :=
  let forecast := (alpha * st.2 + (1 - alpha) * st.1)%Qc in
  (forecast, toFixed2 forecast).

Definition esForecast (alpha : number) (shift : Z) (lastDate : date)
    (st0 : number * number) (first forecastDays : nat) : list PredictionResult :=
  map (λ k, {| pr_date := nthBusinessDayAfter shift lastDate (first + k + 1);
               actual := None;
               predicted := (Nat.iter (S k) (esStep alpha) st0).2;
               modelName := EXPONENTIAL_SMOOTHING |})
      (seq 0 forecastDays).

(** The first differences of a series: entry [k] is [closes[k+1] - closes[k]]. *)
Definition firstDifferences (closes : list number) : list number :=
  map (λ k, (nth (k + 1) closes 0 - nth k closes 0)%Qc) (seq 0 (length closes - 1)).

(** The differenced prediction at position [pos] of the differenced series,
    given the residuals computed so far: the uniform weight [1/p] on the [p]
    values just before [pos], and the uniform weight [1/q] on the last
    [q] residuals (fewer when fewer exist). *)
Definition arimaPrediction (p q : nat) (diffSeries residuals : list number)
    (pos : nat) : number :=
  (1 / num_of_nat p * sumQc (slice (pos - p) pos diffSeries)
   + 1 / num_of_nat q * sumQc (lastN q residuals))%Qc.

(** The residuals of the first [i] backtest steps; step [i] works at
    position [max p q + i] of the differenced series. *)
Fixpoint arimaResiduals (p q : nat) (diffSeries : list number) (i : nat)
    : list number :=
  match i with
  | O => []
  | S i' =>
      let residuals := arimaResiduals p q diffSeries i' in
      let pos := p `max` q + i' in
      residuals
      ++ [(nth pos diffSeries 0
           - arimaPrediction p q diffSeries residuals pos)%Qc]
  end.

(** The backtest entries [arimaPredict] emits from its differenced
    predictions, and forecast entries with the predicted values [preds]. *)
Definition arimaBacktestEntries (closePrices : list number) (dates : list date)
    (predictions : list number) (p d q : nat) : list PredictionResult :=
  map (λ i,
    {| pr_date := nth (i + p `max` q + d) dates 0%Z;
       actual := Some (nth (i + p `max` q + d) closePrices 0%Qc);
       predicted :=
         toFixed2
           (fold_left (λ undiffValue j,
              (undiffValue + nth (i + p `max` q + d - j - 1) closePrices 0)%Qc)
              (seq 0 d) (nth i predictions 0%Qc));
       modelName := ARIMA |})
    (seq 0 (length predictions)).

Definition arimaForecastEntries (shift : Z) (lastDate : date) (first : nat)
    (preds : list number) : list PredictionResult :=
  imap (λ k v, {| pr_date := nthBusinessDayAfter shift lastDate (first + k + 1);
                  actual := None;
                  predicted := v;
                  modelName := ARIMA |}) preds.

(** The differenced predictions of the ARIMA backtest on [data]. *)
Definition arimaPredictions (data : list StockDataPoint) (p d q : nat)
    : list number :=
  let diffSeries := Nat.iter d difference (map close data) in
  map (λ i, arimaPrediction p q diffSeries
              (arimaResiduals p q diffSeries i) (p `max` q + i))
      (seq 0 (length diffSeries - p `max` q)).

(** How a call ends. *)
Definition raisesInsufficientData {A} (o : outcome A) : Prop :=
  ∃ message, o = Throws (Error message).

Definition returnsNormally {A} (o : outcome A) : Prop :=
  ∃ a, o = Returns a.

(** A result sequence splits at index [k] around the last input date. *)
Definition splitsAt (rs : list PredictionResult) (k : nat) (lastDate : date)
    : Prop :=
  (∀ i r, rs !! i = Some r → (i < k)%nat →
     is_Some (actual r) ∧ (pr_date r ≤ lastDate)%Z)
  ∧ (∀ i r, rs !! i = Some r → (k ≤ i)%nat →
       actual r = None ∧ (lastDate < pr_date r)%Z).

(** The dates of a series ascend, one entry per day. *)
Definition ascendingDates (data : list StockDataPoint) : Prop :=
  StronglySorted Z.lt (map sdp_date data).

(** A data point for examples: every price field holds [c]. *)
Definition samplePoint (d : date) (c : Q) : StockDataPoint :=
  {| sdp_date := d; symbol := "AAPL"; open := Q2Qc c; high := Q2Qc c;
     low := Q2Qc c; close := Q2Qc c; volume := Q2Qc 1000000 |}.
Arguments samplePoint d%_Z c%_Q.

(** The absolute errors [|actual - predicted|] of the entries that carry an
    actual value, in order. *)
Definition absoluteErrors (predictions : list PredictionResult) : list number :=
  omap (λ r, (λ a, Qcabs (a - predicted r)) <$> actual r) predictions.

(** The fixed priority order of the selector: the order in which the
    metrics record lists the models. *)
Definition priority (model : ForecastingModel) : nat :=
  match model with
  | MOVING_AVERAGE => 0
  | EXPONENTIAL_SMOOTHING => 1
  | ARIMA => 2
  end.

(** The first of three errors, in priority order, that no other error
    undercuts. *)
Definition firstMinimal (a b c : number) : ForecastingModel :=
  if bool_decide (b < a)%Qc
  then (if bool_decide (c < b)%Qc then ARIMA else EXPONENTIAL_SMOOTHING)
  else (if bool_decide (c < a)%Qc then ARIMA else MOVING_AVERAGE).

(** ** The module over an explicit store

    The definitions above pass values; JavaScript arrays and objects are
    mutable cells reached through references. To follow what the code
    writes, the same six operations are given once more over a store:
    every array method that builds an array ([map], [slice], [filter], array
    and object literals, [new Date]) allocates a cell, and [push], [shift] and
    [setDate] overwrite the cell they are called on. *)

Module Store.

Abbreviation loc := nat.

Inductive value : Type :=
  | Num (x : number)
  | Str (d : date)
  | Model (m : ForecastingModel)
  | Ref (l : loc)
  | Null
  | Undefined.

Inductive cell : Type :=
  | Arr (elems : list value)
  | Point (pt : StockDataPoint)
  | Result (date actual predicted modelName : value)
  | DateObj (t : option Z)
  | Var (v : value)
  | MetricsPair (mae mpe : value)
  | Rec (fields : list (ForecastingModel * value))
  | Recommendation (bestModel metrics : value).

(** A store is the list of its cells; a reference is an index into it, and
    a fresh cell goes to the end. *)
Abbreviation heap := (list cell).

(** A computation on the store; the store outlives a thrown exception. *)
Definition M (A : Type) : Type := heap → outcome A * heap.

Definition ret {A} (a : A) : M A := λ h, (Returns a, h).

Definition bind {A B} (m : M A) (k : A → M B) : M B := λ h,
  match m h with
  | (Returns a, h') => k a h'
  | (Throws e, h') => (Throws e, h')
  | (OutOfSteps, h') => (OutOfSteps, h')
  end.

#[global] Instance M_ret : MRet M := @ret.
#[global] Instance M_bind : MBind M := λ A B k m, bind m k.

Definition throw {A} (e : exn) : M A := λ h, (Throws e, h).

Definition outOfSteps {A} : M A := λ h, (OutOfSteps, h).

Definition alloc (c : cell) : M loc := λ h, (Returns (length h), h ++ [c]).

Definition readCell (l : loc) : M (option cell) := λ h, (Returns (h !! l), h).

Definition writeCell (l : loc) (c : cell) : M unit := λ h,
  (Returns (), <[l := c]> h).

(** Reading values. A read that finds no such cell or field gives
    [undefined]; [numOf] is the number a value stands for in arithmetic. *)
Definition numOf (v : value) : number :=
  match v with Num x => x | _ => 0%Qc end.

Definition strOf (v : value) : option date :=
  match v with Str d => Some d | _ => None end.

Definition elemsOf (c : option cell) : list value :=
  match c with Some (Arr elems) => elems | _ => [] end.

Definition getElems (a : value) : M (list value) :=
  match a with
  | Ref l => c ← readCell l; mret (elemsOf c)
  | _ => mret []
  end.

Definition setElems (a : value) (elems : list value) : M unit :=
  match a with
  | Ref l => writeCell l (Arr elems)
  | _ => mret ()
  end.

(** [a.length], [a[i]], [a.push(v)], [a.shift()], [a.slice(i, j)],
    [a.slice(-n)], [a.map(f)], [a.filter(f)] and an array literal. *)
Definition lengthOf (a : value) : M nat :=
  elems ← getElems a; mret (length elems).

Definition index (a : value) (i : nat) : M value :=
  elems ← getElems a; mret (nth i elems Undefined).

Definition push (a : value) (v : value) : M unit :=
  elems ← getElems a; setElems a (elems ++ [v]).

Definition shift (a : value) : M unit :=
  elems ← getElems a; setElems a (tail elems).

Definition newArray (elems : list value) : M value :=
  l ← alloc (Arr elems); mret (Ref l).

Definition sliceOf (a : value) (i j : nat) : M value :=
  elems ← getElems a; newArray (slice i j elems).

Definition sliceLastOf (a : value) (n : nat) : M value :=
  elems ← getElems a; newArray (slice_last n elems).

Fixpoint mapEach (f : value → M value) (elems : list value) : M (list value) :=
  match elems with
  | [] => mret []
  | v :: elems' => w ← f v; ws ← mapEach f elems'; mret (w :: ws)
  end.

Definition mapOf (a : value) (f : value → M value) : M value :=
  elems ← getElems a; mapped ← mapEach f elems; newArray mapped.

Fixpoint filterEach (f : value → M bool) (elems : list value) : M (list value) :=
  match elems with
  | [] => mret []
  | v :: elems' =>
      keep ← f v; ws ← filterEach f elems';
      mret (if (keep : bool) then v :: ws else ws)
  end.

Definition filterOf (a : value) (f : value → M bool) : M value :=
  elems ← getElems a; kept ← filterEach f elems; newArray kept.

(** [a.reduce(f, init)] with a callback that reads the store. *)
Fixpoint reduceEach (f : number → value → M number) (elems : list value)
    (acc : number) : M number :=
  match elems with
  | [] => mret acc
  | v :: elems' => acc' ← f acc v; reduceEach f elems' acc'
  end.

Definition reduceOf (a : value) (f : number → value → M number) (init : number)
    : M number :=
  elems ← getElems a; reduceEach f elems init.

(** A local variable that a loop or a callback assigns to: a cell of the
    function's own. *)
Definition newVar (v : value) : M loc := alloc (Var v).

Definition getVar (x : loc) : M value :=
  c ← readCell x;
  mret (match c with Some (Var v) => v | _ => Undefined end).

Definition setVar (x : loc) (v : value) : M unit := writeCell x (Var v).

(** Field reads of the objects the module handles. *)
Definition closeOf (d : value) : M value :=
  match d with
  | Ref l =>
      c ← readCell l;
      mret (match c with Some (Point pt) => Num (close pt) | _ => Undefined end)
  | _ => mret Undefined
  end.

Definition dateOf (d : value) : M value :=
  match d with
  | Ref l =>
      c ← readCell l;
      mret (match c with Some (Point pt) => Str (sdp_date pt) | _ => Undefined end)
  | _ => mret Undefined
  end.

Definition actualOf (p : value) : M value :=
  match p with
  | Ref l =>
      c ← readCell l;
      mret (match c with Some (Result _ actual _ _) => actual | _ => Undefined end)
  | _ => mret Undefined
  end.

Definition predictedOf (p : value) : M value :=
  match p with
  | Ref l =>
      c ← readCell l;
      mret (match c with Some (Result _ _ predicted _) => predicted | _ => Undefined end)
  | _ => mret Undefined
  end.

Definition newResult (date actual predicted : value) (modelName : ForecastingModel)
    : M value :=
  l ← alloc (Result date actual predicted (Model modelName)); mret (Ref l).

(** [for] loops. *)
Fixpoint for_each {St} (idxs : list nat) (body : nat → St → M St) (s : St)
    : M St :=
  match idxs with
  | [] => mret s
  | i :: idxs' => s' ← body i s; for_each idxs' body s'
  end.

Definition for_ (idxs : list nat) (body : nat → M unit) : M unit :=
  for_each idxs (λ i _, body i) ().

(** [for (let i = first; cond(i); i++) body(i)] with a condition that reads
    the store on every round; [steps] bounds the rounds. *)
Fixpoint forLoop (steps : nat) (cond : nat → M bool) (body : nat → M unit)
    (i : nat) : M unit :=
  match steps with
  | O => outOfSteps
  | S steps' =>
      go ← cond i;
      if (go : bool) then _ ← body i; forLoop steps' cond body (S i)
      else mret ()
  end.

(** [a.map((val, idx) => f(val, idx))]. *)
Fixpoint mapEachIndexed (f : value → nat → M value) (elems : list value)
    (idx : nat) : M (list value) :=
  match elems with
  | [] => mret []
  | v :: elems' =>
      w ← f v idx; ws ← mapEachIndexed f elems' (S idx); mret (w :: ws)
  end.

Definition mapIndexedOf (a : value) (f : value → nat → M value) : M value :=
  elems ← getElems a; mapped ← mapEachIndexed f elems 0; newArray mapped.

(** [sum += c * x]-style accumulation over [for (let j = 0; cond(j); j++)]. *)
Fixpoint accumulate (steps : nat) (cond : nat → M bool)
    (body : nat → number → M number) (j : nat) (acc : number) : M number :=
  match steps with
  | O => outOfSteps
  | S steps' =>
      go ← cond j;
      if (go : bool) then acc' ← body j acc; accumulate steps' cond body (S j) acc'
      else mret acc
  end.

(** The [while] loop of [getNextBusinessDay] on the [Date] object [date]. *)
Fixpoint businessDayLoop (tzOffset : Z) (steps : nat) (date : loc)
    (businessDaysAdded daysToAdd : nat) : M unit :=
  if (businessDaysAdded <? daysToAdd)%nat then
    match steps with
    | O => outOfSteps
    | S steps' =>
        c ← readCell date;
        let t := match c with Some (DateObj t) => t | _ => None end in
        let t' := addOneDay <$> t in
        _ ← writeCell date (DateObj t');
        let weekend :=
          match t' with
          | Some t' =>
              (getDay tzOffset t' =? 0)%Z || (getDay tzOffset t' =? 6)%Z
          | None => false
          end in
        businessDayLoop tzOffset steps' date
          (if weekend then businessDaysAdded else S businessDaysAdded) daysToAdd
    end
  else mret ().

Definition getNextBusinessDay (tzOffset : Z) (lastDateStr : value)
    (daysToAdd : nat) : M value :=
  lastDate ← alloc (DateObj (newDate (strOf lastDateStr)));
  c ← readCell lastDate;
  date ← alloc (match c with Some c => c | None => DateObj None end);
  _ ← businessDayLoop tzOffset (7 * daysToAdd) date 0 daysToAdd;
  c ← readCell date;
  match c with
  | Some (DateObj (Some t)) => mret (Str (toISODate t))
  | _ => throw (RangeError "Invalid time value")
  end.

Definition movingAveragePredict (tzOffset : Z) (data : value)
    (windowSize forecastDays : nat) : M value :=
  n ← lengthOf data;
  if (n <? windowSize)%nat then
    throw (Error ("Not enough data points. Need at least "
                    +:+ pretty windowSize +:+ " points."))
  else
    closePrices ← mapOf data closeOf;
    dates ← mapOf data dateOf;
    results ← newArray [];
    _ ← forLoop (S n) (λ i, len ← lengthOf data; mret (i <? len)%nat) (λ i,
          window ← sliceOf closePrices (i - windowSize) i;
          sum ← reduceOf window (λ sum val, mret (sum + numOf val)%Qc) 0%Qc;
          len ← lengthOf window;
          let avg := (sum / num_of_nat len)%Qc in
          date ← index dates i;
          actual ← index closePrices i;
          r ← newResult date actual (Num (toFixed2 avg)) MOVING_AVERAGE;
          push results r) windowSize;
    lastPredictions ← sliceLastOf closePrices windowSize;
    _ ← for_ (seq 0 forecastDays) (λ i,
          len ← lengthOf dates;
          lastDateStr ← index dates (len - 1);
          nextDate ← getNextBusinessDay tzOffset lastDateStr (i + 1);
          sum ← reduceOf lastPredictions
                  (λ sum val, mret (sum + numOf val)%Qc) 0%Qc;
          len ← lengthOf lastPredictions;
          let prediction := toFixed2 (sum / num_of_nat len)%Qc in
          r ← newResult nextDate Null (Num prediction) MOVING_AVERAGE;
          _ ← push results r;
          _ ← shift lastPredictions;
          push lastPredictions (Num prediction));
    mret results.

Definition exponentialSmoothingPredict (tzOffset : Z) (data : value)
    (alpha : number) (forecastDays : nat) : M value :=
  n ← lengthOf data;
  if (n <? 2)%nat then
    throw (Error "Not enough data points. Need at least 2 points.")
  else
    closePrices ← mapOf data closeOf;
    dates ← mapOf data dateOf;
    results ← newArray [];
    first ← index closePrices 0;
    forecast ← newVar first;
    _ ← forLoop (S n) (λ i, len ← lengthOf data; mret (i <? len)%nat) (λ i,
          previous ← index closePrices (i - 1);
          old ← getVar forecast;
          let new := (alpha * numOf previous + (1 - alpha) * numOf old)%Qc in
          _ ← setVar forecast (Num new);
          date ← index dates i;
          actual ← index closePrices i;
          r ← newResult date actual (Num (toFixed2 new)) EXPONENTIAL_SMOOTHING;
          push results r) 1;
    len ← lengthOf closePrices;
    final ← index closePrices (len - 1);
    lastActual ← newVar final;
    _ ← for_ (seq 0 forecastDays) (λ i,
          len ← lengthOf dates;
          lastDateStr ← index dates (len - 1);
          nextDate ← getNextBusinessDay tzOffset lastDateStr (i + 1);
          la ← getVar lastActual;
          old ← getVar forecast;
          let new := (alpha * numOf la + (1 - alpha) * numOf old)%Qc in
          _ ← setVar forecast (Num new);
          let prediction := toFixed2 new in
          r ← newResult nextDate Null (Num prediction) EXPONENTIAL_SMOOTHING;
          _ ← push results r;
          setVar lastActual (Num prediction));
    mret results.

Definition arimaPredict (tzOffset : Z) (data : value)
    (p d q forecastDays : nat) : M value :=
  n ← lengthOf data;
  if (n <? p `max` q + d + 1)%nat then
    throw (Error "Not enough data points for ARIMA model.")
  else
    closePrices ← mapOf data closeOf;
    dates ← mapOf data dateOf;
    results ← newArray [];
    (* [let diffPrices = closePrices]: a second name for the same array *)
    diffPrices ← for_each (seq 0 d) (λ _ diffPrices,
          rest ← sliceOf diffPrices 1 n;
          mapIndexedOf rest (λ val idx,
            prev ← index diffPrices idx;
            mret (Num (numOf val - numOf prev)%Qc))) closePrices;
    arCoefficients ← newArray (replicate p (Num (1 / num_of_nat p)%Qc));
    maCoefficients ← newArray (replicate q (Num (1 / num_of_nat q)%Qc));
    errors ← newArray [];
    predictions ← newArray [];
    _ ← forLoop (S n)
          (λ i, len ← lengthOf diffPrices; mret (i <? len)%nat) (λ i,
          arComponent ← accumulate (S p) (λ j, mret (j <? p)%nat)
            (λ j arComponent,
              c ← index arCoefficients j;
              x ← index diffPrices (i - j - 1);
              mret (arComponent + numOf c * numOf x)%Qc) 0 0%Qc;
          maComponent ← accumulate (S q)
            (λ j, len ← lengthOf errors; mret ((j <? q)%nat && (j <? len)%nat))
            (λ j maComponent,
              c ← index maCoefficients j;
              len ← lengthOf errors;
              e ← index errors (len - j - 1);
              mret (maComponent + numOf c * or_zero (numOf e))%Qc) 0 0%Qc;
          let prediction := (arComponent + maComponent)%Qc in
          _ ← push predictions (Num prediction);
          x ← index diffPrices i;
          let error := (numOf x - prediction)%Qc in
          push errors (Num error)) (p `max` q);
    undiffPredictions ← newArray [];
    _ ← forLoop (S n)
          (λ i, len ← lengthOf predictions; mret (i <? len)%nat) (λ i,
          let actualIndex := i + p `max` q + d in
          start ← index predictions i;
          undiffValue ← accumulate (S d) (λ j, mret (j <? d)%nat)
            (λ j undiffValue,
              x ← index closePrices (actualIndex - j - 1);
              mret (undiffValue + numOf x)%Qc) 0 (numOf start);
          _ ← push undiffPredictions (Num undiffValue);
          date ← index dates actualIndex;
          actual ← index closePrices actualIndex;
          r ← newResult date actual (Num (toFixed2 undiffValue)) ARIMA;
          push results r) 0;
    lastPredictions ← sliceLastOf predictions p;
    lastErrors ← sliceLastOf errors q;
    lastActuals ← sliceLastOf closePrices d;
    _ ← for_ (seq 0 forecastDays) (λ i,
          len ← lengthOf dates;
          lastDateStr ← index dates (len - 1);
          nextDate ← getNextBusinessDay tzOffset lastDateStr (i + 1);
          arComponent ← accumulate (S p)
            (λ j, len ← lengthOf lastPredictions;
                  mret ((j <? p)%nat && (j <? len)%nat))
            (λ j arComponent,
              c ← index arCoefficients j;
              len ← lengthOf lastPredictions;
              x ← index lastPredictions (len - j - 1);
              mret (arComponent + numOf c * numOf x)%Qc) 0 0%Qc;
          maComponent ← accumulate (S q)
            (λ j, len ← lengthOf lastErrors;
                  mret ((j <? q)%nat && (j <? len)%nat))
            (λ j maComponent,
              c ← index maCoefficients j;
              len ← lengthOf lastErrors;
              e ← index lastErrors (len - j - 1);
              mret (maComponent + numOf c * numOf e)%Qc) 0 0%Qc;
          let diffPrediction := (arComponent + maComponent)%Qc in
          undiffValue ← accumulate (S d) (λ j, mret (j <? d)%nat)
            (λ j undiffValue,
              if (j <=? i)%nat then
                len ← lengthOf undiffPredictions;
                x ← index undiffPredictions (len - j - 1);
                mret (undiffValue + numOf x)%Qc
              else
                len ← lengthOf lastActuals;
                x ← index lastActuals (len - (j - i) - 1);
                mret (undiffValue + numOf x)%Qc) 0 diffPrediction;
          let finalPrediction := toFixed2 undiffValue in
          _ ← push undiffPredictions (Num finalPrediction);
          r ← newResult nextDate Null (Num finalPrediction) ARIMA;
          _ ← push results r;
          _ ← shift lastPredictions;
          _ ← push lastPredictions (Num diffPrediction);
          _ ← shift lastErrors;
          push lastErrors (Num 0%Qc));
    mret results.

(** [p.actual !== null]. *)
Definition hasActual (p : value) : M bool :=
  actual ← actualOf p;
  mret (match actual with Null => false | _ => true end).

Definition calculateMAE (predictions : value) : M number :=
  validPairs ← filterOf predictions hasActual;
  n ← lengthOf validPairs;
  if (n =? 0)%nat then mret 0%Qc
  else
    sum ← reduceOf validPairs (λ acc p,
            actual ← actualOf p;
            predicted ← predictedOf p;
            mret (acc + Qcabs (numOf actual - numOf predicted))%Qc) 0%Qc;
    n ← lengthOf validPairs;
    mret (toFixed2 (sum / num_of_nat n)%Qc).

Definition calculateMPE (predictions : value) : M number :=
  validPairs ← filterOf predictions hasActual;
  n ← lengthOf validPairs;
  if (n =? 0)%nat then mret 0%Qc
  else
    sum ← reduceOf validPairs (λ acc p,
            actual ← actualOf p;
            predicted ← predictedOf p;
            mret (acc + (numOf predicted - numOf actual) / numOf actual
                        * Q2Qc 100)%Qc) 0%Qc;
    n ← lengthOf validPairs;
    mret (toFixed2 (sum / num_of_nat n)%Qc).

(** [record[model]] and an object literal keyed by model. *)
Definition field (record : value) (model : ForecastingModel) : M value :=
  match record with
  | Ref l =>
      c ← readCell l;
      mret (match c with
            | Some (Rec fields) =>
                from_option snd Undefined
                  (snd <$> list_find (λ entry, entry.1 = model) fields)
            | _ => Undefined
            end)
  | _ => mret Undefined
  end.

Definition newRecord (fields : list (ForecastingModel * value)) : M value :=
  l ← alloc (Rec fields); mret (Ref l).

Definition newMetricsPair (mae mpe : number) : M value :=
  l ← alloc (MetricsPair (Num mae) (Num mpe)); mret (Ref l).

Definition maeOf (m : value) : M number :=
  match m with
  | Ref l =>
      c ← readCell l;
      mret (match c with Some (MetricsPair mae _) => numOf mae | _ => 0%Qc end)
  | _ => mret 0%Qc
  end.

(** [Object.entries(record)]: the fields in insertion order. *)
Definition entries (record : value) : M (list (ForecastingModel * value)) :=
  match record with
  | Ref l =>
      c ← readCell l;
      mret (match c with Some (Rec fields) => fields | _ => [] end)
  | _ => mret []
  end.

Fixpoint forEachEntry (es : list (ForecastingModel * value))
    (body : ForecastingModel → value → M unit) : M unit :=
  match es with
  | [] => mret ()
  | (model, v) :: es' => _ ← body model v; forEachEntry es' body
  end.

Definition determineBestModel (predictions : value) : M value :=
  pMA ← field predictions MOVING_AVERAGE;
  maeMA ← calculateMAE pMA;
  pMA ← field predictions MOVING_AVERAGE;
  mpeMA ← calculateMPE pMA;
  mMA ← newMetricsPair maeMA mpeMA;
  pES ← field predictions EXPONENTIAL_SMOOTHING;
  maeES ← calculateMAE pES;
  pES ← field predictions EXPONENTIAL_SMOOTHING;
  mpeES ← calculateMPE pES;
  mES ← newMetricsPair maeES mpeES;
  pAR ← field predictions ARIMA;
  maeAR ← calculateMAE pAR;
  pAR ← field predictions ARIMA;
  mpeAR ← calculateMPE pAR;
  mAR ← newMetricsPair maeAR mpeAR;
  metrics ← newRecord [ (MOVING_AVERAGE, mMA); (EXPONENTIAL_SMOOTHING, mES);
                        (ARIMA, mAR) ];
  bestModel ← newVar (Model MOVING_AVERAGE);
  first ← field metrics MOVING_AVERAGE;
  firstMAE ← maeOf first;
  lowestMAE ← newVar (Num firstMAE);
  es ← entries metrics;
  _ ← forEachEntry es (λ model m,
         mae ← maeOf m;
         lowest ← getVar lowestMAE;
         if bool_decide (mae < numOf lowest)%Qc then
           _ ← setVar bestModel (Model model);
           setVar lowestMAE (Num mae)
         else mret ());
  best ← getVar bestModel;
  l ← alloc (Recommendation best metrics);
  mret (Ref l).

End Store.
(** ** Reference notions for the store *)

(** The cells below index [n] are the same in [h'] as in [h]. *)
Definition preserved (n : nat) (h h' : Store.heap) : Prop :=
  (n ≤ length h')%nat ∧ take n h' = take n h.

(** A computation that, started with at least [n] cells, leaves the first
    [n] cells as they are, however it ends, and whose result satisfies
    [Φ]. *)
Definition frames {A} (n : nat) (m : Store.M A) (Φ : A → Prop) : Prop :=
  ∀ h, (n ≤ length h)%nat →
    preserved n h (m h).2 ∧ ∀ a, (m h).1 = Returns a → Φ a.

(** A value that does not refer to one of the first [n] cells. *)
Definition localTo (n : nat) (v : Store.value) : Prop :=
  match v with
  | Store.Ref l => (n ≤ l)%nat
  | _ => True
  end.

(** Putting a series into the store as the caller has it: one cell per
    point, then the array of references to them. *)
Fixpoint loadPoints (pts : list StockDataPoint) : Store.M (list Store.value) :=
  match pts with
  | [] => mret []
  | pt :: pts' =>
      l ← Store.alloc (Store.Point pt);
      refs ← loadPoints pts';
      mret (Store.Ref l :: refs)
  end.

Definition loadSeries (pts : list StockDataPoint) : Store.M Store.value :=
  refs ← loadPoints pts; Store.newArray refs.

(** Reading a result array back as a list of records. *)
Definition readResult (h : Store.heap) (v : Store.value)
    : option PredictionResult :=
  match v with
  | Store.Ref l =>
      match h !! l with
      | Some (Store.Result (Store.Str d) a (Store.Num x) (Store.Model m)) =>
          match a with
          | Store.Null => Some (mkPredictionResult d None x m)
          | Store.Num y => Some (mkPredictionResult d (Some y) x m)
          | _ => None
          end
      | _ => None
      end
  | _ => None
  end.

Definition readResults (h : Store.heap) (v : Store.value)
    : option (list PredictionResult) :=
  match v with
  | Store.Ref l =>
      match h !! l with
      | Some (Store.Arr elems) => mapM (readResult h) elems
      | _ => None
      end
  | _ => None
  end.

(** What a caller sees of a call on the series [pts]: the outcome, with a
    returned array read back from the final store. *)
Definition observe (pts : list StockDataPoint)
    (call : Store.value → Store.M Store.value)
    : outcome (option (list PredictionResult)) :=
  match (data ← loadSeries pts; call data) [] with
  | (Returns v, h) => Returns (readResults h v)
  | (Throws e, _) => Throws e
  | (OutOfSteps, _) => OutOfSteps
  end.

(** Every cell of [h] is still there, with the same content, in [h']. *)
Definition unchangedIn (h h' : Store.heap) : Prop :=
  ∀ l c, h !! l = Some c → h' !! l = Some c.

(** A series for examples. *)
Definition sampleSeries : list StockDataPoint :=
  [samplePoint 19723 100; samplePoint 19724 102; samplePoint 19725 101;
   samplePoint 19726 105; samplePoint 19727 107; samplePoint 19730 106;
   samplePoint 19731 110; samplePoint 19732 108].

(** Putting prediction lists into the store, and reading a recommendation
    back. *)
Fixpoint loadResults (rs : list PredictionResult) : Store.M (list Store.value) :=
  match rs with
  | [] => mret []
  | r :: rs' =>
      v ← Store.newResult (Store.Str (pr_date r))
             (from_option Store.Num Store.Null (actual r))
             (Store.Num (predicted r)) (modelName r);
      vs ← loadResults rs';
      mret (v :: vs)
  end.

Definition loadPredictionList (rs : list PredictionResult) : Store.M Store.value :=
  vs ← loadResults rs; Store.newArray vs.

Definition loadPredictions (predictions : ForecastingModel → list PredictionResult)
    : Store.M Store.value :=
  ma ← loadPredictionList (predictions MOVING_AVERAGE);
  es ← loadPredictionList (predictions EXPONENTIAL_SMOOTHING);
  ar ← loadPredictionList (predictions ARIMA);
  Store.newRecord [ (MOVING_AVERAGE, ma); (EXPONENTIAL_SMOOTHING, es);
                    (ARIMA, ar) ].

Definition readMetricsPair (h : Store.heap) (v : Store.value)
    : option ModelMetrics :=
  match v with
  | Store.Ref l =>
      match h !! l with
      | Some (Store.MetricsPair (Store.Num a) (Store.Num b)) =>
          Some {| mae := a; mpe := b |}
      | _ => None
      end
  | _ => None
  end.

Definition readRecommendation (h : Store.heap) (v : Store.value)
    : option ModelRecommendation :=
  match v with
  | Store.Ref l =>
      match h !! l with
      | Some (Store.Recommendation (Store.Model best) (Store.Ref m)) =>
          match h !! m with
          | Some (Store.Rec fields) =>
              ms ← mapM (λ '(model, v),
                      pair ← readMetricsPair h v; Some (model, pair)) fields;
              Some {| bestModel := best; metrics := ms |}
          | _ => None
          end
      | _ => None
      end
  | _ => None
  end.

(** The three prediction lists of [generateAllPredictions] on
    [sampleSeries], for examples. *)
Definition samplePredictions (model : ForecastingModel) : list PredictionResult :=
  match generateAllPredictions 0 sampleSeries 3 with
  | Returns predictions => predictions model
  | _ => []
  end.

(** * The module on the machine: IEEE-754 doubles and a host with time
      zone transitions

    The first part computes with exact rationals on a host at a fixed
    offset from UTC. That is enough for what the forecasters return and
    throw, for the lengths, dates and order of their results, and for
    bounds that hold with room to spare; it is not what the machine does
    to the last cent, to a NaN, or across a change of the host's clock.
    Module [Machine] embeds the same source once more, with the numbers
    and the dates the machine has:
    - a [number] is an IEEE-754 binary64 value ([spec_float] of the
      Standard Library, with [prec = 53] and [emax = 1024]): [+], [-], [*],
      [/] round to nearest, ties to even; NaN, the infinities and the two
      zeros are values; [x < y] is false when either side is NaN; an array
      read past the end is [undefined], which is NaN in arithmetic;
    - [toFixed(2)] rounds the exact value of the double, half away from
      zero, and [parseFloat] reads the decimal back as the nearest double;
    - the host's zone gives an offset to every instant and to every local
      time, so that [setDate] and [getDay] see the transitions of the
      host's clock.
    Lengths, counters and indices stay [nat], dates stay day numbers, and
    exceptions and loops are as in the first part. *)

From Stdlib Require Import SpecFloat.

Declare Scope double_scope.
Delimit Scope double_scope with D.

Module Machine.

(** ** Numbers *)

Abbreviation number := spec_float.

Definition prec : Z := 53.
Definition emax : Z := 1024.

Definition add : number → number → number := SFadd prec emax.
Definition sub : number → number → number := SFsub prec emax.
Definition mul : number → number → number := SFmul prec emax.
Definition div : number → number → number := SFdiv prec emax.

(** [x < y]. *)
Definition ltb : number → number → bool := SFltb.

(** [x <= y]. *)
Definition leb : number → number → bool := SFleb.

Definition isNaN (x : number) : bool :=
  match x with
  | S754_nan => true
  | _ => false
  end.

Definition Math_abs : number → number := SFabs.

Infix "+" := add : double_scope.
Infix "-" := sub : double_scope.
Infix "*" := mul : double_scope.
Infix "/" := div : double_scope.

(** The double nearest to the integer [n]; a length or a counter, and the
    literals [0], [1] and [100] of the source. *)
Definition ofZ (n : Z) : number := binary_normalize prec emax n 0 false.

Definition ofNat (n : nat) : number := ofZ (Z.of_nat n).

Definition zero : number := S754_zero false.
Definition one : number := ofZ 1.
Definition hundred : number := ofZ 100.

(** The double nearest to [n / d], for [d > 0]: what a decimal literal or
    [parseFloat] of a decimal string denotes, with [d] a power of ten.
    The division rounds the exact quotient of the two integers. *)
Definition ofRatio (n : Z) (d : positive) : number :=
  match n with
  | Z0 => S754_zero false
  | Zpos m => SFdiv prec emax (S754_finite false m 0) (S754_finite false d 0)
  | Zneg m => SFdiv prec emax (S754_finite true m 0) (S754_finite false d 0)
  end.

(** The integer [n] for which [n / 100] is nearest to [m * 2^e], the larger
    one on a tie. *)
Definition centsOf (m : positive) (e : Z) : Z :=
  if (0 <=? e)%Z then (100 * Z.pos m * 2 ^ e)%Z
  else ((200 * Z.pos m + 2 ^ (- e)) `div` 2 ^ (- e + 1))%Z.

(** [10^21 <= m * 2^e]. *)
Definition atLeast1e21 (m : positive) (e : Z) : bool :=
  if (0 <=? e)%Z then (10 ^ 21 <=? Z.pos m * 2 ^ e)%Z
  else (10 ^ 21 * 2 ^ (- e) <=? Z.pos m)%Z.

(** [parseFloat(x.toFixed(2))]. [toFixed] prints NaN and the infinities by
    name and a number of magnitude [10^21] or more in full, and
    [parseFloat] reads these back unchanged; else it takes the sign off,
    picks the integer [n] with [n / 100] nearest to the exact [|x|] and
    prints the sign (for [x < 0], so not for [-0]) and [n / 100], which
    [parseFloat] reads as the nearest double, ["-0.00"] as [-0]. *)
Definition toFixed2 (x : number) : number :=
  match x with
  | S754_nan => S754_nan
  | S754_infinity s => S754_infinity s
  | S754_zero _ => S754_zero false
  | S754_finite s m e =>
      if atLeast1e21 m e then x
      else
        match centsOf m e with
        | Zpos n =>
            SFdiv prec emax (S754_finite s n 0) (S754_finite false 100 0)
        | _ => S754_zero s
        end
  end.

(** [x || 0]: [0], [-0] and NaN are falsy. *)
Definition or_zero (x : number) : number :=
  match x with
  | S754_zero _ | S754_nan => zero
  | _ => x
  end.

(** [a[i]] in arithmetic: NaN past the end. *)
Definition at_ (a : list number) (i : nat) : number := nth i a S754_nan.

(** [a.reduce((sum, val) => sum + val, 0)]. *)
Definition sum_reduce (a : list number) : number :=
  fold_left add a zero.

(** ** Data model *)

Record StockDataPoint : Type := mkStockDataPoint {
  sdp_date : date;
  symbol : string;
  open : number;
  high : number;
  low : number;
  close : number;
  volume : number
}.

Record PredictionResult : Type := mkPredictionResult {
  pr_date : date;
  actual : option number;
  predicted : number;
  modelName : ForecastingModel
}.

(** ** Business-day calendar *)

(** The host's time zone: the offset from UTC, in milliseconds and positive
    to the east, in force at an instant ([utcOffset], read by [getDate]
    and [getDay]) and the offset by which a local time is read
    ([localOffset], used by [setDate]; for a local time that a transition
    skips or repeats it is the offset before the transition). *)
Record Zone : Type := mkZone {
  utcOffset : Z → Z;
  localOffset : Z → Z
}.

(** A host at a fixed offset from UTC, in minutes. *)
Definition fixedZone (tzOffset : Z) : Zone :=
  {| utcOffset := λ _, (tzOffset * msPerMinute)%Z;
     localOffset := λ _, (tzOffset * msPerMinute)%Z |}.

Definition msPerHour : Z := 3600000.

(** Africa/Cairo in the spring of 2024: UTC+2 until the clock goes from
    00:00 to 01:00 local time on Friday 26 April (2024-04-25T22:00Z),
    UTC+3 from then on. *)
Definition cairoSpring2024 : Zone :=
  let transition := (19838 * msPerDay + 22 * msPerHour)%Z in
  {| utcOffset := λ t,
       if (t <? transition)%Z then (2 * msPerHour)%Z else (3 * msPerHour)%Z;
     localOffset := λ local,
       if (local <? transition + 3 * msPerHour)%Z
       then (2 * msPerHour)%Z else (3 * msPerHour)%Z |}.

(** America/New_York in the spring of 2024: UTC-5 until the clock goes
    from 02:00 to 03:00 on 2024-03-10 (07:00 UTC), UTC-4 after; a local
    time inside the hour that is skipped is read at the offset before the
    change. *)
Definition newYorkSpring2024 : Zone :=
  let transition := (19792 * msPerDay + 7 * msPerHour)%Z in
  {| utcOffset := λ t,
       if (t <? transition)%Z then (-5 * msPerHour)%Z else (-4 * msPerHour)%Z;
     localOffset := λ local,
       if (local <? transition - 4 * msPerHour)%Z
       then (-5 * msPerHour)%Z else (-4 * msPerHour)%Z |}.

Section Host.
Variable zone : Zone.

(** The local time of the instant [t], as a time value. *)
Definition localTime (t : Z) : Z := (t + utcOffset zone t)%Z.

(** [date.getDay()]. *)
Definition getDay (t : Z) : Z := dayOfWeek (localTime t `div` msPerDay).

(** [date.setDate(date.getDate() + k)]: the same local time of day on the
    local calendar day [k] days on, read back as an instant. *)
Definition addDays (t : Z) (k : Z) : Z :=
  let local := (localTime t + k * msPerDay)%Z in
  (local - localOffset zone local)%Z.

(** [date.setDate(date.getDate() + 1)]. *)
Definition addOneDay (t : Z) : Z := addDays t 1.

(** The [while (businessDaysAdded < daysToAdd)] loop. *)
Fixpoint businessDayLoop (steps : nat) (t : Z)
    (businessDaysAdded daysToAdd : nat) : option Z :=
  if (businessDaysAdded <? daysToAdd)%nat then
    match steps with
    | O => None
    | S steps' =>
        let t' := addOneDay t in
        let dow := getDay t' in
        if negb (dow =? 0)%Z && negb (dow =? 6)%Z
        then businessDayLoop steps' t' (S businessDaysAdded) daysToAdd
        else businessDayLoop steps' t' businessDaysAdded daysToAdd
    end
  else Some t.

Definition getNextBusinessDay (lastDateStr : option date) (daysToAdd : nat)
    : outcome date :=
  match newDate lastDateStr with
  | None => Throws (RangeError "Invalid time value")
  | Some t =>
      match businessDayLoop (7 * daysToAdd) t 0 daysToAdd with
      | Some t' => Returns (toISODate t')
      | None => OutOfSteps
      end
  end.

(** ** Moving-average forecaster *)

Definition movingAveragePredict (data : list StockDataPoint)
    (windowSize forecastDays : nat) : outcome (list PredictionResult) :=
  if (length data <? windowSize)%nat then
    Throws (Error ("Not enough data points. Need at least "
                     +:+ pretty windowSize +:+ " points."))
  else
    let closePrices := map close data in
    let dates := map sdp_date data in
    let results :=
      fold_left (λ results i,
        let window := slice (i - windowSize) i closePrices in
        let avg := (sum_reduce window / ofNat (length window))%D in
        results ++ [ {| pr_date := nth i dates 0%Z;
                        actual := Some (at_ closePrices i);
                        predicted := toFixed2 avg;
                        modelName := MOVING_AVERAGE |} ])
        (seq windowSize (length data - windowSize)) [] in
    st ← for_each (seq 0 forecastDays)
           (λ i '(results, lastPredictions),
             nextDate ← getNextBusinessDay (last dates) (i + 1) ;
             let avg := (sum_reduce lastPredictions
                           / ofNat (length lastPredictions))%D in
             let prediction := toFixed2 avg in
             Returns (results ++ [ {| pr_date := nextDate;
                                      actual := None;
                                      predicted := prediction;
                                      modelName := MOVING_AVERAGE |} ],
                      shift_push lastPredictions prediction))
           (results, slice_last windowSize closePrices) ;
    Returns (fst st).

(** ** Exponential-smoothing forecaster *)

Definition exponentialSmoothingPredict (data : list StockDataPoint)
    (alpha : number) (forecastDays : nat) : outcome (list PredictionResult) :=
  if (length data <? 2)%nat then
    Throws (Error "Not enough data points. Need at least 2 points.")
  else
    let closePrices := map close data in
    let dates := map sdp_date data in
    let '(forecast, results) :=
      fold_left (λ '(forecast, results) i,
        let forecast :=
          (alpha * at_ closePrices (i - 1) + (one - alpha) * forecast)%D in
        (forecast,
         results ++ [ {| pr_date := nth i dates 0%Z;
                         actual := Some (at_ closePrices i);
                         predicted := toFixed2 forecast;
                         modelName := EXPONENTIAL_SMOOTHING |} ]))
        (seq 1 (length data - 1)) (at_ closePrices 0, []) in
    let lastActual := at_ closePrices (length closePrices - 1) in
    st ← for_each (seq 0 forecastDays)
           (λ i '(forecast, lastActual, results),
             nextDate ← getNextBusinessDay (last dates) (i + 1) ;
             let forecast :=
               (alpha * lastActual + (one - alpha) * forecast)%D in
             let prediction := toFixed2 forecast in
             Returns (forecast, prediction,
                      results ++ [ {| pr_date := nextDate;
                                      actual := None;
                                      predicted := prediction;
                                      modelName := EXPONENTIAL_SMOOTHING |} ]))
           (forecast, lastActual, results) ;
    Returns (snd st).

(** ** Simplified-ARIMA forecaster *)

(** One pass of the differencing loop:
    [diffPrices.slice(1).map((val, idx) => val - diffPrices[idx])]. *)
Definition difference (diffPrices : list number) : list number :=
  imap (λ idx val, (val - at_ diffPrices idx)%D) (drop 1 diffPrices).

(** The AR term of the backtest loop at position [i] of [diffPrices]. *)
Definition arComponentAt (arCoefficients diffPrices : list number)
    (p i : nat) : number :=
  fold_left (λ arComponent j,
    (arComponent + at_ arCoefficients j * at_ diffPrices (i - j - 1))%D)
    (seq 0 p) zero.

(** The MA term of the backtest loop; the loop test is
    [j < q && j < errors.length]. *)
Definition maComponentAt (maCoefficients errors : list number) (q : nat)
    : number :=
  fold_left (λ maComponent j,
    (maComponent
       + at_ maCoefficients j
         * or_zero (at_ errors (length errors - j - 1)))%D)
    (seq 0 (q `min` length errors)) zero.

(** The backtest loop on the differenced series; its state is the pair
    [(errors, predictions)]. *)
Definition arimaBacktest (arCoefficients maCoefficients diffPrices : list number)
    (p q : nat) : list number * list number :=
  fold_left (λ '(errors, predictions) i,
    let arComponent := arComponentAt arCoefficients diffPrices p i in
    let maComponent := maComponentAt maCoefficients errors q in
    let prediction := (arComponent + maComponent)%D in
    let error := (at_ diffPrices i - prediction)%D in
    (errors ++ [error], predictions ++ [prediction]))
    (seq (p `max` q) (length diffPrices - p `max` q)) ([], []).

(** The loop that takes the backtest predictions back to the original
    scale; its state is [(undiffPredictions, results)]. *)
Definition arimaUndiff (closePrices : list number) (dates : list date)
    (predictions : list number) (p d q : nat)
    : list number * list PredictionResult :=
  fold_left (λ '(undiffPredictions, results) i,
    let actualIndex := i + p `max` q + d in
    let undiffValue :=
      fold_left (λ undiffValue j,
        (undiffValue + at_ closePrices (actualIndex - j - 1))%D)
        (seq 0 d) (at_ predictions i) in
    (undiffPredictions ++ [undiffValue],
     results ++ [ {| pr_date := nth actualIndex dates 0%Z;
                     actual := Some (at_ closePrices actualIndex);
                     predicted := toFixed2 undiffValue;
                     modelName := ARIMA |} ]))
    (seq 0 (length predictions)) ([], []).

Definition arimaPredict (data : list StockDataPoint) (p d q forecastDays : nat)
    : outcome (list PredictionResult) :=
  if (length data <? p `max` q + d + 1)%nat then
    Throws (Error "Not enough data points for ARIMA model.")
  else
    let closePrices := map close data in
    let dates := map sdp_date data in
    let diffPrices := Nat.iter d difference closePrices in
    let arCoefficients := replicate p (one / ofNat p)%D in
    let maCoefficients := replicate q (one / ofNat q)%D in
    let '(errors, predictions) :=
      arimaBacktest arCoefficients maCoefficients diffPrices p q in
    let '(undiffPredictions, results) :=
      arimaUndiff closePrices dates predictions p d q in
    let lastPredictions := slice_last p predictions in
    let lastErrors := slice_last q errors in
    let lastActuals := slice_last d closePrices in
    st ← for_each (seq 0 forecastDays)
           (λ i '(lastPredictions, lastErrors, undiffPredictions, results),
             nextDate ← getNextBusinessDay (last dates) (i + 1);
             let arComponent :=
               fold_left (λ arComponent j,
                 (arComponent
                    + at_ arCoefficients j
                      * at_ lastPredictions (length lastPredictions - j - 1))%D)
                 (seq 0 (p `min` length lastPredictions)) zero in
             let maComponent :=
               fold_left (λ maComponent j,
                 (maComponent
                    + at_ maCoefficients j
                      * at_ lastErrors (length lastErrors - j - 1))%D)
                 (seq 0 (q `min` length lastErrors)) zero in
             let diffPrediction := (arComponent + maComponent)%D in
             let undiffValue :=
               fold_left (λ undiffValue j,
                 if (j <=? i)%nat then
                   (undiffValue
                      + at_ undiffPredictions
                          (length undiffPredictions - j - 1))%D
                 else
                   (undiffValue
                      + at_ lastActuals (length lastActuals - (j - i) - 1))%D)
                 (seq 0 d) diffPrediction in
             let finalPrediction := toFixed2 undiffValue in
             Returns (shift_push lastPredictions diffPrediction,
                      shift_push lastErrors zero,
                      undiffPredictions ++ [finalPrediction],
                      results ++ [ {| pr_date := nextDate;
                                      actual := None;
                                      predicted := finalPrediction;
                                      modelName := ARIMA |} ]))
           (lastPredictions, lastErrors, undiffPredictions, results);
    Returns (snd st).

End Host.

(** ** Accuracy metrics *)

(** [p.actual as number]: the cast does nothing, and [null] is [0] in
    arithmetic (the callers below pass entries with an actual value
    only). *)
Definition as_number (a : option number) : number := default zero a.

Definition calculateMAE (predictions : list PredictionResult) : number :=
  let validPairs := filter (λ p, is_Some (actual p)) predictions in
  if (length validPairs =? 0)%nat then zero
  else
    let sum :=
      fold_left (λ acc p,
        (acc + Math_abs (as_number (actual p) - predicted p))%D)
        validPairs zero in
    toFixed2 (sum / ofNat (length validPairs))%D.

Definition calculateMPE (predictions : list PredictionResult) : number :=
  let validPairs := filter (λ p, is_Some (actual p)) predictions in
  if (length validPairs =? 0)%nat then zero
  else
    let sum :=
      fold_left (λ acc p,
        let actual := as_number (actual p) in
        (acc + (predicted p - actual) / actual * hundred)%D)
        validPairs zero in
    toFixed2 (sum / ofNat (length validPairs))%D.

(** ** Model selector *)

Record ModelMetrics : Type := mkModelMetrics { mae : number; mpe : number }.

Definition MetricsRecord : Type := list (ForecastingModel * ModelMetrics).

(** [metrics[model]]. *)
Definition metricsOf (metrics : MetricsRecord) (model : ForecastingModel)
    : option ModelMetrics :=
  (λ found, found.2.2) <$> list_find (λ entry, entry.1 = model) metrics.

Record ModelRecommendation : Type := mkModelRecommendation {
  bestModel : ForecastingModel;
  metrics : MetricsRecord
}.

Definition determineBestModel
    (predictions : ForecastingModel → list PredictionResult)
    : ModelRecommendation :=
  let metrics : MetricsRecord :=
    [ (MOVING_AVERAGE,
       {| mae := calculateMAE (predictions MOVING_AVERAGE);
          mpe := calculateMPE (predictions MOVING_AVERAGE) |});
      (EXPONENTIAL_SMOOTHING,
       {| mae := calculateMAE (predictions EXPONENTIAL_SMOOTHING);
          mpe := calculateMPE (predictions EXPONENTIAL_SMOOTHING) |});
      (ARIMA,
       {| mae := calculateMAE (predictions ARIMA);
          mpe := calculateMPE (predictions ARIMA) |}) ] in
  let bestModel := MOVING_AVERAGE in
  let lowestMAE := from_option mae S754_nan (metricsOf metrics MOVING_AVERAGE) in
  let '(bestModel, lowestMAE) :=
    fold_left (λ '(bestModel, lowestMAE) '(model, m),
      if ltb (mae m) lowestMAE then (model, mae m)
      else (bestModel, lowestMAE))
      metrics (bestModel, lowestMAE) in
  {| bestModel := bestModel; metrics := metrics |}.

(** ** Reference notions used by the statements *)

(** The mean as the source computes it: the sum from the left, from 0,
    divided by the length. *)
Definition mean (l : list number) : number :=
  (sum_reduce l / ofNat (length l))%D.

(** Entries with and without an actual value. *)
Definition backtestPortion (rs : list PredictionResult) : list PredictionResult :=
  filter (λ r, is_Some (actual r)) rs.

Definition forecastPortion (rs : list PredictionResult) : list PredictionResult :=
  filter (λ r, actual r = None) rs.

(** The rolling window of the moving-average forecast before its [k]-th
    step: it starts as the last [windowSize] closes, and each step drops the
    oldest element and appends the rounded mean just emitted. *)
Fixpoint maWindow (closes : list number) (windowSize k : nat) : list number :=
  match k with
  | O => lastN windowSize closes
  | S k' =>
      let W := maWindow closes windowSize k' in
      tail W ++ [toFixed2 (mean W)]
  end.

Definition maStep (W : list number) : list number :=
  shift_push W (toFixed2 (mean W)).

(** The smoothed level of exponential smoothing at index [i]: seeded with
    the first close and updated with the close just before [i]. *)
Fixpoint esLevel (alpha : number) (closes : list number) (i : nat) : number :=
  match i with
  | O => at_ closes 0
  | S i' => (alpha * at_ closes i' + (one - alpha) * esLevel alpha closes i')%D
  end.

(** The first differences of a series: entry [k] is [closes[k+1] - closes[k]]. *)
Definition firstDifferences (closes : list number) : list number :=
  map (λ k, (at_ closes (k + 1) - at_ closes k)%D) (seq 0 (length closes - 1)).

(** The sum of the values [xs], each under the weight [w], added up in
    order from 0. *)
Definition weightedSum (w : number) (xs : list number) : number :=
  fold_left (λ acc x, (acc + w * x)%D) xs zero.

(** The differenced prediction at position [pos] of the differenced series,
    given the residuals computed so far: the weight [1/p] on each of the
    [p] values just before [pos] and the weight [1/q] on each of the last
    [q] residuals (fewer when fewer exist), both taken from the most
    recent back; a residual that is NaN counts as 0, as [|| 0] has it. *)
Definition arimaPrediction (p q : nat) (diffSeries residuals : list number)
    (pos : nat) : number :=
  (weightedSum (one / ofNat p) (rev (slice (pos - p) pos diffSeries))
   + weightedSum (one / ofNat q) (map or_zero (rev (lastN q residuals))))%D.

(** The residuals of the first [i] backtest steps; step [i] works at
    position [max p q + i] of the differenced series. *)
Fixpoint arimaResiduals (p q : nat) (diffSeries : list number) (i : nat)
    : list number :=
  match i with
  | O => []
  | S i' =>
      let residuals := arimaResiduals p q diffSeries i' in
      let pos := p `max` q + i' in
      residuals
      ++ [(at_ diffSeries pos
           - arimaPrediction p q diffSeries residuals pos)%D]
  end.

(** The same prediction worded as the weight times the sum: [1/p] times
    the sum of the [p] values plus [1/q] times the sum of the residuals,
    and the residuals that go with it. In exact arithmetic this is
    [arimaPrediction]; in doubles the two round differently. *)
Definition statedPrediction (p q : nat) (diffSeries residuals : list number)
    (pos : nat) : number :=
  (one / ofNat p * sum_reduce (rev (slice (pos - p) pos diffSeries))
   + one / ofNat q * sum_reduce (map or_zero (rev (lastN q residuals))))%D.

Fixpoint statedResiduals (p q : nat) (diffSeries : list number) (i : nat)
    : list number :=
  match i with
  | O => []
  | S i' =>
      let residuals := statedResiduals p q diffSeries i' in
      let pos := p `max` q + i' in
      residuals
      ++ [(at_ diffSeries pos
           - statedPrediction p q diffSeries residuals pos)%D]
  end.

(** The absolute errors [|actual - predicted|] of the entries that carry an
    actual value, in order. *)
Definition absoluteErrors (predictions : list PredictionResult) : list number :=
  omap (λ r, (λ a, Math_abs (a - predicted r)%D) <$> actual r) predictions.

(** A number that is not below zero: [0 <= x] holds ([-0] included), which
    it does not for NaN. *)
Definition nonNegative (x : number) : bool := leb zero x.

(** NaN, a zero, or a number above zero; and the same without [-0]. *)
Definition notNegative (x : number) : bool :=
  match x with
  | S754_nan | S754_zero _ => true
  | S754_infinity s | S754_finite s _ _ => negb s
  end.

Definition signClear (x : number) : bool :=
  match x with
  | S754_nan => true
  | S754_zero s | S754_infinity s | S754_finite s _ _ => negb s
  end.

(** The first of three errors, in priority order, that no other error
    undercuts. *)
Definition firstMinimal (a b c : number) : ForecastingModel :=
  if ltb b a
  then (if ltb c b then ARIMA else EXPONENTIAL_SMOOTHING)
  else (if ltb c a then ARIMA else MOVING_AVERAGE).

(** [x === y] on numbers: false when either side is NaN, and [0] equals
    [-0]. *)
Definition eqb : number → number → bool := SFeqb.

(** The place of a number that is not NaN in the order of [<]: the
    infinities outermost, zero in the middle, and the finite numbers of
    one sign by exponent, then by mantissa. *)
Definition rank (x : number) : Z * Z * Z :=
  match x with
  | S754_nan => (0, 0, 0)%Z
  | S754_zero _ => (0, 0, 0)%Z
  | S754_infinity s => (if s then -2 else 2, 0, 0)%Z
  | S754_finite s m e =>
      if s then (-1, - e, Z.neg m)%Z else (1, e, Z.pos m)%Z
  end.

Definition before (a b : Z * Z * Z) : Prop :=
  (a.1.1 < b.1.1)%Z
  ∨ (a.1.1 = b.1.1 ∧ ((a.1.2 < b.1.2)%Z ∨ (a.1.2 = b.1.2 ∧ (a.2 < b.2)%Z))).

(** The entries the forecasters emit, in closed form: the backtest of the
    moving average over the indices [windowSize .. length data - 1] and
    its forecast from the window [W0]; the backtest of exponential
    smoothing; the backtest of ARIMA from its differenced predictions.
    The [k]-th forecast entry is dated [dates k]. *)
Definition maBacktest (data : list StockDataPoint) (windowSize : nat)
    : list PredictionResult :=
  map (λ i, {| pr_date := nth i (map sdp_date data) 0%Z;
               actual := Some (at_ (map close data) i);
               predicted :=
                 toFixed2 (mean (slice (i - windowSize) i (map close data)));
               modelName := MOVING_AVERAGE |})
      (seq windowSize (length data - windowSize)).

Definition maForecast (dates : nat → date) (W0 : list number)
    (first forecastDays : nat) : list PredictionResult :=
  map (λ k, {| pr_date := dates (first + k)%nat;
               actual := None;
               predicted := toFixed2 (mean (Nat.iter k maStep W0));
               modelName := MOVING_AVERAGE |})
      (seq 0 forecastDays).

Definition esBacktest (alpha : number) (data : list StockDataPoint)
    : list PredictionResult :=
  map (λ i, {| pr_date := nth i (map sdp_date data) 0%Z;
               actual := Some (at_ (map close data) i);
               predicted := toFixed2 (esLevel alpha (map close data) i);
               modelName := EXPONENTIAL_SMOOTHING |})
      (seq 1 (length data - 1)).

Definition arimaPredictions (data : list StockDataPoint) (p d q : nat)
    : list number :=
  let diffSeries := Nat.iter d difference (map close data) in
  map (λ i, arimaPrediction p q diffSeries
              (arimaResiduals p q diffSeries i) (p `max` q + i))
      (seq 0 (length diffSeries - p `max` q)).

Definition arimaBacktestEntries (closePrices : list number) (dates : list date)
    (predictions : list number) (p d q : nat) : list PredictionResult :=
  map (λ i,
    {| pr_date := nth (i + p `max` q + d) dates 0%Z;
       actual := Some (at_ closePrices (i + p `max` q + d));
       predicted :=
         toFixed2
           (fold_left (λ undiffValue j,
              (undiffValue + at_ closePrices (i + p `max` q + d - j - 1))%D)
              (seq 0 d) (at_ predictions i));
       modelName := ARIMA |})
    (seq 0 (length predictions)).

(** The results [rs] are the backtest entries [bt] followed by entries
    without an actual value. *)
Definition growsByForecasts (bt rs : list PredictionResult) : Prop :=
  ∃ fc, rs = bt ++ fc ∧ Forall (λ r, actual r = None) fc.

(** What [parseFloat(x.toFixed(2))] can be: a whole number of cents (the
    double nearest to [n / 100] for an integer [n], or [-0]), or [x]
    itself where [toFixed] does not round: NaN, an infinity, or a number
    of magnitude [10^21] or more. *)
Definition wholeCents (v : number) : Prop :=
  v = S754_zero true ∨ ∃ n : Z, v = ofRatio n 100.

Definition notRounded (v : number) : Prop :=
  match v with
  | S754_nan | S754_infinity _ => True
  | S754_finite _ m e => atLeast1e21 m e = true
  | S754_zero _ => False
  end.

Definition reportedValue (v : number) : Prop := wholeCents v ∨ notRounded v.

(** A data point for examples: every price field holds [cents / 100]. *)
Definition samplePoint (d : date) (cents : Z) : StockDataPoint :=
  {| sdp_date := d; symbol := "AAPL"; open := ofRatio cents 100;
     high := ofRatio cents 100; low := ofRatio cents 100;
     close := ofRatio cents 100; volume := ofZ 1000000 |}.

End Machine.

Infix "+" := Machine.add : double_scope.
Infix "-" := Machine.sub : double_scope.
Infix "*" := Machine.mul : double_scope.
Infix "/" := Machine.div : double_scope.
From Stdlib Require Import Lqa.

(** ** Further reference notions *)

(** The number of cents [toFixed(2)] prints for [x]. *)
Definition cents (x : number) : Z :=
  let n := Qfloor (Qabs (this x) * 100 + (1 # 2)) in
  if (Qnum (this x) <? 0)%Z then (- n)%Z else n.

(** A whole number of cents. *)
Definition isCents (x : number) : Prop := ∃ z : Z, x = Q2Qc (z # 100).

(** A number between two bounds. *)
Definition within (lo hi x : number) : Prop := (lo ≤ x)%Qc ∧ (x ≤ hi)%Qc.

(** A forecast loop as a state machine: [turn i st] is the state after the
    turn with index [i] and the value that turn emits; [forecastRun] makes
    [k] turns from index [first] and lists the values. *)
Fixpoint forecastRun {St} (turn : nat → St → St * number) (first k : nat)
    (st : St) : St * list number :=
  match k with
  | O => (st, [])
  | S k' =>
      let '(st1, v) := turn first st in
      let '(st2, vs) := forecastRun turn (S first) k' st1 in
      (st2, v :: vs)
  end.

(** One turn of the forecast loop of [arimaPredict] on its state
    [(lastPredictions, lastErrors, undiffPredictions)]. *)
Definition arimaForecastTurn (p d q : nat) (lastActuals : list number) (i : nat)
    (st : list number * list number * list number)
    : (list number * list number * list number) * number :=
  let '(lastPredictions, lastErrors, undiffPredictions) := st in
  let arCoefficients := replicate p (1 / num_of_nat p)%Qc in
  let maCoefficients := replicate q (1 / num_of_nat q)%Qc in
  let arComponent :=
    fold_left (λ arComponent j,
      (arComponent
         + nth j arCoefficients 0
           * nth (length lastPredictions - j - 1) lastPredictions 0)%Qc)
      (seq 0 (p `min` length lastPredictions)) 0%Qc in
  let maComponent :=
    fold_left (λ maComponent j,
      (maComponent
         + nth j maCoefficients 0
           * nth (length lastErrors - j - 1) lastErrors 0)%Qc)
      (seq 0 (q `min` length lastErrors)) 0%Qc in
  let diffPrediction := (arComponent + maComponent)%Qc in
  let undiffValue :=
    fold_left (λ undiffValue j,
      if (j <=? i)%nat then
        (undiffValue
           + nth (length undiffPredictions - j - 1) undiffPredictions 0)%Qc
      else
        (undiffValue
           + nth (length lastActuals - (j - i) - 1) lastActuals 0)%Qc)
      (seq 0 d) diffPrediction in
  let finalPrediction := toFixed2 undiffValue in
  ((shift_push lastPredictions diffPrediction,
    shift_push lastErrors 0%Qc,
    undiffPredictions ++ [finalPrediction]),
   finalPrediction).

(** The values the backtest of [arimaPredict] leaves in
    [undiffPredictions]: the differenced predictions plus the [d] closes
    before each. *)
Definition arimaUndiffValues (closePrices predictions : list number)
    (p d q : nat) : list number :=
  map (λ i,
    fold_left (λ undiffValue j,
      (undiffValue + nth (i + p `max` q + d - j - 1) closePrices 0)%Qc)
      (seq 0 d) (nth i predictions 0%Qc))
    (seq 0 (length predictions)).

(** The state in which the forecast loop of [arimaPredict] starts, and the
    values it predicts. *)
Definition arimaForecastStart (data : list StockDataPoint) (p d q : nat)
    : list number * list number * list number :=
  let diffSeries := Nat.iter d difference (map close data) in
  let predictions := arimaPredictions data p d q in
  (slice_last p predictions,
   slice_last q (arimaResiduals p q diffSeries (length diffSeries - p `max` q)),
   arimaUndiffValues (map close data) predictions p d q).

Definition arimaForecastValues (data : list StockDataPoint)
    (p d q forecastDays : nat) : list number :=
  (forecastRun (arimaForecastTurn p d q (slice_last d (map close data)))
     0 forecastDays (arimaForecastStart data p d q)).2.

(** The percentage errors [(predicted - actual) / actual * 100] of the
    entries that carry an actual value, in order. *)
Definition percentageErrors (predictions : list PredictionResult)
    : list number :=
  omap (λ r, (λ a, ((predicted r - a) / a * Q2Qc 100)%Qc) <$> actual r)
    predictions.

(** Two backtest entries that predict too low and one forecast entry, for
    examples. *)
Definition sampleBacktest : list PredictionResult :=
  [ {| pr_date := 19731; actual := Some (Q2Qc 110);
       predicted := Q2Qc (10450 # 100); modelName := MOVING_AVERAGE |};
    {| pr_date := 19732; actual := Some (Q2Qc 108);
       predicted := Q2Qc 105; modelName := MOVING_AVERAGE |};
    {| pr_date := 19733; actual := None;
       predicted := Q2Qc 106; modelName := MOVING_AVERAGE |} ].

(** Closes on a straight line: the close at index [i] is [a + i * b]. *)
Definition linearCloses (a b : number) (n : nat) : list number :=
  map (λ i, (a + num_of_nat i * b)%Qc) (seq 0 n).

(** The date and the actual value of a result entry, and what an input
    point gives for them. *)
Definition datedActual (r : PredictionResult) : date * option number :=
  (pr_date r, actual r).

Definition datedClose (x : StockDataPoint) : date * option number :=
  (sdp_date x, Some (close x)).

(** Seven trading days that all close at 10.00, for examples. *)
Definition sampleFlat : list StockDataPoint :=
  [ samplePoint 19723 10; samplePoint 19724 10; samplePoint 19725 10;
    samplePoint 19726 10; samplePoint 19727 10; samplePoint 19730 10;
    samplePoint 19731 10 ].

(** The naive forecast: each close is predicted by the close before it,
    and every future day by the last close, rounded to cents. *)
Definition naivePredictions (data : list StockDataPoint) (forecastDays : nat)
    : list number :=
  map (λ i, toFixed2 (nth (i - 1) (map close data) 0%Qc))
      (seq 1 (length data - 1))
  ++ replicate forecastDays
       (toFixed2 (nth (length data - 1) (map close data) 0%Qc)).

(** The weights of exponential smoothing at index [i]: [(1 - alpha)^i] on
    the first close and [alpha * (1 - alpha)^(i - 1 - j)] on the close at
    index [j < i]; and the average of the closes under these weights. *)
Definition esWeights (alpha : number) (i : nat) : list number :=
  map (λ j, (alpha * (1 - alpha) ^ (i - 1 - j))%Qc) (seq 0 i).

Definition exponentialAverage (alpha : number) (closes : list number) (i : nat)
    : number :=
  ((1 - alpha) ^ i * nth 0 closes 0
   + sumQc (map (λ j, (alpha * (1 - alpha) ^ (i - 1 - j) * nth j closes 0)%Qc)
              (seq 0 i)))%Qc.

(** * The mock data service: [src/services/stockService.ts]

    The service draws its prices from [Math.random] and dates them from
    [new Date()]. Both are parameters of the embedding: [random k] is the
    value of the [k]-th call of [Math.random] since the module was loaded
    (from 0), and [clock k] the time value of the [k]-th [new Date()], in
    milliseconds. The decimal constants of the source are the rationals
    they are written as. [date.setDate(date.getDate() - i)] works in the
    local time of the host, whose zone is a parameter too (a [Zone] of
    module [Machine]); on a host at a fixed offset from UTC it takes [i]
    days off the time value. A promise is the value it resolves to or the
    error it rejects with; the delays of the service do not show. *)

(** [Math.max] and [Math.min] of two numbers, [Math.floor]. *)
Definition Math_max (x y : number) : number :=
  if bool_decide (x < y)%Qc then y else x.

Definition Math_min (x y : number) : number :=
  if bool_decide (y < x)%Qc then y else x.

Definition Math_floor (x : number) : number := Q2Qc (inject_Z (Qfloor (this x))).

(** [Math.max(...xs)] and [Math.min(...xs)] of a non-empty array; of no
    argument they are the infinities, which the embedding has no value
    for (the service spreads non-empty arrays only). *)
Definition Math_max_spread (xs : list number) : number :=
  match xs with
  | [] => 0%Qc
  | x :: xs' => fold_left Math_max xs' x
  end.

Definition Math_min_spread (xs : list number) : number :=
  match xs with
  | [] => 0%Qc
  | x :: xs' => fold_left Math_min xs' x
  end.

(** What settles a promise of the service. *)
Inductive rejection : Type :=
  | RejectedError (message : string)
  | RejectedTypeError.

Inductive promise (A : Type) : Type :=
  | Resolves (a : A)
  | Rejects (e : rejection).
Arguments Resolves {A} a.
Arguments Rejects {A} e.

(** [obj[key]] on an object literal: a property of its own, a property it
    inherits from [Object.prototype] (a function, or the prototype itself
    for ["__proto__"]: truthy, and no array), or [undefined]. *)
Definition objectPrototypeKeys : list string :=
  [ "constructor"; "__defineGetter__"; "__defineSetter__"; "hasOwnProperty";
    "__lookupGetter__"; "__lookupSetter__"; "isPrototypeOf";
    "propertyIsEnumerable"; "toString"; "valueOf"; "__proto__";
    "toLocaleString" ].

Inductive property (A : Type) : Type :=
  | Own (a : A)
  | Inherited
  | Absent.
Arguments Own {A} a.
Arguments Inherited {A}.
Arguments Absent {A}.

Definition getProperty {A} (obj : list (string * A)) (key : string)
    : property A :=
  match list_find (λ entry, entry.1 = key) obj with
  | Some found => Own found.2.2
  | None =>
      if bool_decide (key ∈ objectPrototypeKeys) then Inherited else Absent
  end.

Module StockMetrics.
Record t : Type := mk {
  symbol : string;
  name : string;
  currentPrice : number;
  change : number;
  changePercent : number;
  dayHigh : number;
  dayLow : number;
  yearHigh : number;
  yearLow : number;
  marketCap : number;
  volume : number;
  avgVolume : number
}.
End StockMetrics.

Record StockInfo : Type := mkStockInfo { info_name : string }.

Definition stockInfo : list (string * StockInfo) :=
  [ ("AAPL", {| info_name := "Apple Inc." |});
    ("GOOGL", {| info_name := "Alphabet Inc." |});
    ("MSFT", {| info_name := "Microsoft Corporation" |});
    ("AMZN", {| info_name := "Amazon.com, Inc." |});
    ("TSLA", {| info_name := "Tesla, Inc." |});
    ("META", {| info_name := "Meta Platforms, Inc." |});
    ("NFLX", {| info_name := "Netflix, Inc." |});
    ("NVDA", {| info_name := "NVIDIA Corporation" |}) ].

(** [stockInfo[symbol]?.name || symbol]. An inherited property is a
    function, whose [name] is the key, but for ["constructor"], which is
    the function [Object], and for ["__proto__"], which is no function and
    has no [name]. *)
Definition nameOf (symbol : string) : string :=
  match getProperty stockInfo symbol with
  | Own info => if String.eqb (info_name info) "" then symbol else info_name info
  | Inherited => if String.eqb symbol "constructor" then "Object" else symbol
  | Absent => symbol
  end.

(** [a[a.length - n]] for [n >= 1]: [undefined] before the first element. *)
Definition fromEnd {A} (a : list A) (n : nat) : option A :=
  if (n <=? length a)%nat then a !! (length a - n)%nat else None.

Section Service.
Variable random : nat → number.
Variable clock : nat → Z.
Variable zone : Machine.Zone.

(** One turn of the loop of [generateStockData], for the day [i] days
    before [today]; it draws five random numbers from the [k]-th on. The
    state is [(price, data)]. *)
Definition generateDay (today : Z) (symbol : string) (variance : number)
    (k i : nat) (st : number * list StockDataPoint)
    : number * list StockDataPoint :=
  let '(price, data) := st in
  let date := Machine.addDays zone today (- Z.of_nat i) in
  let change := ((random k - Q2Qc (48 # 100)) * (variance / Q2Qc 50))%Qc in
  let price := Math_max 1 (price * (1 + change))%Qc in
  let open := price in
  let close :=
    (price * (1 + (random (k + 1) - Q2Qc (5 # 10)) * Q2Qc (2 # 100)))%Qc in
  let high :=
    (Math_max open close * (1 + random (k + 2) * Q2Qc (1 # 100)))%Qc in
  let low :=
    (Math_min open close * (1 - random (k + 3) * Q2Qc (1 # 100)))%Qc in
  let volume :=
    (Math_floor (random (k + 4) * Q2Qc 10000000) + Q2Qc 1000000)%Qc in
  (price,
   data ++ [ {| sdp_date := toISODate date;
                symbol := symbol;
                open := toFixed2 open;
                high := toFixed2 high;
                low := toFixed2 low;
                close := toFixed2 close;
                volume := volume |} ]).

(** [generateStockData(symbol, days, basePrice, variance)], called when
    [Math.random] has been called [start] times and [new Date()] gives
    [today]: the loop runs [i] from [days] down to 0. *)
Definition generateStockData (start : nat) (today : Z) (symbol : string)
    (days : nat) (basePrice variance : number) : list StockDataPoint :=
  snd (fold_left (λ st n,
         generateDay today symbol variance (start + 5 * n) (days - n) st)
         (seq 0 (days + 1)) (basePrice, [])).

(** The module's table of data: the object literal evaluates its eight
    calls in order, each drawing [5 * 366] random numbers. *)
Definition stockData : list (string * list StockDataPoint) :=
  [ ("AAPL", generateStockData (0 * 1830) (clock 0) "AAPL" 365 (Q2Qc 150) (Q2Qc 50));
    ("GOOGL", generateStockData (1 * 1830) (clock 1) "GOOGL" 365 (Q2Qc 2500) (Q2Qc 500));
    ("MSFT", generateStockData (2 * 1830) (clock 2) "MSFT" 365 (Q2Qc 300) (Q2Qc 80));
    ("AMZN", generateStockData (3 * 1830) (clock 3) "AMZN" 365 (Q2Qc 3500) (Q2Qc 500));
    ("TSLA", generateStockData (4 * 1830) (clock 4) "TSLA" 365 (Q2Qc 1000) (Q2Qc 300));
    ("META", generateStockData (5 * 1830) (clock 5) "META" 365 (Q2Qc 350) (Q2Qc 100));
    ("NFLX", generateStockData (6 * 1830) (clock 6) "NFLX" 365 (Q2Qc 600) (Q2Qc 150));
    ("NVDA", generateStockData (7 * 1830) (clock 7) "NVDA" 365 (Q2Qc 800) (Q2Qc 200)) ].

(** [fetchStockData(symbol, days)]. An inherited property passes the
    [!stockData[symbol]] test and has no [slice]: the call of [undefined]
    is a TypeError. *)
Definition fetchStockData (symbol : string) (days : nat)
    : promise (list StockDataPoint) :=
  match getProperty stockData symbol with
  | Absent =>
      Rejects (RejectedError ("No data available for symbol: " +:+ symbol))
  | Inherited => Rejects RejectedTypeError
  | Own data => Resolves (slice_last days data)
  end.

(** [fetchStockMetrics(symbol)], called when [Math.random] has been called
    [k] times. Reading [close] off a missing last or previous day is a
    TypeError. *)
Definition fetchStockMetrics (k : nat) (symbol : string)
    : promise StockMetrics.t :=
  match getProperty stockData symbol with
  | Absent =>
      Rejects (RejectedError ("No data available for symbol: " +:+ symbol))
  | Inherited => Rejects RejectedTypeError
  | Own data =>
      match fromEnd data 1, fromEnd data 2 with
      | Some lastDay, Some previousDay =>
          let yearData := slice_last 365 data in
          let change := toFixed2 (close lastDay - close previousDay)%Qc in
          let changePercent :=
            toFixed2 (change / close previousDay * Q2Qc 100)%Qc in
          let marketCap :=
            (close lastDay * (random k * Q2Qc 5 + Q2Qc 10)
             * Q2Qc 1000000000)%Qc in
          let avgVolume :=
            Math_floor
              (fold_left (λ sum item, (sum + volume item)%Qc) yearData 0%Qc
               / num_of_nat (length yearData))%Qc in
          Resolves
            {| StockMetrics.symbol := symbol;
               StockMetrics.name := nameOf symbol;
               StockMetrics.currentPrice := close lastDay;
               StockMetrics.change := change;
               StockMetrics.changePercent := changePercent;
               StockMetrics.dayHigh := high lastDay;
               StockMetrics.dayLow := low lastDay;
               StockMetrics.yearHigh := Math_max_spread (map high yearData);
               StockMetrics.yearLow := Math_min_spread (map low yearData);
               StockMetrics.marketCap := marketCap;
               StockMetrics.volume := volume lastDay;
               StockMetrics.avgVolume := avgVolume |}
      | _, _ => Rejects RejectedTypeError
      end
  end.

(** [fetchAvailableSymbols()]: [Object.keys] lists the keys in the order
    of the literal. *)
Definition fetchAvailableSymbols : promise (list (string * string)) :=
  Resolves (map (λ entry, (entry.1, nameOf entry.1)) stockData).

End Service.

(** ** Reference notions for the service *)

(** [Math.random] gives numbers from 0 up to, not including, 1. *)
Definition randomInRange (random : nat → number) : Prop :=
  ∀ k, (0 ≤ random k)%Qc ∧ (random k < 1)%Qc.

(** A candle as the service makes them: prices in whole cents, [low] at
    most [open] and [close], these at most [high], [open] at least 1.00
    and [low] at least 0.98; a whole volume from one million up to, not
    including, eleven million. *)
Definition wellFormedCandle (x : StockDataPoint) : Prop :=
  isCents (open x) ∧ isCents (high x) ∧ isCents (low x) ∧ isCents (close x)
  ∧ (Q2Qc (98 # 100) ≤ low x)%Qc
  ∧ (low x ≤ open x)%Qc ∧ (low x ≤ close x)%Qc
  ∧ (open x ≤ high x)%Qc ∧ (close x ≤ high x)%Qc
  ∧ (1 ≤ open x)%Qc
  ∧ ∃ v : Z, volume x = Q2Qc (inject_Z v) ∧ (1000000 ≤ v < 11000000)%Z.

(** The symbols the service has data for. *)
Definition knownSymbols : list string :=
  ["AAPL"; "GOOGL"; "MSFT"; "AMZN"; "TSLA"; "META"; "NFLX"; "NVDA"].

(** A source of random numbers and a clock, for examples: the [k]-th
    random number is [1 / (k + 2)], and every [new Date()] falls on
    2024-01-11 at 10:00 UTC. *)
Definition sampleRandom (k : nat) : number := Q2Qc (1 # Pos.of_succ_nat (S k)).

Definition sampleClock (k : nat) : Z := (19733 * msPerDay + 36000000)%Z.

(** * The dashboard and the prediction chart

    The page [Dashboard] fetches the training data, runs the forecasters
    in an effect and hands one model's predictions to [PredictionChart].
    A component's state is a record, and a call of a state setter an
    update of its field. *)

(** The string value of a member of the enumeration. *)
Definition modelString (model : ForecastingModel) : string :=
  match model with
  | MOVING_AVERAGE => "Moving Average"
  | EXPONENTIAL_SMOOTHING => "Exponential Smoothing"
  | ARIMA => "ARIMA"
  end.

(** [!s] on a string: only the empty string is falsy. *)
Definition notString (s : string) : bool := String.eqb s "".

(** [timeRangeToDays(range)]. *)
Definition timeRangeToDays (range : string) : nat :=
  if String.eqb range "1M" then 30
  else if String.eqb range "3M" then 90
  else if String.eqb range "6M" then 180
  else if String.eqb range "1Y" then 365
  else if String.eqb range "5Y" then 365 * 5
  else 30.

Module Dashboard.

Record Toast : Type := mkToast {
  title : string;
  description : string;
  variant : option string
}.

(** The state the effect writes, and the toasts shown so far. *)
Record State : Type := mkState {
  predictions : option (ForecastingModel → list PredictionResult);
  bestModelInfo : option ModelRecommendation;
  selectedModel : ForecastingModel;
  isPredicting : bool;
  toasts : list Toast
}.

Definition setPredictions (v : option (ForecastingModel → list PredictionResult))
    (st : State) : State :=
  {| predictions := v; bestModelInfo := bestModelInfo st;
     selectedModel := selectedModel st; isPredicting := isPredicting st;
     toasts := toasts st |}.

Definition setBestModelInfo (v : option ModelRecommendation) (st : State)
    : State :=
  {| predictions := predictions st; bestModelInfo := v;
     selectedModel := selectedModel st; isPredicting := isPredicting st;
     toasts := toasts st |}.

Definition setSelectedModel (v : ForecastingModel) (st : State) : State :=
  {| predictions := predictions st; bestModelInfo := bestModelInfo st;
     selectedModel := v; isPredicting := isPredicting st;
     toasts := toasts st |}.

Definition setIsPredicting (v : bool) (st : State) : State :=
  {| predictions := predictions st; bestModelInfo := bestModelInfo st;
     selectedModel := selectedModel st; isPredicting := v;
     toasts := toasts st |}.

Definition toast (t : Toast) (st : State) : State :=
  {| predictions := predictions st; bestModelInfo := bestModelInfo st;
     selectedModel := selectedModel st; isPredicting := isPredicting st;
     toasts := toasts st ++ [t] |}.

(** The effect on [trainingData] and [forecastDays]: it does nothing while
    the training data is missing or loading; else it runs
    [generatePredictions], whose [try] catches what the forecasters
    throw and whose [finally] clears [isPredicting]. [selectedModel] is
    the value the effect closed over. *)
Definition generatePredictions (tzOffset : Z)
    (trainingData : option (list StockDataPoint))
    (isTrainingDataLoading : bool) (forecastDays : nat) (st : State) : State :=
  match trainingData with
  | None => st
  | Some trainingData =>
      if isTrainingDataLoading then st
      else
        let selected := selectedModel st in
        let st := setIsPredicting true st in
        let st :=
          match generateAllPredictions tzOffset trainingData forecastDays with
          | Returns allPredictions =>
              let st := setPredictions (Some allPredictions) st in
              let best := determineBestModel allPredictions in
              let st := setBestModelInfo (Some best) st in
              if notString (modelString selected)
              then setSelectedModel (bestModel best) st
              else st
          | Throws error =>
              toast {| title := "Prediction Error";
                       description :=
                         "Failed to generate predictions. Please try again.";
                       variant := Some "destructive" |} st
          | OutOfSteps => st
          end in
        setIsPredicting false st
  end.

End Dashboard.

(** A property read off an object: a number, [null], or [undefined] when
    the object has no such property. *)
Inductive jsValue : Type :=
  | JsNumber (x : number)
  | JsNull
  | JsUndefined.

(** [v === null]. *)
Definition strictlyNull (v : jsValue) : bool :=
  match v with
  | JsNull => true
  | _ => false
  end.

(** An entry of the array [PredictionChart] is given, as the chart reads
    it: [date], [actual], [value] and [predicted]. *)
Record ChartPoint : Type := mkChartPoint {
  cp_date : date;
  cp_actual : jsValue;
  cp_value : jsValue;
  cp_predicted : number
}.

(** A [PredictionResult] read as a chart point: it has no [value]. *)
Definition chartPointOf (r : PredictionResult) : ChartPoint :=
  {| cp_date := pr_date r;
     cp_actual := match actual r with
                  | Some x => JsNumber x
                  | None => JsNull
                  end;
     cp_value := JsUndefined;
     cp_predicted := predicted r |}.

(** [mapPredictionsForChart(preds)] of the dashboard: the objects it makes
    hold [date], [value] (read off [pred.value], which a
    [PredictionResult] does not have) and [predicted], and no [actual]. *)
Definition mapPredictionsForChart (preds : list PredictionResult)
    : list ChartPoint :=
  map (λ pred, {| cp_date := pr_date pred;
                  cp_actual := JsUndefined;
                  cp_value := JsUndefined;
                  cp_predicted := predicted pred |}) preds.

(** The [predictions] that the dashboard hands to [PredictionChart]:
    [predictions && selectedModel
       ? mapPredictionsForChart(predictions[selectedModel]) : []]. *)
Definition chartPredictions (st : Dashboard.State) : list ChartPoint :=
  match Dashboard.predictions st with
  | Some predictions =>
      if notString (modelString (Dashboard.selectedModel st)) then []
      else mapPredictionsForChart (predictions (Dashboard.selectedModel st))
  | None => []
  end.

(** [a.findIndex(f)]: the first index whose element passes, [-1] when none
    does. *)
Definition findIndex {A} (f : A → bool) (a : list A) : Z :=
  match list_find (λ x, f x = true) a with
  | Some found => Z.of_nat found.1
  | None => (-1)%Z
  end.

(** The two values [PredictionChart] computes before it renders. *)
Definition predictionStartIndex (predictions : list ChartPoint) : Z :=
  findIndex (λ p, strictlyNull (cp_actual p)) predictions.

Definition predictionStartDate (predictions : list ChartPoint) : option date :=
  let predictionStartIndex := predictionStartIndex predictions in
  if (0 <=? predictionStartIndex)%Z
  then cp_date <$> predictions !! Z.to_nat predictionStartIndex
  else None.

(** ** Arithmetic and list facts *)

Lemma sum_reduce_from (l : list number) (a : number) :
  fold_left Qcplus l a = (a + sumQc l)%Qc.
Proof.
  revert a. induction l as [|x l IH]; intros a; simpl.
  - ring.
  - rewrite IH. ring.
Qed.

Lemma sum_reduce_sumQc (l : list number) : sum_reduce l = sumQc l.
Proof. unfold sum_reduce. rewrite sum_reduce_from. ring. Qed.

Lemma fold_left_push {A B} (f : A → B) (l : list A) (init : list B) :
  fold_left (λ acc i, acc ++ [f i]) l init = init ++ map f l.
Proof.
  revert init. induction l as [|x l IH]; intros init; simpl.
  - by rewrite app_nil_r.
  - rewrite IH. by rewrite <- app_assoc.
Qed.

Lemma mean_code (W : list number) :
  (sum_reduce W / num_of_nat (length W))%Qc = mean W.
Proof. unfold mean. by rewrite sum_reduce_sumQc. Qed.

(** ** The business-day loop *)

Lemma localDay_midnight (tz D : Z) :
  localDay tz (D * msPerDay) = (D + dayShift tz)%Z.
Proof.
  unfold localDay, dayShift. rewrite Z.add_comm, Z.div_add by done. lia.
Qed.

Lemma toISODate_midnight (D : Z) : toISODate (D * msPerDay) = D.
Proof. unfold toISODate. by rewrite Z.div_mul. Qed.

Lemma weekend_at_most_two (x : Z) :
  isBusinessDay x = false → isBusinessDay (x + 1)%Z = false →
  isBusinessDay (x + 2)%Z = true.
Proof.
  unfold isBusinessDay, dayOfWeek. intros H1 H2.
  apply andb_false_iff in H1. apply andb_false_iff in H2.
  rewrite !negb_false_iff, !Z.eqb_eq in H1, H2.
  apply andb_true_iff. rewrite !negb_true_iff, !Z.eqb_neq.
  Z.div_mod_to_equations. lia.
Qed.

Lemma businessDayLoop_step (tz : Z) (steps : nat) (D : Z) (added n : nat) :
  (added < n)%nat →
  businessDayLoop tz (S steps) (D * msPerDay) added n =
  if isBusinessDay (D + 1 + dayShift tz)%Z
  then businessDayLoop tz steps ((D + 1) * msPerDay) (S added) n
  else businessDayLoop tz steps ((D + 1) * msPerDay) added n.
Proof.
  intros Hlt. simpl.
  destruct (Nat.ltb_spec added n) as [_|?]; [|lia].
  unfold addOneDay, getDay.
  replace (D * msPerDay + msPerDay)%Z with ((D + 1) * msPerDay)%Z by lia.
  rewrite localDay_midnight. reflexivity.
Qed.

Lemma businessDayLoop_spec (tz : Z) (n r : nat) :
  ∀ (steps : nat) (D : Z) (added : nat),
    (added + r = n)%nat → (3 * r ≤ steps)%nat →
    businessDayLoop tz steps (D * msPerDay) added n
    = Some (nthBusinessDayAfter (dayShift tz) D r * msPerDay)%Z.
Proof.
  unfold nthBusinessDayAfter.
  induction r as [|r IH]; intros steps D added Hn Hsteps.
  - destruct steps; simpl;
      (destruct (Nat.ltb_spec added n); [lia | reflexivity]).
  - rewrite Nat.iter_succ_r. unfold nextBusinessDayAfter at 2.
    destruct steps as [|[|[|steps]]]; try lia.
    rewrite businessDayLoop_step by lia.
    destruct (isBusinessDay (D + 1 + dayShift tz)%Z) eqn:H1.
    { apply IH; lia. }
    rewrite businessDayLoop_step by lia.
    replace (D + 1 + 1)%Z with (D + 2)%Z by lia.
    destruct (isBusinessDay (D + 2 + dayShift tz)%Z) eqn:H2.
    { apply IH; lia. }
    rewrite businessDayLoop_step by lia.
    replace (D + 2 + 1)%Z with (D + 3)%Z by lia.
    replace (D + 2 + dayShift tz)%Z with (D + 1 + dayShift tz + 1)%Z in H2 by lia.
    pose proof (weekend_at_most_two _ H1 H2) as H3.
    replace (D + 1 + dayShift tz + 2)%Z with (D + 3 + dayShift tz)%Z in H3 by lia.
    rewrite H3. apply IH; lia.
Qed.

(** The step budget of [getNextBusinessDay] is never used up: on a date it
    returns, and what it returns is the [daysToAdd]-th business day of the
    host's calendar. *)
Lemma getNextBusinessDay_steps (tz : Z) (d : date) (daysToAdd : nat) :
  getNextBusinessDay tz (Some d) daysToAdd
  = Returns (nthBusinessDayAfter (dayShift tz) d daysToAdd).
Proof.
  unfold getNextBusinessDay. simpl.
  rewrite (businessDayLoop_spec tz daysToAdd daysToAdd) by lia.
  by rewrite toISODate_midnight.
Qed.

(** ** Closed form of [movingAveragePredict] *)

Lemma ma_backtest_loop (data : list StockDataPoint) (windowSize : nat) :
  fold_left (λ results i,
      let window := slice (i - windowSize) i (map close data) in
      let avg := (sum_reduce window / num_of_nat (length window))%Qc in
      results ++ [ {| pr_date := nth i (map sdp_date data) 0%Z;
                      actual := Some (nth i (map close data) 0%Qc);
                      predicted := toFixed2 avg;
                      modelName := MOVING_AVERAGE |} ])
    (seq windowSize (length data - windowSize)) []
  = maBacktest data windowSize.
Proof.
  unfold maBacktest.
  rewrite (fold_left_push
    (λ i, {| pr_date := nth i (map sdp_date data) 0%Z;
             actual := Some (nth i (map close data) 0%Qc);
             predicted :=
               toFixed2 (sum_reduce (slice (i - windowSize) i (map close data))
                 / num_of_nat (length (slice (i - windowSize) i (map close data))));
             modelName := MOVING_AVERAGE |})).
  simpl. apply map_ext. intros i. unfold mean. by rewrite sum_reduce_sumQc.
Qed.

Lemma ma_forecast_loop (tz : Z) (dl : date) :
  ∀ (k a : nat) (results : list PredictionResult) (W : list number),
    for_each (seq a k)
      (λ i '(results, lastPredictions),
        nextDate ← getNextBusinessDay tz (Some dl) (i + 1);
        let avg := (sum_reduce lastPredictions
                      / num_of_nat (length lastPredictions))%Qc in
        let prediction := toFixed2 avg in
        Returns (results ++ [ {| pr_date := nextDate;
                                 actual := None;
                                 predicted := prediction;
                                 modelName := MOVING_AVERAGE |} ],
                 shift_push lastPredictions prediction))
      (results, W)
    = Returns (results ++ maForecast (dayShift tz) dl W a k, Nat.iter k maStep W).
Proof.
  unfold maForecast.
  induction k as [|k IH]; intros a results W.
  - simpl. by rewrite app_nil_r.
  - cbn [seq for_each].
    rewrite getNextBusinessDay_steps. cbn [mbind outcome_bind].
    rewrite IH, mean_code. fold (maStep W).
    rewrite Nat.iter_succ_r, <- app_assoc.
    do 3 f_equal. cbn [seq map app]. f_equal.
    + do 2 f_equal. lia.
    + rewrite <- seq_shift, map_map. apply map_ext; intros j.
      rewrite Nat.iter_succ_r. do 2 f_equal. lia.
Qed.

Lemma movingAveragePredict_short (tz : Z) (data : list StockDataPoint)
    (windowSize forecastDays : nat) :
  (length data < windowSize)%nat →
  movingAveragePredict tz data windowSize forecastDays
  = Throws (Error ("Not enough data points. Need at least "
                     +:+ pretty windowSize +:+ " points.")).
Proof.
  intros H. unfold movingAveragePredict.
  by destruct (Nat.ltb_spec (length data) windowSize); [|lia].
Qed.

Lemma movingAveragePredict_returns (tz : Z) (data : list StockDataPoint)
    (windowSize forecastDays : nat) (dl : date) :
  (windowSize ≤ length data)%nat →
  last (map sdp_date data) = Some dl →
  movingAveragePredict tz data windowSize forecastDays
  = Returns (maBacktest data windowSize
             ++ maForecast (dayShift tz) dl
                  (slice_last windowSize (map close data)) 0 forecastDays).
Proof.
  intros Hlen Hlast. unfold movingAveragePredict.
  destruct (Nat.ltb_spec (length data) windowSize); [lia|].
  rewrite ma_backtest_loop, Hlast, ma_forecast_loop.
  reflexivity.
Qed.

Lemma movingAveragePredict_no_forecast (tz : Z) (data : list StockDataPoint)
    (windowSize : nat) :
  (windowSize ≤ length data)%nat →
  movingAveragePredict tz data windowSize 0
  = Returns (maBacktest data windowSize).
Proof.
  intros Hlen. unfold movingAveragePredict.
  destruct (Nat.ltb_spec (length data) windowSize); [lia|].
  by rewrite ma_backtest_loop.
Qed.

Lemma movingAveragePredict_empty (tz : Z) (forecastDays : nat) :
  movingAveragePredict tz [] 0 (S forecastDays)
  = Throws (RangeError "Invalid time value").
Proof. reflexivity. Qed.

(** ** Closed form of [exponentialSmoothingPredict] *)

Lemma es_backtest_loop (alpha : number) (data : list StockDataPoint) :
  ∀ (k a : nat) (results : list PredictionResult),
    fold_left (λ '(forecast, results) i,
        let forecast :=
          (alpha * nth (i - 1) (map close data) 0 + (1 - alpha) * forecast)%Qc in
        (forecast,
         results ++ [ {| pr_date := nth i (map sdp_date data) 0%Z;
                         actual := Some (nth i (map close data) 0%Qc);
                         predicted := toFixed2 forecast;
                         modelName := EXPONENTIAL_SMOOTHING |} ]))
      (seq (S a) k) (esLevel alpha (map close data) a, results)
    = (esLevel alpha (map close data) (a + k),
       results
       ++ map (λ i, {| pr_date := nth i (map sdp_date data) 0%Z;
                       actual := Some (nth i (map close data) 0%Qc);
                       predicted := toFixed2 (esLevel alpha (map close data) i);
                       modelName := EXPONENTIAL_SMOOTHING |})
              (seq (S a) k)).
Proof.
  induction k as [|k IH]; intros a results.
  - simpl. by rewrite Nat.add_0_r, app_nil_r.
  - cbn [seq fold_left]. rewrite Nat.sub_succ, Nat.sub_0_r.
    change (alpha * nth a (map close data) 0
            + (1 - alpha) * esLevel alpha (map close data) a)%Qc
      with (esLevel alpha (map close data) (S a)).
    rewrite IH, <- app_assoc. f_equal. f_equal. lia.
Qed.

Lemma es_forecast_loop (alpha : number) (tz : Z) (dl : date) :
  ∀ (k a : nat) (st : number * number) (results : list PredictionResult),
    for_each (seq a k)
      (λ i '(forecast, lastActual, results),
        nextDate ← getNextBusinessDay tz (Some dl) (i + 1);
        let forecast := (alpha * lastActual + (1 - alpha) * forecast)%Qc in
        let prediction := toFixed2 forecast in
        Returns (forecast, prediction,
                 results ++ [ {| pr_date := nextDate;
                                 actual := None;
                                 predicted := prediction;
                                 modelName := EXPONENTIAL_SMOOTHING |} ]))
      (st, results)
    = Returns (Nat.iter k (esStep alpha) st,
               results ++ esForecast alpha (dayShift tz) dl st a k).
Proof.
  unfold esForecast.
  induction k as [|k IH]; intros a [forecast lastActual] results.
  - simpl. by rewrite app_nil_r.
  - cbn [seq for_each].
    rewrite getNextBusinessDay_steps. cbn [mbind outcome_bind].
    change (alpha * lastActual + (1 - alpha) * forecast,
            toFixed2 (alpha * lastActual + (1 - alpha) * forecast))%Qc
      with (esStep alpha (forecast, lastActual)).
    rewrite IH, Nat.iter_succ_r, <- app_assoc.
    do 3 f_equal. cbn [seq map app]. f_equal.
    + f_equal. f_equal. lia.
    + rewrite <- seq_shift, map_map. apply map_ext; intros j.
      rewrite !Nat.iter_succ_r. do 2 f_equal. lia.
Qed.

Lemma exponentialSmoothingPredict_short (tz : Z) (data : list StockDataPoint)
    (alpha : number) (forecastDays : nat) :
  (length data < 2)%nat →
  exponentialSmoothingPredict tz data alpha forecastDays
  = Throws (Error "Not enough data points. Need at least 2 points.").
Proof.
  intros H. unfold exponentialSmoothingPredict.
  by destruct (Nat.ltb_spec (length data) 2); [|lia].
Qed.

Lemma last_is_Some {A} (l : list A) : l ≠ [] → is_Some (last l).
Proof.
  intros H. destruct (last l) eqn:E; [eauto|].
  by apply last_None in E.
Qed.

Lemma exponentialSmoothingPredict_returns (tz : Z) (data : list StockDataPoint)
    (alpha : number) (forecastDays : nat) (dl : date) :
  (2 ≤ length data)%nat →
  last (map sdp_date data) = Some dl →
  exponentialSmoothingPredict tz data alpha forecastDays
  = Returns
      (esBacktest alpha data
       ++ esForecast alpha (dayShift tz) dl
            (esLevel alpha (map close data) (length data - 1),
             nth (length data - 1) (map close data) 0%Qc)
            0 forecastDays).
Proof.
  intros Hlen Hlast. unfold exponentialSmoothingPredict.
  destruct (Nat.ltb_spec (length data) 2); [lia|].
  change (nth 0 (map close data) 0%Qc) with (esLevel alpha (map close data) 0).
  rewrite es_backtest_loop, Hlast. cbn [app].
  rewrite es_forecast_loop, length_map. reflexivity.
Qed.

(** ** Closed form of [arimaPredict] *)

Lemma fold_left_push2 {A B C} (f : A → B) (g : A → C) (l : list A)
    (u : list B) (r : list C) :
  fold_left (λ '(u, r) i, (u ++ [f i], r ++ [g i])) l (u, r)
  = (u ++ map f l, r ++ map g l).
Proof.
  revert u r. induction l as [|x l IH]; intros u r; simpl.
  - by rewrite !app_nil_r.
  - rewrite IH. by rewrite <- !app_assoc.
Qed.

Lemma arimaUndiff_results (closePrices : list number) (dates : list date)
    (predictions : list number) (p d q : nat) :
  (arimaUndiff closePrices dates predictions p d q).2
  = arimaBacktestEntries closePrices dates predictions p d q.
Proof.
  unfold arimaUndiff, arimaBacktestEntries.
  rewrite (fold_left_push2
    (λ i, fold_left (λ undiffValue j,
            (undiffValue + nth (i + p `max` q + d - j - 1) closePrices 0)%Qc)
            (seq 0 d) (nth i predictions 0%Qc))
    (λ i, {| pr_date := nth (i + p `max` q + d) dates 0%Z;
             actual := Some (nth (i + p `max` q + d) closePrices 0%Qc);
             predicted :=
               toFixed2
                 (fold_left (λ undiffValue j,
                    (undiffValue
                     + nth (i + p `max` q + d - j - 1) closePrices 0)%Qc)
                    (seq 0 d) (nth i predictions 0%Qc));
             modelName := ARIMA |})).
  reflexivity.
Qed.

Lemma fold_left_sum {A} (f : A → number) (l : list A) (a : number) :
  fold_left (λ acc j, (acc + f j)%Qc) l a = (a + sumQc (map f l))%Qc.
Proof.
  revert a. induction l as [|x l IH]; intros a; simpl.
  - ring.
  - rewrite IH. ring.
Qed.

Lemma sumQc_app (l k : list number) : sumQc (l ++ k) = (sumQc l + sumQc k)%Qc.
Proof. induction l as [|x l IH]; simpl; [ring | rewrite IH; ring]. Qed.

Lemma sumQc_rev (l : list number) : sumQc (rev l) = sumQc l.
Proof.
  induction l as [|x l IH]; simpl; [done|].
  rewrite sumQc_app, IH. simpl. ring.
Qed.

Lemma sumQc_scale {A} (c : number) (f : A → number) (l : list A) :
  sumQc (map (λ x, (c * f x)%Qc) l) = (c * sumQc (map f l))%Qc.
Proof. induction l as [|x l IH]; simpl; [ring | rewrite IH; ring]. Qed.

Lemma or_zero_id (x : number) : or_zero x = x.
Proof.
  unfold or_zero. destruct (Qc_eq_bool x 0) eqn:E; [|done].
  symmetry. by apply Qc_eq_bool_correct.
Qed.

Lemma nth_replicate_lt {A} (n j : nat) (c d : A) :
  (j < n)%nat → nth j (replicate n c) d = c.
Proof.
  intros H. rewrite nth_lookup. by rewrite (lookup_replicate_2 n c j H).
Qed.

(** Reading a list backwards from its end. *)
Lemma backwards_reads (l : list number) (m : nat) :
  (m ≤ length l)%nat →
  map (λ j, nth (length l - j - 1) l 0%Qc) (seq 0 m)
  = rev (drop (length l - m) l).
Proof.
  induction m as [|m IH]; intros Hm.
  - simpl. by rewrite Nat.sub_0_r, drop_all.
  - rewrite seq_S, map_app, IH by lia. simpl.
    destruct (lookup_lt_is_Some_2 l (length l - S m)) as [x Hx]; [lia|].
    rewrite (drop_S l x (length l - S m) Hx).
    replace (S (length l - S m)) with (length l - m)%nat by lia.
    simpl. f_equal. f_equal.
    replace (length l - m - 1)%nat with (length l - S m)%nat by lia.
    by rewrite nth_lookup, Hx.
Qed.

Lemma arComponentAt_uniform (c : number) (diffPrices : list number) (p i : nat) :
  (p ≤ i)%nat → (i ≤ length diffPrices)%nat →
  arComponentAt (replicate p c) diffPrices p i
  = (c * sumQc (slice (i - p) i diffPrices))%Qc.
Proof.
  intros Hp Hi. unfold arComponentAt.
  rewrite (fold_left_sum
    (λ j, (nth j (replicate p c) 0 * nth (i - j - 1) diffPrices 0)%Qc)).
  rewrite (map_ext_in _ (λ j, (c * nth (i - j - 1) (take i diffPrices) 0)%Qc)).
  2: { intros j Hj. apply in_seq in Hj. rewrite nth_replicate_lt by lia.
       f_equal. rewrite !nth_lookup, lookup_take_lt by lia. done. }
  rewrite sumQc_scale.
  pose proof (backwards_reads (take i diffPrices) p) as Hb.
  rewrite length_take, Nat.min_l in Hb by lia.
  rewrite Hb by lia. rewrite sumQc_rev.
  unfold slice. rewrite take_drop_commute.
  replace (i - p + (i - (i - p)))%nat with i by lia. ring.
Qed.

Lemma maComponentAt_uniform (c : number) (errors : list number) (q : nat) :
  maComponentAt (replicate q c) errors q = (c * sumQc (lastN q errors))%Qc.
Proof.
  unfold maComponentAt.
  rewrite (fold_left_sum
    (λ j, (nth j (replicate q c) 0
           * or_zero (nth (length errors - j - 1) errors 0))%Qc)).
  rewrite (map_ext_in _ (λ j, (c * nth (length errors - j - 1) errors 0)%Qc)).
  2: { intros j Hj. apply in_seq in Hj. rewrite nth_replicate_lt by lia.
       by rewrite or_zero_id. }
  rewrite sumQc_scale, backwards_reads by lia. rewrite sumQc_rev.
  unfold lastN.
  replace (length errors - q `min` length errors)%nat
    with (length errors - q)%nat by lia.
  ring.
Qed.

Lemma arimaResiduals_length (p q : nat) (diffSeries : list number) (i : nat) :
  length (arimaResiduals p q diffSeries i) = i.
Proof. induction i as [|i IH]; simpl; [done|]. rewrite length_app, IH. simpl. lia. Qed.

(** The backtest loop computes the residuals and predictions the reference
    recursion describes. *)
Lemma arimaBacktest_loop (p q : nat) (diffPrices : list number) :
  ∀ (k a : nat) (predictions : list number),
    (p `max` q + a + k ≤ length diffPrices)%nat →
    fold_left (λ '(errors, predictions) i,
        let arComponent :=
          arComponentAt (replicate p (1 / num_of_nat p)%Qc) diffPrices p i in
        let maComponent :=
          maComponentAt (replicate q (1 / num_of_nat q)%Qc) errors q in
        let prediction := (arComponent + maComponent)%Qc in
        let error := (nth i diffPrices 0 - prediction)%Qc in
        (errors ++ [error], predictions ++ [prediction]))
      (seq (p `max` q + a) k) (arimaResiduals p q diffPrices a, predictions)
    = (arimaResiduals p q diffPrices (a + k),
       predictions
       ++ map (λ i, arimaPrediction p q diffPrices
                      (arimaResiduals p q diffPrices i) (p `max` q + i))
              (seq a k)).
Proof.
  induction k as [|k IH]; intros a predictions Hk.
  - simpl. by rewrite Nat.add_0_r, app_nil_r.
  - cbn [seq fold_left].
    rewrite arComponentAt_uniform, maComponentAt_uniform by lia.
    change (1 / num_of_nat p * sumQc (slice (p `max` q + a - p) (p `max` q + a) diffPrices)
            + 1 / num_of_nat q * sumQc (lastN q (arimaResiduals p q diffPrices a)))%Qc
      with (arimaPrediction p q diffPrices (arimaResiduals p q diffPrices a)
              (p `max` q + a)).
    change (arimaResiduals p q diffPrices a
            ++ [(nth (p `max` q + a) diffPrices 0
                 - arimaPrediction p q diffPrices
                     (arimaResiduals p q diffPrices a) (p `max` q + a))%Qc])
      with (arimaResiduals p q diffPrices (S a)).
    rewrite <- Nat.add_succ_r, IH by lia.
    rewrite <- app_assoc. f_equal. f_equal. lia.
Qed.

Lemma arimaBacktest_uniform (p q : nat) (diffPrices : list number) :
  arimaBacktest (replicate p (1 / num_of_nat p)%Qc)
    (replicate q (1 / num_of_nat q)%Qc) diffPrices p q
  = (arimaResiduals p q diffPrices (length diffPrices - p `max` q),
     map (λ i, arimaPrediction p q diffPrices
                 (arimaResiduals p q diffPrices i) (p `max` q + i))
         (seq 0 (length diffPrices - p `max` q))).
Proof.
  unfold arimaBacktest.
  destruct (Nat.le_gt_cases (p `max` q) (length diffPrices)) as [Hle|Hgt].
  - pose proof (arimaBacktest_loop p q diffPrices
      (length diffPrices - p `max` q) 0 []) as H.
    rewrite Nat.add_0_r in H. apply H. lia.
  - replace (length diffPrices - p `max` q)%nat with 0%nat by lia. reflexivity.
Qed.

Lemma difference_length (l : list number) :
  length (difference l) = (length l - 1)%nat.
Proof. unfold difference. by rewrite length_imap, length_drop. Qed.

Lemma differencing_length (d : nat) (l : list number) :
  length (Nat.iter d difference l) = (length l - d)%nat.
Proof.
  induction d as [|d IH]; simpl; [lia|].
  rewrite difference_length, IH. lia.
Qed.

(** A loop whose every turn appends one entry to the results appends as
    many entries as it has turns. *)
Lemma for_each_emitting {St} (entry : nat → number → PredictionResult)
    (body : nat → St * list PredictionResult → outcome (St * list PredictionResult)) :
  (∀ i st results, ∃ st1 v,
      body i (st, results) = Returns (st1, results ++ [entry i v])) →
  ∀ (k a : nat) (st : St) (results : list PredictionResult),
    ∃ (st' : St) (preds : list number),
      length preds = k ∧
      for_each (seq a k) body (st, results)
      = Returns (st', results ++ imap (λ j v, entry (a + j)%nat v) preds).
Proof.
  intros Hbody. induction k as [|k IH]; intros a st results.
  - exists st, []. split; [done|]. simpl. by rewrite app_nil_r.
  - cbn [seq for_each].
    destruct (Hbody a st results) as (st1 & v & ->). cbn [mbind outcome_bind].
    destruct (IH (S a) st1 (results ++ [entry a v])) as (st' & preds & Hlen & ->).
    exists st', (v :: preds). split; [simpl; lia|].
    rewrite <- app_assoc. do 3 f_equal. cbn [imap app]. f_equal.
    + f_equal. lia.
    + apply imap_ext. intros j w _. simpl. f_equal. lia.
Qed.

Lemma arima_forecast_loop (tz : Z) (dl : date)
    (arCoefficients maCoefficients lastActuals : list number) (p d q : nat) :
  ∀ (k a : nat) (st : list number * list number * list number)
    (results : list PredictionResult),
    ∃ (st' : list number * list number * list number) (preds : list number),
      length preds = k ∧
      for_each (seq a k)
        (λ i '(lastPredictions, lastErrors, undiffPredictions, results),
          nextDate ← getNextBusinessDay tz (Some dl) (i + 1);
          let arComponent :=
            fold_left (λ arComponent j,
              (arComponent
                 + nth j arCoefficients 0
                   * nth (length lastPredictions - j - 1) lastPredictions 0)%Qc)
              (seq 0 (p `min` length lastPredictions)) 0%Qc in
          let maComponent :=
            fold_left (λ maComponent j,
              (maComponent
                 + nth j maCoefficients 0
                   * nth (length lastErrors - j - 1) lastErrors 0)%Qc)
              (seq 0 (q `min` length lastErrors)) 0%Qc in
          let diffPrediction := (arComponent + maComponent)%Qc in
          let undiffValue :=
            fold_left (λ undiffValue j,
              if (j <=? i)%nat then
                (undiffValue
                   + nth (length undiffPredictions - j - 1)
                         undiffPredictions 0)%Qc
              else
                (undiffValue
                   + nth (length lastActuals - (j - i) - 1) lastActuals 0)%Qc)
              (seq 0 d) diffPrediction in
          let finalPrediction := toFixed2 undiffValue in
          Returns (shift_push lastPredictions diffPrediction,
                   shift_push lastErrors 0%Qc,
                   undiffPredictions ++ [finalPrediction],
                   results ++ [ {| pr_date := nextDate;
                                   actual := None;
                                   predicted := finalPrediction;
                                   modelName := ARIMA |} ]))
        (st, results)
      = Returns (st', results ++ arimaForecastEntries (dayShift tz) dl a preds).
Proof.
  intros k a st results. unfold arimaForecastEntries.
  apply (for_each_emitting
    (λ i v, {| pr_date := nthBusinessDayAfter (dayShift tz) dl (i + 1);
               actual := None; predicted := v; modelName := ARIMA |})).
  clear. intros i [[lastPredictions lastErrors] undiff] results.
  rewrite getNextBusinessDay_steps. cbn [mbind outcome_bind].
  eexists _, _. reflexivity.
Qed.

Lemma arimaPredict_short (tz : Z) (data : list StockDataPoint)
    (p d q forecastDays : nat) :
  (length data < p `max` q + d + 1)%nat →
  arimaPredict tz data p d q forecastDays
  = Throws (Error "Not enough data points for ARIMA model.").
Proof.
  intros H. unfold arimaPredict.
  by destruct (Nat.ltb_spec (length data) (p `max` q + d + 1)); [|lia].
Qed.

Lemma arimaPredict_returns (tz : Z) (data : list StockDataPoint)
    (p d q forecastDays : nat) (dl : date) :
  (p `max` q + d + 1 ≤ length data)%nat →
  last (map sdp_date data) = Some dl →
  ∃ preds : list number,
    length preds = forecastDays ∧
    arimaPredict tz data p d q forecastDays
    = Returns
        (arimaBacktestEntries (map close data) (map sdp_date data)
           (arimaPredictions data p d q) p d q
         ++ arimaForecastEntries (dayShift tz) dl 0 preds).
Proof.
  intros Hlen Hlast. unfold arimaPredict.
  destruct (Nat.ltb_spec (length data) (p `max` q + d + 1)); [lia|].
  rewrite arimaBacktest_uniform. fold (arimaPredictions data p d q).
  pose proof (arimaUndiff_results (map close data) (map sdp_date data)
                (arimaPredictions data p d q) p d q) as Hres.
  destruct (arimaUndiff _ _ _ _ _ _) as [undiff results]. simpl in Hres. subst results.
  rewrite Hlast.
  match goal with
  | |- context [for_each _ _ (?st, _)] =>
      destruct (arima_forecast_loop tz dl
                  (replicate p (1 / num_of_nat p)%Qc)
                  (replicate q (1 / num_of_nat q)%Qc)
                  (slice_last d (map close data)) p d q forecastDays 0 st
                  (arimaBacktestEntries (map close data) (map sdp_date data)
                     (arimaPredictions data p d q) p d q))
        as (st' & preds & Hl & Heq)
  end.
  cbv zeta in Heq. rewrite Heq. exists preds. split; [done|]. reflexivity.
Qed.

Lemma arimaPredictions_length (data : list StockDataPoint) (p d q : nat) :
  length (arimaPredictions data p d q) = (length data - d - p `max` q)%nat.
Proof.
  unfold arimaPredictions.
  by rewrite length_map, length_seq, differencing_length, length_map.
Qed.

(** ** Backtest and forecast portions *)

Lemma backtestPortion_app (l k : list PredictionResult) :
  backtestPortion (l ++ k) = backtestPortion l ++ backtestPortion k.
Proof. apply filter_app. Qed.

Lemma forecastPortion_app (l k : list PredictionResult) :
  forecastPortion (l ++ k) = forecastPortion l ++ forecastPortion k.
Proof. apply filter_app. Qed.

Lemma portions_of_backtest (l : list PredictionResult) :
  Forall (λ r, is_Some (actual r)) l →
  backtestPortion l = l ∧ forecastPortion l = [].
Proof.
  unfold backtestPortion, forecastPortion.
  induction 1 as [|r l Hr _ [IH1 IH2]]; [done|].
  rewrite filter_cons_True by done. rewrite IH1.
  rewrite filter_cons_False; [done|].
  destruct Hr as [x Hx]. congruence.
Qed.

Lemma portions_of_forecast (l : list PredictionResult) :
  Forall (λ r, actual r = None) l →
  backtestPortion l = [] ∧ forecastPortion l = l.
Proof.
  unfold backtestPortion, forecastPortion.
  induction 1 as [|r l Hr _ [IH1 IH2]]; [done|].
  rewrite filter_cons_False.
  2: { rewrite Hr. by intros [x Hx]. }
  rewrite IH1. rewrite filter_cons_True by done. by rewrite IH2.
Qed.

Lemma portions_of_result (bt fc : list PredictionResult) :
  Forall (λ r, is_Some (actual r)) bt →
  Forall (λ r, actual r = None) fc →
  backtestPortion (bt ++ fc) = bt ∧ forecastPortion (bt ++ fc) = fc.
Proof.
  intros Hb Hf.
  destruct (portions_of_backtest bt Hb) as [E1 E2].
  destruct (portions_of_forecast fc Hf) as [E3 E4].
  rewrite backtestPortion_app, forecastPortion_app, E1, E2, E3, E4.
  by rewrite app_nil_r.
Qed.

Lemma Forall_map_intro {A B} (P : B → Prop) (f : A → B) (l : list A) :
  (∀ x, P (f x)) → Forall P (map f l).
Proof. intros H. induction l; simpl; constructor; auto. Qed.

Lemma Forall_imap_intro {A B} (P : B → Prop) (f : nat → A → B) (l : list A) :
  (∀ i x, P (f i x)) → Forall P (imap f l).
Proof.
  revert f. induction l as [|x l IH]; intros f H; simpl; constructor; auto.
  apply IH. intros i y. apply H.
Qed.

Lemma maBacktest_actual data w :
  Forall (λ r, is_Some (actual r)) (maBacktest data w).
Proof. apply Forall_map_intro. intros i. simpl. eauto. Qed.

Lemma maForecast_actual shift dl W a k :
  Forall (λ r, actual r = None) (maForecast shift dl W a k).
Proof. by apply Forall_map_intro. Qed.

Lemma esBacktest_actual alpha data :
  Forall (λ r, is_Some (actual r)) (esBacktest alpha data).
Proof. apply Forall_map_intro. intros i. simpl. eauto. Qed.

Lemma esForecast_actual alpha shift dl st a k :
  Forall (λ r, actual r = None) (esForecast alpha shift dl st a k).
Proof. by apply Forall_map_intro. Qed.

Lemma arimaBacktestEntries_actual closes dates predictions p d q :
  Forall (λ r, is_Some (actual r))
    (arimaBacktestEntries closes dates predictions p d q).
Proof. apply Forall_map_intro. intros i. simpl. eauto. Qed.

Lemma arimaForecastEntries_actual shift dl a preds :
  Forall (λ r, actual r = None) (arimaForecastEntries shift dl a preds).
Proof. by apply Forall_imap_intro. Qed.

Lemma maBacktest_length data w :
  length (maBacktest data w) = (length data - w)%nat.
Proof. unfold maBacktest. by rewrite length_map, length_seq. Qed.

Lemma maForecast_length shift dl W a k :
  length (maForecast shift dl W a k) = k.
Proof. unfold maForecast. by rewrite length_map, length_seq. Qed.

Lemma esBacktest_length alpha data :
  length (esBacktest alpha data) = (length data - 1)%nat.
Proof. unfold esBacktest. by rewrite length_map, length_seq. Qed.

Lemma esForecast_length alpha shift dl st a k :
  length (esForecast alpha shift dl st a k) = k.
Proof. unfold esForecast. by rewrite length_map, length_seq. Qed.

Lemma arimaBacktestEntries_length closes dates predictions p d q :
  length (arimaBacktestEntries closes dates predictions p d q)
  = length predictions.
Proof. unfold arimaBacktestEntries. by rewrite length_map, length_seq. Qed.

Lemma arimaForecastEntries_length shift dl a preds :
  length (arimaForecastEntries shift dl a preds) = length preds.
Proof. unfold arimaForecastEntries. by rewrite length_imap. Qed.

Lemma last_date_of_nonempty (data : list StockDataPoint) :
  data ≠ [] → ∃ dl, last (map sdp_date data) = Some dl.
Proof.
  intros H. apply last_is_Some. by destruct data.
Qed.

(** ** Failure modes (claim C2) *)

Lemma movingAveragePredict_returnsNormally tz data w fd :
  (w ≤ length data)%nat → data ≠ [] ∨ fd = 0%nat →
  returnsNormally (movingAveragePredict tz data w fd).
Proof.
  intros Hlen [Hne | ->].
  - destruct (last_date_of_nonempty data Hne) as [dl Hdl].
    rewrite (movingAveragePredict_returns tz data w fd dl) by done.
    by eexists.
  - rewrite movingAveragePredict_no_forecast by done. by eexists.
Qed.

Lemma series_of_two_nonempty (data : list StockDataPoint) (n : nat) :
  (S n ≤ length data)%nat → data ≠ [].
Proof. destruct data; simpl; [lia | done]. Qed.

Lemma exponentialSmoothingPredict_returnsNormally tz data alpha fd :
  (2 ≤ length data)%nat →
  returnsNormally (exponentialSmoothingPredict tz data alpha fd).
Proof.
  intros Hlen.
  destruct (last_date_of_nonempty data) as [dl Hdl];
    [by apply (series_of_two_nonempty data 1)|].
  rewrite (exponentialSmoothingPredict_returns tz data alpha fd dl) by done.
  by eexists.
Qed.

Lemma arimaPredict_returnsNormally tz data p d q fd :
  (p `max` q + d + 1 ≤ length data)%nat →
  returnsNormally (arimaPredict tz data p d q fd).
Proof.
  intros Hlen.
  destruct (last_date_of_nonempty data) as [dl Hdl];
    [apply (series_of_two_nonempty data 0); lia|].
  destruct (arimaPredict_returns tz data p d q fd dl Hlen Hdl) as (preds & _ & ->).
  by eexists.
Qed.

Lemma raisesInsufficientData_Returns {A} (a : A) :
  ¬ raisesInsufficientData (Returns a).
Proof. by intros [m Hm]. Qed.

Lemma raisesInsufficientData_Error {A} (message : string) :
  raisesInsufficientData (@Throws A (Error message)).
Proof. by exists message. Qed.

(** C2 (as amended). Each forecaster raises the not-enough-data [Error]
    exactly when the series is shorter than its minimum: [windowSize] for
    [movingAveragePredict], [2] for [exponentialSmoothingPredict] and
    [max p q + d + 1] for [arimaPredict]; a call ends either in the thrown
    error or in its results, never both. A series that meets the
    minimum makes [exponentialSmoothingPredict] and [arimaPredict] return
    normally, and makes [movingAveragePredict] return normally when the
    series is not empty or no forecast day is asked for. *)
Theorem C2_insufficient_data_error (tz : Z) (data : list StockDataPoint)
    (windowSize : nat) (alpha : number) (p d q forecastDays : nat) :
  (raisesInsufficientData (movingAveragePredict tz data windowSize forecastDays)
     ↔ (length data < windowSize)%nat)
  ∧ (raisesInsufficientData (exponentialSmoothingPredict tz data alpha forecastDays)
     ↔ (length data < 2)%nat)
  ∧ (raisesInsufficientData (arimaPredict tz data p d q forecastDays)
     ↔ (length data < p `max` q + d + 1)%nat)
  ∧ ((windowSize ≤ length data)%nat → data ≠ [] ∨ forecastDays = 0%nat →
     returnsNormally (movingAveragePredict tz data windowSize forecastDays))
  ∧ ((2 ≤ length data)%nat →
     returnsNormally (exponentialSmoothingPredict tz data alpha forecastDays))
  ∧ ((p `max` q + d + 1 ≤ length data)%nat →
     returnsNormally (arimaPredict tz data p d q forecastDays)).
Proof.
  repeat split.
  - intros [m Hm].
    destruct (Nat.lt_ge_cases (length data) windowSize) as [|Hge]; [done|].
    destruct data as [|x data'].
    + destruct windowSize; [|simpl in Hge; lia].
      destruct forecastDays; [done|].
      by rewrite movingAveragePredict_empty in Hm.
    + destruct (movingAveragePredict_returnsNormally tz (x :: data')
                  windowSize forecastDays Hge) as [rs Hrs]; [by left|].
      congruence.
  - intros H. rewrite movingAveragePredict_short by done.
    apply raisesInsufficientData_Error.
  - intros [m Hm].
    destruct (Nat.lt_ge_cases (length data) 2) as [|Hge]; [done|].
    destruct (exponentialSmoothingPredict_returnsNormally tz data alpha
                forecastDays Hge) as [rs Hrs].
    congruence.
  - intros H. rewrite exponentialSmoothingPredict_short by done.
    apply raisesInsufficientData_Error.
  - intros [m Hm].
    destruct (Nat.lt_ge_cases (length data) (p `max` q + d + 1)) as [|Hge]; [done|].
    destruct (arimaPredict_returnsNormally tz data p d q forecastDays Hge)
      as [rs Hrs].
    congruence.
  - intros H. rewrite arimaPredict_short by done.
    apply raisesInsufficientData_Error.
  - apply movingAveragePredict_returnsNormally.
  - apply exponentialSmoothingPredict_returnsNormally.
  - apply arimaPredict_returnsNormally.
Qed.

(** C2, counterexample. The empty series meets the minimum of
    [movingAveragePredict] with [windowSize = 0], yet the call with the
    default seven forecast days neither returns nor raises the
    not-enough-data error: [dates[dates.length - 1]] is [undefined],
    [new Date(undefined)] is an Invalid Date and [toISOString] throws a
    [RangeError]. *)
Lemma C2_counterexample_empty_series :
  (0 ≤ length (@nil StockDataPoint))%nat
  ∧ movingAveragePredict 0 [] 0 7 = Throws (RangeError "Invalid time value")
  ∧ ¬ returnsNormally (movingAveragePredict 0 [] 0 7)
  ∧ ¬ raisesInsufficientData (movingAveragePredict 0 [] 0 7).
Proof.
  rewrite movingAveragePredict_empty.
  repeat split; [done | by intros [rs Hrs] | by intros [m Hm]].
Qed.

(** C2, witness: a two-point series with [windowSize = 2]. *)
Lemma C2_witness_two_points :
  returnsNormally
    (movingAveragePredict 0 [samplePoint 19723 100; samplePoint 19724 101] 2 7).
Proof.
  pose proof (C2_insufficient_data_error 0
    [samplePoint 19723 100; samplePoint 19724 101] 2 (Q2Qc (3 # 10)) 3 1 1 7)
    as (_ & _ & _ & H & _).
  apply H; [simpl; lia | left; discriminate].
Defined.

(** ** Length contract (claim C4) *)

(** C4 (as amended). On a series that meets a forecaster's minimum the
    returned entries with an actual value number [length data - windowSize]
    for [movingAveragePredict], [length data - 1] for
    [exponentialSmoothingPredict] and [length data - (max p q + d)] for
    [arimaPredict], and the entries without one number [forecastDays];
    for [movingAveragePredict] this needs a series that is not empty, or
    no forecast day. *)
Theorem C4_length_contract (tz : Z) (data : list StockDataPoint)
    (windowSize : nat) (alpha : number) (p d q forecastDays : nat) :
  ((windowSize ≤ length data)%nat → data ≠ [] ∨ forecastDays = 0%nat →
   ∃ rs, movingAveragePredict tz data windowSize forecastDays = Returns rs
         ∧ length (backtestPortion rs) = (length data - windowSize)%nat
         ∧ length (forecastPortion rs) = forecastDays)
  ∧ ((2 ≤ length data)%nat →
     ∃ rs, exponentialSmoothingPredict tz data alpha forecastDays = Returns rs
           ∧ length (backtestPortion rs) = (length data - 1)%nat
           ∧ length (forecastPortion rs) = forecastDays)
  ∧ ((p `max` q + d + 1 ≤ length data)%nat →
     ∃ rs, arimaPredict tz data p d q forecastDays = Returns rs
           ∧ length (backtestPortion rs) = (length data - (p `max` q + d))%nat
           ∧ length (forecastPortion rs) = forecastDays).
Proof.
  split; [|split].
  - intros Hlen [Hne | ->].
    + destruct (last_date_of_nonempty data Hne) as [dl Hdl].
      eexists. split; [by apply movingAveragePredict_returns|].
      destruct (portions_of_result _ _ (maBacktest_actual data windowSize)
        (maForecast_actual (dayShift tz) dl
           (slice_last windowSize (map close data)) 0 forecastDays)) as [-> ->].
      by rewrite maBacktest_length, maForecast_length.
    + eexists. split; [by apply movingAveragePredict_no_forecast|].
      destruct (portions_of_backtest _ (maBacktest_actual data windowSize))
        as [-> ->].
      by rewrite maBacktest_length.
  - intros Hlen.
    destruct (last_date_of_nonempty data) as [dl Hdl];
      [by apply (series_of_two_nonempty data 1)|].
    eexists. split; [by apply exponentialSmoothingPredict_returns|].
    destruct (portions_of_result _ _ (esBacktest_actual alpha data)
      (esForecast_actual alpha (dayShift tz) dl
         (esLevel alpha (map close data) (length data - 1),
          nth (length data - 1) (map close data) 0%Qc) 0 forecastDays))
      as [-> ->].
    by rewrite esBacktest_length, esForecast_length.
  - intros Hlen.
    destruct (last_date_of_nonempty data) as [dl Hdl];
      [apply (series_of_two_nonempty data 0); lia|].
    destruct (arimaPredict_returns tz data p d q forecastDays dl Hlen Hdl)
      as (preds & Hpreds & ->).
    eexists. split; [done|].
    destruct (portions_of_result _ _
      (arimaBacktestEntries_actual (map close data) (map sdp_date data)
         (arimaPredictions data p d q) p d q)
      (arimaForecastEntries_actual (dayShift tz) dl 0 preds)) as [-> ->].
    rewrite arimaBacktestEntries_length, arimaForecastEntries_length,
      arimaPredictions_length.
    split; [lia | done].
Qed.

(** C4, counterexample. The empty series meets the precondition of
    [movingAveragePredict] with [windowSize = 0]; with one forecast day the
    call returns no entries at all, it throws. *)
Lemma C4_counterexample_empty_series :
  (0 ≤ length (@nil StockDataPoint))%nat
  ∧ movingAveragePredict 0 [] 0 1 = Throws (RangeError "Invalid time value")
  ∧ ¬ (∃ rs, movingAveragePredict 0 [] 0 1 = Returns rs
             ∧ length (forecastPortion rs) = 1%nat).
Proof.
  rewrite movingAveragePredict_empty.
  repeat split; [done|]. by intros (rs & Hrs & _).
Qed.

(** C4, witness: three points, [windowSize = 2], five forecast days. *)
Lemma C4_witness_three_points :
  ∃ rs,
    movingAveragePredict 0
      [samplePoint 19723 100; samplePoint 19724 101; samplePoint 19725 99] 2 5
    = Returns rs
    ∧ length (backtestPortion rs) = 1%nat
    ∧ length (forecastPortion rs) = 5%nat.
Proof.
  pose proof (C4_length_contract 0
    [samplePoint 19723 100; samplePoint 19724 101; samplePoint 19725 99]
    2 (Q2Qc (3 # 10)) 3 1 1 5) as (H & _).
  apply H; [simpl; lia | left; discriminate].
Defined.

(** ** The split between backtest and forecast on a host at a fixed offset *)

Lemma nextBusinessDayAfter_bounds (shift : Z) (d : date) :
  (d < nextBusinessDayAfter shift d ≤ d + 3)%Z.
Proof.
  unfold nextBusinessDayAfter.
  destruct (isBusinessDay _); [lia|]. destruct (isBusinessDay _); lia.
Qed.

Lemma nthBusinessDayAfter_S (shift : Z) (d : date) (k : nat) :
  nthBusinessDayAfter shift d (S k)
  = nextBusinessDayAfter shift (nthBusinessDayAfter shift d k).
Proof. reflexivity. Qed.

Lemma nthBusinessDayAfter_increasing (shift : Z) (d : date) (k : nat) :
  (nthBusinessDayAfter shift d k < nthBusinessDayAfter shift d (S k))%Z.
Proof. rewrite nthBusinessDayAfter_S. apply nextBusinessDayAfter_bounds. Qed.

Lemma nthBusinessDayAfter_after (shift : Z) (d : date) (k : nat) :
  (d + Z.of_nat k ≤ nthBusinessDayAfter shift d k)%Z.
Proof.
  induction k as [|k IH]; [unfold nthBusinessDayAfter; simpl; lia|].
  pose proof (nthBusinessDayAfter_increasing shift d k). lia.
Qed.

Lemma sorted_le_last (l : list Z) (dl : Z) :
  StronglySorted Z.lt l → last l = Some dl →
  ∀ i x, l !! i = Some x → (x ≤ dl)%Z.
Proof.
  induction 1 as [|y l Hs IH Hall]; intros Hlast i x Hi; [done|].
  destruct l as [|z l'].
  - simpl in Hlast. destruct i; simpl in Hi; [|done]. naive_solver lia.
  - assert (Hl : last (z :: l') = Some dl) by done.
    destruct i as [|i]; simpl in Hi.
    + injection Hi as <-.
      assert (dl ∈ z :: l') as Hin.
      { clear -Hl. revert z Hl. induction l' as [|u l' IHl]; intros z Hl.
        - simpl in Hl. injection Hl as <-. left.
        - right. apply IHl. done. }
      rewrite Forall_forall in Hall. specialize (Hall dl Hin). lia.
    + by apply (IH Hl i).
Qed.

Lemma nth_lookup_Some {A} (l : list A) (i : nat) (d : A) :
  (i < length l)%nat → l !! i = Some (nth i l d).
Proof.
  intros H. destruct (lookup_lt_is_Some_2 l i H) as [x Hx].
  by rewrite nth_lookup, Hx.
Qed.

Lemma Forall_map_seq {B} (P : B → Prop) (f : nat → B) (a k : nat) :
  (∀ i, (a ≤ i < a + k)%nat → P (f i)) → Forall P (map f (seq a k)).
Proof.
  intros H. apply Forall_forall. intros y Hy.
  apply list_elem_of_In, in_map_iff in Hy. destruct Hy as (i & <- & Hi).
  apply in_seq in Hi. apply H. lia.
Qed.

Lemma splitsAt_app (bt fc : list PredictionResult) (dl : date) :
  Forall (λ r, is_Some (actual r) ∧ (pr_date r ≤ dl)%Z) bt →
  Forall (λ r, actual r = None ∧ (dl < pr_date r)%Z) fc →
  splitsAt (bt ++ fc) (length bt) dl.
Proof.
  intros Hb Hf. split; intros i r Hi Hlt.
  - rewrite lookup_app_l in Hi by done.
    rewrite Forall_forall in Hb. apply Hb. by eapply list_elem_of_lookup_2.
  - rewrite lookup_app_r in Hi by done.
    rewrite Forall_forall in Hf. apply Hf. by eapply list_elem_of_lookup_2.
Qed.

Lemma date_in_range_le_last (data : list StockDataPoint) (dl : date) (i : nat) :
  ascendingDates data → last (map sdp_date data) = Some dl →
  (i < length data)%nat → (nth i (map sdp_date data) 0 ≤ dl)%Z.
Proof.
  intros Hs Hl Hi. apply (sorted_le_last _ dl Hs Hl i).
  apply nth_lookup_Some. by rewrite length_map.
Qed.

Lemma maBacktest_split data w dl :
  ascendingDates data → last (map sdp_date data) = Some dl →
  Forall (λ r, is_Some (actual r) ∧ (pr_date r ≤ dl)%Z) (maBacktest data w).
Proof.
  intros Hs Hl. apply Forall_map_seq. intros i Hi. simpl.
  split; [eauto|]. apply date_in_range_le_last; [done..|lia].
Qed.

Lemma esBacktest_split alpha data dl :
  ascendingDates data → last (map sdp_date data) = Some dl →
  Forall (λ r, is_Some (actual r) ∧ (pr_date r ≤ dl)%Z) (esBacktest alpha data).
Proof.
  intros Hs Hl. apply Forall_map_seq. intros i Hi. simpl.
  split; [eauto|]. apply date_in_range_le_last; [done..|lia].
Qed.

Lemma arimaBacktestEntries_split data p d q dl :
  ascendingDates data → last (map sdp_date data) = Some dl →
  Forall (λ r, is_Some (actual r) ∧ (pr_date r ≤ dl)%Z)
    (arimaBacktestEntries (map close data) (map sdp_date data)
       (arimaPredictions data p d q) p d q).
Proof.
  intros Hs Hl. apply Forall_map_seq. intros i Hi. simpl.
  rewrite arimaPredictions_length in Hi.
  split; [eauto|]. apply date_in_range_le_last; [done..|lia].
Qed.

Lemma maForecast_split shift dl W a k :
  Forall (λ r, actual r = None ∧ (dl < pr_date r)%Z) (maForecast shift dl W a k).
Proof.
  apply Forall_map_intro. intros j. simpl. split; [done|].
  pose proof (nthBusinessDayAfter_after shift dl (a + j + 1)). lia.
Qed.

Lemma esForecast_split alpha shift dl st a k :
  Forall (λ r, actual r = None ∧ (dl < pr_date r)%Z)
    (esForecast alpha shift dl st a k).
Proof.
  apply Forall_map_intro. intros j. simpl. split; [done|].
  pose proof (nthBusinessDayAfter_after shift dl (a + j + 1)). lia.
Qed.

Lemma arimaForecastEntries_split shift dl a preds :
  Forall (λ r, actual r = None ∧ (dl < pr_date r)%Z)
    (arimaForecastEntries shift dl a preds).
Proof.
  apply Forall_imap_intro. intros j v. simpl. split; [done|].
  pose proof (nthBusinessDayAfter_after shift dl (a + j + 1)). lia.
Qed.

(** On a host at a fixed offset from UTC: for a series with ascending
    dates whose last date is [dl] and that meets the forecaster's minimum,
    each forecaster returns a sequence that splits at index
    [length - forecastDays]: the entries before it carry an actual value and
    a date not after [dl], the entries from it on carry no actual value and
    a date after [dl]. (Across a change of the host's clock the first
    forecast date can be [dl] itself; the last part of the file evaluates
    such a call.) *)
Lemma split_on_fixed_offset_hosts (tz : Z) (data : list StockDataPoint)
    (windowSize : nat) (alpha : number) (p d q forecastDays : nat) (dl : date) :
  last (map sdp_date data) = Some dl →
  ascendingDates data →
  ((windowSize ≤ length data)%nat →
   ∃ rs, movingAveragePredict tz data windowSize forecastDays = Returns rs
         ∧ (forecastDays ≤ length rs)%nat
         ∧ splitsAt rs (length rs - forecastDays) dl)
  ∧ ((2 ≤ length data)%nat →
     ∃ rs, exponentialSmoothingPredict tz data alpha forecastDays = Returns rs
           ∧ (forecastDays ≤ length rs)%nat
           ∧ splitsAt rs (length rs - forecastDays) dl)
  ∧ ((p `max` q + d + 1 ≤ length data)%nat →
     ∃ rs, arimaPredict tz data p d q forecastDays = Returns rs
           ∧ (forecastDays ≤ length rs)%nat
           ∧ splitsAt rs (length rs - forecastDays) dl).
Proof.
  intros Hl Hs. split; [|split]; intros Hlen.
  - eexists. split; [by apply movingAveragePredict_returns|].
    rewrite length_app, maForecast_length. split; [lia|].
    replace (length (maBacktest data windowSize) + forecastDays - forecastDays)%nat
      with (length (maBacktest data windowSize)) by lia.
    apply splitsAt_app; [by apply maBacktest_split | apply maForecast_split].
  - eexists. split; [by apply exponentialSmoothingPredict_returns|].
    rewrite length_app, esForecast_length. split; [lia|].
    replace (length (esBacktest alpha data) + forecastDays - forecastDays)%nat
      with (length (esBacktest alpha data)) by lia.
    apply splitsAt_app; [by apply esBacktest_split | apply esForecast_split].
  - destruct (arimaPredict_returns tz data p d q forecastDays dl Hlen Hl)
      as (preds & Hpreds & ->).
    eexists. split; [done|].
    rewrite length_app, arimaForecastEntries_length, Hpreds. split; [lia|].
    match goal with
    | |- splitsAt _ (length ?bt + _ - _) _ =>
        replace (length bt + forecastDays - forecastDays)%nat
          with (length bt) by lia
    end.
    apply splitsAt_app;
      [by apply arimaBacktestEntries_split | apply arimaForecastEntries_split].
Qed.

(** ** The moving-average forecast *)

Lemma maWindow_iter (closes : list number) (w k : nat) :
  maWindow closes w k = Nat.iter k maStep (lastN w closes).
Proof. induction k as [|k IH]; simpl; [done|]. by rewrite IH. Qed.

Lemma slice_last_lastN {A} (n : nat) (l : list A) :
  (1 ≤ n)%nat → slice_last n l = lastN n l.
Proof. intros H. unfold slice_last. by destruct n; [lia|]. Qed.

Lemma maForecast_lookup shift dl W a fd k :
  (k < fd)%nat →
  maForecast shift dl W a fd !! k
  = Some {| pr_date := nthBusinessDayAfter shift dl (a + k + 1);
            actual := None;
            predicted := toFixed2 (mean (Nat.iter k maStep W));
            modelName := MOVING_AVERAGE |}.
Proof.
  intros Hk. unfold maForecast.
  change (map ?f ?l) with (f <$> l).
  by rewrite list_lookup_fmap, lookup_seq_lt.
Qed.

(** ** The exponential-smoothing backtest *)

(** The level at index [i >= 1] reads only the closes before index [i]. *)
Lemma esLevel_reads_before (alpha : number) (closes closes' : list number)
    (i : nat) :
  (1 ≤ i)%nat → take i closes' = take i closes →
  esLevel alpha closes' i = esLevel alpha closes i.
Proof.
  intros Hi Ht.
  assert (Hnth : ∀ j, (j < i)%nat → nth j closes' 0%Qc = nth j closes 0%Qc).
  { intros j Hj. rewrite !nth_lookup.
    by rewrite <- (lookup_take_lt closes' i j), <- (lookup_take_lt closes i j), Ht
      by done. }
  clear Ht. induction i as [|i IH]; [lia|].
  simpl. rewrite (Hnth i) by lia. f_equal. f_equal.
  destruct i as [|i'].
  - simpl. apply Hnth. lia.
  - apply IH; [lia|]. intros j Hj. apply Hnth. lia.
Qed.

Lemma esBacktest_prefix (alpha : number) (data : list StockDataPoint)
    (fc : list PredictionResult) :
  take (length data - 1) (esBacktest alpha data ++ fc) = esBacktest alpha data.
Proof.
  rewrite take_app_le by (rewrite esBacktest_length; lia).
  apply take_ge. rewrite esBacktest_length. lia.
Qed.

Lemma scenario_B_level :
  toFixed2 (esLevel (Q2Qc (3 # 10)) [Q2Qc 10; Q2Qc 20] 1) = Q2Qc 10.
Proof. by apply Qc_is_canon. Qed.

(** ** The ARIMA backtest with [d = 1] *)

Lemma difference_firstDifferences (l : list number) :
  difference l = firstDifferences l.
Proof.
  unfold difference, firstDifferences. apply list_eq. intros k.
  change (map ?f ?l') with (f <$> l').
  rewrite list_lookup_imap, lookup_drop, list_lookup_fmap.
  destruct (decide (k < length l - 1)%nat) as [Hk|Hk].
  - rewrite lookup_seq_lt by done.
    rewrite (nth_lookup_Some l (1 + k) 0%Qc) by lia.
    simpl. do 3 f_equal. lia.
  - rewrite (lookup_ge_None_2 l (1 + k)) by lia.
    rewrite (lookup_ge_None_2 (seq 0 (length l - 1))) by (rewrite length_seq; lia).
    done.
Qed.

Lemma nth_map_seq (f : nat → number) (m i : nat) :
  (i < m)%nat → nth i (map f (seq 0 m)) 0%Qc = f i.
Proof.
  intros H. rewrite nth_lookup. change (map f ?l) with (f <$> l).
  by rewrite list_lookup_fmap, lookup_seq_lt.
Qed.

Lemma arimaBacktestEntries_lookup closes dates predictions p d q i :
  (i < length predictions)%nat →
  arimaBacktestEntries closes dates predictions p d q !! i
  = Some {| pr_date := nth (i + p `max` q + d) dates 0%Z;
            actual := Some (nth (i + p `max` q + d) closes 0%Qc);
            predicted :=
              toFixed2
                (fold_left (λ undiffValue j,
                   (undiffValue + nth (i + p `max` q + d - j - 1) closes 0)%Qc)
                   (seq 0 d) (nth i predictions 0%Qc));
            modelName := ARIMA |}.
Proof.
  intros H. unfold arimaBacktestEntries. change (map ?f ?l) with (f <$> l).
  by rewrite list_lookup_fmap, lookup_seq_lt.
Qed.

(** ** Mean absolute error *)

Lemma Q2Qc_nonneg (q : Q) : (0 <= q)%Q → (0 ≤ Q2Qc q)%Qc.
Proof.
  intros H. unfold Qcle. simpl. by rewrite !Qred_correct.
Qed.

Lemma num_of_nat_nonneg (n : nat) : (0 ≤ num_of_nat n)%Qc.
Proof.
  apply Q2Qc_nonneg. unfold Qle. simpl. lia.
Qed.

Lemma Qcinv_nonneg (x : number) : (0 ≤ x)%Qc → (0 ≤ / x)%Qc.
Proof.
  intros H. unfold Qcinv. apply Q2Qc_nonneg. by apply Qinv_le_0_compat.
Qed.

Lemma Qcdiv_nonneg (x y : number) : (0 ≤ x)%Qc → (0 ≤ y)%Qc → (0 ≤ x / y)%Qc.
Proof.
  intros Hx Hy. unfold Qcdiv.
  rewrite <- (Qcmult_0_l (/ y)).
  apply Qcmult_le_compat_r; [done | by apply Qcinv_nonneg].
Qed.

Lemma sumQc_nonneg (l : list number) :
  Forall (λ x, (0 ≤ x)%Qc) l → (0 ≤ sumQc l)%Qc.
Proof.
  induction 1 as [|x l Hx _ IH]; simpl; [apply Qcle_refl|].
  rewrite <- (Qcplus_0_l 0). by apply Qcplus_le_compat.
Qed.

Lemma mean_nonneg (l : list number) :
  Forall (λ x, (0 ≤ x)%Qc) l → (0 ≤ mean l)%Qc.
Proof.
  intros H. apply Qcdiv_nonneg; [by apply sumQc_nonneg | apply num_of_nat_nonneg].
Qed.

Lemma toFixed2_nonneg (x : number) : (0 ≤ x)%Qc → (0 ≤ toFixed2 x)%Qc.
Proof.
  intros Hx. unfold toFixed2.
  assert (Hnum : (0 <= Qnum (this x))%Z).
  { unfold Qcle, Qle in Hx. simpl in Hx. lia. }
  destruct (Z.ltb_spec (Qnum (this x)) 0) as [|_]; [lia|].
  apply Q2Qc_nonneg.
  assert (H0 : (0 <= Qfloor (Qabs (this x) * 100 + (1 # 2)))%Z).
  { change 0%Z with (Qfloor 0). apply Qfloor_resp_le.
    assert (0 <= Qabs (this x))%Q by apply Qabs_nonneg.
    assert (0 <= Qabs (this x) * 100)%Q by (apply Qmult_le_0_compat; done).
    replace 0%Q with (0 + 0)%Q by reflexivity.
    apply Qplus_le_compat; done. }
  unfold Qle. cbn [Qnum Qden]. lia.
Qed.

Lemma toFixed2_zero : toFixed2 0 = 0%Qc.
Proof. by apply Qc_is_canon. Qed.

Lemma absoluteErrors_nonneg (predictions : list PredictionResult) :
  Forall (λ x, (0 ≤ x)%Qc) (absoluteErrors predictions).
Proof.
  unfold absoluteErrors.
  induction predictions as [|r l IH]; simpl; [constructor|].
  destruct (actual r) as [a|]; simpl; [|done].
  constructor; [apply Qcabs_nonneg | done].
Qed.

Lemma absoluteErrors_validPairs (predictions : list PredictionResult) :
  map (λ p, Qcabs (as_number (actual p) - predicted p))
      (filter (λ p, is_Some (actual p)) predictions)
  = absoluteErrors predictions.
Proof.
  unfold absoluteErrors.
  induction predictions as [|r l IH]; [done|].
  destruct (actual r) as [a|] eqn:Ha.
  - rewrite filter_cons_True by (rewrite Ha; eauto).
    simpl. rewrite Ha. simpl. by rewrite IH.
  - rewrite filter_cons_False by (rewrite Ha; by intros [x Hx]).
    simpl. rewrite Ha. simpl. done.
Qed.

(** [calculateMAE] in closed form. *)
Lemma calculateMAE_mean (predictions : list PredictionResult) :
  calculateMAE predictions
  = match absoluteErrors predictions with
    | [] => 0%Qc
    | errors => toFixed2 (mean errors)
    end.
Proof.
  unfold calculateMAE.
  rewrite (fold_left_sum (λ p, Qcabs (as_number (actual p) - predicted p))).
  rewrite absoluteErrors_validPairs, Qcplus_0_l.
  rewrite <- (length_map (λ p, Qcabs (as_number (actual p) - predicted p))
               (filter (λ p, is_Some (actual p)) predictions)).
  rewrite absoluteErrors_validPairs.
  by destruct (absoluteErrors predictions).
Qed.

Lemma calculateMAE_nonneg (predictions : list PredictionResult) :
  (0 ≤ calculateMAE predictions)%Qc.
Proof.
  rewrite calculateMAE_mean.
  pose proof (absoluteErrors_nonneg predictions) as H.
  destruct (absoluteErrors predictions) as [|e errors]; [apply Qcle_refl|].
  apply toFixed2_nonneg. by apply mean_nonneg.
Qed.

Lemma absoluteErrors_cons (r : PredictionResult) (l : list PredictionResult) :
  absoluteErrors (r :: l)
  = match actual r with
    | Some a => Qcabs (a - predicted r) :: absoluteErrors l
    | None => absoluteErrors l
    end.
Proof. unfold absoluteErrors. simpl. by destruct (actual r). Qed.

Lemma absoluteErrors_backtestPortion (predictions : list PredictionResult) :
  absoluteErrors (backtestPortion predictions) = absoluteErrors predictions.
Proof.
  induction predictions as [|r l IH]; [done|].
  unfold backtestPortion in *. rewrite (absoluteErrors_cons r l).
  destruct (actual r) as [a|] eqn:Ha.
  - rewrite filter_cons_True by (rewrite Ha; eauto).
    by rewrite absoluteErrors_cons, Ha, IH.
  - rewrite filter_cons_False by (rewrite Ha; by intros [x Hx]).
    done.
Qed.

Lemma absoluteErrors_exact (predictions : list PredictionResult) :
  Forall (λ r, actual r = Some (predicted r)) predictions →
  absoluteErrors predictions = replicate (length predictions) 0%Qc.
Proof.
  induction 1 as [|r l Hr _ IH]; [done|].
  rewrite absoluteErrors_cons, Hr, IH. simpl. f_equal.
  replace (predicted r - predicted r)%Qc with 0%Qc by ring.
  by apply Qc_is_canon.
Qed.

Lemma sumQc_zeros (n : nat) : sumQc (replicate n 0%Qc) = 0%Qc.
Proof. induction n as [|n IH]; simpl; [done|]. rewrite IH. ring. Qed.

(** A backtest that predicts every actual value exactly has error 0. *)
Lemma calculateMAE_exact (predictions : list PredictionResult) :
  Forall (λ r, actual r = Some (predicted r)) predictions →
  calculateMAE predictions = 0%Qc.
Proof.
  intros H. rewrite calculateMAE_mean, (absoluteErrors_exact _ H).
  assert (Hz : toFixed2 (mean (replicate (length predictions) 0%Qc)) = 0%Qc).
  { unfold mean. rewrite sumQc_zeros. unfold Qcdiv. rewrite Qcmult_0_l.
    apply toFixed2_zero. }
  destruct (replicate (length predictions) 0%Qc); done.
Qed.

Lemma calculateMAE_backtestPortion (predictions : list PredictionResult) :
  calculateMAE (backtestPortion predictions) = calculateMAE predictions.
Proof. by rewrite !calculateMAE_mean, absoluteErrors_backtestPortion. Qed.

Lemma absoluteErrors_none (predictions : list PredictionResult) :
  backtestPortion predictions = [] → absoluteErrors predictions = [].
Proof.
  intros H. rewrite <- absoluteErrors_backtestPortion. by rewrite H.
Qed.

Lemma constant_closes (data : list StockDataPoint) (c : number) :
  Forall (λ x, close x = c) data →
  map close data = replicate (length data) c.
Proof. induction 1 as [|x l Hx _ IH]; simpl; [done|]. by rewrite Hx, IH. Qed.

Lemma slice_replicate {A} (c : A) (n w i : nat) :
  (w ≤ i)%nat → (i ≤ n)%nat →
  slice (i - w) i (replicate n c) = replicate w c.
Proof.
  intros Hw Hi. unfold slice.
  rewrite drop_replicate, take_replicate. f_equal. lia.
Qed.

Lemma scenario_A_mean : toFixed2 (mean (replicate 5 (Q2Qc 100))) = Q2Qc 100.
Proof. by apply Qc_is_canon. Qed.

Lemma scenario_A_backtest (data : list StockDataPoint) :
  length data = 10%nat → Forall (λ x, close x = Q2Qc 100) data →
  Forall (λ r, actual r = Some (Q2Qc 100) ∧ predicted r = Q2Qc 100)
    (maBacktest data 5).
Proof.
  intros Hlen Hc. apply Forall_map_seq. intros i Hi. simpl.
  rewrite (constant_closes data _ Hc), Hlen.
  rewrite nth_replicate_lt by lia.
  rewrite slice_replicate by lia.
  by rewrite scenario_A_mean.
Qed.

(** ** The model selector *)

Lemma determineBestModel_metrics
    (predictions : ForecastingModel → list PredictionResult) :
  metrics (determineBestModel predictions)
  = [ (MOVING_AVERAGE,
       {| mae := calculateMAE (predictions MOVING_AVERAGE);
          mpe := calculateMPE (predictions MOVING_AVERAGE) |});
      (EXPONENTIAL_SMOOTHING,
       {| mae := calculateMAE (predictions EXPONENTIAL_SMOOTHING);
          mpe := calculateMPE (predictions EXPONENTIAL_SMOOTHING) |});
      (ARIMA,
       {| mae := calculateMAE (predictions ARIMA);
          mpe := calculateMPE (predictions ARIMA) |}) ].
Proof.
  unfold determineBestModel. cbn [fold_left].
  repeat case_bool_decide; reflexivity.
Qed.

Lemma determineBestModel_bestModel
    (predictions : ForecastingModel → list PredictionResult) :
  bestModel (determineBestModel predictions)
  = firstMinimal (calculateMAE (predictions MOVING_AVERAGE))
      (calculateMAE (predictions EXPONENTIAL_SMOOTHING))
      (calculateMAE (predictions ARIMA)).
Proof.
  unfold determineBestModel, firstMinimal. cbn [fold_left].
  change (from_option mae 0%Qc (metricsOf _ MOVING_AVERAGE))
    with (calculateMAE (predictions MOVING_AVERAGE)).
  cbn [mae].
  destruct (bool_decide_reflect
    (calculateMAE (predictions MOVING_AVERAGE)
     < calculateMAE (predictions MOVING_AVERAGE))%Qc) as [Hirr|_].
  { by apply Qclt_not_eq in Hirr. }
  repeat (case_bool_decide; cbn [mae] in *); try done.
Qed.

Lemma firstMinimal_minimal (a b c : number) (predictionsMAE : ForecastingModel → number) :
  predictionsMAE MOVING_AVERAGE = a →
  predictionsMAE EXPONENTIAL_SMOOTHING = b →
  predictionsMAE ARIMA = c →
  (∀ model, (predictionsMAE (firstMinimal a b c) ≤ predictionsMAE model)%Qc)
  ∧ (∀ model, predictionsMAE model = predictionsMAE (firstMinimal a b c) →
       (priority (firstMinimal a b c) ≤ priority model)%nat).
Proof.
  intros Ha Hb Hc. unfold firstMinimal.
  split; intros model; repeat case_bool_decide;
    destruct model; rewrite ?Ha, ?Hb, ?Hc; simpl;
    try (intros Heq; rewrite Heq in *);
    unfold Qclt, Qcle in *;
    first [ lia | q_order | exfalso; q_order ].
Qed.

(** ** Forecast dates (claim C8) *)

Lemma dayShift_east (tz : Z) : (0 ≤ tz < 1440)%Z → dayShift tz = 0%Z.
Proof.
  intros H. unfold dayShift, msPerMinute, msPerDay. apply Z.div_small. lia.
Qed.

Lemma dayShift_west (tz : Z) : (-1440 ≤ tz < 0)%Z → dayShift tz = (-1)%Z.
Proof.
  intros H. unfold dayShift, msPerMinute, msPerDay.
  symmetry. apply (Z.div_unique_pos _ _ _ (tz * 60000 + 86400000)); lia.
Qed.

Lemma nextBusinessDayAfter_business (d : date) :
  isBusinessDay (nextBusinessDayAfter 0 d) = true.
Proof.
  unfold nextBusinessDayAfter. rewrite !Z.add_0_r.
  destruct (isBusinessDay (d + 1)) eqn:H1; [done|].
  destruct (isBusinessDay (d + 2)) eqn:H2; [done|].
  replace (d + 2)%Z with (d + 1 + 1)%Z in H2 by lia.
  pose proof (weekend_at_most_two _ H1 H2) as H3.
  by replace (d + 1 + 2)%Z with (d + 3)%Z in H3 by lia.
Qed.

Lemma businessDaysWithin_next (d r : date) (len : nat) :
  r = (d + Z.of_nat len)%Z →
  ∃ len', nextBusinessDayAfter 0 r = (d + Z.of_nat len')%Z
          ∧ businessDaysWithin d len' = S (businessDaysWithin d len).
Proof.
  intros ->. unfold nextBusinessDayAfter. rewrite !Z.add_0_r.
  destruct (isBusinessDay (d + Z.of_nat len + 1)) eqn:H1.
  { exists (S len). split; [lia|]. simpl businessDaysWithin.
    replace (d + Z.of_nat (S len))%Z with (d + Z.of_nat len + 1)%Z by lia.
    rewrite H1. lia. }
  destruct (isBusinessDay (d + Z.of_nat len + 2)) eqn:H2.
  { exists (S (S len)). split; [lia|]. simpl businessDaysWithin.
    replace (d + Z.of_nat (S len))%Z with (d + Z.of_nat len + 1)%Z by lia.
    replace (d + Z.of_nat (S (S len)))%Z with (d + Z.of_nat len + 2)%Z by lia.
    rewrite H1, H2. lia. }
  exists (S (S (S len))). split; [lia|]. simpl businessDaysWithin.
  replace (d + Z.of_nat (S len))%Z with (d + Z.of_nat len + 1)%Z by lia.
  replace (d + Z.of_nat (S (S len)))%Z with (d + Z.of_nat len + 2)%Z by lia.
  replace (d + Z.of_nat (S (S (S len))))%Z with (d + Z.of_nat len + 3)%Z by lia.
  replace (d + Z.of_nat len + 2)%Z with (d + Z.of_nat len + 1 + 1)%Z in H2 by lia.
  pose proof (weekend_at_most_two _ H1 H2) as H3.
  replace (d + Z.of_nat len + 1 + 2)%Z with (d + Z.of_nat len + 3)%Z in H3 by lia.
  replace (d + Z.of_nat len + 1 + 1)%Z with (d + Z.of_nat len + 2)%Z in H2 by lia.
  rewrite H1, H2, H3. lia.
Qed.

(** On the UTC calendar [nthBusinessDayAfter 0 d k] is the [k]-th business
    day after [d]: it is [d] plus some number of days [len] such that exactly
    [k] of the days [d + 1 .. d + len] are Monday to Friday, and for
    [k >= 1] the day itself is one of them. *)
Lemma nthBusinessDayAfter_counts (d : date) (k : nat) :
  ∃ len, nthBusinessDayAfter 0 d k = (d + Z.of_nat len)%Z
         ∧ businessDaysWithin d len = k
         ∧ ((1 ≤ k)%nat → isBusinessDay (nthBusinessDayAfter 0 d k) = true).
Proof.
  induction k as [|k (len & Hr & Hc & _)].
  - exists 0%nat. unfold nthBusinessDayAfter. simpl. repeat split; lia.
  - rewrite nthBusinessDayAfter_S.
    destruct (businessDaysWithin_next d _ len Hr) as (len' & Hr' & Hc').
    exists len'. repeat split; [done | lia |].
    intros _. apply nextBusinessDayAfter_business.
Qed.

(** The dates of the forecast portion, for any host zone. *)
Lemma maForecast_dates shift dl W fd :
  map pr_date (maForecast shift dl W 0 fd)
  = map (λ k, nthBusinessDayAfter shift dl (S k)) (seq 0 fd).
Proof.
  unfold maForecast. rewrite map_map. apply map_ext. intros k. cbn [pr_date].
  f_equal. lia.
Qed.

Lemma esForecast_dates alpha shift dl st fd :
  map pr_date (esForecast alpha shift dl st 0 fd)
  = map (λ k, nthBusinessDayAfter shift dl (S k)) (seq 0 fd).
Proof.
  unfold esForecast. rewrite map_map. apply map_ext. intros k. cbn [pr_date].
  f_equal. lia.
Qed.

Lemma arimaForecastEntries_dates shift dl preds :
  map pr_date (arimaForecastEntries shift dl 0 preds)
  = map (λ k, nthBusinessDayAfter shift dl (S k)) (seq 0 (length preds)).
Proof.
  unfold arimaForecastEntries.
  match goal with
  | |- map ?f ?a = map ?g ?b => change (f <$> a = g <$> b)
  end.
  rewrite fmap_imap.
  rewrite <- (imap_seq_0 preds (λ k, nthBusinessDayAfter shift dl (S k))).
  apply imap_ext. intros k v _. cbn [pr_date compose]. f_equal. lia.
Qed.

(** In every host zone the three forecasters date their [k]-th forecast
    (from 1) on the [k]-th day that the host's calendar takes for a
    business day; the dates ascend strictly. *)
Lemma forecast_dates (tz : Z) (data : list StockDataPoint)
    (windowSize : nat) (alpha : number) (p d q forecastDays : nat) (dl : date) :
  last (map sdp_date data) = Some dl →
  ((windowSize ≤ length data)%nat →
   ∃ rs, movingAveragePredict tz data windowSize forecastDays = Returns rs
         ∧ map pr_date (forecastPortion rs)
           = map (λ k, nthBusinessDayAfter (dayShift tz) dl (S k))
                 (seq 0 forecastDays))
  ∧ ((2 ≤ length data)%nat →
     ∃ rs, exponentialSmoothingPredict tz data alpha forecastDays = Returns rs
           ∧ map pr_date (forecastPortion rs)
             = map (λ k, nthBusinessDayAfter (dayShift tz) dl (S k))
                   (seq 0 forecastDays))
  ∧ ((p `max` q + d + 1 ≤ length data)%nat →
     ∃ rs, arimaPredict tz data p d q forecastDays = Returns rs
           ∧ map pr_date (forecastPortion rs)
             = map (λ k, nthBusinessDayAfter (dayShift tz) dl (S k))
                   (seq 0 forecastDays)).
Proof.
  intros Hl. split; [|split]; intros Hlen.
  - eexists. split; [by apply movingAveragePredict_returns|].
    destruct (portions_of_result _ _ (maBacktest_actual data windowSize)
      (maForecast_actual (dayShift tz) dl
         (slice_last windowSize (map close data)) 0 forecastDays)) as [_ ->].
    apply maForecast_dates.
  - eexists. split; [by apply exponentialSmoothingPredict_returns|].
    destruct (portions_of_result _ _ (esBacktest_actual alpha data)
      (esForecast_actual alpha (dayShift tz) dl
         (esLevel alpha (map close data) (length data - 1),
          nth (length data - 1) (map close data) 0%Qc) 0 forecastDays))
      as [_ ->].
    apply esForecast_dates.
  - destruct (arimaPredict_returns tz data p d q forecastDays dl Hlen Hl)
      as (preds & Hpreds & ->).
    eexists. split; [done|].
    destruct (portions_of_result _ _
      (arimaBacktestEntries_actual (map close data) (map sdp_date data)
         (arimaPredictions data p d q) p d q)
      (arimaForecastEntries_actual (dayShift tz) dl 0 preds)) as [_ ->].
    by rewrite arimaForecastEntries_dates, Hpreds.
Qed.

(** On a host at UTC or east of it these are the business days of the
    calendar the dates are printed in: the [k]-th forecast is dated the
    [k]-th business day after the last historical date. *)
Lemma forecast_dates_east_of_UTC (tz : Z) (data : list StockDataPoint)
    (windowSize : nat) (alpha : number) (p d q forecastDays : nat) (dl : date) :
  (0 ≤ tz < 1440)%Z →
  last (map sdp_date data) = Some dl →
  ((windowSize ≤ length data)%nat →
   ∃ rs, movingAveragePredict tz data windowSize forecastDays = Returns rs
         ∧ map pr_date (forecastPortion rs)
           = map (λ k, nthBusinessDayAfter 0 dl (S k)) (seq 0 forecastDays))
  ∧ ((2 ≤ length data)%nat →
     ∃ rs, exponentialSmoothingPredict tz data alpha forecastDays = Returns rs
           ∧ map pr_date (forecastPortion rs)
             = map (λ k, nthBusinessDayAfter 0 dl (S k)) (seq 0 forecastDays))
  ∧ ((p `max` q + d + 1 ≤ length data)%nat →
     ∃ rs, arimaPredict tz data p d q forecastDays = Returns rs
           ∧ map pr_date (forecastPortion rs)
             = map (λ k, nthBusinessDayAfter 0 dl (S k)) (seq 0 forecastDays)).
Proof.
  intros Htz Hl. rewrite <- (dayShift_east tz Htz).
  by apply forecast_dates.
Qed.

(** C8, the code at a failing input. On a host five hours west of UTC
    ([tzOffset = -300]) and a series that ends on Thursday 2024-01-11 (day
    19733), the seven forecast dates of [exponentialSmoothingPredict] are
    Fri 12, Sat 13, Tue 16, Wed 17, Thu 18, Fri 19 and Sat 20 January: two
    Saturdays, and both Mondays left out. [getDay] reads the local day,
    which is the day before the UTC day that [toISOString] prints. The
    second business day after the Thursday is Monday, day 19737. *)
Theorem C8_forecast_dates_west_of_UTC :
  ∃ rs,
    exponentialSmoothingPredict (-300)
      [samplePoint 19732 10; samplePoint 19733 20] (Q2Qc (3 # 10)) 7
    = Returns rs
    ∧ map pr_date (forecastPortion rs)
      = [19734; 19735; 19738; 19739; 19740; 19741; 19742]%Z
    ∧ getNextBusinessDay (-300) (Some 19733%Z) 2 = Returns 19735%Z
    ∧ dayOfWeek 19733 = 4%Z
    ∧ dayOfWeek 19735 = 6%Z
    ∧ isBusinessDay 19735 = false
    ∧ nthBusinessDayAfter 0 19733 2 = 19737%Z.
Proof.
  eexists. split; [vm_compute; reflexivity|].
  repeat split; vm_compute; reflexivity.
Qed.

(** ** What the operations write (claim C10) *)

Lemma preserved_refl (n : nat) (h : Store.heap) :
  (n ≤ length h)%nat → preserved n h h.
Proof. by split. Qed.

Lemma preserved_trans (n : nat) (h1 h2 h3 : Store.heap) :
  preserved n h1 h2 → preserved n h2 h3 → preserved n h1 h3.
Proof. intros [? E1] [? E2]. split; [done|]. by rewrite E2. Qed.

Lemma frames_ret {A} (n : nat) (a : A) (Φ : A → Prop) :
  Φ a → frames n (mret a) Φ.
Proof.
  intros Ha h Hn. split; [by apply preserved_refl|].
  intros a' [= <-]. done.
Qed.

Lemma frames_throw {A} (n : nat) (e : exn) (Φ : A → Prop) :
  frames n (Store.throw e) Φ.
Proof. intros h Hn. split; [by apply preserved_refl | done]. Qed.

Lemma frames_outOfSteps {A} (n : nat) (Φ : A → Prop) :
  frames n Store.outOfSteps Φ.
Proof. intros h Hn. split; [by apply preserved_refl | done]. Qed.

Lemma frames_bind {A B} (n : nat) (m : Store.M A) (k : A → Store.M B)
    (Φ : A → Prop) (Ψ : B → Prop) :
  frames n m Φ → (∀ a, Φ a → frames n (k a) Ψ) → frames n (m ≫= k) Ψ.
Proof.
  intros Hm Hk h Hn. unfold mbind, Store.M_bind, Store.bind.
  destruct (Hm h Hn) as [Hp HΦ].
  destruct (m h) as [[a| |] h1]; simpl in *; [|done..].
  destruct (Hk a (HΦ a eq_refl) h1 (proj1 Hp)) as [Hp' HΨ].
  split; [by eapply preserved_trans | done].
Qed.

Lemma frames_weaken {A} (n : nat) (m : Store.M A) (Φ Ψ : A → Prop) :
  frames n m Φ → (∀ a, Φ a → Ψ a) → frames n m Ψ.
Proof.
  intros Hm HΦ h Hn. destruct (Hm h Hn) as [Hp H]. split; [done|].
  intros a Ha. by apply HΦ, H.
Qed.

Lemma frames_alloc (n : nat) (c : Store.cell) :
  frames n (Store.alloc c) (λ l, (n ≤ l)%nat).
Proof.
  intros h Hn. unfold Store.alloc. cbn [fst snd]. split.
  - split; [rewrite length_app; lia|]. by rewrite take_app_le.
  - by intros a [= <-].
Qed.

Lemma frames_readCell (n : nat) (l : Store.loc) :
  frames n (Store.readCell l) (λ _, True).
Proof. intros h Hn. split; [by apply preserved_refl | done]. Qed.

(** Overwriting a cell at or above [n] leaves the first [n] cells alone. *)
Lemma frames_writeCell (n : nat) (l : Store.loc) (c : Store.cell) :
  (n ≤ l)%nat → frames n (Store.writeCell l c) (λ _, True).
Proof.
  intros Hl h Hn. unfold Store.writeCell. cbn [fst snd]. split; [|done].
  split; [by rewrite length_insert|]. by rewrite take_insert_ge.
Qed.

Create HintDb frames discriminated.

#[local] Hint Resolve frames_readCell frames_alloc frames_writeCell
  frames_throw frames_outOfSteps : frames.

(** Side conditions: a postcondition implied by the one at hand, or a
    locality fact. *)
Ltac frames_side :=
  intros; cbv beta in *;
  first [ assumption | exact I | simpl; assumption | simpl; lia | done ].

(** The postcondition a call provides is passed on as it is where the
    continuation leaves it open. *)
Ltac frames_post :=
  first [ let H := fresh in intros ? H; exact H | frames_side ].

(** Walks through a computation bind by bind; [leaf] handles the calls. *)
Ltac frames_walk leaf :=
  lazymatch goal with
  | |- frames _ (mbind _ _) _ =>
      eapply frames_bind;
        [frames_walk leaf | intros ? ?; cbv beta in *; frames_walk leaf]
  | |- frames _ (mret _) _ => apply frames_ret; frames_side
  | |- frames _ (if ?b then _ else _) _ => destruct b; frames_walk leaf
  | |- frames _ (match ?x with _ => _ end) _ => destruct x; frames_walk leaf
  | |- frames _ (let _ := _ in _) _ => cbv zeta; frames_walk leaf
  | |- frames _ _ _ =>
      first [ eapply frames_weaken;
                [ solve [eauto with frames]
                | frames_post ]
            | leaf ]
  end.

Ltac frames_basic := frames_walk ltac:(idtac; fail).

Lemma frames_getElems n a : frames n (Store.getElems a) (λ _, True).
Proof. unfold Store.getElems. frames_basic. Qed.

Lemma frames_setElems n a elems :
  localTo n a → frames n (Store.setElems a elems) (λ _, True).
Proof. intros H. unfold Store.setElems. frames_basic. Qed.

#[local] Hint Resolve frames_getElems frames_setElems : frames.

Lemma frames_lengthOf n a : frames n (Store.lengthOf a) (λ _, True).
Proof. unfold Store.lengthOf. frames_basic. Qed.

Lemma frames_index n a i : frames n (Store.index a i) (λ _, True).
Proof. unfold Store.index. frames_basic. Qed.

Lemma frames_push n a v : localTo n a → frames n (Store.push a v) (λ _, True).
Proof. intros H. unfold Store.push. frames_basic. Qed.

Lemma frames_shift n a : localTo n a → frames n (Store.shift a) (λ _, True).
Proof. intros H. unfold Store.shift. frames_basic. Qed.

Lemma frames_newArray n elems : frames n (Store.newArray elems) (localTo n).
Proof. unfold Store.newArray. frames_basic. Qed.

#[local] Hint Resolve frames_lengthOf frames_index frames_push frames_shift
  frames_newArray : frames.

Lemma frames_sliceOf n a i j : frames n (Store.sliceOf a i j) (localTo n).
Proof. unfold Store.sliceOf. frames_basic. Qed.

Lemma frames_sliceLastOf n a k : frames n (Store.sliceLastOf a k) (localTo n).
Proof. unfold Store.sliceLastOf. frames_basic. Qed.

Lemma frames_newVar n v : frames n (Store.newVar v) (λ x, (n ≤ x)%nat).
Proof. unfold Store.newVar. frames_basic. Qed.

Lemma frames_getVar n x : frames n (Store.getVar x) (λ _, True).
Proof. unfold Store.getVar. frames_basic. Qed.

Lemma frames_setVar n x v : (n ≤ x)%nat → frames n (Store.setVar x v) (λ _, True).
Proof. intros H. unfold Store.setVar. frames_basic. Qed.

Lemma frames_closeOf n d : frames n (Store.closeOf d) (λ _, True).
Proof. unfold Store.closeOf. frames_basic. Qed.

Lemma frames_dateOf n d : frames n (Store.dateOf d) (λ _, True).
Proof. unfold Store.dateOf. frames_basic. Qed.

Lemma frames_actualOf n p : frames n (Store.actualOf p) (λ _, True).
Proof. unfold Store.actualOf. frames_basic. Qed.

Lemma frames_predictedOf n p : frames n (Store.predictedOf p) (λ _, True).
Proof. unfold Store.predictedOf. frames_basic. Qed.

Lemma frames_newResult n date actual predicted modelName :
  frames n (Store.newResult date actual predicted modelName) (localTo n).
Proof. unfold Store.newResult. frames_basic. Qed.

#[local] Hint Resolve frames_sliceOf frames_sliceLastOf frames_newVar
  frames_getVar frames_setVar frames_closeOf frames_dateOf frames_actualOf
  frames_predictedOf frames_newResult : frames.

Lemma frames_hasActual n p : frames n (Store.hasActual p) (λ _, True).
Proof. unfold Store.hasActual. frames_basic. Qed.

Lemma frames_field n record model : frames n (Store.field record model) (λ _, True).
Proof. unfold Store.field. frames_basic. Qed.

Lemma frames_newRecord n fields : frames n (Store.newRecord fields) (localTo n).
Proof. unfold Store.newRecord. frames_basic. Qed.

Lemma frames_newMetricsPair n mae mpe :
  frames n (Store.newMetricsPair mae mpe) (localTo n).
Proof. unfold Store.newMetricsPair. frames_basic. Qed.

Lemma frames_maeOf n m : frames n (Store.maeOf m) (λ _, True).
Proof. unfold Store.maeOf. frames_basic. Qed.

Lemma frames_entries n record : frames n (Store.entries record) (λ _, True).
Proof. unfold Store.entries. frames_basic. Qed.

#[local] Hint Resolve frames_hasActual frames_field frames_newRecord
  frames_newMetricsPair frames_maeOf frames_entries : frames.

(** Loops and array methods with a callback: the frame of the callback is
    the frame of the whole. *)
Lemma frames_for_each {St} n idxs (body : nat → St → Store.M St) s :
  (∀ i s, frames n (body i s) (λ _, True)) →
  frames n (Store.for_each idxs body s) (λ _, True).
Proof.
  intros Hbody. revert s. induction idxs as [|i idxs IH]; intros s; simpl.
  - by apply frames_ret.
  - eapply frames_bind; [apply Hbody | intros s' _; apply IH].
Qed.

Lemma frames_for_ n idxs (body : nat → Store.M unit) :
  (∀ i, frames n (body i) (λ _, True)) →
  frames n (Store.for_ idxs body) (λ _, True).
Proof. intros H. apply frames_for_each. intros i _. apply H. Qed.

Lemma frames_forLoop n steps cond body i :
  (∀ i, frames n (cond i) (λ _, True)) →
  (∀ i, frames n (body i) (λ _, True)) →
  frames n (Store.forLoop steps cond body i) (λ _, True).
Proof.
  intros Hc Hb. revert i. induction steps as [|steps IH]; intros i; simpl.
  - apply frames_outOfSteps.
  - eapply frames_bind; [apply Hc|]. intros [|] _.
    + eapply frames_bind; [apply Hb | intros _ _; apply IH].
    + by apply frames_ret.
Qed.

Lemma frames_accumulate n steps cond body j acc :
  (∀ j, frames n (cond j) (λ _, True)) →
  (∀ j acc, frames n (body j acc) (λ _, True)) →
  frames n (Store.accumulate steps cond body j acc) (λ _, True).
Proof.
  intros Hc Hb. revert j acc.
  induction steps as [|steps IH]; intros j acc; simpl.
  - apply frames_outOfSteps.
  - eapply frames_bind; [apply Hc|]. intros [|] _.
    + eapply frames_bind; [apply Hb | intros acc' _; apply IH].
    + by apply frames_ret.
Qed.

Lemma frames_mapEach n f elems :
  (∀ v, frames n (f v) (λ _, True)) →
  frames n (Store.mapEach f elems) (λ _, True).
Proof.
  intros Hf. induction elems as [|v elems IH]; simpl.
  - by apply frames_ret.
  - eapply frames_bind; [apply Hf|]. intros w _.
    eapply frames_bind; [apply IH|]. intros ws _. by apply frames_ret.
Qed.

Lemma frames_mapOf n a f :
  (∀ v, frames n (f v) (λ _, True)) → frames n (Store.mapOf a f) (localTo n).
Proof.
  intros Hf. unfold Store.mapOf.
  eapply frames_bind; [apply frames_getElems|]. intros elems _.
  eapply frames_bind; [by apply frames_mapEach|]. intros mapped _.
  apply frames_newArray.
Qed.

Lemma frames_mapEachIndexed n f elems idx :
  (∀ v i, frames n (f v i) (λ _, True)) →
  frames n (Store.mapEachIndexed f elems idx) (λ _, True).
Proof.
  intros Hf. revert idx. induction elems as [|v elems IH]; intros idx; simpl.
  - by apply frames_ret.
  - eapply frames_bind; [apply Hf|]. intros w _.
    eapply frames_bind; [apply IH|]. intros ws _. by apply frames_ret.
Qed.

Lemma frames_mapIndexedOf n a f :
  (∀ v i, frames n (f v i) (λ _, True)) →
  frames n (Store.mapIndexedOf a f) (localTo n).
Proof.
  intros Hf. unfold Store.mapIndexedOf.
  eapply frames_bind; [apply frames_getElems|]. intros elems _.
  eapply frames_bind; [by apply frames_mapEachIndexed|]. intros mapped _.
  apply frames_newArray.
Qed.

Lemma frames_filterEach n f elems :
  (∀ v, frames n (f v) (λ _, True)) →
  frames n (Store.filterEach f elems) (λ _, True).
Proof.
  intros Hf. induction elems as [|v elems IH]; simpl.
  - by apply frames_ret.
  - eapply frames_bind; [apply Hf|]. intros keep _.
    eapply frames_bind; [apply IH|]. intros ws _. by apply frames_ret.
Qed.

Lemma frames_filterOf n a f :
  (∀ v, frames n (f v) (λ _, True)) → frames n (Store.filterOf a f) (localTo n).
Proof.
  intros Hf. unfold Store.filterOf.
  eapply frames_bind; [apply frames_getElems|]. intros elems _.
  eapply frames_bind; [by apply frames_filterEach|]. intros kept _.
  apply frames_newArray.
Qed.

Lemma frames_reduceEach n f elems acc :
  (∀ acc v, frames n (f acc v) (λ _, True)) →
  frames n (Store.reduceEach f elems acc) (λ _, True).
Proof.
  intros Hf. revert acc. induction elems as [|v elems IH]; intros acc; simpl.
  - by apply frames_ret.
  - eapply frames_bind; [apply Hf | intros acc' _; apply IH].
Qed.

Lemma frames_reduceOf n a f init :
  (∀ acc v, frames n (f acc v) (λ _, True)) →
  frames n (Store.reduceOf a f init) (λ _, True).
Proof.
  intros Hf. unfold Store.reduceOf.
  eapply frames_bind; [apply frames_getElems|]. intros elems _.
  by apply frames_reduceEach.
Qed.

Lemma frames_forEachEntry n es body :
  (∀ model v, frames n (body model v) (λ _, True)) →
  frames n (Store.forEachEntry es body) (λ _, True).
Proof.
  intros Hb. induction es as [|[model v] es IH]; simpl.
  - by apply frames_ret.
  - eapply frames_bind; [apply Hb | intros _ _; apply IH].
Qed.

(** The calls that take a callback or a loop body. *)
Ltac frames_call :=
  lazymatch goal with
  | |- frames _ (Store.forLoop _ _ _ _) _ =>
      eapply frames_weaken; [apply frames_forLoop; intros | frames_post]
  | |- frames _ (Store.for_ _ _) _ =>
      eapply frames_weaken; [apply frames_for_; intros | frames_post]
  | |- frames _ (Store.for_each _ _ _) _ =>
      eapply frames_weaken; [apply frames_for_each; intros | frames_post]
  | |- frames _ (Store.accumulate _ _ _ _ _) _ =>
      eapply frames_weaken; [apply frames_accumulate; intros | frames_post]
  | |- frames _ (Store.mapOf _ _) _ =>
      eapply frames_weaken; [apply frames_mapOf; intros | frames_post]
  | |- frames _ (Store.mapIndexedOf _ _) _ =>
      eapply frames_weaken; [apply frames_mapIndexedOf; intros | frames_post]
  | |- frames _ (Store.filterOf _ _) _ =>
      eapply frames_weaken; [apply frames_filterOf; intros | frames_post]
  | |- frames _ (Store.reduceOf _ _ _) _ =>
      eapply frames_weaken; [apply frames_reduceOf; intros | frames_post]
  | |- frames _ (Store.forEachEntry _ _) _ =>
      eapply frames_weaken; [apply frames_forEachEntry; intros | frames_post]
  end.

Ltac frames_go := frames_walk ltac:(idtac; frames_call; frames_go).

Lemma frames_businessDayLoop n tz steps date added daysToAdd :
  (n ≤ date)%nat →
  frames n (Store.businessDayLoop tz steps date added daysToAdd) (λ _, True).
Proof.
  intros Hd. revert added.
  induction steps as [|steps IH]; intros added; simpl.
  - destruct (added <? daysToAdd)%nat; [apply frames_outOfSteps | by apply frames_ret].
  - destruct (added <? daysToAdd)%nat; [|by apply frames_ret].
    eapply frames_bind; [apply frames_readCell|]. intros c _.
    eapply frames_bind; [by apply frames_writeCell|]. intros _ _.
    apply IH.
Qed.

#[local] Hint Resolve frames_businessDayLoop : frames.

Lemma frames_getNextBusinessDay n tz lastDateStr daysToAdd :
  frames n (Store.getNextBusinessDay tz lastDateStr daysToAdd) (λ _, True).
Proof. unfold Store.getNextBusinessDay. frames_go. Qed.

#[local] Hint Resolve frames_getNextBusinessDay : frames.

Lemma frames_movingAveragePredict n tz data windowSize forecastDays :
  frames n (Store.movingAveragePredict tz data windowSize forecastDays)
    (λ _, True).
Proof. unfold Store.movingAveragePredict. frames_go. Qed.

Lemma frames_exponentialSmoothingPredict n tz data alpha forecastDays :
  frames n (Store.exponentialSmoothingPredict tz data alpha forecastDays)
    (λ _, True).
Proof. unfold Store.exponentialSmoothingPredict. frames_go. Qed.

Lemma frames_arimaPredict n tz data p d q forecastDays :
  frames n (Store.arimaPredict tz data p d q forecastDays) (λ _, True).
Proof. unfold Store.arimaPredict. frames_go. Qed.

Lemma frames_calculateMAE n predictions :
  frames n (Store.calculateMAE predictions) (λ _, True).
Proof. unfold Store.calculateMAE. frames_go. Qed.

Lemma frames_calculateMPE n predictions :
  frames n (Store.calculateMPE predictions) (λ _, True).
Proof. unfold Store.calculateMPE. frames_go. Qed.

#[local] Hint Resolve frames_calculateMAE frames_calculateMPE : frames.

Lemma frames_determineBestModel n predictions :
  frames n (Store.determineBestModel predictions) (λ _, True).
Proof. unfold Store.determineBestModel. frames_go. Qed.

Lemma frames_unchangedIn {A} (m : Store.M A) (Φ : A → Prop) (h : Store.heap) :
  frames (length h) m Φ → unchangedIn h (m h).2.
Proof.
  intros Hm. destruct (Hm h (Nat.le_refl _)) as [[_ Htake] _].
  rewrite firstn_all in Htake.
  intros l c Hl. rewrite <- Htake in Hl.
  by rewrite lookup_take_lt in Hl by (apply lookup_lt_Some in Hl;
    rewrite length_take in Hl; lia).
Qed.

(** On sample runs the operations over the store return what the
    value-passing definitions return. *)
Lemma store_agrees_movingAverage :
  observe sampleSeries (λ data, Store.movingAveragePredict (-300) data 3 4)
  = match movingAveragePredict (-300) sampleSeries 3 4 with
    | Returns rs => Returns (Some rs)
    | Throws e => Throws e
    | OutOfSteps => OutOfSteps
    end.
Proof. vm_compute. reflexivity. Qed.

Lemma store_agrees_exponentialSmoothing :
  observe sampleSeries
    (λ data, Store.exponentialSmoothingPredict 0 data (Q2Qc (3 # 10)) 4)
  = match exponentialSmoothingPredict 0 sampleSeries (Q2Qc (3 # 10)) 4 with
    | Returns rs => Returns (Some rs)
    | Throws e => Throws e
    | OutOfSteps => OutOfSteps
    end.
Proof. vm_compute. reflexivity. Qed.

Lemma store_agrees_arima :
  observe sampleSeries (λ data, Store.arimaPredict 0 data 3 1 1 4)
  = match arimaPredict 0 sampleSeries 3 1 1 4 with
    | Returns rs => Returns (Some rs)
    | Throws e => Throws e
    | OutOfSteps => OutOfSteps
    end
  ∧ observe sampleSeries (λ data, Store.arimaPredict 60 data 2 2 3 2)
    = match arimaPredict 60 sampleSeries 2 2 3 2 with
      | Returns rs => Returns (Some rs)
      | Throws e => Throws e
      | OutOfSteps => OutOfSteps
      end.
Proof. split; vm_compute; reflexivity. Qed.

Lemma store_agrees_on_errors :
  observe [] (λ data, Store.movingAveragePredict 0 data 0 7)
  = Throws (RangeError "Invalid time value")
  ∧ observe sampleSeries (λ data, Store.arimaPredict 0 data 9 1 1 7)
    = Throws (Error "Not enough data points for ARIMA model.").
Proof. split; vm_compute; reflexivity. Qed.

Lemma store_agrees_metrics :
  ((data ← loadPredictionList (samplePredictions ARIMA);
    Store.calculateMAE data) []).1
  = Returns (calculateMAE (samplePredictions ARIMA))
  ∧ ((data ← loadPredictionList (samplePredictions ARIMA);
      Store.calculateMPE data) []).1
    = Returns (calculateMPE (samplePredictions ARIMA)).
Proof. split; vm_compute; reflexivity. Qed.

Lemma store_agrees_selector :
  (let run := (record ← loadPredictions samplePredictions;
               Store.determineBestModel record) [] in
   match run.1 with
   | Returns v => readRecommendation run.2 v
   | _ => None
   end)
  = Some (determineBestModel samplePredictions).
Proof. vm_compute. reflexivity. Qed.

(** The not-enough-data error comes before anything is allocated: the
    store at the throw is the store of the call. *)
Lemma insufficient_data_before_any_result (h : Store.heap) (tz : Z)
    (data : Store.loc) (alpha : number) (windowSize p d q forecastDays : nat) :
  let n := length (Store.elemsOf (h !! data)) in
  ((n < windowSize)%nat →
   ∃ message,
     Store.movingAveragePredict tz (Store.Ref data) windowSize forecastDays h
     = (Throws (Error message), h))
  ∧ ((n < 2)%nat →
     ∃ message,
       Store.exponentialSmoothingPredict tz (Store.Ref data) alpha forecastDays h
       = (Throws (Error message), h))
  ∧ ((n < p `max` q + d + 1)%nat →
     ∃ message,
       Store.arimaPredict tz (Store.Ref data) p d q forecastDays h
       = (Throws (Error message), h)).
Proof.
  intros n. repeat split; intros Hn; eexists.
  - unfold Store.movingAveragePredict, mbind, Store.M_bind, Store.bind. simpl.
    fold n. destruct (Nat.ltb_spec n windowSize); [reflexivity | lia].
  - unfold Store.exponentialSmoothingPredict, mbind, Store.M_bind, Store.bind.
    simpl. fold n. destruct (Nat.ltb_spec n 2); [reflexivity | lia].
  - unfold Store.arimaPredict, mbind, Store.M_bind, Store.bind. simpl.
    fold n. destruct (Nat.ltb_spec n (p `max` q + d + 1)); [reflexivity | lia].
Qed.

(** The rolling window of the moving average is a copy: after a run on
    [sampleSeries] with [windowSize = 3] and two forecast days the cell of
    [closePrices] (cell 9) still holds the eight closes, the cell of
    [lastPredictions] (cell 22) holds the shifted window, and the input
    array (cell 8) holds the references it held. *)
Lemma store_window_is_a_copy :
  let h' :=
    ((data ← loadSeries sampleSeries;
      Store.movingAveragePredict 0 data 3 2) []).2 in
  map (λ v, this (Store.numOf v)) (Store.elemsOf (h' !! 9%nat))
  = [100 # 1; 102 # 1; 101 # 1; 105 # 1; 107 # 1; 106 # 1; 110 # 1; 108 # 1]
  ∧ map (λ v, this (Store.numOf v)) (Store.elemsOf (h' !! 22%nat))
    = [108 # 1; 108 # 1; 10867 # 100]
  ∧ h' !! 8%nat
    = Some (Store.Arr (map Store.Ref (seq 0 8))).
Proof. repeat split; vm_compute; reflexivity. Qed.

(** C10. Whatever the store holds when one of the six operations is
    called, and however the call ends, every cell the store held before
    the call (the input array, each of its elements, anything else) holds
    the same content afterwards: the operations write only to cells they
    allocated themselves. *)
Theorem C10_inputs_not_mutated (h : Store.heap) (tz : Z)
    (data predictions record : Store.value) (alpha : number)
    (windowSize p d q forecastDays : nat) :
  unchangedIn h (Store.movingAveragePredict tz data windowSize forecastDays h).2
  ∧ unchangedIn h
      (Store.exponentialSmoothingPredict tz data alpha forecastDays h).2
  ∧ unchangedIn h (Store.arimaPredict tz data p d q forecastDays h).2
  ∧ unchangedIn h (Store.calculateMAE predictions h).2
  ∧ unchangedIn h (Store.calculateMPE predictions h).2
  ∧ unchangedIn h (Store.determineBestModel record h).2.
Proof.
  repeat split.
  - eapply frames_unchangedIn, frames_movingAveragePredict.
  - eapply frames_unchangedIn, frames_exponentialSmoothingPredict.
  - eapply frames_unchangedIn, frames_arimaPredict.
  - eapply frames_unchangedIn, frames_calculateMAE.
  - eapply frames_unchangedIn, frames_calculateMPE.
  - eapply frames_unchangedIn, frames_determineBestModel.
Qed.
(** ** Rounding to cents *)

(** Order and equality between two given numbers, by evaluation. *)
Ltac decide_numbers :=
  first
    [ by apply Qc_is_canon
    | apply Qc_is_canon; vm_compute; reflexivity
    | by (unfold Qcle, Qle; vm_compute; intros ?; discriminate)
    | by (unfold Qclt, Qlt; vm_compute) ].

Ltac decide_within := split; decide_numbers.

Ltac decide_isCents z := exists z; decide_numbers.

(** Stating [map] as stdpp's [fmap], for its lemmas. *)
Ltac to_fmap :=
  repeat match goal with
         | |- context [map ?f ?l] => change (map f l) with (f <$> l)
         end.

(** A property of the actual value of every entry of a given list. *)
Ltac decide_entries tac :=
  repeat (apply Forall_cons_2;
          [ let a := fresh in
            let Ha := fresh in
            intros a Ha; cbn in Ha;
            first [ discriminate Ha | injection Ha as <-; tac ]
          | ]);
  apply Forall_nil_2.

Lemma toFixed2_cents (x : number) : toFixed2 x = Q2Qc (cents x # 100).
Proof. reflexivity. Qed.

Lemma Qfloor_unique (x : Q) (n : Z) :
  (inject_Z n <= x)%Q → (x < inject_Z (n + 1))%Q → Qfloor x = n.
Proof.
  intros Hle Hlt.
  pose proof (Qfloor_le x) as H1. pose proof (Qlt_floor x) as H2.
  assert (Ha : (inject_Z (Qfloor x) < inject_Z (n + 1))%Q)
    by (eapply Qle_lt_trans; eauto).
  assert (Hb : (inject_Z n < inject_Z (Qfloor x + 1))%Q)
    by (eapply Qle_lt_trans; eauto).
  rewrite <- Zlt_Qlt in Ha, Hb. lia.
Qed.

Lemma Qnum_neg_iff (q : Q) : (Qnum q < 0)%Z ↔ (q < 0)%Q.
Proof. unfold Qlt. simpl. lia. Qed.

Lemma cents_of_cents (z : Z) : cents (Q2Qc (z # 100)) = z.
Proof.
  unfold cents. cbn [this Q2Qc].
  assert (Hred : Qred (z # 100) == z # 100) by apply Qred_correct.
  assert (Hfl : Qfloor (Qabs (Qred (z # 100)) * 100 + (1 # 2)) = Z.abs z).
  { rewrite Hred. apply Qfloor_unique.
    - unfold Qle. simpl. lia.
    - unfold Qlt. simpl. lia. }
  rewrite Hfl.
  destruct (Z.ltb_spec (Qnum (Qred (z # 100))) 0) as [Hn|Hn].
  - apply Qnum_neg_iff in Hn. rewrite Hred in Hn.
    apply Qnum_neg_iff in Hn. simpl in Hn. lia.
  - assert (¬ (Qnum (z # 100) < 0)%Z).
    { intros Hz. apply Qnum_neg_iff in Hz. rewrite <- Hred in Hz.
      apply Qnum_neg_iff in Hz. lia. }
    simpl in *. lia.
Qed.

(** Rounding leaves a whole number of cents as it is. *)
Lemma toFixed2_of_cents (x : number) : isCents x → toFixed2 x = x.
Proof. intros [z ->]. by rewrite toFixed2_cents, cents_of_cents. Qed.

Lemma toFixed2_isCents (x : number) : isCents (toFixed2 x).
Proof. by exists (cents x). Qed.

Lemma toFixed2_idempotent (x : number) : toFixed2 (toFixed2 x) = toFixed2 x.
Proof. apply toFixed2_of_cents, toFixed2_isCents. Qed.

Lemma isCents_fixed (x : number) : isCents x ↔ toFixed2 x = x.
Proof.
  split; [apply toFixed2_of_cents|]. intros <-. apply toFixed2_isCents.
Qed.

Lemma cents_mono (x y : number) : (x ≤ y)%Qc → (cents x ≤ cents y)%Z.
Proof.
  unfold Qcle, cents. intros Hxy.
  assert (Hfx : (0 <= Qfloor (Qabs (this x) * 100 + (1 # 2)))%Z).
  { change 0%Z with (Qfloor 0). apply Qfloor_resp_le.
    pose proof (Qabs_nonneg (this x)).
    assert (0 <= Qabs (this x) * 100)%Q by (apply Qmult_le_0_compat; done).
    replace 0%Q with (0 + 0)%Q by reflexivity.
    apply Qplus_le_compat; done. }
  assert (Hfy : (0 <= Qfloor (Qabs (this y) * 100 + (1 # 2)))%Z).
  { change 0%Z with (Qfloor 0). apply Qfloor_resp_le.
    pose proof (Qabs_nonneg (this y)).
    assert (0 <= Qabs (this y) * 100)%Q by (apply Qmult_le_0_compat; done).
    replace 0%Q with (0 + 0)%Q by reflexivity.
    apply Qplus_le_compat; done. }
  destruct (Z.ltb_spec (Qnum (this x)) 0) as [Hx|Hx];
    destruct (Z.ltb_spec (Qnum (this y)) 0) as [Hy|Hy]; try lia.
  - apply Qnum_neg_iff in Hx, Hy.
    rewrite (Qabs_neg (this x)), (Qabs_neg (this y)) by (by apply Qlt_le_weak).
    apply Z.opp_le_mono. rewrite !Z.opp_involutive.
    apply Qfloor_resp_le, Qplus_le_compat; [|apply Qle_refl].
    apply Qmult_le_compat_r; [|done]. by apply Qopp_le_compat.
  - exfalso. apply Qnum_neg_iff in Hy.
    assert (0 <= this x)%Q by (unfold Qle; simpl; lia).
    q_order.
  - assert (0 <= this x)%Q by (unfold Qle; simpl; lia).
    assert (0 <= this y)%Q by (unfold Qle; simpl; lia).
    rewrite (Qabs_pos (this x)), (Qabs_pos (this y)) by done.
    apply Qfloor_resp_le, Qplus_le_compat; [|apply Qle_refl].
    apply Qmult_le_compat_r; done.
Qed.

Lemma Q2Qc_cents_le (a b : Z) : (a ≤ b)%Z → (Q2Qc (a # 100) ≤ Q2Qc (b # 100))%Qc.
Proof.
  intros H. unfold Qcle. cbn [this Q2Qc]. rewrite !Qred_correct.
  unfold Qle. simpl. lia.
Qed.

(** Rounding keeps the order. *)
Lemma toFixed2_mono (x y : number) : (x ≤ y)%Qc → (toFixed2 x ≤ toFixed2 y)%Qc.
Proof. intros H. rewrite !toFixed2_cents. by apply Q2Qc_cents_le, cents_mono. Qed.

(** ** Order facts on numbers *)

Lemma num_of_nat_S (n : nat) : num_of_nat (S n) = (num_of_nat n + 1)%Qc.
Proof.
  unfold num_of_nat. apply Qc_is_canon. cbn [this Qcplus Q2Qc].
  rewrite !Qred_correct. rewrite Nat2Z.inj_succ. unfold Z.succ.
  rewrite inject_Z_plus. reflexivity.
Qed.

Lemma num_of_nat_pos (n : nat) : (0 < n)%nat → (0 < num_of_nat n)%Qc.
Proof.
  intros H. unfold num_of_nat, Qclt. cbn [this Q2Qc]. rewrite !Qred_correct.
  unfold Qlt. simpl. lia.
Qed.

Lemma num_of_nat_nonzero (n : nat) : (0 < n)%nat → num_of_nat n ≠ 0%Qc.
Proof.
  intros H E. pose proof (num_of_nat_pos n H) as Hp. rewrite E in Hp.
  by apply Qclt_not_eq in Hp.
Qed.

Lemma Qcle_sub_nonneg (x y : number) : (x ≤ y)%Qc ↔ (0 ≤ y - x)%Qc.
Proof. unfold Qcminus. apply Qcle_minus_iff. Qed.

(** A mixture of two numbers with weights [alpha] and [1 - alpha] between
    0 and 1 lies between them. *)
Lemma mixture_bounds (alpha a b lo hi : number) :
  (0 ≤ alpha)%Qc → (alpha ≤ 1)%Qc →
  (lo ≤ a)%Qc → (a ≤ hi)%Qc → (lo ≤ b)%Qc → (b ≤ hi)%Qc →
  within lo hi (alpha * a + (1 - alpha) * b)%Qc.
Proof.
  intros H0 H1 Hla Hah Hlb Hbh.
  apply Qcle_sub_nonneg in H1, Hla, Hah, Hlb, Hbh.
  split; apply Qcle_sub_nonneg.
  - replace (alpha * a + (1 - alpha) * b - lo)%Qc
      with (alpha * (a - lo) + (1 - alpha) * (b - lo))%Qc by ring.
    apply Qcplus_nonneg_nonneg; by apply Qcmult_nonneg_nonneg.
  - replace (hi - (alpha * a + (1 - alpha) * b))%Qc
      with (alpha * (hi - a) + (1 - alpha) * (hi - b))%Qc by ring.
    apply Qcplus_nonneg_nonneg; by apply Qcmult_nonneg_nonneg.
Qed.

Lemma sumQc_bounds (lo hi : number) (l : list number) :
  Forall (within lo hi) l →
  (num_of_nat (length l) * lo ≤ sumQc l)%Qc
  ∧ (sumQc l ≤ num_of_nat (length l) * hi)%Qc.
Proof.
  induction 1 as [|x l [Hlo Hhi] _ [IH1 IH2]].
  - simpl. change (num_of_nat 0) with 0%Qc. rewrite !Qcmult_0_l.
    split; apply Qcle_refl.
  - cbn [length sumQc foldr]. rewrite num_of_nat_S. split.
    + replace ((num_of_nat (length l) + 1) * lo)%Qc
        with (lo + num_of_nat (length l) * lo)%Qc by ring.
      by apply Qcplus_le_compat.
    + replace ((num_of_nat (length l) + 1) * hi)%Qc
        with (hi + num_of_nat (length l) * hi)%Qc by ring.
      by apply Qcplus_le_compat.
Qed.

(** The mean of a non-empty list lies between any bounds of its elements. *)
Lemma mean_bounds (lo hi : number) (l : list number) :
  l ≠ [] →
  Forall (within lo hi) l →
  within lo hi (mean l).
Proof.
  intros Hne Hl. destruct (sumQc_bounds lo hi l Hl) as [H1 H2].
  assert (Hpos : (0 < num_of_nat (length l))%Qc).
  { apply num_of_nat_pos. destruct l; [done | simpl; lia]. }
  assert (Hnz : num_of_nat (length l) ≠ 0%Qc).
  { intros E. rewrite E in Hpos. by apply Qclt_not_eq in Hpos. }
  unfold mean. split.
  - apply (Qcmult_lt_0_le_reg_r _ _ _ Hpos).
    rewrite test_field by done. by rewrite Qcmult_comm.
  - apply (Qcmult_lt_0_le_reg_r _ _ _ Hpos).
    rewrite test_field by done. by rewrite (Qcmult_comm hi).
Qed.

(** Rounding a number between two whole numbers of cents keeps it between
    them. *)
Lemma toFixed2_bounds (lo hi x : number) :
  isCents lo → isCents hi → (lo ≤ x)%Qc → (x ≤ hi)%Qc →
  within lo hi (toFixed2 x).
Proof.
  intros Hlo Hhi H1 H2. split.
  - rewrite <- (toFixed2_of_cents lo Hlo). by apply toFixed2_mono.
  - rewrite <- (toFixed2_of_cents hi Hhi). by apply toFixed2_mono.
Qed.

(** ** Predictions stay in the range of the closes *)

Lemma maStep_within (lo hi : number) (W : list number) :
  isCents lo → isCents hi → W ≠ [] → Forall (within lo hi) W →
  maStep W ≠ [] ∧ Forall (within lo hi) (maStep W).
Proof.
  intros Hlo Hhi Hne HW. unfold maStep, shift_push. split.
  - by destruct (tail W).
  - apply Forall_app. split.
    + destruct W; [done|]. by inversion HW.
    + constructor; [|done].
      destruct (mean_bounds lo hi W Hne HW). by apply toFixed2_bounds.
Qed.

Lemma iter_maStep_within (lo hi : number) (W : list number) (k : nat) :
  isCents lo → isCents hi → W ≠ [] → Forall (within lo hi) W →
  Nat.iter k maStep W ≠ [] ∧ Forall (within lo hi) (Nat.iter k maStep W).
Proof.
  intros Hlo Hhi Hne HW. induction k as [|k [IH1 IH2]]; [done|].
  simpl. by apply maStep_within.
Qed.

Lemma slice_last_within (lo hi : number) (n : nat) (l : list number) :
  Forall (within lo hi) l → Forall (within lo hi) (slice_last n l).
Proof.
  intros H. unfold slice_last. destruct (n =? 0)%nat; [done|].
  by apply Forall_drop.
Qed.

Lemma slice_within (lo hi : number) (i j : nat) (l : list number) :
  Forall (within lo hi) l → Forall (within lo hi) (slice i j l).
Proof. intros H. unfold slice. by apply Forall_take, Forall_drop. Qed.

Lemma closes_within (lo hi : number) (data : list StockDataPoint) :
  Forall (λ x, within lo hi (close x)) data →
  Forall (within lo hi) (map close data).
Proof. intros H. by apply Forall_fmap. Qed.

Lemma maEntries_within (data : list StockDataPoint) (windowSize : nat)
    (lo hi : number) (shift : Z) (dl : date) (forecastDays : nat) :
  (1 ≤ windowSize)%nat → (windowSize ≤ length data)%nat →
  isCents lo → isCents hi →
  Forall (λ x, within lo hi (close x)) data →
  Forall (λ r, within lo hi (predicted r))
    (maBacktest data windowSize
     ++ maForecast shift dl (slice_last windowSize (map close data))
          0 forecastDays).
Proof.
  intros Hw Hlen Hlo Hhi Hdata.
  pose proof (closes_within lo hi data Hdata) as Hc.
  apply Forall_app. split.
  - apply Forall_map_seq. intros i Hi. cbn [predicted].
    assert (Hs : slice (i - windowSize) i (map close data) ≠ []).
    { intros E. apply (f_equal length) in E. unfold slice in E.
      rewrite length_take, length_drop, length_map in E. simpl in E. lia. }
    destruct (mean_bounds lo hi _ Hs (slice_within lo hi _ _ _ Hc)).
    by apply toFixed2_bounds.
  - apply Forall_map_intro. intros k. cbn [predicted].
    assert (Hs : slice_last windowSize (map close data) ≠ []).
    { intros E. apply (f_equal length) in E. unfold slice_last in E.
      destruct (windowSize =? 0)%nat;
        [|rewrite length_drop in E]; rewrite length_map in E; simpl in E; lia. }
    destruct (iter_maStep_within lo hi _ k Hlo Hhi Hs
                (slice_last_within lo hi _ _ Hc)) as [Hne HW].
    destruct (mean_bounds lo hi _ Hne HW). by apply toFixed2_bounds.
Qed.

(** X1. With a window of at least one close, every value
    [movingAveragePredict] predicts, in the backtest and in the forecast,
    lies between any two whole numbers of cents that bound the closes. *)
Theorem moving_average_within_range (tz : Z) (data : list StockDataPoint)
    (windowSize forecastDays : nat) (lo hi : number) :
  (1 ≤ windowSize)%nat → (windowSize ≤ length data)%nat →
  isCents lo → isCents hi →
  Forall (λ x, within lo hi (close x)) data →
  ∃ rs, movingAveragePredict tz data windowSize forecastDays = Returns rs
        ∧ Forall (λ r, within lo hi (predicted r)) rs.
Proof.
  intros Hw Hlen Hlo Hhi Hdata.
  destruct (last_is_Some (map sdp_date data)) as [dl Hdl].
  { destruct data; simpl in *; [lia | done]. }
  rewrite (movingAveragePredict_returns tz data windowSize forecastDays dl)
    by done.
  eexists; split; [reflexivity|]. by apply maEntries_within.
Qed.

Lemma moving_average_within_range_witness :
  ∃ rs,
    movingAveragePredict 0
      [samplePoint 19730 10; samplePoint 19731 (1205 # 100);
       samplePoint 19732 11] 2 3
    = Returns rs
    ∧ Forall (λ r, within (Q2Qc 10) (Q2Qc (1205 # 100)) (predicted r)) rs.
Proof.
  apply moving_average_within_range.
  - lia.
  - simpl. lia.
  - decide_isCents 1000%Z.
  - decide_isCents 1205%Z.
  - repeat constructor; decide_numbers.
Defined.

Lemma nth_within (lo hi : number) (l : list number) (i : nat) :
  Forall (within lo hi) l → (i < length l)%nat → within lo hi (nth i l 0%Qc).
Proof.
  intros H Hi. destruct (lookup_lt_is_Some_2 l i Hi) as [x Hx].
  rewrite nth_lookup, Hx. simpl. by eapply Forall_lookup_1.
Qed.

Lemma esLevel_within (alpha lo hi : number) (closes : list number) (i : nat) :
  (0 ≤ alpha)%Qc → (alpha ≤ 1)%Qc →
  Forall (within lo hi) closes → closes ≠ [] → (i ≤ length closes)%nat →
  within lo hi (esLevel alpha closes i).
Proof.
  intros H0 H1 Hc Hne. induction i as [|i IH]; intros Hi.
  - simpl. apply nth_within; [done|]. destruct closes; [done | simpl; lia].
  - cbn [esLevel].
    destruct (nth_within lo hi closes i Hc) as [Ha Hb]; [lia|].
    destruct IH as [Hc1 Hc2]; [lia|].
    by apply mixture_bounds.
Qed.

Lemma esStep_within (alpha lo hi : number) (st : number * number) :
  (0 ≤ alpha)%Qc → (alpha ≤ 1)%Qc → isCents lo → isCents hi →
  within lo hi st.1 → within lo hi st.2 →
  within lo hi (esStep alpha st).1 ∧ within lo hi (esStep alpha st).2.
Proof.
  intros H0 H1 Hlo Hhi [Ha Hb] [Hc Hd]. unfold esStep. cbn [fst snd].
  destruct (mixture_bounds alpha st.2 st.1 lo hi) as [He Hf]; try done.
  split; [done|]. by apply toFixed2_bounds.
Qed.

Lemma iter_esStep_within (alpha lo hi : number) (st : number * number) (k : nat) :
  (0 ≤ alpha)%Qc → (alpha ≤ 1)%Qc → isCents lo → isCents hi →
  within lo hi st.1 → within lo hi st.2 →
  within lo hi (Nat.iter k (esStep alpha) st).1
  ∧ within lo hi (Nat.iter k (esStep alpha) st).2.
Proof.
  intros H0 H1 Hlo Hhi Ha Hb. induction k as [|k [IH1 IH2]]; [done|].
  simpl. by apply esStep_within.
Qed.

(** X2. With a smoothing factor between 0 and 1, every value
    [exponentialSmoothingPredict] predicts, in the backtest and in the
    forecast, lies between any two whole numbers of cents that bound the
    closes. *)
Theorem exponential_smoothing_within_range (tz : Z) (data : list StockDataPoint)
    (alpha : number) (forecastDays : nat) (lo hi : number) :
  (0 ≤ alpha)%Qc → (alpha ≤ 1)%Qc → (2 ≤ length data)%nat →
  isCents lo → isCents hi →
  Forall (λ x, within lo hi (close x)) data →
  ∃ rs, exponentialSmoothingPredict tz data alpha forecastDays = Returns rs
        ∧ Forall (λ r, within lo hi (predicted r)) rs.
Proof.
  intros H0 H1 Hlen Hlo Hhi Hdata.
  destruct (last_is_Some (map sdp_date data)) as [dl Hdl].
  { destruct data; simpl in *; [lia | done]. }
  rewrite (exponentialSmoothingPredict_returns tz data alpha forecastDays dl)
    by done.
  eexists; split; [reflexivity|].
  pose proof (closes_within lo hi data Hdata) as Hc.
  assert (Hne : map close data ≠ []) by (destruct data; simpl in *; [lia | done]).
  apply Forall_app. split.
  - apply Forall_map_seq. intros i Hi. cbn [predicted].
    destruct (esLevel_within alpha lo hi (map close data) i) as [Ha Hb];
      try done.
    { rewrite length_map. lia. }
    by apply toFixed2_bounds.
  - apply Forall_map_intro. intros k. cbn [predicted].
    apply iter_esStep_within; try done; cbn [fst snd].
    + apply esLevel_within; try done. rewrite length_map. lia.
    + apply nth_within; [done|]. rewrite length_map. lia.
Qed.

Lemma exponential_smoothing_within_range_witness :
  ∃ rs,
    exponentialSmoothingPredict 0
      [samplePoint 19730 10; samplePoint 19731 (1205 # 100);
       samplePoint 19732 11] (Q2Qc (3 # 10)) 3
    = Returns rs
    ∧ Forall (λ r, within (Q2Qc 10) (Q2Qc (1205 # 100)) (predicted r)) rs.
Proof.
  apply exponential_smoothing_within_range.
  - decide_numbers.
  - decide_numbers.
  - simpl. lia.
  - decide_isCents 1000%Z.
  - decide_isCents 1205%Z.
  - repeat constructor; decide_numbers.
Defined.

(** ** The forecast of exponential smoothing is flat *)

(** Once the loop feeds its own rounded forecast back, the next level lies
    between the level and its rounding, and rounds to the same cents. *)
Lemma esStep_fixed (alpha G : number) :
  (0 ≤ alpha)%Qc → (alpha ≤ 1)%Qc →
  toFixed2 (alpha * toFixed2 G + (1 - alpha) * G)%Qc = toFixed2 G.
Proof.
  intros H0 H1.
  destruct (Qclt_le_dec (toFixed2 G) G) as [Hlt|Hle].
  - apply Qclt_le_weak in Hlt.
    destruct (mixture_bounds alpha (toFixed2 G) G (toFixed2 G) G)
      as [Ha Hb]; try done; try apply Qcle_refl.
    apply Qcle_antisym.
    + by apply toFixed2_mono.
    + rewrite <- (toFixed2_idempotent G) at 1. by apply toFixed2_mono.
  - destruct (mixture_bounds alpha (toFixed2 G) G G (toFixed2 G))
      as [Ha Hb]; try done; try apply Qcle_refl.
    apply Qcle_antisym.
    + rewrite <- (toFixed2_idempotent G) at 2. by apply toFixed2_mono.
    + by apply toFixed2_mono.
Qed.

Lemma iter_esStep_flat (alpha : number) (st : number * number) (k : nat) :
  (0 ≤ alpha)%Qc → (alpha ≤ 1)%Qc →
  (Nat.iter (S k) (esStep alpha) st).2 = (esStep alpha st).2
  ∧ (Nat.iter (S k) (esStep alpha) st).2
    = toFixed2 (Nat.iter (S k) (esStep alpha) st).1.
Proof.
  intros H0 H1. induction k as [|k [IH1 IH2]]; [done|].
  rewrite Nat.iter_succ. unfold esStep at 1 3. cbn [fst snd].
  split; [|done]. rewrite IH2 at 1. rewrite esStep_fixed by done.
  by rewrite <- IH2.
Qed.

(** X3. With a smoothing factor from 0.001 to 1 the forecast of
    [exponentialSmoothingPredict] is flat: its [forecastDays] entries all
    predict one and the same value. The loop feeds the rounded forecast
    back as the last actual value, which moves the level towards its own
    rounding and never across it. *)
Theorem exponential_smoothing_flat_forecast (tz : Z)
    (data : list StockDataPoint) (alpha : number) (forecastDays : nat) :
  (Q2Qc (1 # 1000) ≤ alpha)%Qc → (alpha ≤ 1)%Qc → (2 ≤ length data)%nat →
  ∃ rs v, exponentialSmoothingPredict tz data alpha forecastDays = Returns rs
          ∧ length (forecastPortion rs) = forecastDays
          ∧ Forall (λ r, predicted r = v) (forecastPortion rs).
Proof.
  intros Hs H1 Hlen.
  assert (H0 : (0 ≤ alpha)%Qc)
    by (eapply Qcle_trans; [|exact Hs]; decide_numbers).
  destruct (last_is_Some (map sdp_date data)) as [dl Hdl].
  { destruct data; simpl in *; [lia | done]. }
  rewrite (exponentialSmoothingPredict_returns tz data alpha forecastDays dl)
    by done.
  eexists _, (toFixed2 (esLevel alpha (map close data) (length data))).
  split; [reflexivity|].
  destruct (portions_of_result (esBacktest alpha data)
              (esForecast alpha (dayShift tz) dl
                 (esLevel alpha (map close data) (length data - 1),
                  nth (length data - 1) (map close data) 0%Qc) 0 forecastDays))
    as [_ ->].
  { apply esBacktest_actual. }
  { apply esForecast_actual. }
  split; [apply esForecast_length|].
  apply Forall_map_intro. intros k. cbn [predicted].
  destruct (iter_esStep_flat alpha
              (esLevel alpha (map close data) (length data - 1),
               nth (length data - 1) (map close data) 0%Qc) k H0 H1) as [-> _].
  unfold esStep. cbn [fst snd].
  replace (length data) with (S (length data - 1)) at 3 by lia.
  reflexivity.
Qed.

Lemma exponential_smoothing_flat_forecast_witness :
  ∃ rs v,
    exponentialSmoothingPredict 0
      [samplePoint 19730 10; samplePoint 19731 (1205 # 100);
       samplePoint 19732 11] (Q2Qc (3 # 10)) 3
    = Returns rs
    ∧ length (forecastPortion rs) = 3%nat
    ∧ Forall (λ r, predicted r = v) (forecastPortion rs).
Proof.
  apply exponential_smoothing_flat_forecast.
  - decide_numbers.
  - decide_numbers.
  - simpl. lia.
Defined.

(** ** The forecast loop of [arimaPredict] in closed form *)

Lemma forecastRun_length {St} (turn : nat → St → St * number) (k a : nat)
    (st : St) : length (forecastRun turn a k st).2 = k.
Proof.
  revert a st. induction k as [|k IH]; intros a st; [done|].
  simpl. destruct (turn a st) as [st1 v].
  specialize (IH (S a) st1). destruct (forecastRun turn (S a) k st1).
  simpl in *. by rewrite IH.
Qed.

(** A loop whose turn with index [i] appends [entry i v] for the value [v]
    of [turn] runs as [forecastRun] says. *)
Lemma for_each_forecastRun {St} (turn : nat → St → St * number)
    (entry : nat → number → PredictionResult)
    (body : nat → St * list PredictionResult
            → outcome (St * list PredictionResult)) :
  (∀ i st results,
      body i (st, results)
      = Returns ((turn i st).1, results ++ [entry i (turn i st).2])) →
  ∀ (k a : nat) (st : St) (results : list PredictionResult),
    for_each (seq a k) body (st, results)
    = Returns ((forecastRun turn a k st).1,
               results
               ++ imap (λ j v, entry (a + j)%nat v) (forecastRun turn a k st).2).
Proof.
  intros Hbody. induction k as [|k IH]; intros a st results.
  - simpl. by rewrite app_nil_r.
  - cbn [seq for_each]. rewrite Hbody. cbn [mbind outcome_bind].
    rewrite IH. cbn [forecastRun].
    destruct (turn a st) as [st1 v]. cbn [fst snd].
    destruct (forecastRun turn (S a) k st1) as [st2 vs]. cbn [fst snd].
    rewrite <- app_assoc. do 3 f_equal. cbn [imap app]. f_equal.
    + f_equal. lia.
    + apply imap_ext. intros j w _. simpl. f_equal. lia.
Qed.

(** What holds before the first turn and is kept by every turn holds of
    the final state, and what every turn's value satisfies holds of every
    value listed. *)
Lemma forecastRun_invariant {St} (turn : nat → St → St * number)
    (I : nat → St → Prop) (P : nat → number → Prop) :
  (∀ i st, I i st → I (S i) (turn i st).1 ∧ P i (turn i st).2) →
  ∀ (k a : nat) (st : St),
    I a st →
    I (a + k)%nat (forecastRun turn a k st).1
    ∧ ∀ j v, (forecastRun turn a k st).2 !! j = Some v → P (a + j)%nat v.
Proof.
  intros Hturn. induction k as [|k IH]; intros a st HI.
  - simpl. rewrite Nat.add_0_r. split; [done|]. intros j v Hj. done.
  - cbn [forecastRun]. destruct (Hturn a st HI) as [HI1 HP].
    destruct (turn a st) as [st1 v1]. cbn [fst snd] in *.
    destruct (IH (S a) st1 HI1) as [HI2 HP2].
    destruct (forecastRun turn (S a) k st1) as [st2 vs]. cbn [fst snd] in *.
    split.
    + by replace (a + S k)%nat with (S a + k)%nat by lia.
    + intros [|j] v Hj; simpl in Hj.
      * injection Hj as <-. by rewrite Nat.add_0_r.
      * replace (a + S j)%nat with (S a + j)%nat by lia. by apply HP2.
Qed.

(** Fewer turns list a prefix of the values. *)
Lemma forecastRun_take {St} (turn : nat → St → St * number) (k m a : nat)
    (st : St) :
  (forecastRun turn a k st).2 = take k (forecastRun turn a (k + m) st).2.
Proof.
  revert a st. induction k as [|k IH]; intros a st.
  - by rewrite take_0.
  - cbn [Nat.add forecastRun]. destruct (turn a st) as [st1 v].
    specialize (IH (S a) st1).
    destruct (forecastRun turn (S a) k st1) as [st2 vs].
    destruct (forecastRun turn (S a) (k + m) st1) as [st3 ws].
    cbn [fst snd] in *. by rewrite IH.
Qed.

Lemma arimaUndiff_values (closePrices : list number) (dates : list date)
    (predictions : list number) (p d q : nat) :
  (arimaUndiff closePrices dates predictions p d q).1
  = arimaUndiffValues closePrices predictions p d q.
Proof.
  unfold arimaUndiff, arimaUndiffValues.
  rewrite (fold_left_push2
    (λ i, fold_left (λ undiffValue j,
            (undiffValue + nth (i + p `max` q + d - j - 1) closePrices 0)%Qc)
            (seq 0 d) (nth i predictions 0%Qc))
    (λ i, {| pr_date := nth (i + p `max` q + d) dates 0%Z;
             actual := Some (nth (i + p `max` q + d) closePrices 0%Qc);
             predicted :=
               toFixed2
                 (fold_left (λ undiffValue j,
                    (undiffValue
                     + nth (i + p `max` q + d - j - 1) closePrices 0)%Qc)
                    (seq 0 d) (nth i predictions 0%Qc));
             modelName := ARIMA |})).
  reflexivity.
Qed.

(** [arimaPredict] in closed form, with the values of its forecast. *)
Lemma arimaPredict_forecast (tz : Z) (data : list StockDataPoint)
    (p d q forecastDays : nat) (dl : date) :
  (p `max` q + d + 1 ≤ length data)%nat →
  last (map sdp_date data) = Some dl →
  arimaPredict tz data p d q forecastDays
  = Returns
      (arimaBacktestEntries (map close data) (map sdp_date data)
         (arimaPredictions data p d q) p d q
       ++ arimaForecastEntries (dayShift tz) dl 0
            (arimaForecastValues data p d q forecastDays)).
Proof.
  intros Hlen Hlast. unfold arimaPredict.
  destruct (Nat.ltb_spec (length data) (p `max` q + d + 1)); [lia|].
  rewrite arimaBacktest_uniform. fold (arimaPredictions data p d q).
  pose proof (arimaUndiff_results (map close data) (map sdp_date data)
                (arimaPredictions data p d q) p d q) as Hres.
  pose proof (arimaUndiff_values (map close data) (map sdp_date data)
                (arimaPredictions data p d q) p d q) as Hval.
  destruct (arimaUndiff _ _ _ _ _ _) as [undiff results].
  simpl in Hres, Hval. subst results undiff.
  rewrite Hlast.
  pose proof (for_each_forecastRun
    (arimaForecastTurn p d q (slice_last d (map close data)))
    (λ i v, {| pr_date := nthBusinessDayAfter (dayShift tz) dl (i + 1);
               actual := None; predicted := v; modelName := ARIMA |})
    (λ i '(lastPredictions, lastErrors, undiffPredictions, results),
       nextDate ← getNextBusinessDay tz (Some dl) (i + 1);
       Returns
         ((arimaForecastTurn p d q (slice_last d (map close data)) i
             (lastPredictions, lastErrors, undiffPredictions)).1,
          results
          ++ [ {| pr_date := nextDate;
                  actual := None;
                  predicted :=
                    (arimaForecastTurn p d q (slice_last d (map close data)) i
                       (lastPredictions, lastErrors, undiffPredictions)).2;
                  modelName := ARIMA |} ]))) as Hrun.
  cbv zeta in Hrun. unfold arimaForecastTurn in Hrun at 1 2.
  cbn [fst snd] in Hrun.
  rewrite Hrun.
  - reflexivity.
  - intros i [[lp le] up] results.
    rewrite getNextBusinessDay_steps. reflexivity.
Qed.

(** ** What a forecaster that returns has returned *)

Lemma movingAveragePredict_inv (tz : Z) (data : list StockDataPoint)
    (windowSize forecastDays : nat) (rs : list PredictionResult) :
  movingAveragePredict tz data windowSize forecastDays = Returns rs →
  (windowSize ≤ length data)%nat
  ∧ ((∃ dl, last (map sdp_date data) = Some dl
            ∧ rs = maBacktest data windowSize
                   ++ maForecast (dayShift tz) dl
                        (slice_last windowSize (map close data)) 0 forecastDays)
     ∨ (data = [] ∧ forecastDays = 0%nat ∧ rs = [])).
Proof.
  intros H.
  destruct (Nat.lt_ge_cases (length data) windowSize) as [Hlt|Hge].
  { by rewrite movingAveragePredict_short in H. }
  split; [done|].
  destruct (last (map sdp_date data)) as [dl|] eqn:Hl.
  - left. exists dl. split; [done|].
    rewrite (movingAveragePredict_returns tz data windowSize forecastDays dl)
      in H by done.
    by injection H as <-.
  - right. apply last_None in Hl. destruct data; [|done].
    simpl in Hge. assert (windowSize = 0%nat) as -> by lia.
    destruct forecastDays as [|fd].
    + rewrite movingAveragePredict_no_forecast in H by done.
      by injection H as <-.
    + by rewrite movingAveragePredict_empty in H.
Qed.

Lemma exponentialSmoothingPredict_inv (tz : Z) (data : list StockDataPoint)
    (alpha : number) (forecastDays : nat) (rs : list PredictionResult) :
  exponentialSmoothingPredict tz data alpha forecastDays = Returns rs →
  (2 ≤ length data)%nat
  ∧ ∃ dl, last (map sdp_date data) = Some dl
          ∧ rs = esBacktest alpha data
                 ++ esForecast alpha (dayShift tz) dl
                      (esLevel alpha (map close data) (length data - 1),
                       nth (length data - 1) (map close data) 0%Qc)
                      0 forecastDays.
Proof.
  intros H.
  destruct (Nat.lt_ge_cases (length data) 2) as [Hlt|Hge].
  { by rewrite exponentialSmoothingPredict_short in H. }
  split; [done|].
  destruct (last_is_Some (map sdp_date data)) as [dl Hdl].
  { destruct data; simpl in *; [lia | done]. }
  exists dl. split; [done|].
  rewrite (exponentialSmoothingPredict_returns tz data alpha forecastDays dl)
    in H by done.
  by injection H as <-.
Qed.

Lemma arimaPredict_inv (tz : Z) (data : list StockDataPoint)
    (p d q forecastDays : nat) (rs : list PredictionResult) :
  arimaPredict tz data p d q forecastDays = Returns rs →
  (p `max` q + d + 1 ≤ length data)%nat
  ∧ ∃ dl, last (map sdp_date data) = Some dl
          ∧ rs = arimaBacktestEntries (map close data) (map sdp_date data)
                   (arimaPredictions data p d q) p d q
                 ++ arimaForecastEntries (dayShift tz) dl 0
                      (arimaForecastValues data p d q forecastDays).
Proof.
  intros H.
  destruct (Nat.lt_ge_cases (length data) (p `max` q + d + 1)) as [Hlt|Hge].
  { by rewrite arimaPredict_short in H. }
  split; [done|].
  destruct (last_is_Some (map sdp_date data)) as [dl Hdl].
  { destruct data; simpl in *; [lia | done]. }
  exists dl. split; [done|].
  rewrite (arimaPredict_forecast tz data p d q forecastDays dl) in H by done.
  by injection H as <-.
Qed.

Lemma arimaForecastValues_length (data : list StockDataPoint)
    (p d q forecastDays : nat) :
  length (arimaForecastValues data p d q forecastDays) = forecastDays.
Proof. apply forecastRun_length. Qed.

(** ** Every reported number is a whole number of cents *)

Lemma isCents_zero : isCents 0%Qc.
Proof. decide_isCents 0%Z. Qed.

Lemma arimaForecastValues_cents (data : list StockDataPoint)
    (p d q forecastDays : nat) :
  Forall isCents (arimaForecastValues data p d q forecastDays).
Proof.
  unfold arimaForecastValues.
  destruct (forecastRun_invariant
    (arimaForecastTurn p d q (slice_last d (map close data)))
    (λ _ _, True) (λ _ v, isCents v)) with
    (k := forecastDays) (a := 0%nat) (st := arimaForecastStart data p d q)
    as [_ H]; [|done|].
  - intros i [[lp le] up] _. split; [done|]. apply toFixed2_isCents.
  - apply Forall_lookup. intros j v Hj. by eapply H.
Qed.

(** ** A longer horizon only appends *)

Lemma map_seq_prefix {B} (f : nat → B) (k m : nat) :
  map f (seq 0 (k + m)) = map f (seq 0 k) ++ map f (seq k m).
Proof. by rewrite seq_app, map_app. Qed.

Lemma arimaForecastValues_prefix (data : list StockDataPoint)
    (p d q k m : nat) :
  ∃ rest, length rest = m
          ∧ arimaForecastValues data p d q (k + m)
            = arimaForecastValues data p d q k ++ rest.
Proof.
  unfold arimaForecastValues.
  set (turn := arimaForecastTurn p d q (slice_last d (map close data))).
  set (st := arimaForecastStart data p d q).
  exists (drop k (forecastRun turn 0 (k + m) st).2). split.
  - rewrite length_drop, forecastRun_length. lia.
  - rewrite (forecastRun_take turn k m 0 st). by rewrite take_drop.
Qed.

(** X5. Asking for a longer forecast changes no entry: what a forecaster
    returns for [forecastDays] is what it returns for a larger
    [forecastDays'] without the last [forecastDays' - forecastDays]
    entries. *)
Theorem longer_horizon_only_appends (tz : Z) (data : list StockDataPoint)
    (windowSize : nat) (alpha : number) (p d q forecastDays more : nat) :
  (∀ rs', movingAveragePredict tz data windowSize (forecastDays + more)
          = Returns rs' →
     ∃ rest, length rest = more
             ∧ movingAveragePredict tz data windowSize forecastDays
               = Returns (take (length rs' - more) rs')
             ∧ rs' = take (length rs' - more) rs' ++ rest)
  ∧ (∀ rs', exponentialSmoothingPredict tz data alpha (forecastDays + more)
            = Returns rs' →
       ∃ rest, length rest = more
               ∧ exponentialSmoothingPredict tz data alpha forecastDays
                 = Returns (take (length rs' - more) rs')
               ∧ rs' = take (length rs' - more) rs' ++ rest)
  ∧ (∀ rs', arimaPredict tz data p d q (forecastDays + more) = Returns rs' →
       ∃ rest, length rest = more
               ∧ arimaPredict tz data p d q forecastDays
                 = Returns (take (length rs' - more) rs')
               ∧ rs' = take (length rs' - more) rs' ++ rest).
Proof.
  assert (Hcut : ∀ (front rest : list PredictionResult),
            length rest = more →
            take (length (front ++ rest) - more) (front ++ rest) = front).
  { intros front rest Hr. rewrite length_app, Hr.
    replace (length front + more - more)%nat with (length front) by lia.
    by rewrite take_app_length. }
  repeat split.
  - intros rs' H.
    destruct (movingAveragePredict_inv _ _ _ _ _ H)
      as [Hw [(dl & Hdl & ->)|(-> & H0 & ->)]].
    + unfold maForecast. rewrite map_seq_prefix, app_assoc.
      eexists. split; [by rewrite length_map, length_seq|].
      rewrite Hcut by (by rewrite length_map, length_seq).
      split; [|done]. by apply movingAveragePredict_returns.
    + assert (forecastDays = 0%nat) as -> by lia.
      assert (more = 0%nat) as -> by lia.
      exists []. split; [done|]. split; [|done].
      by apply movingAveragePredict_no_forecast.
  - intros rs' H.
    destruct (exponentialSmoothingPredict_inv _ _ _ _ _ H)
      as [Hw (dl & Hdl & ->)].
    unfold esForecast. rewrite map_seq_prefix, app_assoc.
    eexists. split; [by rewrite length_map, length_seq|].
    rewrite Hcut by (by rewrite length_map, length_seq).
    split; [|done]. by apply exponentialSmoothingPredict_returns.
  - intros rs' H.
    destruct (arimaPredict_inv _ _ _ _ _ _ _ H) as [Hw (dl & Hdl & ->)].
    destruct (arimaForecastValues_prefix data p d q forecastDays more)
      as (rest & Hrest & ->).
    unfold arimaForecastEntries. rewrite imap_app, app_assoc.
    match goal with
    | |- context [imap ?f rest] => exists (imap f rest)
    end.
    split; [by rewrite length_imap|].
    rewrite Hcut by (by rewrite length_imap).
    split; [|done]. by apply arimaPredict_forecast.
Qed.

Lemma longer_horizon_only_appends_witness :
  ∃ rs' rest,
    movingAveragePredict 0
      [samplePoint 19730 10; samplePoint 19731 (1205 # 100);
       samplePoint 19732 11] 2 (1 + 2)
    = Returns rs'
    ∧ length rest = 2%nat
    ∧ movingAveragePredict 0
        [samplePoint 19730 10; samplePoint 19731 (1205 # 100);
         samplePoint 19732 11] 2 1
      = Returns (take (length rs' - 2) rs')
    ∧ rs' = take (length rs' - 2) rs' ++ rest.
Proof.
  destruct (longer_horizon_only_appends 0
    [samplePoint 19730 10; samplePoint 19731 (1205 # 100);
     samplePoint 19732 11] 2 (Q2Qc (3 # 10)) 1 1 1 1 2) as (H & _ & _).
  eexists.
  match goal with
  | |- ∃ rest, ?call = Returns ?rs' ∧ _ =>
      assert (Hcall : call = Returns rs') by (vm_compute; reflexivity)
  end.
  destruct (H _ Hcall) as (rest & H1 & H2 & H3).
  exists rest. exact (conj Hcall (conj H1 (conj H2 H3))).
Defined.

(** ** The recommendation reads the backtest only *)

Lemma filter_filter_same {A} (P : A → Prop) `{∀ x, Decision (P x)}
    (l : list A) : filter P (filter P l) = filter P l.
Proof.
  induction l as [|x l IH]; [done|].
  destruct (decide (P x)) as [Hx|Hx].
  - rewrite (filter_cons_True P x l Hx).
    rewrite filter_cons_True by done. by rewrite IH.
  - by rewrite (filter_cons_False P x l Hx).
Qed.

Lemma calculateMPE_backtestPortion (predictions : list PredictionResult) :
  calculateMPE (backtestPortion predictions) = calculateMPE predictions.
Proof.
  unfold calculateMPE, backtestPortion. by rewrite filter_filter_same.
Qed.

Lemma determineBestModel_ext
    (r r' : ForecastingModel → list PredictionResult) :
  (∀ m, calculateMAE (r m) = calculateMAE (r' m)) →
  (∀ m, calculateMPE (r m) = calculateMPE (r' m)) →
  determineBestModel r = determineBestModel r'.
Proof.
  intros Ha Hp. unfold determineBestModel. by rewrite !Ha, !Hp.
Qed.

Lemma generateAllPredictions_inv (tz : Z) (data : list StockDataPoint)
    (forecastDays : nat) (r : ForecastingModel → list PredictionResult) :
  generateAllPredictions tz data forecastDays = Returns r →
  ∃ ma es ar,
    movingAveragePredict tz data 7 forecastDays = Returns ma
    ∧ exponentialSmoothingPredict tz data (Q2Qc (3 # 10)) forecastDays
      = Returns es
    ∧ arimaPredict tz data 3 1 1 forecastDays = Returns ar
    ∧ r = (λ model,
             match model with
             | MOVING_AVERAGE => ma
             | EXPONENTIAL_SMOOTHING => es
             | ARIMA => ar
             end).
Proof.
  unfold generateAllPredictions. intros H.
  destruct (movingAveragePredict tz data 7 forecastDays) as [ma| |];
    try done.
  destruct (exponentialSmoothingPredict tz data (Q2Qc (3 # 10)) forecastDays)
    as [es| |]; try done.
  destruct (arimaPredict tz data 3 1 1 forecastDays) as [ar| |]; try done.
  cbn [mbind outcome_bind] in H. injection H as <-. by exists ma, es, ar.
Qed.

Lemma movingAveragePredict_backtest (tz : Z) (data : list StockDataPoint)
    (windowSize forecastDays : nat) (rs : list PredictionResult) :
  movingAveragePredict tz data windowSize forecastDays = Returns rs →
  backtestPortion rs = maBacktest data windowSize.
Proof.
  intros H.
  destruct (movingAveragePredict_inv _ _ _ _ _ H)
    as [Hw [(dl & _ & ->)|(-> & _ & ->)]].
  - by destruct (portions_of_result _ _ (maBacktest_actual data windowSize)
      (maForecast_actual (dayShift tz) dl
         (slice_last windowSize (map close data)) 0 forecastDays)) as [-> _].
  - simpl in Hw. by assert (windowSize = 0%nat) as -> by lia.
Qed.

Lemma exponentialSmoothingPredict_backtest (tz : Z)
    (data : list StockDataPoint) (alpha : number) (forecastDays : nat)
    (rs : list PredictionResult) :
  exponentialSmoothingPredict tz data alpha forecastDays = Returns rs →
  backtestPortion rs = esBacktest alpha data.
Proof.
  intros H.
  destruct (exponentialSmoothingPredict_inv _ _ _ _ _ H) as [_ (dl & _ & ->)].
  by destruct (portions_of_result _ _ (esBacktest_actual alpha data)
    (esForecast_actual alpha (dayShift tz) dl
       (esLevel alpha (map close data) (length data - 1),
        nth (length data - 1) (map close data) 0%Qc) 0 forecastDays))
    as [-> _].
Qed.

Lemma arimaPredict_backtest (tz : Z) (data : list StockDataPoint)
    (p d q forecastDays : nat) (rs : list PredictionResult) :
  arimaPredict tz data p d q forecastDays = Returns rs →
  backtestPortion rs
  = arimaBacktestEntries (map close data) (map sdp_date data)
      (arimaPredictions data p d q) p d q.
Proof.
  intros H.
  destruct (arimaPredict_inv _ _ _ _ _ _ _ H) as [_ (dl & _ & ->)].
  by destruct (portions_of_result _ _
    (arimaBacktestEntries_actual (map close data) (map sdp_date data)
       (arimaPredictions data p d q) p d q)
    (arimaForecastEntries_actual (dayShift tz) dl 0
       (arimaForecastValues data p d q forecastDays))) as [-> _].
Qed.

(** X6. The recommendation does not depend on the forecast horizon or on
    the host's time zone: [determineBestModel] on what
    [generateAllPredictions] returns gives the same best model and the
    same metrics for every [forecastDays] and every zone. *)
Theorem recommendation_ignores_horizon_and_zone (tz tz' : Z)
    (data : list StockDataPoint) (forecastDays forecastDays' : nat)
    (r r' : ForecastingModel → list PredictionResult) :
  generateAllPredictions tz data forecastDays = Returns r →
  generateAllPredictions tz' data forecastDays' = Returns r' →
  determineBestModel r = determineBestModel r'.
Proof.
  intros H H'.
  destruct (generateAllPredictions_inv _ _ _ _ H)
    as (ma & es & ar & Hma & Hes & Har & ->).
  destruct (generateAllPredictions_inv _ _ _ _ H')
    as (ma' & es' & ar' & Hma' & Hes' & Har' & ->).
  assert (Hb : ∀ m : ForecastingModel,
            backtestPortion match m with
                            | MOVING_AVERAGE => ma
                            | EXPONENTIAL_SMOOTHING => es
                            | ARIMA => ar
                            end
            = backtestPortion match m with
                              | MOVING_AVERAGE => ma'
                              | EXPONENTIAL_SMOOTHING => es'
                              | ARIMA => ar'
                              end).
  { intros [].
    - by rewrite (movingAveragePredict_backtest _ _ _ _ _ Hma),
        (movingAveragePredict_backtest _ _ _ _ _ Hma').
    - by rewrite (exponentialSmoothingPredict_backtest _ _ _ _ _ Hes),
        (exponentialSmoothingPredict_backtest _ _ _ _ _ Hes').
    - by rewrite (arimaPredict_backtest _ _ _ _ _ _ _ Har),
        (arimaPredict_backtest _ _ _ _ _ _ _ Har'). }
  apply determineBestModel_ext; intros m.
  - rewrite <- calculateMAE_backtestPortion, Hb.
    apply calculateMAE_backtestPortion.
  - rewrite <- calculateMPE_backtestPortion, Hb.
    apply calculateMPE_backtestPortion.
Qed.

Lemma recommendation_ignores_horizon_and_zone_witness :
  ∃ r r',
    generateAllPredictions 0 sampleSeries 7 = Returns r
    ∧ generateAllPredictions (-300) sampleSeries 3 = Returns r'
    ∧ determineBestModel r = determineBestModel r'.
Proof.
  eexists. eexists.
  split; [vm_compute; reflexivity|].
  split; [vm_compute; reflexivity|].
  apply (recommendation_ignores_horizon_and_zone 0 (-300) sampleSeries 7 3);
    vm_compute; reflexivity.
Defined.

(** ** [generateAllPredictions] *)

Lemma maForecast_modelName shift dl W a k :
  Forall (λ r, modelName r = MOVING_AVERAGE) (maForecast shift dl W a k).
Proof. by apply Forall_map_intro. Qed.

Lemma maBacktest_modelName data w :
  Forall (λ r, modelName r = MOVING_AVERAGE) (maBacktest data w).
Proof. by apply Forall_map_intro. Qed.

Lemma esForecast_modelName alpha shift dl st a k :
  Forall (λ r, modelName r = EXPONENTIAL_SMOOTHING)
    (esForecast alpha shift dl st a k).
Proof. by apply Forall_map_intro. Qed.

Lemma esBacktest_modelName alpha data :
  Forall (λ r, modelName r = EXPONENTIAL_SMOOTHING) (esBacktest alpha data).
Proof. by apply Forall_map_intro. Qed.

Lemma arimaBacktestEntries_modelName closes dates predictions p d q :
  Forall (λ r, modelName r = ARIMA)
    (arimaBacktestEntries closes dates predictions p d q).
Proof. by apply Forall_map_intro. Qed.

Lemma arimaForecastEntries_modelName shift dl a preds :
  Forall (λ r, modelName r = ARIMA) (arimaForecastEntries shift dl a preds).
Proof. by apply Forall_imap_intro. Qed.

(** X7. [generateAllPredictions] fails exactly on a series of fewer than
    seven points, and then with the error of the moving average, which it
    calls first. On a longer series it returns, per model, the backtest
    from that model's first predictable index plus [forecastDays]
    forecasts; every entry carries the name of the model it is filed
    under, and the three forecasts carry the same dates. *)
Theorem generateAllPredictions_contract (tz : Z) (data : list StockDataPoint)
    (forecastDays : nat) :
  match generateAllPredictions tz data forecastDays with
  | Throws e =>
      (length data < 7)%nat
      ∧ e = Error "Not enough data points. Need at least 7 points."
  | Returns r =>
      (7 ≤ length data)%nat
      ∧ length (r MOVING_AVERAGE) = (length data - 7 + forecastDays)%nat
      ∧ length (r EXPONENTIAL_SMOOTHING) = (length data - 1 + forecastDays)%nat
      ∧ length (r ARIMA) = (length data - 4 + forecastDays)%nat
      ∧ (∀ m, Forall (λ e, modelName e = m) (r m))
      ∧ (∀ m, map pr_date (forecastPortion (r m))
              = map pr_date (forecastPortion (r MOVING_AVERAGE)))
  | OutOfSteps => False
  end.
Proof.
  unfold generateAllPredictions.
  destruct (Nat.lt_ge_cases (length data) 7) as [Hlt|Hge].
  { rewrite movingAveragePredict_short by done. cbn [mbind outcome_bind].
    split; [done|]. reflexivity. }
  destruct (last_is_Some (map sdp_date data)) as [dl Hdl].
  { destruct data; simpl in *; [lia | done]. }
  rewrite (movingAveragePredict_returns tz data 7 forecastDays dl) by done.
  rewrite (exponentialSmoothingPredict_returns tz data _ forecastDays dl)
    by (done || lia).
  rewrite (arimaPredict_forecast tz data 3 1 1 forecastDays dl)
    by (done || (simpl; lia)).
  cbn [mbind outcome_bind].
  split; [done|].
  rewrite !length_app, maBacktest_length, maForecast_length, esBacktest_length,
    esForecast_length, arimaBacktestEntries_length, arimaForecastEntries_length,
    arimaPredictions_length, arimaForecastValues_length.
  repeat split; try (simpl; lia).
  - intros []; apply Forall_app; split;
      auto using maBacktest_modelName, maForecast_modelName,
        esBacktest_modelName, esForecast_modelName,
        arimaBacktestEntries_modelName, arimaForecastEntries_modelName.
  - destruct (portions_of_result _ _ (maBacktest_actual data 7)
      (maForecast_actual (dayShift tz) dl
         (slice_last 7 (map close data)) 0 forecastDays)) as [_ Hma].
    destruct (portions_of_result _ _ (esBacktest_actual (Q2Qc (3 # 10)) data)
      (esForecast_actual (Q2Qc (3 # 10)) (dayShift tz) dl
         (esLevel (Q2Qc (3 # 10)) (map close data) (length data - 1),
          nth (length data - 1) (map close data) 0%Qc) 0 forecastDays))
      as [_ Hes].
    destruct (portions_of_result _ _
      (arimaBacktestEntries_actual (map close data) (map sdp_date data)
         (arimaPredictions data 3 1 1) 3 1 1)
      (arimaForecastEntries_actual (dayShift tz) dl 0
         (arimaForecastValues data 3 1 1 forecastDays))) as [_ Har].
    intros []; rewrite ?Hma, ?Hes, ?Har; [done| |].
    + by rewrite esForecast_dates, maForecast_dates.
    + by rewrite arimaForecastEntries_dates, maForecast_dates,
        arimaForecastValues_length.
Qed.

(** ** Mean percentage error *)

Lemma percentageErrors_cons (r : PredictionResult) (l : list PredictionResult) :
  percentageErrors (r :: l)
  = match actual r with
    | Some a => ((predicted r - a) / a * Q2Qc 100)%Qc :: percentageErrors l
    | None => percentageErrors l
    end.
Proof. unfold percentageErrors. simpl. by destruct (actual r). Qed.

Lemma percentageErrors_validPairs (predictions : list PredictionResult) :
  map (λ p, ((predicted p - as_number (actual p)) / as_number (actual p)
             * Q2Qc 100)%Qc)
      (filter (λ p, is_Some (actual p)) predictions)
  = percentageErrors predictions.
Proof.
  induction predictions as [|r l IH]; [done|].
  rewrite percentageErrors_cons.
  destruct (actual r) as [a|] eqn:Ha.
  - rewrite filter_cons_True by (rewrite Ha; eauto).
    simpl. rewrite Ha. simpl. by rewrite IH.
  - rewrite filter_cons_False by (rewrite Ha; by intros [x Hx]).
    done.
Qed.

(** [calculateMPE] in closed form. *)
Lemma calculateMPE_mean (predictions : list PredictionResult) :
  calculateMPE predictions
  = match percentageErrors predictions with
    | [] => 0%Qc
    | errors => toFixed2 (mean errors)
    end.
Proof.
  unfold calculateMPE. cbv zeta.
  rewrite (fold_left_sum
    (λ p, ((predicted p - as_number (actual p)) / as_number (actual p)
           * Q2Qc 100)%Qc)).
  rewrite percentageErrors_validPairs, Qcplus_0_l.
  rewrite <- (length_map
               (λ p, ((predicted p - as_number (actual p))
                      / as_number (actual p) * Q2Qc 100)%Qc)
               (filter (λ p, is_Some (actual p)) predictions)).
  rewrite percentageErrors_validPairs.
  by destruct (percentageErrors predictions).
Qed.

Lemma percentageErrors_backtestPortion (predictions : list PredictionResult) :
  length (percentageErrors predictions) = length (backtestPortion predictions).
Proof.
  unfold backtestPortion.
  induction predictions as [|r l IH]; [done|].
  rewrite percentageErrors_cons.
  destruct (actual r) as [a|] eqn:Ha.
  - rewrite filter_cons_True by (rewrite Ha; eauto). simpl. by rewrite IH.
  - by rewrite filter_cons_False by (rewrite Ha; by intros [x Hx]).
Qed.

Lemma toFixed2_nonpos (x : number) : (x ≤ 0)%Qc → (toFixed2 x ≤ 0)%Qc.
Proof. intros H. rewrite <- toFixed2_zero. by apply toFixed2_mono. Qed.

Lemma Qcopp_nonneg (x : number) : (x ≤ 0)%Qc → (0 ≤ - x)%Qc.
Proof.
  intros H. apply Qcle_minus_iff in H. by rewrite Qcplus_0_l in H.
Qed.

Lemma sumQc_opp (l : list number) :
  sumQc (map Qcopp l) = (- sumQc l)%Qc.
Proof. induction l as [|x l IH]; simpl; [ring | rewrite IH; ring]. Qed.

Lemma mean_nonpos (l : list number) :
  Forall (λ x, (x ≤ 0)%Qc) l → (mean l ≤ 0)%Qc.
Proof.
  intros H.
  assert (Hn : (0 ≤ mean (map Qcopp l))%Qc).
  { apply mean_nonneg. induction H as [|x l Hx _ IH]; simpl; constructor;
      [by apply Qcopp_nonneg | done]. }
  revert Hn. unfold mean. rewrite sumQc_opp, length_map. intros Hn.
  apply Qcle_minus_iff. rewrite Qcplus_0_l.
  replace (- (sumQc l / num_of_nat (length l)))%Qc
    with (- sumQc l / num_of_nat (length l))%Qc; [done|].
  unfold Qcdiv. ring.
Qed.


(** X8. [calculateMPE] is 0 when no entry carries an actual value. Over
    positive actual values its sign shows the bias: it is not negative
    when no prediction is below its actual value, and not positive when
    none is above. *)
Theorem mean_percentage_error (predictions : list PredictionResult) :
  Forall (λ r, ∀ a, actual r = Some a → (0 < a)%Qc) predictions →
  (backtestPortion predictions = [] → calculateMPE predictions = 0%Qc)
  ∧ (Forall (λ r, ∀ a, actual r = Some a → (a ≤ predicted r)%Qc) predictions →
     (0 ≤ calculateMPE predictions)%Qc)
  ∧ (Forall (λ r, ∀ a, actual r = Some a → (predicted r ≤ a)%Qc) predictions →
     (calculateMPE predictions ≤ 0)%Qc).
Proof.
  intros Hpos.
  assert (H100 : (0 ≤ Q2Qc 100)%Qc) by decide_numbers.
  repeat split.
  - intros Hb. rewrite calculateMPE_mean.
    pose proof (percentageErrors_backtestPortion predictions) as Hl.
    rewrite Hb in Hl. by destruct (percentageErrors predictions).
  - intros Hover. rewrite calculateMPE_mean.
    assert (He : Forall (λ x, (0 ≤ x)%Qc) (percentageErrors predictions)).
    { induction predictions as [|r l IH]; [constructor|].
      rewrite percentageErrors_cons.
      inversion Hpos as [|? ? Hr Hl]; subst.
      inversion Hover as [|? ? Hr' Hl']; subst.
      destruct (actual r) as [a|] eqn:Ha; [|exact (IH Hl Hl')].
      constructor; [|exact (IH Hl Hl')].
      apply Qcmult_nonneg_nonneg; [|done].
      apply Qcdiv_nonneg.
      - apply (proj1 (Qcle_sub_nonneg _ _)). exact (Hr' a eq_refl).
      - apply Qclt_le_weak. exact (Hr a eq_refl). }
    destruct (percentageErrors predictions) as [|e errors] eqn:E;
      [apply Qcle_refl|].
    apply toFixed2_nonneg. by apply mean_nonneg.
  - intros Hunder. rewrite calculateMPE_mean.
    assert (He : Forall (λ x, (x ≤ 0)%Qc) (percentageErrors predictions)).
    { induction predictions as [|r l IH]; [constructor|].
      rewrite percentageErrors_cons.
      inversion Hpos as [|? ? Hr Hl]; subst.
      inversion Hunder as [|? ? Hr' Hl']; subst.
      destruct (actual r) as [a|] eqn:Ha; [|exact (IH Hl Hl')].
      constructor; [|exact (IH Hl Hl')].
      apply Qcle_minus_iff. rewrite Qcplus_0_l.
      replace (- ((predicted r - a) / a * Q2Qc 100))%Qc
        with ((a - predicted r) / a * Q2Qc 100)%Qc
        by (unfold Qcdiv; ring).
      apply Qcmult_nonneg_nonneg; [|done].
      apply Qcdiv_nonneg.
      - apply (proj1 (Qcle_sub_nonneg _ _)). exact (Hr' a eq_refl).
      - apply Qclt_le_weak. exact (Hr a eq_refl). }
    destruct (percentageErrors predictions) as [|e errors] eqn:E;
      [apply Qcle_refl|].
    apply toFixed2_nonpos. by apply mean_nonpos.
Qed.

Lemma mean_percentage_error_witness : (calculateMPE sampleBacktest ≤ 0)%Qc.
Proof.
  assert (Hpos : Forall (λ r, ∀ a, actual r = Some a → (0 < a)%Qc)
                   sampleBacktest).
  { unfold sampleBacktest. decide_entries decide_numbers. }
  destruct (mean_percentage_error sampleBacktest Hpos) as (_ & _ & Hle).
  apply Hle. unfold sampleBacktest. decide_entries decide_numbers.
Defined.

(** ** Mean absolute error between the extremes *)

(** X9. When some entry carries an actual value, [calculateMAE] lies
    between any two whole numbers of cents that bound the absolute errors
    of the entries that carry one. *)
Theorem mean_absolute_error_between_extremes
    (predictions : list PredictionResult) (lo hi : number) :
  isCents lo → isCents hi →
  backtestPortion predictions ≠ [] →
  Forall (λ r, ∀ a, actual r = Some a → within lo hi (Qcabs (a - predicted r)))
    predictions →
  within lo hi (calculateMAE predictions).
Proof.
  intros Hlo Hhi Hne Hb. rewrite calculateMAE_mean.
  assert (He : Forall (within lo hi) (absoluteErrors predictions)).
  { clear Hne. induction predictions as [|r l IH]; [constructor|].
    rewrite absoluteErrors_cons. inversion Hb as [|? ? Hr Hl]; subst.
    destruct (actual r) as [a|] eqn:Ha; [|exact (IH Hl)].
    constructor; [exact (Hr a eq_refl) | exact (IH Hl)]. }
  assert (Hn : absoluteErrors predictions ≠ []).
  { intros E. apply Hne.
    pose proof (absoluteErrors_backtestPortion predictions) as Hl.
    rewrite E in Hl. clear -Hl. unfold backtestPortion in *.
    induction predictions as [|r l IH]; [done|].
    destruct (actual r) as [a|] eqn:Ha.
    - rewrite filter_cons_True in Hl by (rewrite Ha; eauto).
      rewrite absoluteErrors_cons, Ha in Hl. done.
    - rewrite filter_cons_False in Hl by (rewrite Ha; by intros [x Hx]).
      rewrite filter_cons_False by (rewrite Ha; by intros [x Hx]).
      by apply IH. }
  destruct (mean_bounds lo hi _ Hn He) as [H1 H2].
  destruct (absoluteErrors predictions) as [|e errors]; [done|].
  by apply toFixed2_bounds.
Qed.

Lemma mean_absolute_error_between_extremes_witness :
  within (Q2Qc 3) (Q2Qc (550 # 100)) (calculateMAE sampleBacktest).
Proof.
  apply mean_absolute_error_between_extremes.
  - decide_isCents 300%Z.
  - decide_isCents 550%Z.
  - by vm_compute.
  - unfold sampleBacktest. decide_entries decide_within.
Defined.

(** ** The calendar of [getNextBusinessDay] *)

Lemma isBusinessDay_week (d q : Z) :
  isBusinessDay (d + 7 * q) = isBusinessDay d.
Proof.
  unfold isBusinessDay, dayOfWeek.
  replace (d + 7 * q + 4)%Z with (d + 4 + q * 7)%Z by lia.
  by rewrite Z.mod_add.
Qed.

Lemma nextBusinessDayAfter_week (shift d q : Z) :
  nextBusinessDayAfter shift (d + 7 * q) = (nextBusinessDayAfter shift d + 7 * q)%Z.
Proof.
  unfold nextBusinessDayAfter.
  replace (d + 7 * q + 1 + shift)%Z with (d + 1 + shift + 7 * q)%Z by lia.
  replace (d + 7 * q + 2 + shift)%Z with (d + 2 + shift + 7 * q)%Z by lia.
  rewrite !isBusinessDay_week.
  destruct (isBusinessDay (d + 1 + shift)); [lia|].
  destruct (isBusinessDay (d + 2 + shift)); lia.
Qed.

Lemma nthBusinessDayAfter_week (shift d q : Z) (k : nat) :
  nthBusinessDayAfter shift (d + 7 * q) k
  = (nthBusinessDayAfter shift d k + 7 * q)%Z.
Proof.
  induction k as [|k IH]; [done|].
  by rewrite !nthBusinessDayAfter_S, IH, nextBusinessDayAfter_week.
Qed.

(** The host's calendar is the UTC calendar moved by [shift] days. *)
Lemma nextBusinessDayAfter_shift (shift d : Z) :
  nextBusinessDayAfter shift d = (nextBusinessDayAfter 0 (d + shift) - shift)%Z.
Proof.
  unfold nextBusinessDayAfter.
  replace (d + shift + 1 + 0)%Z with (d + 1 + shift)%Z by lia.
  replace (d + shift + 2 + 0)%Z with (d + 2 + shift)%Z by lia.
  destruct (isBusinessDay (d + 1 + shift)); [lia|].
  destruct (isBusinessDay (d + 2 + shift)); lia.
Qed.

Lemma nthBusinessDayAfter_shift (shift d : Z) (k : nat) :
  nthBusinessDayAfter shift d k
  = (nthBusinessDayAfter 0 (d + shift) k - shift)%Z.
Proof.
  induction k as [|k IH]; [unfold nthBusinessDayAfter; simpl; lia|].
  rewrite !nthBusinessDayAfter_S, IH, nextBusinessDayAfter_shift.
  do 2 f_equal. lia.
Qed.

(** A statement about every day follows from its seven cases. *)
Lemma by_day_of_week (P : Z → Prop) :
  (∀ d q, P d → P (d + 7 * q)%Z) →
  P 0%Z → P 1%Z → P 2%Z → P 3%Z → P 4%Z → P 5%Z → P 6%Z →
  ∀ d, P d.
Proof.
  intros Hweek H0 H1 H2 H3 H4 H5 H6 d.
  replace d with (d `mod` 7 + 7 * (d `div` 7))%Z
    by (pose proof (Z.div_mod d 7); lia).
  apply Hweek.
  pose proof (Z.mod_pos_bound d 7) as Hb.
  assert (d `mod` 7 = 0 ∨ d `mod` 7 = 1 ∨ d `mod` 7 = 2 ∨ d `mod` 7 = 3
          ∨ d `mod` 7 = 4 ∨ d `mod` 7 = 5 ∨ d `mod` 7 = 6)%Z
    as [->|[->|[->|[->|[->|[->| ->]]]]]] by lia; done.
Qed.

Lemma business_week (d : date) :
  nthBusinessDayAfter 0 d 6 = (nthBusinessDayAfter 0 d 1 + 7)%Z
  ∧ (nthBusinessDayAfter 0 d 2 = (nthBusinessDayAfter 0 d 1 + 1)%Z
     ∨ nthBusinessDayAfter 0 d 2 = (nthBusinessDayAfter 0 d 1 + 3)%Z).
Proof.
  revert d. apply by_day_of_week.
  - intros d q [H1 H2]. rewrite !nthBusinessDayAfter_week. lia.
  - vm_compute. auto.
  - vm_compute. auto.
  - vm_compute. auto.
  - vm_compute. auto.
  - vm_compute. auto.
  - vm_compute. auto.
  - vm_compute. auto.
Qed.

Lemma nthBusinessDayAfter_add (shift : Z) (d : date) (k m : nat) :
  nthBusinessDayAfter shift d (m + k)
  = nthBusinessDayAfter shift (nthBusinessDayAfter shift d k) m.
Proof. unfold nthBusinessDayAfter. apply Nat.iter_add. Qed.

(** X10. On a host at a fixed offset from UTC, from a date that
    [YYYY-MM-DD] can write (0000-01-01 to 9999-12-31) and for up to a
    million business days, the dates [getNextBusinessDay] returns for one,
    two, three, ... business days repeat weekly: the next one is one day
    later, or three days later across the days the host takes for a
    weekend, and five business days on is seven calendar days on. *)
Theorem business_days_repeat_weekly (tz : Z) (d : date) (k : nat) :
  (-719528 ≤ d ≤ 2932896)%Z → (k ≤ 1000 * 1000)%nat →
  ∃ r1 r2 r6 : date,
    getNextBusinessDay tz (Some d) (S k) = Returns r1
    ∧ getNextBusinessDay tz (Some d) (S (S k)) = Returns r2
    ∧ getNextBusinessDay tz (Some d) (S k + 5) = Returns r6
    ∧ (r2 = r1 + 1 ∨ r2 = r1 + 3)%Z
    ∧ r6 = (r1 + 7)%Z.
Proof.
  intros _ _.
  rewrite !getNextBusinessDay_steps. do 3 eexists.
  do 3 (split; [reflexivity|]).
  replace (S k + 5)%nat with (6 + k)%nat by lia.
  change (S (S k)) with (2 + k)%nat. change (S k) with (1 + k)%nat.
  rewrite !nthBusinessDayAfter_add.
  set (e := nthBusinessDayAfter (dayShift tz) d k).
  rewrite !(nthBusinessDayAfter_shift (dayShift tz) e).
  destruct (business_week (e + dayShift tz)) as [H6 H2]. lia.
Qed.

Lemma business_days_repeat_weekly_witness :
  ∃ r1 r2 r6 : date,
    getNextBusinessDay (-300) (Some 19733%Z) 1 = Returns r1
    ∧ getNextBusinessDay (-300) (Some 19733%Z) 2 = Returns r2
    ∧ getNextBusinessDay (-300) (Some 19733%Z) (1 + 5) = Returns r6
    ∧ (r2 = r1 + 1 ∨ r2 = r1 + 3)%Z
    ∧ r6 = (r1 + 7)%Z.
Proof. apply (business_days_repeat_weekly (-300) 19733 0); lia. Defined.

(** X11. On a host at UTC or east of it (up to UTC+23:59)
    [getNextBusinessDay] returns, for every date and every [daysToAdd], the
    date [len] days on such that exactly [daysToAdd] of the days after the
    given date up to it are Monday to Friday; for [daysToAdd >= 1] it is
    one of them. *)
Theorem getNextBusinessDay_east_of_UTC (tz : Z) (d : date) (daysToAdd : nat) :
  (0 ≤ tz < 1440)%Z →
  ∃ len : nat,
    getNextBusinessDay tz (Some d) daysToAdd = Returns (d + Z.of_nat len)%Z
    ∧ businessDaysWithin d len = daysToAdd
    ∧ ((1 ≤ daysToAdd)%nat →
       (1 ≤ len)%nat ∧ isBusinessDay (d + Z.of_nat len) = true).
Proof.
  intros Htz. rewrite getNextBusinessDay_steps, (dayShift_east tz Htz).
  destruct (nthBusinessDayAfter_counts d daysToAdd) as (len & Hr & Hc & Hb).
  exists len. rewrite Hr. split; [done|]. split; [done|].
  intros Hk. rewrite <- Hr. split; [|by apply Hb].
  destruct len; [|lia]. simpl in Hc. lia.
Qed.

Lemma getNextBusinessDay_east_of_UTC_witness :
  ∃ len : nat,
    getNextBusinessDay 60 (Some 19733%Z) 2 = Returns (19733 + Z.of_nat len)%Z
    ∧ businessDaysWithin 19733 len = 2%nat
    ∧ ((1 ≤ 2)%nat →
       (1 ≤ len)%nat ∧ isBusinessDay (19733 + Z.of_nat len) = true).
Proof. apply getNextBusinessDay_east_of_UTC. lia. Defined.

(** X12. On a host west of UTC (down to UTC-24:00) [getNextBusinessDay]
    works on the calendar of the day before: it returns the day after the
    [daysToAdd]-th business day after the day before the given date. From
    one business day on, what it returns is a Tuesday to Saturday, never
    a Sunday or a Monday. *)
Theorem getNextBusinessDay_west_of_UTC (tz : Z) (d : date) (daysToAdd : nat) :
  (-1440 ≤ tz < 0)%Z →
  ∃ r : date,
    getNextBusinessDay tz (Some d) daysToAdd = Returns r
    ∧ r = (nthBusinessDayAfter 0 (d - 1) daysToAdd + 1)%Z
    ∧ ((1 ≤ daysToAdd)%nat →
       isBusinessDay (r - 1) = true
       ∧ dayOfWeek r ≠ 0%Z ∧ dayOfWeek r ≠ 1%Z).
Proof.
  intros Htz. rewrite getNextBusinessDay_steps, (dayShift_west tz Htz).
  eexists. split; [reflexivity|].
  rewrite nthBusinessDayAfter_shift.
  replace (d + -1)%Z with (d - 1)%Z by lia.
  split; [lia|]. intros Hk.
  destruct (nthBusinessDayAfter_counts (d - 1) daysToAdd) as (len & _ & _ & Hb).
  specialize (Hb Hk).
  replace (nthBusinessDayAfter 0 (d - 1) daysToAdd - -1 - 1)%Z
    with (nthBusinessDayAfter 0 (d - 1) daysToAdd) by lia.
  split; [done|].
  revert Hb. generalize (nthBusinessDayAfter 0 (d - 1) daysToAdd). intros e.
  unfold isBusinessDay, dayOfWeek. intros Hb.
  apply andb_true_iff in Hb as [H0 H6].
  apply negb_true_iff, Z.eqb_neq in H0, H6.
  split; Z.div_mod_to_equations; lia.
Qed.

Lemma getNextBusinessDay_west_of_UTC_witness :
  ∃ r : date,
    getNextBusinessDay (-300) (Some 19733%Z) 2 = Returns r
    ∧ r = (nthBusinessDayAfter 0 (19733 - 1) 2 + 1)%Z
    ∧ ((1 ≤ 2)%nat →
       isBusinessDay (r - 1) = true
       ∧ dayOfWeek r ≠ 0%Z ∧ dayOfWeek r ≠ 1%Z).
Proof. apply getNextBusinessDay_west_of_UTC. lia. Defined.

(** ** Backtests do not look ahead *)

Lemma nth_take_lt {A} (l : list A) (m i : nat) (x : A) :
  (i < m)%nat → nth i (take m l) x = nth i l x.
Proof. intros H. by rewrite !nth_lookup, lookup_take_lt. Qed.

Lemma slice_take {A} (l : list A) (m i j : nat) :
  (j ≤ m)%nat → slice i j (take m l) = slice i j l.
Proof.
  intros H. unfold slice. apply list_eq. intros k.
  destruct (Nat.lt_ge_cases k (j - i)) as [Hk|Hk].
  - rewrite !lookup_take_lt, !lookup_drop by done.
    rewrite lookup_take_lt by lia. done.
  - by rewrite !lookup_take_ge.
Qed.

Lemma map_take_seq {B} (f : nat → B) (a n k : nat) :
  take k (map f (seq a n)) = map f (seq a (k `min` n)).
Proof.
  change (map f (seq a n)) with (f <$> seq a n).
  by rewrite <- fmap_take, take_seq.
Qed.

Lemma map_take_comm {A B} (f : A → B) (l : list A) (m : nat) :
  map f (take m l) = take m (map f l).
Proof. change (f <$> take m l = take m (f <$> l)). apply fmap_take. Qed.

Lemma maBacktest_take (data : list StockDataPoint) (windowSize m : nat) :
  maBacktest (take m data) windowSize
  = take (m - windowSize) (maBacktest data windowSize).
Proof.
  unfold maBacktest. rewrite map_take_seq, length_take.
  replace ((m - windowSize) `min` (length data - windowSize))%nat
    with (m `min` length data - windowSize)%nat by lia.
  apply map_ext_in. intros i Hi. apply in_seq in Hi.
  rewrite !map_take_comm.
  rewrite !nth_take_lt, slice_take by lia. done.
Qed.

(** X13. The backtest of [movingAveragePredict] does not look ahead: on
    the first [m] points of a series it is the backtest on the whole
    series cut after the entries for those points, whatever comes later
    in the series. *)
Theorem moving_average_backtest_no_lookahead (tz tz' : Z)
    (data : list StockDataPoint) (windowSize forecastDays forecastDays' m : nat)
    (rs rs' : list PredictionResult) :
  movingAveragePredict tz data windowSize forecastDays = Returns rs →
  movingAveragePredict tz' (take m data) windowSize forecastDays' = Returns rs' →
  backtestPortion rs' = take (m - windowSize) (backtestPortion rs).
Proof.
  intros H H'.
  rewrite (movingAveragePredict_backtest _ _ _ _ _ H),
    (movingAveragePredict_backtest _ _ _ _ _ H').
  apply maBacktest_take.
Qed.

Lemma moving_average_backtest_no_lookahead_witness :
  ∃ rs rs',
    movingAveragePredict 0 sampleSeries 3 2 = Returns rs
    ∧ movingAveragePredict 0 (take 5 sampleSeries) 3 1 = Returns rs'
    ∧ backtestPortion rs' = take (5 - 3) (backtestPortion rs).
Proof.
  eexists. eexists.
  split; [vm_compute; reflexivity|].
  split; [vm_compute; reflexivity|].
  apply (moving_average_backtest_no_lookahead 0 0 sampleSeries 3 2 1 5);
    vm_compute; reflexivity.
Defined.

Lemma firstDifferences_take (l : list number) (m : nat) :
  firstDifferences (take m l) = take (m - 1) (firstDifferences l).
Proof.
  unfold firstDifferences. rewrite map_take_seq, length_take.
  replace ((m - 1) `min` (length l - 1))%nat
    with (m `min` length l - 1)%nat by lia.
  apply map_ext_in. intros k Hk. apply in_seq in Hk.
  by rewrite !nth_take_lt by lia.
Qed.

Lemma differencing_take (d m : nat) (l : list number) :
  Nat.iter d difference (take m l) = take (m - d) (Nat.iter d difference l).
Proof.
  revert m. induction d as [|d IH]; intros m.
  - simpl. by rewrite Nat.sub_0_r.
  - simpl. rewrite IH, !difference_firstDifferences, firstDifferences_take.
    f_equal. lia.
Qed.

Lemma arimaPrediction_take (p q : nat) (diffSeries residuals : list number)
    (L pos : nat) :
  (pos ≤ L)%nat →
  arimaPrediction p q (take L diffSeries) residuals pos
  = arimaPrediction p q diffSeries residuals pos.
Proof.
  intros H. unfold arimaPrediction. by rewrite slice_take.
Qed.

Lemma arimaResiduals_take (p q : nat) (diffSeries : list number) (L i : nat) :
  (p `max` q + i ≤ L)%nat →
  arimaResiduals p q (take L diffSeries) i = arimaResiduals p q diffSeries i.
Proof.
  induction i as [|i IH]; intros H; [done|].
  cbn [arimaResiduals]. rewrite IH by lia.
  by rewrite nth_take_lt, arimaPrediction_take by lia.
Qed.

Lemma arimaPredictions_take (data : list StockDataPoint) (p d q m : nat) :
  arimaPredictions (take m data) p d q
  = take (m - d - p `max` q) (arimaPredictions data p d q).
Proof.
  unfold arimaPredictions.
  rewrite map_take_comm, differencing_take.
  remember (Nat.iter d difference (map close data)) as diffSeries.
  rewrite map_take_seq, length_take.
  replace ((m - d - p `max` q) `min` (length diffSeries - p `max` q))%nat
    with ((m - d) `min` length diffSeries - p `max` q)%nat by lia.
  apply map_ext_in. intros i Hi. apply in_seq in Hi.
  destruct (Nat.le_ge_cases (m - d) (length diffSeries)) as [Hle|Hge].
  - rewrite arimaResiduals_take, arimaPrediction_take by lia. done.
  - by rewrite take_ge by lia.
Qed.

Lemma fold_left_ext_in {A B} (f g : A → B → A) (l : list B) (a : A) :
  (∀ a x, In x l → f a x = g a x) → fold_left f l a = fold_left g l a.
Proof.
  revert a. induction l as [|x l IH]; intros a H; [done|].
  simpl. rewrite H by (by left). apply IH. intros a' y Hy.
  apply H. by right.
Qed.

Lemma arimaBacktestEntries_take (data : list StockDataPoint) (p d q m : nat) :
  arimaBacktestEntries (map close (take m data)) (map sdp_date (take m data))
    (arimaPredictions (take m data) p d q) p d q
  = take (m - (p `max` q + d))
      (arimaBacktestEntries (map close data) (map sdp_date data)
         (arimaPredictions data p d q) p d q).
Proof.
  unfold arimaBacktestEntries.
  rewrite arimaPredictions_take, map_take_seq, length_take.
  rewrite arimaPredictions_length.
  replace ((m - (p `max` q + d)) `min` (length data - d - p `max` q))%nat
    with ((m - d - p `max` q) `min` (length data - d - p `max` q))%nat by lia.
  apply map_ext_in. intros i Hi. apply in_seq in Hi.
  rewrite !map_take_comm.
  rewrite !(nth_take_lt _ m) by lia.
  rewrite (nth_take_lt _ (m - d - p `max` q)) by lia.
  f_equal. f_equal. apply fold_left_ext_in. intros a j Hj.
  apply in_seq in Hj. by rewrite nth_take_lt by lia.
Qed.

(** X14. The backtest of [arimaPredict] does not look ahead: on the first
    [m] points of a series it is the backtest on the whole series cut
    after the entries for those points. *)
Theorem arima_backtest_no_lookahead (tz tz' : Z) (data : list StockDataPoint)
    (p d q forecastDays forecastDays' m : nat)
    (rs rs' : list PredictionResult) :
  arimaPredict tz data p d q forecastDays = Returns rs →
  arimaPredict tz' (take m data) p d q forecastDays' = Returns rs' →
  backtestPortion rs' = take (m - (p `max` q + d)) (backtestPortion rs).
Proof.
  intros H H'.
  rewrite (arimaPredict_backtest _ _ _ _ _ _ _ H),
    (arimaPredict_backtest _ _ _ _ _ _ _ H').
  apply arimaBacktestEntries_take.
Qed.

Lemma arima_backtest_no_lookahead_witness :
  ∃ rs rs',
    arimaPredict 0 sampleSeries 2 1 1 2 = Returns rs
    ∧ arimaPredict 0 (take 6 sampleSeries) 2 1 1 1 = Returns rs'
    ∧ backtestPortion rs' = take (6 - (2 `max` 1 + 1)) (backtestPortion rs).
Proof.
  eexists. eexists.
  split; [vm_compute; reflexivity|].
  split; [vm_compute; reflexivity|].
  apply (arima_backtest_no_lookahead 0 0 sampleSeries 2 1 1 2 1 6);
    vm_compute; reflexivity.
Defined.

(** ** [arimaPredict] on a straight line *)

Lemma isCents_line (a b : number) (k : nat) :
  isCents a → isCents b → isCents (a + num_of_nat k * b)%Qc.
Proof.
  intros [za ->] [zb ->]. exists (za + Z.of_nat k * zb)%Z.
  apply Qc_is_canon. unfold num_of_nat. cbn [this Qcplus Qcmult Q2Qc].
  rewrite !Qred_correct. unfold Qeq. simpl. lia.
Qed.

Lemma map_seq_const {B} (f : nat → B) (c : B) (a n : nat) :
  (∀ i, (a ≤ i < a + n)%nat → f i = c) → map f (seq a n) = replicate n c.
Proof.
  revert a. induction n as [|n IH]; intros a H; [done|].
  simpl. rewrite H by lia. f_equal. apply IH. intros i Hi. apply H. lia.
Qed.

Lemma sumQc_replicate (n : nat) (c : number) :
  sumQc (replicate n c) = (num_of_nat n * c)%Qc.
Proof.
  induction n as [|n IH].
  - simpl. change (num_of_nat 0) with 0%Qc. ring.
  - cbn [replicate sumQc foldr]. fold (sumQc (replicate n c)).
    rewrite IH, num_of_nat_S. ring.
Qed.

Lemma linearCloses_nth (a b : number) (n i : nat) :
  (i < n)%nat → nth i (linearCloses a b n) 0%Qc = (a + num_of_nat i * b)%Qc.
Proof. intros H. unfold linearCloses. by rewrite nth_map_seq. Qed.

Lemma linearCloses_length (a b : number) (n : nat) :
  length (linearCloses a b n) = n.
Proof. unfold linearCloses. by rewrite length_map, length_seq. Qed.

Lemma linearCloses_difference (a b : number) (n : nat) :
  difference (linearCloses a b n) = replicate (n - 1) b.
Proof.
  rewrite difference_firstDifferences. unfold firstDifferences.
  rewrite linearCloses_length. apply map_seq_const. intros k Hk.
  rewrite !linearCloses_nth by lia.
  replace (k + 1)%nat with (S k) by lia. rewrite num_of_nat_S. ring.
Qed.

(** The uniform weights [1/p] on [p] equal values give the value back. *)
Lemma uniform_weights (p : nat) (b : number) :
  (1 ≤ p)%nat ∨ b = 0%Qc →
  (1 / num_of_nat p * (num_of_nat p * b))%Qc = b.
Proof.
  intros [Hp| ->]; [|ring].
  pose proof (num_of_nat_nonzero p Hp) as Hnz. by field.
Qed.

Lemma lastN_replicate {A} (q n : nat) (c : A) :
  lastN q (replicate n c) = replicate (q `min` n) c.
Proof.
  unfold lastN. rewrite drop_replicate, length_replicate. f_equal. lia.
Qed.

Lemma arimaPrediction_on_line (p q : nat) (b : number) (m i pos : nat) :
  (1 ≤ p)%nat ∨ b = 0%Qc → (p ≤ pos)%nat → (pos ≤ m)%nat →
  arimaPrediction p q (replicate m b) (replicate i 0%Qc) pos = b.
Proof.
  intros Hp Hpos Hm. unfold arimaPrediction.
  rewrite slice_replicate by done.
  rewrite lastN_replicate, sumQc_replicate, sumQc_zeros.
  rewrite uniform_weights by done. ring.
Qed.

Lemma arimaResiduals_on_line (p q : nat) (b : number) (m i : nat) :
  (1 ≤ p)%nat ∨ b = 0%Qc → (p `max` q + i ≤ m)%nat →
  arimaResiduals p q (replicate m b) i = replicate i 0%Qc.
Proof.
  intros Hp. induction i as [|i IH]; intros Hi; [done|].
  cbn [arimaResiduals]. rewrite IH by lia.
  rewrite arimaPrediction_on_line by (done || lia).
  rewrite nth_replicate_lt by lia.
  replace (b - b)%Qc with 0%Qc by ring.
  change [0%Qc] with (replicate 1 0%Qc).
  rewrite <- replicate_add. f_equal. lia.
Qed.

Lemma arimaPredictions_on_line (data : list StockDataPoint) (a b : number)
    (p q : nat) :
  map close data = linearCloses a b (length data) →
  (1 ≤ p)%nat ∨ b = 0%Qc →
  arimaPredictions data p 1 q = replicate (length data - 1 - p `max` q) b.
Proof.
  intros Hc Hp. unfold arimaPredictions. cbn [Nat.iter].
  rewrite Hc, linearCloses_difference, length_replicate.
  apply map_seq_const. intros i Hi.
  rewrite arimaResiduals_on_line by (done || lia).
  apply arimaPrediction_on_line; (done || lia).
Qed.

Lemma nth_all_equal (l : list number) (c : number) (i : nat) :
  Forall (λ x, x = c) l → (i < length l)%nat → nth i l 0%Qc = c.
Proof.
  intros H Hi. destruct (lookup_lt_is_Some_2 l i Hi) as [x Hx].
  rewrite nth_lookup, Hx. simpl. by apply (Forall_lookup_1 _ _ _ _ H Hx).
Qed.

Lemma nth_last (l : list number) (v : number) :
  last l = Some v → nth (length l - 0 - 1) l 0%Qc = v.
Proof.
  intros H. rewrite last_lookup in H. rewrite nth_lookup.
  replace (length l - 0 - 1)%nat with (pred (length l)) by lia.
  by rewrite H.
Qed.

Lemma arimaBacktestEntries_on_line (data : list StockDataPoint) (a b : number)
    (p q : nat) :
  isCents a → isCents b →
  map close data = linearCloses a b (length data) →
  (1 ≤ p)%nat ∨ b = 0%Qc →
  Forall (λ r, actual r = Some (predicted r))
    (arimaBacktestEntries (map close data) (map sdp_date data)
       (arimaPredictions data p 1 q) p 1 q).
Proof.
  intros Ha Hb Hc Hp. unfold arimaBacktestEntries.
  rewrite (arimaPredictions_on_line data a b p q Hc Hp), length_replicate.
  apply Forall_map_seq. intros i Hi. cbn [actual predicted seq fold_left].
  rewrite nth_replicate_lt by lia. rewrite Hc.
  rewrite !linearCloses_nth by lia. f_equal.
  replace (i + p `max` q + 1 - 0 - 1)%nat with (i + p `max` q)%nat by lia.
  replace (i + p `max` q + 1)%nat with (S (i + p `max` q)) by lia.
  rewrite num_of_nat_S.
  replace (b + (a + num_of_nat (i + p `max` q) * b))%Qc
    with (a + (num_of_nat (i + p `max` q) + 1) * b)%Qc by ring.
  symmetry. apply toFixed2_of_cents.
  rewrite <- num_of_nat_S. by apply isCents_line.
Qed.

(** One turn of the forecast loop on a state that holds equal differenced
    predictions [b], residuals 0 and a last undifferenced value [v]. *)
Lemma arimaForecastTurn_on_line (p q : nat) (lastActuals : list number)
    (b v : number) (i : nat) (lp le up : list number) :
  ((1 ≤ p)%nat ∧ length lp = p) ∨ b = 0%Qc →
  Forall (λ x, x = b) lp → Forall (λ x, x = 0%Qc) le → last up = Some v →
  ∃ lp' le' up',
    arimaForecastTurn p 1 q lastActuals i (lp, le, up)
    = ((lp', le', up'), toFixed2 (b + v))
    ∧ (((1 ≤ p)%nat ∧ length lp' = p) ∨ b = 0%Qc)
    ∧ Forall (λ x, x = b) lp' ∧ Forall (λ x, x = 0%Qc) le'
    ∧ last up' = Some (toFixed2 (b + v)).
Proof.
  intros Hcase Hlp Hle Hup. unfold arimaForecastTurn.
  assert (Har :
    fold_left (λ arComponent j,
      (arComponent
         + nth j (replicate p (1 / num_of_nat p)%Qc) 0
           * nth (length lp - j - 1) lp 0)%Qc)
      (seq 0 (p `min` length lp)) 0%Qc = b).
  { rewrite (fold_left_sum
      (λ j, (nth j (replicate p (1 / num_of_nat p)%Qc) 0
             * nth (length lp - j - 1) lp 0)%Qc)).
    rewrite (map_seq_const _ (1 / num_of_nat p * b)%Qc).
    2: { intros j Hj. rewrite nth_replicate_lt by lia.
         by rewrite (nth_all_equal lp b) by (done || lia). }
    rewrite sumQc_replicate, Qcplus_0_l.
    destruct Hcase as [[Hp Hl]| ->]; [|ring].
    rewrite Hl, Nat.min_id.
    pose proof (num_of_nat_nonzero p Hp) as Hnz. by field. }
  assert (Hma :
    fold_left (λ maComponent j,
      (maComponent
         + nth j (replicate q (1 / num_of_nat q)%Qc) 0
           * nth (length le - j - 1) le 0)%Qc)
      (seq 0 (q `min` length le)) 0%Qc = 0%Qc).
  { rewrite (fold_left_sum
      (λ j, (nth j (replicate q (1 / num_of_nat q)%Qc) 0
             * nth (length le - j - 1) le 0)%Qc)).
    rewrite (map_seq_const _ 0%Qc).
    2: { intros j Hj. rewrite (nth_all_equal le 0%Qc) by (done || lia). ring. }
    rewrite sumQc_zeros. ring. }
  cbv zeta. rewrite Har, Hma. cbn [seq fold_left Nat.leb].
  rewrite (nth_last up v Hup).
  replace (b + 0 + v)%Qc with (b + v)%Qc by ring.
  eexists _, _, _. split; [reflexivity|].
  split; [|split; [|split]].
  - destruct Hcase as [[Hp Hl]|Hb]; [left|by right]. split; [done|].
    unfold shift_push. rewrite length_app. destruct lp; simpl in *; lia.
  - unfold shift_push. apply Forall_app. split.
    + destruct lp; [done|]. by inversion Hlp.
    + repeat constructor. ring.
  - unfold shift_push. apply Forall_app. split.
    + destruct le; [done|]. by inversion Hle.
    + by repeat constructor.
  - by rewrite last_snoc.
Qed.

Lemma slice_last_all_equal (n : nat) (l : list number) (c : number) :
  Forall (λ x, x = c) l → Forall (λ x, x = c) (slice_last n l).
Proof.
  intros H. unfold slice_last. destruct (n =? 0)%nat; [done|].
  by apply Forall_drop.
Qed.

Lemma arimaForecastValues_on_line (data : list StockDataPoint) (a b : number)
    (p q forecastDays : nat) :
  isCents a → isCents b →
  map close data = linearCloses a b (length data) →
  (p `max` q + 2 ≤ length data)%nat →
  ((1 ≤ p)%nat ∧ (p `max` q + p + 1 ≤ length data)%nat) ∨ b = 0%Qc →
  arimaForecastValues data p 1 q forecastDays
  = map (λ k, (a + num_of_nat (length data + k) * b)%Qc) (seq 0 forecastDays).
Proof.
  intros Ha Hb Hc Hlen Hcase.
  assert (Hp : (1 ≤ p)%nat ∨ b = 0%Qc) by (destruct Hcase as [[? _]|?]; auto).
  set (n := length data) in *.
  assert (Hstep : ∀ i, toFixed2 (b + (a + num_of_nat (n - 1 + i) * b))%Qc
                       = (a + num_of_nat (n + i) * b)%Qc).
  { intros i. replace (n + i)%nat with (S (n - 1 + i)) by lia.
    rewrite num_of_nat_S.
    replace (b + (a + num_of_nat (n - 1 + i) * b))%Qc
      with (a + (num_of_nat (n - 1 + i) + 1) * b)%Qc by ring.
    apply toFixed2_of_cents. rewrite <- num_of_nat_S. by apply isCents_line. }
  unfold arimaForecastValues.
  destruct (forecastRun_invariant
    (arimaForecastTurn p 1 q (slice_last 1 (map close data)))
    (λ i '(lp, le, up),
       (((1 ≤ p)%nat ∧ length lp = p) ∨ b = 0%Qc)
       ∧ Forall (λ x, x = b) lp ∧ Forall (λ x, x = 0%Qc) le
       ∧ last up = Some (a + num_of_nat (n - 1 + i) * b)%Qc)
    (λ i v, v = (a + num_of_nat (n + i) * b)%Qc))
    with (k := forecastDays) (a := 0%nat) (st := arimaForecastStart data p 1 q)
    as [_ Hvalues].
  - intros i [[lp le] up] (H1 & H2 & H3 & H4).
    destruct (arimaForecastTurn_on_line p q (slice_last 1 (map close data))
                b _ i lp le up H1 H2 H3 H4)
      as (lp' & le' & up' & -> & H1' & H2' & H3' & H4').
    cbn [fst snd]. rewrite Hstep in *. repeat split; try done.
    by replace (n - 1 + S i)%nat with (n + i)%nat by lia.
  - unfold arimaForecastStart. cbn [Nat.iter].
    rewrite (arimaPredictions_on_line data a b p q Hc Hp).
    rewrite Hc, linearCloses_difference, length_replicate.
    rewrite arimaResiduals_on_line by (done || lia).
    fold n. repeat split.
    + destruct Hcase as [[H1 H2]|H0]; [left|by right]. split; [done|].
      unfold slice_last. destruct (Nat.eqb_spec p 0) as [?|_]; [lia|].
      rewrite length_drop, length_replicate. lia.
    + apply slice_last_all_equal, Forall_replicate. done.
    + apply slice_last_all_equal, Forall_replicate. done.
    + unfold arimaUndiffValues. rewrite length_replicate.
      replace (n - 1 - p `max` q)%nat with (S (n - 2 - p `max` q)) by lia.
      rewrite (seq_S (n - 2 - p `max` q) 0), map_app. cbn [map].
      rewrite last_snoc.
      cbn [seq fold_left]. rewrite nth_replicate_lt by lia.
      rewrite linearCloses_nth by lia. f_equal.
      replace (0 + (n - 2 - p `max` q) + p `max` q + 1 - 0 - 1)%nat
        with (n - 2)%nat by lia.
      replace (n - 1 + 0)%nat with (S (n - 2)) by lia.
      rewrite num_of_nat_S. ring.
  - remember (forecastRun
                (arimaForecastTurn p 1 q (slice_last 1 (map close data)))
                0 forecastDays (arimaForecastStart data p 1 q)).2 as vs eqn:Hvs.
    assert (Hl : length vs = forecastDays)
      by (subst vs; apply forecastRun_length).
    clear Hvs. apply list_eq. intros j.
    change (map ?f ?l) with (f <$> l). rewrite list_lookup_fmap.
    destruct (Nat.lt_ge_cases j forecastDays) as [Hj|Hj].
    + rewrite lookup_seq_lt by done. cbn [fmap option_fmap option_map].
      destruct (lookup_lt_is_Some_2 vs j) as [v Hv]; [lia|].
      rewrite Hv. f_equal. by apply (Hvalues j v Hv).
    + rewrite lookup_seq_ge by done. apply lookup_ge_None_2. lia.
Qed.

Lemma arimaForecastEntries_predicted (shift : Z) (dl : date) (a : nat)
    (preds : list number) :
  map predicted (arimaForecastEntries shift dl a preds) = preds.
Proof.
  unfold arimaForecastEntries. apply list_eq. intros j.
  change (map ?f ?l) with (f <$> l).
  rewrite list_lookup_fmap, list_lookup_imap.
  by destruct (preds !! j).
Qed.

(** X15. On closes that lie on a straight line [a + i * b] in whole cents,
    [arimaPredict] with [d = 1], [p >= 1] and at least [p] backtest
    predictions is exact: every backtest entry predicts its actual value,
    the mean absolute error is 0, and the [k]-th forecast continues the
    line. *)
Theorem arima_extends_a_straight_line (tz : Z) (data : list StockDataPoint)
    (a b : number) (p q forecastDays : nat) :
  isCents a → isCents b →
  map close data = linearCloses a b (length data) →
  (1 ≤ p)%nat → (p `max` q + p + 1 ≤ length data)%nat →
  ∃ rs, arimaPredict tz data p 1 q forecastDays = Returns rs
        ∧ Forall (λ r, actual r = Some (predicted r)) (backtestPortion rs)
        ∧ calculateMAE rs = 0%Qc
        ∧ map predicted (forecastPortion rs)
          = map (λ k, (a + num_of_nat (length data + k) * b)%Qc)
                (seq 0 forecastDays).
Proof.
  intros Ha Hb Hc Hp Hlen.
  destruct (last_is_Some (map sdp_date data)) as [dl Hdl].
  { destruct data; simpl in *; [lia | done]. }
  rewrite (arimaPredict_forecast tz data p 1 q forecastDays dl) by (done || lia).
  eexists; split; [reflexivity|].
  destruct (portions_of_result _ _
    (arimaBacktestEntries_actual (map close data) (map sdp_date data)
       (arimaPredictions data p 1 q) p 1 q)
    (arimaForecastEntries_actual (dayShift tz) dl 0
       (arimaForecastValues data p 1 q forecastDays))) as [Hbt Hfc].
  rewrite <- calculateMAE_backtestPortion, Hbt, Hfc.
  pose proof (arimaBacktestEntries_on_line data a b p q Ha Hb Hc (or_introl Hp))
    as Hexact.
  split; [done|]. split; [by apply calculateMAE_exact|].
  rewrite arimaForecastEntries_predicted.
  apply arimaForecastValues_on_line; try done; [lia | left; split; done].
Qed.

Lemma arima_extends_a_straight_line_witness :
  ∃ rs,
    arimaPredict 0
      [samplePoint 19723 10; samplePoint 19724 (1025 # 100);
       samplePoint 19725 (1050 # 100); samplePoint 19726 (1075 # 100);
       samplePoint 19727 11] 2 1 1 3
    = Returns rs
    ∧ Forall (λ r, actual r = Some (predicted r)) (backtestPortion rs)
    ∧ calculateMAE rs = 0%Qc
    ∧ map predicted (forecastPortion rs)
      = map (λ k, (Q2Qc 10 + num_of_nat (5 + k) * Q2Qc (25 # 100))%Qc)
            (seq 0 3).
Proof.
  apply (arima_extends_a_straight_line 0
    [samplePoint 19723 10; samplePoint 19724 (1025 # 100);
     samplePoint 19725 (1050 # 100); samplePoint 19726 (1075 # 100);
     samplePoint 19727 11] (Q2Qc 10) (Q2Qc (25 # 100)) 2 1 3).
  - decide_isCents 1000%Z.
  - decide_isCents 25%Z.
  - cbn [map length linearCloses seq close samplePoint].
    repeat (apply (f_equal2 cons); [decide_numbers|]). reflexivity.
  - lia.
  - simpl. lia.
Defined.

(** ** A flat series *)

Lemma flat_is_line (data : list StockDataPoint) (c : number) :
  Forall (λ x, close x = c) data →
  map close data = linearCloses c 0 (length data).
Proof.
  intros H. rewrite (constant_closes data c H). symmetry.
  apply map_seq_const. intros i _. ring.
Qed.

Lemma within_point (c x : number) : within c c x → x = c.
Proof. intros [H1 H2]. by apply Qcle_antisym. Qed.

Lemma esLevel_flat (alpha c : number) (n i : nat) :
  (i ≤ n)%nat → (1 ≤ n)%nat → esLevel alpha (replicate n c) i = c.
Proof.
  intros Hi Hn. induction i as [|i IH].
  - simpl. by rewrite nth_replicate_lt by lia.
  - cbn [esLevel]. rewrite IH by lia. rewrite nth_replicate_lt by lia. ring.
Qed.

Lemma iter_esStep_flat_point (alpha c : number) (k : nat) :
  isCents c → Nat.iter k (esStep alpha) (c, c) = (c, c).
Proof.
  intros Hc. induction k as [|k IH]; [done|].
  simpl. rewrite IH. unfold esStep. cbn [fst snd].
  replace (alpha * c + (1 - alpha) * c)%Qc with c by ring.
  by rewrite toFixed2_of_cents.
Qed.

Lemma Forall_map_seq_elim {B} (P : B → Prop) (f : nat → B) (a k i : nat) :
  Forall P (map f (seq a k)) → (a ≤ i < a + k)%nat → P (f i).
Proof.
  intros H Hi. apply (proj1 (Forall_forall _ _) H).
  apply list_elem_of_In, in_map, in_seq. lia.
Qed.

Lemma maEntries_flat (data : list StockDataPoint) (c : number)
    (windowSize : nat) (shift : Z) (dl : date) (forecastDays : nat) :
  isCents c → Forall (λ x, close x = c) data →
  (1 ≤ windowSize)%nat → (windowSize ≤ length data)%nat →
  Forall (λ r, predicted r = c)
    (maBacktest data windowSize
     ++ maForecast shift dl (slice_last windowSize (map close data))
          0 forecastDays).
Proof.
  intros Hc Hflat Hw Hwlen. eapply Forall_impl.
  - apply (maEntries_within data windowSize c c); try done.
    eapply Forall_impl; [exact Hflat|]. intros x ->. split; apply Qcle_refl.
  - intros r. apply within_point.
Qed.

Lemma esEntries_flat (data : list StockDataPoint) (c alpha : number)
    (shift : Z) (dl : date) (forecastDays : nat) :
  isCents c → Forall (λ x, close x = c) data → (2 ≤ length data)%nat →
  Forall (λ r, predicted r = c)
    (esBacktest alpha data
     ++ esForecast alpha shift dl
          (esLevel alpha (map close data) (length data - 1),
           nth (length data - 1) (map close data) 0%Qc) 0 forecastDays).
Proof.
  intros Hc Hflat Hlen.
  unfold esBacktest, esForecast. rewrite (constant_closes data c Hflat).
  apply Forall_app. split.
  - apply Forall_map_seq. intros i Hi. cbn [predicted].
    rewrite esLevel_flat by lia. by apply toFixed2_of_cents.
  - apply Forall_map_intro. intros k. cbn [predicted].
    rewrite esLevel_flat, nth_replicate_lt by lia.
    by rewrite iter_esStep_flat_point.
Qed.

Lemma arimaEntries_flat (data : list StockDataPoint) (c : number)
    (p q : nat) (shift : Z) (dl : date) (forecastDays : nat) :
  isCents c → Forall (λ x, close x = c) data →
  (p `max` q + 2 ≤ length data)%nat →
  Forall (λ r, predicted r = c)
    (arimaBacktestEntries (map close data) (map sdp_date data)
       (arimaPredictions data p 1 q) p 1 q
     ++ arimaForecastEntries shift dl 0
          (arimaForecastValues data p 1 q forecastDays)).
Proof.
  intros Hc Hflat Hplen.
  pose proof (flat_is_line data c Hflat) as Hline.
  apply Forall_app. split.
  - pose proof (arimaBacktestEntries_on_line data c 0 p q Hc isCents_zero
                  Hline (or_intror eq_refl)) as Hexact.
    unfold arimaBacktestEntries in *.
    apply Forall_map_seq. intros i Hi. cbn [predicted].
    assert (Hi' : (i < length (arimaPredictions data p 1 q))%nat) by lia.
    pose proof (Forall_map_seq_elim _ _ _ _ i Hexact Hi) as Hall.
    cbn [actual predicted] in Hall. injection Hall as Hall.
    cbn [seq fold_left].
    rewrite <- Hall, Hline, linearCloses_nth; [ring|].
    rewrite arimaPredictions_length in Hi'. lia.
  - apply Forall_forall. intros r Hr.
    assert (Hin : predicted r
                  ∈ arimaForecastValues data p 1 q forecastDays).
    { rewrite <- (arimaForecastEntries_predicted shift dl 0).
      change (map predicted ?l) with (predicted <$> l).
      by apply list_elem_of_fmap_2. }
    rewrite (arimaForecastValues_on_line data c 0 p q forecastDays Hc
               isCents_zero Hline Hplen (or_intror eq_refl)) in Hin.
    change (map ?f ?l) with (f <$> l) in Hin.
    apply list_elem_of_fmap in Hin as (k & -> & _). ring.
Qed.

(** X16. On a series whose closes all equal a whole number of cents [c],
    the three forecasters predict [c] in every entry, backtest and
    forecast: the moving average for every window of at least one close,
    exponential smoothing for every smoothing factor between 0 and 1, and
    ARIMA with [d = 1] for every [p] and [q]. *)
Theorem flat_series_flat_predictions (tz : Z) (data : list StockDataPoint)
    (c : number) (windowSize : nat) (alpha : number) (p q forecastDays : nat) :
  isCents c → Forall (λ x, close x = c) data →
  (1 ≤ windowSize)%nat → (windowSize ≤ length data)%nat →
  (0 ≤ alpha)%Qc → (alpha ≤ 1)%Qc →
  (2 ≤ length data)%nat → (p `max` q + 2 ≤ length data)%nat →
  ∃ ma es ar,
    movingAveragePredict tz data windowSize forecastDays = Returns ma
    ∧ exponentialSmoothingPredict tz data alpha forecastDays = Returns es
    ∧ arimaPredict tz data p 1 q forecastDays = Returns ar
    ∧ Forall (λ r, predicted r = c) ma
    ∧ Forall (λ r, predicted r = c) es
    ∧ Forall (λ r, predicted r = c) ar.
Proof.
  intros Hc Hflat Hw Hwlen _ _ Hlen Hplen.
  destruct (last_is_Some (map sdp_date data)) as [dl Hdl].
  { destruct data; simpl in *; [lia | done]. }
  rewrite (movingAveragePredict_returns tz data windowSize forecastDays dl)
    by done.
  rewrite (exponentialSmoothingPredict_returns tz data alpha forecastDays dl)
    by done.
  rewrite (arimaPredict_forecast tz data p 1 q forecastDays dl) by (done || lia).
  eexists _, _, _. do 3 (split; [reflexivity|]).
  split; [|split].
  - by apply maEntries_flat.
  - by apply esEntries_flat.
  - by apply arimaEntries_flat.
Qed.

Lemma flat_series_flat_predictions_witness :
  ∃ ma es ar,
    movingAveragePredict 0
      [samplePoint 19723 10; samplePoint 19724 10; samplePoint 19725 10;
       samplePoint 19726 10] 2 3 = Returns ma
    ∧ exponentialSmoothingPredict 0
        [samplePoint 19723 10; samplePoint 19724 10; samplePoint 19725 10;
         samplePoint 19726 10] (Q2Qc (3 # 10)) 3 = Returns es
    ∧ arimaPredict 0
        [samplePoint 19723 10; samplePoint 19724 10; samplePoint 19725 10;
         samplePoint 19726 10] 2 1 1 3 = Returns ar
    ∧ Forall (λ r, predicted r = Q2Qc 10) ma
    ∧ Forall (λ r, predicted r = Q2Qc 10) es
    ∧ Forall (λ r, predicted r = Q2Qc 10) ar.
Proof.
  apply flat_series_flat_predictions.
  - decide_isCents 1000%Z.
  - repeat constructor.
  - lia.
  - simpl. lia.
  - decide_numbers.
  - decide_numbers.
  - simpl. lia.
  - simpl. lia.
Defined.

(** ** The backtest mirrors the input *)

Lemma entries_mirror (data : list StockDataPoint) (k : nat)
    (E : nat → PredictionResult) :
  (∀ i, pr_date (E i) = nth i (map sdp_date data) 0%Z
        ∧ actual (E i) = Some (nth i (map close data) 0%Qc)) →
  map datedActual (map E (seq k (length data - k)))
  = map datedClose (drop k data).
Proof.
  intros HE. apply list_eq. intros j. to_fmap.
  rewrite !list_lookup_fmap, lookup_drop.
  destruct (Nat.lt_ge_cases j (length data - k)) as [Hj|Hj].
  - rewrite lookup_seq_lt by done.
    destruct (lookup_lt_is_Some_2 data (k + j)) as [x Hx]; [lia|].
    rewrite Hx. cbn [fmap option_fmap option_map].
    destruct (HE (k + j)%nat) as [Hd Ha].
    unfold datedActual, datedClose. rewrite Hd, Ha. to_fmap.
    by rewrite !nth_lookup, !list_lookup_fmap, Hx.
  - rewrite lookup_seq_ge by done.
    by rewrite (lookup_ge_None_2 data (k + j)) by lia.
Qed.

Lemma maBacktest_mirror (data : list StockDataPoint) (windowSize : nat) :
  map datedActual (maBacktest data windowSize)
  = map datedClose (drop windowSize data).
Proof. unfold maBacktest. by apply entries_mirror. Qed.

Lemma esBacktest_mirror (alpha : number) (data : list StockDataPoint) :
  map datedActual (esBacktest alpha data) = map datedClose (drop 1 data).
Proof. unfold esBacktest. by apply entries_mirror. Qed.

Lemma arimaBacktestEntries_mirror (data : list StockDataPoint) (p d q : nat) :
  map datedActual
    (arimaBacktestEntries (map close data) (map sdp_date data)
       (arimaPredictions data p d q) p d q)
  = map datedClose (drop (p `max` q + d) data).
Proof.
  unfold arimaBacktestEntries. rewrite arimaPredictions_length.
  rewrite <- (entries_mirror data (p `max` q + d)
    (λ i, {| pr_date := nth i (map sdp_date data) 0%Z;
             actual := Some (nth i (map close data) 0%Qc);
             predicted := 0%Qc; modelName := ARIMA |})) by done.
  replace (length data - d - p `max` q)%nat
    with (length data - (p `max` q + d))%nat by lia.
  to_fmap.
  replace (seq (p `max` q + d) (length data - (p `max` q + d)))
    with (Nat.add (p `max` q + d) <$> seq 0 (length data - (p `max` q + d)))
    by (rewrite fmap_add_seq; f_equal; lia).
  rewrite <- !list_fmap_compose. apply list_fmap_ext. intros j i _.
  unfold datedActual. cbn [compose pr_date actual].
  by replace (p `max` q + d + i)%nat with (i + p `max` q + d)%nat by lia.
Qed.

Lemma backtest_alignment_of_three (tz : Z) (data : list StockDataPoint)
    (windowSize : nat) (alpha : number) (p d q forecastDays : nat)
    (ma es ar : list PredictionResult) :
  movingAveragePredict tz data windowSize forecastDays = Returns ma →
  exponentialSmoothingPredict tz data alpha forecastDays = Returns es →
  arimaPredict tz data p d q forecastDays = Returns ar →
  map datedActual (backtestPortion ma) = map datedClose (drop windowSize data)
  ∧ map datedActual (backtestPortion es) = map datedClose (drop 1 data)
  ∧ map datedActual (backtestPortion ar)
    = map datedClose (drop (p `max` q + d) data).
Proof.
  intros Hma Hes Har. repeat split.
  - rewrite (movingAveragePredict_backtest _ _ _ _ _ Hma).
    apply maBacktest_mirror.
  - rewrite (exponentialSmoothingPredict_backtest _ _ _ _ _ Hes).
    apply esBacktest_mirror.
  - rewrite (arimaPredict_backtest _ _ _ _ _ _ _ Har).
    apply arimaBacktestEntries_mirror.
Qed.

(** X17. The backtest of each forecaster mirrors the input: its entries
    carry, in order, the dates and closes of the input points from the
    first predictable index on ([windowSize] for the moving average, 1
    for exponential smoothing, [max(p, q) + d] for ARIMA), none left out
    and none changed. *)
Theorem backtest_mirrors_the_input (tz : Z) (data : list StockDataPoint)
    (windowSize : nat) (alpha : number) (p d q forecastDays : nat) :
  (∀ rs, movingAveragePredict tz data windowSize forecastDays = Returns rs →
         map datedActual (backtestPortion rs)
         = map datedClose (drop windowSize data))
  ∧ (∀ rs, exponentialSmoothingPredict tz data alpha forecastDays = Returns rs →
           map datedActual (backtestPortion rs) = map datedClose (drop 1 data))
  ∧ (∀ rs, arimaPredict tz data p d q forecastDays = Returns rs →
           map datedActual (backtestPortion rs)
           = map datedClose (drop (p `max` q + d) data)).
Proof.
  repeat split; intros rs H.
  - rewrite (movingAveragePredict_backtest _ _ _ _ _ H).
    apply maBacktest_mirror.
  - rewrite (exponentialSmoothingPredict_backtest _ _ _ _ _ H).
    apply esBacktest_mirror.
  - rewrite (arimaPredict_backtest _ _ _ _ _ _ _ H).
    apply arimaBacktestEntries_mirror.
Qed.

Lemma backtest_mirrors_the_input_witness :
  ∃ rs,
    arimaPredict 0 sampleSeries 2 1 1 3 = Returns rs
    ∧ map datedActual (backtestPortion rs)
      = map datedClose (drop (2 `max` 1 + 1) sampleSeries).
Proof.
  destruct (backtest_mirrors_the_input 0 sampleSeries 3 (Q2Qc (3 # 10))
              2 1 1 3) as (_ & _ & H).
  eexists. split; [|apply H]; vm_compute; reflexivity.
Defined.

(** ** A tie between the three models *)

Lemma percentageErrors_exact (predictions : list PredictionResult) :
  Forall (λ r, actual r = Some (predicted r)) predictions →
  percentageErrors predictions = replicate (length predictions) 0%Qc.
Proof.
  induction 1 as [|r l Hr _ IH]; [done|].
  rewrite percentageErrors_cons, Hr, IH. simpl. f_equal.
  replace (predicted r - predicted r)%Qc with 0%Qc by ring.
  unfold Qcdiv. ring.
Qed.

Lemma calculateMPE_exact (predictions : list PredictionResult) :
  Forall (λ r, actual r = Some (predicted r)) predictions →
  calculateMPE predictions = 0%Qc.
Proof.
  intros H. rewrite calculateMPE_mean, (percentageErrors_exact _ H).
  assert (Hz : toFixed2 (mean (replicate (length predictions) 0%Qc)) = 0%Qc).
  { unfold mean. rewrite sumQc_zeros. unfold Qcdiv. rewrite Qcmult_0_l.
    apply toFixed2_zero. }
  destruct (replicate (length predictions) 0%Qc); done.
Qed.

Lemma flat_backtest_exact (data : list StockDataPoint) (c : number) (k : nat)
    (rs : list PredictionResult) :
  Forall (λ x, close x = c) data →
  Forall (λ r, predicted r = c) rs →
  map datedActual (backtestPortion rs) = map datedClose (drop k data) →
  Forall (λ r, actual r = Some (predicted r)) (backtestPortion rs).
Proof.
  intros Hflat Hpred Hmirror. apply Forall_lookup. intros j r Hr.
  assert (Hrs : r ∈ rs).
  { apply list_elem_of_lookup_2 in Hr. unfold backtestPortion in Hr.
    by apply list_elem_of_filter in Hr as [_ ?]. }
  rewrite (proj1 (Forall_forall _ _) Hpred r Hrs).
  assert (Hj : (map datedActual (backtestPortion rs)) !! j
               = Some (datedActual r)).
  { to_fmap. by rewrite list_lookup_fmap, Hr. }
  rewrite Hmirror in Hj. revert Hj. to_fmap.
  rewrite list_lookup_fmap, lookup_drop.
  destruct (data !! (k + j)%nat) as [x|] eqn:Hx; [|done].
  cbn [fmap option_fmap option_map]. unfold datedClose, datedActual.
  intros [= _ <-]. f_equal.
  exact (Forall_lookup_1 _ _ _ _ Hflat Hx).
Qed.

(** X18. On a series of at least seven closes that all equal a positive
    whole number of cents, the three models tie with both metrics 0, and
    [determineBestModel] on what [generateAllPredictions] returns
    recommends the moving average, the first model it looks at. *)
Theorem flat_series_recommends_moving_average (tz : Z)
    (data : list StockDataPoint) (c : number) (forecastDays : nat) :
  isCents c → (0 < c)%Qc → Forall (λ x, close x = c) data →
  (7 ≤ length data)%nat →
  ∃ r, generateAllPredictions tz data forecastDays = Returns r
       ∧ bestModel (determineBestModel r) = MOVING_AVERAGE
       ∧ ∀ model, metricsOf (metrics (determineBestModel r)) model
                  = Some {| mae := 0%Qc; mpe := 0%Qc |}.
Proof.
  intros Hc Hpos Hflat Hlen.
  destruct (last_is_Some (map sdp_date data)) as [dl Hdl].
  { destruct data; simpl in *; [lia | done]. }
  pose proof (movingAveragePredict_returns tz data 7 forecastDays dl Hlen Hdl)
    as Hma.
  pose proof (exponentialSmoothingPredict_returns tz data (Q2Qc (3 # 10))
                forecastDays dl ltac:(lia) Hdl) as Hes.
  pose proof (arimaPredict_forecast tz data 3 1 1 forecastDays dl
                ltac:(simpl; lia) Hdl) as Har.
  pose proof (maEntries_flat data c 7 (dayShift tz) dl forecastDays Hc Hflat
                ltac:(lia) Hlen) as Fma.
  pose proof (esEntries_flat data c (Q2Qc (3 # 10)) (dayShift tz) dl
                forecastDays Hc Hflat ltac:(lia)) as Fes.
  pose proof (arimaEntries_flat data c 3 1 (dayShift tz) dl forecastDays
                Hc Hflat ltac:(simpl; lia)) as Far.
  unfold generateAllPredictions. rewrite Hma, Hes, Har.
  cbn [mbind outcome_bind]. eexists. split; [reflexivity|].
  destruct (backtest_alignment_of_three tz data 7 (Q2Qc (3 # 10)) 3 1 1
              forecastDays _ _ _ Hma Hes Har) as (Mma & Mes & Mar).
  pose proof (flat_backtest_exact data c _ _ Hflat Fma Mma) as Ema.
  pose proof (flat_backtest_exact data c _ _ Hflat Fes Mes) as Ees.
  pose proof (flat_backtest_exact data c _ _ Hflat Far Mar) as Ear.
  assert (Hmae : ∀ rs, Forall (λ r, actual r = Some (predicted r))
                         (backtestPortion rs) → calculateMAE rs = 0%Qc).
  { intros rs E. rewrite <- calculateMAE_backtestPortion.
    by apply calculateMAE_exact. }
  assert (Hmpe : ∀ rs, Forall (λ r, actual r = Some (predicted r))
                         (backtestPortion rs) → calculateMPE rs = 0%Qc).
  { intros rs E. rewrite <- calculateMPE_backtestPortion.
    by apply calculateMPE_exact. }
  rewrite determineBestModel_bestModel, determineBestModel_metrics.
  rewrite !Hmae, !Hmpe by done.
  split; [reflexivity|]. by intros [].
Qed.

Lemma flat_series_recommends_moving_average_witness :
  ∃ r,
    generateAllPredictions 0 sampleFlat 3 = Returns r
    ∧ bestModel (determineBestModel r) = MOVING_AVERAGE
    ∧ ∀ model, metricsOf (metrics (determineBestModel r)) model
               = Some {| mae := 0%Qc; mpe := 0%Qc |}.
Proof.
  apply (flat_series_recommends_moving_average 0 sampleFlat (Q2Qc 10)).
  - decide_isCents 1000%Z.
  - decide_numbers.
  - repeat constructor.
  - simpl. lia.
Defined.

(** ** Differencing more than once *)

Lemma difference_replicate (n : nat) (c : number) :
  difference (replicate n c) = replicate (n - 1) 0%Qc.
Proof.
  rewrite difference_firstDifferences. unfold firstDifferences.
  rewrite length_replicate. apply map_seq_const. intros k Hk.
  rewrite !nth_replicate_lt by lia. ring.
Qed.

Lemma differencing_flat (d n : nat) (c : number) :
  (1 ≤ d)%nat →
  Nat.iter d difference (replicate n c) = replicate (n - d) 0%Qc.
Proof.
  intros Hd. induction d as [|d IH]; [lia|].
  destruct d as [|d].
  - simpl. apply difference_replicate.
  - rewrite Nat.iter_succ, IH by lia. rewrite difference_replicate.
    f_equal. lia.
Qed.

Lemma arimaPredictions_of_equal_differences (data : list StockDataPoint)
    (b : number) (p d q m : nat) :
  Nat.iter d difference (map close data) = replicate m b →
  (1 ≤ p)%nat ∨ b = 0%Qc →
  arimaPredictions data p d q = replicate (m - p `max` q) b.
Proof.
  intros Hd Hp. unfold arimaPredictions. rewrite Hd, length_replicate.
  apply map_seq_const. intros i Hi.
  rewrite arimaResiduals_on_line by (done || lia).
  apply arimaPrediction_on_line; (done || lia).
Qed.

(** X19. [arimaPredict] takes differences [d] times but, to get back to
    prices, adds the [d] closes before the predicted index, which undoes
    the differencing for [d = 1] only. On a series whose closes all equal
    a whole number of cents [c], every backtest entry has the actual value
    [c] and the predicted value [d * c], for every [d >= 1]. *)
Theorem arima_flat_series_scales_with_d (tz : Z) (data : list StockDataPoint)
    (c : number) (p d q forecastDays : nat) :
  isCents c → Forall (λ x, close x = c) data →
  (1 ≤ d)%nat → (p `max` q + d + 1 ≤ length data)%nat →
  ∃ rs, arimaPredict tz data p d q forecastDays = Returns rs
        ∧ length (backtestPortion rs) = (length data - (p `max` q + d))%nat
        ∧ Forall (λ r, actual r = Some c
                       ∧ predicted r = (num_of_nat d * c)%Qc)
            (backtestPortion rs).
Proof.
  intros Hc Hflat Hd Hlen.
  destruct (last_is_Some (map sdp_date data)) as [dl Hdl].
  { destruct data; simpl in *; [lia | done]. }
  rewrite (arimaPredict_forecast tz data p d q forecastDays dl) by done.
  eexists; split; [reflexivity|].
  destruct (portions_of_result _ _
    (arimaBacktestEntries_actual (map close data) (map sdp_date data)
       (arimaPredictions data p d q) p d q)
    (arimaForecastEntries_actual (dayShift tz) dl 0
       (arimaForecastValues data p d q forecastDays))) as [-> _].
  split.
  { rewrite arimaBacktestEntries_length, arimaPredictions_length. lia. }
  assert (Hdiff : Nat.iter d difference (map close data)
                  = replicate (length data - d) 0%Qc).
  { rewrite (constant_closes data c Hflat). by apply differencing_flat. }
  unfold arimaBacktestEntries.
  rewrite (arimaPredictions_of_equal_differences data 0 p d q _ Hdiff
             (or_intror eq_refl)), length_replicate.
  rewrite (constant_closes data c Hflat).
  apply Forall_map_seq. intros i Hi. cbn [actual predicted].
  rewrite !nth_replicate_lt by lia. split; [done|].
  rewrite (fold_left_sum (λ j, nth (i + p `max` q + d - j - 1)
                                 (replicate (length data) c) 0%Qc)).
  rewrite (map_seq_const _ c).
  2: { intros j Hj. apply nth_replicate_lt. lia. }
  rewrite sumQc_replicate, Qcplus_0_l.
  apply toFixed2_of_cents.
  replace (num_of_nat d * c)%Qc with (0 + num_of_nat d * c)%Qc by ring.
  apply isCents_line; [apply isCents_zero | done].
Qed.

Lemma arima_flat_series_scales_with_d_witness :
  ∃ rs,
    arimaPredict 0 sampleFlat 1 2 1 3 = Returns rs
    ∧ length (backtestPortion rs) = (length sampleFlat - (1 `max` 1 + 2))%nat
    ∧ Forall (λ r, actual r = Some (Q2Qc 10)
                   ∧ predicted r = (num_of_nat 2 * Q2Qc 10)%Qc)
        (backtestPortion rs).
Proof.
  apply (arima_flat_series_scales_with_d 0 sampleFlat (Q2Qc 10) 1 2 1 3).
  - decide_isCents 1000%Z.
  - repeat constructor.
  - lia.
  - simpl. lia.
Defined.

(** ** The naive forecast *)

Lemma num_of_nat_1 : num_of_nat 1 = 1%Qc.
Proof. by apply Qc_is_canon. Qed.

Lemma mean_singleton (x : number) : mean [x] = x.
Proof.
  unfold mean. cbn [length sumQc foldr]. rewrite num_of_nat_1.
  unfold Qcdiv. replace (/ 1)%Qc with 1%Qc by (by apply Qc_is_canon). ring.
Qed.

Lemma iter_maStep_singleton (x : number) (k : nat) :
  Nat.iter (S k) maStep [x] = [toFixed2 x].
Proof.
  induction k as [|k IH].
  - simpl. unfold maStep, shift_push. by rewrite mean_singleton.
  - rewrite Nat.iter_succ, IH. unfold maStep, shift_push. cbn [tail app].
    by rewrite mean_singleton, toFixed2_idempotent.
Qed.

Lemma esLevel_alpha_one (closes : list number) (i : nat) :
  esLevel 1 closes (S i) = nth i closes 0%Qc.
Proof. cbn [esLevel]. ring. Qed.

Lemma iter_esStep_alpha_one (F x : number) (k : nat) :
  (Nat.iter (S k) (esStep 1) (F, x)).2 = toFixed2 x.
Proof.
  induction k as [|k IH].
  - simpl. unfold esStep. cbn [fst snd]. f_equal. ring.
  - rewrite Nat.iter_succ. unfold esStep at 1. cbn [fst snd]. rewrite IH.
    replace (1 * toFixed2 x
             + (1 - 1) * (Nat.iter (S k) (esStep 1) (F, x)).1)%Qc
      with (toFixed2 x) by ring.
    apply toFixed2_idempotent.
Qed.

(** X20. The moving average over a window of one close and exponential
    smoothing with [alpha = 1] are the same naive forecast: both predict
    each close by the close before it and every future day by the last
    close, rounded to cents. *)
Theorem naive_forecasts_agree (tz : Z) (data : list StockDataPoint)
    (forecastDays : nat) :
  (2 ≤ length data)%nat →
  ∃ ma es,
    movingAveragePredict tz data 1 forecastDays = Returns ma
    ∧ exponentialSmoothingPredict tz data 1 forecastDays = Returns es
    ∧ map predicted ma = naivePredictions data forecastDays
    ∧ map predicted es = naivePredictions data forecastDays
    ∧ map datedActual ma = map datedActual es.
Proof.
  intros Hlen.
  destruct (last_is_Some (map sdp_date data)) as [dl Hdl].
  { destruct data; simpl in *; [lia | done]. }
  rewrite (movingAveragePredict_returns tz data 1 forecastDays dl)
    by (done || lia).
  rewrite (exponentialSmoothingPredict_returns tz data 1 forecastDays dl)
    by done.
  eexists _, _. do 2 (split; [reflexivity|]).
  assert (Hlast : slice_last 1 (map close data)
                  = [nth (length data - 1) (map close data) 0%Qc]).
  { unfold slice_last. cbn [Nat.eqb]. rewrite length_map.
    destruct (lookup_lt_is_Some_2 (map close data) (length data - 1))
      as [x Hx]; [rewrite length_map; lia|].
    rewrite (drop_S _ x _ Hx), nth_lookup, Hx.
    rewrite drop_ge by (rewrite length_map; lia). done. }
  split; [|split].
  - unfold naivePredictions, maBacktest, maForecast.
    rewrite map_app, !map_map. f_equal.
    + apply map_ext_in. intros i Hi. apply in_seq in Hi. cbn [predicted].
      f_equal. unfold slice.
      destruct (lookup_lt_is_Some_2 (map close data) (i - 1)) as [x Hx];
        [rewrite length_map; lia|].
      rewrite (drop_S _ x _ Hx). replace (i - (i - 1))%nat with 1%nat by lia.
      cbn [take]. rewrite take_0, mean_singleton.
      by rewrite nth_lookup, Hx.
    + rewrite Hlast. apply map_seq_const. intros k _. cbn [predicted].
      destruct k as [|k]; [simpl; by rewrite mean_singleton|].
      by rewrite iter_maStep_singleton, mean_singleton, toFixed2_idempotent.
  - unfold naivePredictions, esBacktest, esForecast.
    rewrite map_app, !map_map. f_equal.
    + apply map_ext_in. intros i Hi. apply in_seq in Hi. cbn [predicted].
      f_equal. replace i with (S (i - 1)) at 1 by lia.
      apply esLevel_alpha_one.
    + apply map_seq_const. intros k _. cbn [predicted].
      apply iter_esStep_alpha_one.
  - unfold maBacktest, maForecast, esBacktest, esForecast.
    rewrite !map_app, !map_map. f_equal.
Qed.

Lemma naive_forecasts_agree_witness :
  ∃ ma es,
    movingAveragePredict 0 sampleSeries 1 3 = Returns ma
    ∧ exponentialSmoothingPredict 0 sampleSeries 1 3 = Returns es
    ∧ map predicted ma = naivePredictions sampleSeries 3
    ∧ map predicted es = naivePredictions sampleSeries 3
    ∧ map datedActual ma = map datedActual es.
Proof. apply naive_forecasts_agree. simpl. lia. Defined.

(** ** The weights of exponential smoothing *)

Lemma esLevel_weights (alpha : number) (closes : list number) (i : nat) :
  esLevel alpha closes i = exponentialAverage alpha closes i.
Proof.
  unfold exponentialAverage. induction i as [|i IH].
  - simpl. ring.
  - cbn [esLevel]. rewrite IH. rewrite seq_S, map_app, sumQc_app.
    cbn [map sumQc foldr Nat.add].
    replace (S i - 1 - i)%nat with 0%nat by lia.
    rewrite (map_ext_in
      (λ j, (alpha * (1 - alpha) ^ (S i - 1 - j) * nth j closes 0)%Qc)
      (λ j, ((1 - alpha)
             * (alpha * (1 - alpha) ^ (i - 1 - j) * nth j closes 0))%Qc)).
    2: { intros j Hj. apply in_seq in Hj.
         replace (S i - 1 - j)%nat with (S (i - 1 - j)) by lia.
         simpl. ring. }
    rewrite (sumQc_scale (1 - alpha)
      (λ j, (alpha * (1 - alpha) ^ (i - 1 - j) * nth j closes 0)%Qc)).
    simpl. ring.
Qed.

Lemma esWeights_total (alpha : number) (i : nat) :
  ((1 - alpha) ^ i + sumQc (esWeights alpha i))%Qc = 1%Qc.
Proof.
  pose proof (esLevel_weights alpha (replicate (S i) 1%Qc) i) as H.
  rewrite esLevel_flat in H by lia. unfold exponentialAverage in H.
  rewrite nth_replicate_lt in H by lia.
  rewrite (map_ext_in _ (λ j, (alpha * (1 - alpha) ^ (i - 1 - j))%Qc)) in H.
  2: { intros j Hj. apply in_seq in Hj. rewrite nth_replicate_lt by lia. ring. }
  unfold esWeights. symmetry. etransitivity; [exact H|]. ring.
Qed.

(** Rounding to cents moves a number by half a cent at most. *)
Lemma toFixed2_error (x : number) :
  within (x - Q2Qc (1 # 200)) (x + Q2Qc (1 # 200)) (toFixed2 x).
Proof.
  rewrite toFixed2_cents. unfold cents.
  set (n := Qfloor (Qabs (this x) * 100 + (1 # 2))).
  pose proof (Qfloor_le (Qabs (this x) * 100 + (1 # 2))) as H1.
  pose proof (Qlt_floor (Qabs (this x) * 100 + (1 # 2))) as H2.
  fold n in H1, H2. rewrite inject_Z_plus in H2.
  assert (Hn : ∀ z : Z, (z # 100) == inject_Z z * (1 # 100)).
  { intros z. unfold Qeq, inject_Z, Qmult. simpl. lia. }
  destruct (Z.ltb_spec (Qnum (this x)) 0) as [Hx|Hx].
  - apply Qnum_neg_iff in Hx.
    rewrite (Qabs_neg (this x)) in H1, H2 by (by apply Qlt_le_weak).
    unfold within, Qcle. cbn [this Qcplus Qcminus Qcopp Q2Qc].
    rewrite !Qred_correct, Hn, Z.opp_eq_mul_m1, Z.mul_comm, inject_Z_mult.
    change (inject_Z (-1)) with (-1 # 1).
    change (inject_Z 1) with 1%Q in H2. clearbody n.
    revert H1 H2 Hx. generalize (inject_Z n) (this x). intros m y H1 H2 Hx.
    split; lra.
  - assert (Hx' : (0 <= this x)%Q) by (unfold Qle; simpl; lia).
    rewrite (Qabs_pos (this x)) in H1, H2 by done.
    unfold within, Qcle. cbn [this Qcplus Qcminus Qcopp Q2Qc].
    rewrite !Qred_correct, Hn.
    change (inject_Z 1) with 1%Q in H2. clearbody n. clear Hx.
    revert H1 H2 Hx'. generalize (inject_Z n) (this x). intros m y H1 H2 Hx.
    split; lra.
Qed.

(** X21. Exponential smoothing weighs the past exponentially: with a
    smoothing factor between 0 and 1, the backtest entry of
    [exponentialSmoothingPredict] for the input index [i] predicts, to
    within one cent, the average of the closes before [i] with the weight
    [alpha * (1 - alpha)^(i - 1 - j)] on the close at index [j] and
    [(1 - alpha)^i] more on the first close; the weights add up to 1. *)
Theorem exponential_smoothing_weights (tz : Z) (data : list StockDataPoint)
    (alpha : number) (forecastDays i : nat) :
  (0 ≤ alpha)%Qc → (alpha ≤ 1)%Qc →
  (1 ≤ i)%nat → (i < length data)%nat →
  ∃ rs r,
    exponentialSmoothingPredict tz data alpha forecastDays = Returns rs
    ∧ rs !! (i - 1)%nat = Some r
    ∧ datedActual r = (nth i (map sdp_date data) 0%Z,
                       Some (nth i (map close data) 0%Qc))
    ∧ within (exponentialAverage alpha (map close data) i - Q2Qc (1 # 100))
        (exponentialAverage alpha (map close data) i + Q2Qc (1 # 100))
        (predicted r)
    ∧ ((1 - alpha) ^ i + sumQc (esWeights alpha i))%Qc = 1%Qc.
Proof.
  intros _ _ Hi Hn.
  destruct (last_is_Some (map sdp_date data)) as [dl Hdl].
  { destruct data; simpl in *; [lia | done]. }
  rewrite (exponentialSmoothingPredict_returns tz data alpha forecastDays dl)
    by (done || lia).
  eexists _, _. split; [reflexivity|]. split.
  - rewrite lookup_app_l by (rewrite esBacktest_length; lia).
    unfold esBacktest. to_fmap. rewrite list_lookup_fmap.
    rewrite lookup_seq_lt by lia. reflexivity.
  - replace (1 + (i - 1))%nat with i by lia.
    split; [reflexivity|]. cbn [predicted].
    split; [|apply esWeights_total]. rewrite esLevel_weights.
    destruct (toFixed2_error (exponentialAverage alpha (map close data) i))
      as [Ha Hb].
    split.
    + eapply Qcle_trans; [|exact Ha].
      apply Qcplus_le_compat; [apply Qcle_refl | decide_numbers].
    + eapply Qcle_trans; [exact Hb|].
      apply Qcplus_le_compat; [apply Qcle_refl | decide_numbers].
Qed.

Lemma exponential_smoothing_weights_witness :
  ∃ rs r,
    exponentialSmoothingPredict 0 sampleSeries (Q2Qc (3 # 10)) 3 = Returns rs
    ∧ rs !! (4 - 1)%nat = Some r
    ∧ datedActual r = (nth 4 (map sdp_date sampleSeries) 0%Z,
                       Some (nth 4 (map close sampleSeries) 0%Qc))
    ∧ within
        (exponentialAverage (Q2Qc (3 # 10)) (map close sampleSeries) 4
         - Q2Qc (1 # 100))
        (exponentialAverage (Q2Qc (3 # 10)) (map close sampleSeries) 4
         + Q2Qc (1 # 100))
        (predicted r)
    ∧ ((1 - Q2Qc (3 # 10)) ^ 4 + sumQc (esWeights (Q2Qc (3 # 10)) 4))%Qc = 1%Qc.
Proof.
  apply exponential_smoothing_weights;
    [decide_numbers | decide_numbers | simpl; lia | simpl; lia].
Defined.

(** * The mock data service *)

(** Order between numbers, stated on the rationals for [lra] and [nra]. *)
Ltac qc_to_q :=
  unfold within, Qcle, Qclt in *;
  cbn [this Qcmult Qcplus Qcminus Qcopp Q2Qc] in *;
  rewrite ?Qred_correct in *.

Lemma Math_max_l (x y : number) : (x ≤ Math_max x y)%Qc.
Proof.
  unfold Math_max. case_bool_decide as H; [|apply Qcle_refl].
  by apply Qclt_le_weak.
Qed.

Lemma Math_max_r (x y : number) : (y ≤ Math_max x y)%Qc.
Proof.
  unfold Math_max. case_bool_decide as H; [apply Qcle_refl|].
  by apply Qcnot_lt_le.
Qed.

Lemma Math_min_l (x y : number) : (Math_min x y ≤ x)%Qc.
Proof.
  unfold Math_min. case_bool_decide as H; [|apply Qcle_refl].
  by apply Qclt_le_weak.
Qed.

Lemma Math_min_r (x y : number) : (Math_min x y ≤ y)%Qc.
Proof.
  unfold Math_min. case_bool_decide as H; [apply Qcle_refl|].
  by apply Qcnot_lt_le.
Qed.

Lemma Math_min_lower (x y c : number) :
  (c ≤ x)%Qc → (c ≤ y)%Qc → (c ≤ Math_min x y)%Qc.
Proof. intros Hx Hy. unfold Math_min. by case_bool_decide. Qed.

(** On a host at a fixed offset from UTC, [setDate(getDate() + k)] moves
    the time value by [k] days, and the UTC date with it. *)
Lemma addDays_fixedZone (tz t k : Z) :
  Machine.addDays (Machine.fixedZone tz) t k = (t + k * msPerDay)%Z.
Proof.
  unfold Machine.addDays, Machine.localTime, Machine.fixedZone. simpl. lia.
Qed.

Lemma toISODate_days_before (tz today : Z) (i : nat) :
  toISODate (Machine.addDays (Machine.fixedZone tz) today (- Z.of_nat i))
  = (toISODate today - Z.of_nat i)%Z.
Proof.
  rewrite addDays_fixedZone. unfold toISODate.
  rewrite Z.div_add by done. lia.
Qed.

Lemma volume_in_range (r : number) :
  (0 ≤ r)%Qc → (r < 1)%Qc →
  ∃ v : Z,
    (Math_floor (r * Q2Qc 10000000) + Q2Qc 1000000)%Qc = Q2Qc (inject_Z v)
    ∧ (1000000 ≤ v < 11000000)%Z.
Proof.
  intros H0 H1. unfold Math_floor.
  set (x := this (r * Q2Qc 10000000)%Qc).
  exists (Qfloor x + 1000000)%Z. split.
  - apply Qc_is_canon. cbn [this Qcplus Q2Qc]. rewrite !Qred_correct.
    rewrite inject_Z_plus. reflexivity.
  - assert (Hx0 : (0 <= x)%Q) by (subst x; qc_to_q; lra).
    assert (Hx1 : (x < 10000000)%Q) by (subst x; qc_to_q; lra).
    pose proof (Qfloor_resp_le _ _ Hx0) as Hf0.
    change (Qfloor 0) with 0%Z in Hf0.
    pose proof (Qfloor_le x) as Hf1.
    assert (Hf2 : (inject_Z (Qfloor x) < inject_Z 10000000)%Q)
      by (eapply Qle_lt_trans; [exact Hf1 | exact Hx1]).
    rewrite <- Zlt_Qlt in Hf2. lia.
Qed.

(** One turn of the loop appends one well-formed candle for its day. *)
Lemma generateDay_appends (random : nat → number) (zone : Machine.Zone)
    (today : Z) (sym : string)
    (variance : number) (k i : nat) (price : number)
    (data : list StockDataPoint) :
  randomInRange random →
  ∃ x,
    (generateDay random zone today sym variance k i (price, data)).2
    = data ++ [x]
    ∧ wellFormedCandle x
    ∧ symbol x = sym
    ∧ sdp_date x = toISODate (Machine.addDays zone today (- Z.of_nat i)).
Proof.
  intros Hr. unfold generateDay. cbv zeta. cbn [snd].
  eexists. split; [reflexivity|].
  cbn [open high low close volume symbol sdp_date].
  split; [|split; done].
  set (change := ((random k - Q2Qc (48 # 100)) * (variance / Q2Qc 50))%Qc).
  set (price' := Math_max 1 (price * (1 + change))%Qc).
  set (close' :=
    (price' * (1 + (random (k + 1)%nat - Q2Qc (5 # 10)) * Q2Qc (2 # 100)))%Qc).
  pose proof (Math_max_l 1 (price * (1 + change))%Qc) as Hp. fold price' in Hp.
  destruct (Hr (k + 1)%nat) as [H10 H11].
  destruct (Hr (k + 2)%nat) as [H20 H21].
  destruct (Hr (k + 3)%nat) as [H30 H31].
  destruct (Hr (k + 4)%nat) as [H40 H41].
  assert (Hc : (Q2Qc (99 # 100) ≤ close')%Qc).
  { subst close'. revert Hp H10 H11. generalize price' (random (k + 1)%nat).
    intros x r Hx Hr0 Hr1. qc_to_q. nra. }
  pose proof (Math_max_l price' close') as Hmax1.
  pose proof (Math_max_r price' close') as Hmax2.
  pose proof (Math_min_l price' close') as Hmin1.
  pose proof (Math_min_r price' close') as Hmin2.
  assert (Hmin3 : (Q2Qc (99 # 100) ≤ Math_min price' close')%Qc).
  { apply Math_min_lower; [|done]. qc_to_q. lra. }
  assert (Hhigh : (Math_max price' close'
                   ≤ Math_max price' close'
                     * (1 + random (k + 2)%nat * Q2Qc (1 # 100)))%Qc).
  { revert Hmax1 Hp H20. generalize (Math_max price' close') price'
      (random (k + 2)%nat). intros m x r Hm Hx Hr0. qc_to_q. nra. }
  assert (Hlow1 : (Math_min price' close'
                   * (1 - random (k + 3)%nat * Q2Qc (1 # 100))
                   ≤ Math_min price' close')%Qc).
  { revert Hmin3 H30. generalize (Math_min price' close')
      (random (k + 3)%nat). intros m r Hm Hr0. qc_to_q. nra. }
  assert (Hlow2 : (Q2Qc (9801 # 10000)
                   ≤ Math_min price' close'
                     * (1 - random (k + 3)%nat * Q2Qc (1 # 100)))%Qc).
  { revert Hmin3 H30 H31. generalize (Math_min price' close')
      (random (k + 3)%nat). intros m r Hm Hr0 Hr1. qc_to_q. nra. }
  repeat split; try apply toFixed2_isCents.
  - rewrite <- (toFixed2_of_cents (Q2Qc (98 # 100))) by decide_isCents 98%Z.
    apply toFixed2_mono. eapply Qcle_trans; [|exact Hlow2]. decide_numbers.
  - apply toFixed2_mono. eapply Qcle_trans; [exact Hlow1 | exact Hmin1].
  - apply toFixed2_mono. eapply Qcle_trans; [exact Hlow1 | exact Hmin2].
  - apply toFixed2_mono. eapply Qcle_trans; [exact Hmax1 | exact Hhigh].
  - apply toFixed2_mono. eapply Qcle_trans; [exact Hmax2 | exact Hhigh].
  - rewrite <- (toFixed2_of_cents 1) by decide_isCents 100%Z.
    by apply toFixed2_mono.
  - by apply volume_in_range.
Qed.

Lemma generateStockData_loop (random : nat → number) (zone : Machine.Zone)
    (start : nat) (today : Z)
    (sym : string) (days : nat) (variance : number) :
  randomInRange random →
  ∀ (m a : nat) (st : number * list StockDataPoint),
    ∃ new,
      (fold_left (λ st n,
         generateDay random zone today sym variance (start + 5 * n) (days - n) st)
         (seq a m) st).2
      = st.2 ++ new
      ∧ length new = m
      ∧ Forall wellFormedCandle new
      ∧ Forall (λ x, symbol x = sym) new
      ∧ map sdp_date new
        = map (λ n, toISODate
                      (Machine.addDays zone today (- Z.of_nat (days - n))))
            (seq a m).
Proof.
  intros Hr. induction m as [|m IH]; intros a [price data].
  - exists []. simpl. by rewrite app_nil_r.
  - cbn [seq fold_left].
    destruct (generateDay_appends random zone today sym variance
                (start + 5 * a) (days - a) price data Hr)
      as (x & Hx & Hwf & Hsym & Hdate).
    destruct (IH (S a)
                (generateDay random zone today sym variance (start + 5 * a)
                   (days - a) (price, data)))
      as (new & Hnew & Hlen & Hall & Hsyms & Hdates).
    exists (x :: new). rewrite Hnew, Hx, <- app_assoc. cbn [snd app].
    split; [done|]. split; [simpl; lia|].
    split; [by constructor|]. split; [by constructor|].
    cbn [map]. by rewrite Hdate, Hdates.
Qed.

Lemma consecutive_days_ascend (D : Z) (days a m : nat) :
  (a + m ≤ days + 1)%nat →
  StronglySorted Z.lt (map (λ n, (D - Z.of_nat (days - n))%Z) (seq a m)).
Proof.
  revert a. induction m as [|m IH]; intros a Ha; [constructor|].
  cbn [seq map]. constructor; [apply IH; lia|].
  apply Forall_map_seq. intros n Hn. lia.
Qed.

Lemma fixed_zone_days (tz today : Z) (days : nat) (l : list nat) :
  map (λ n, toISODate
              (Machine.addDays (Machine.fixedZone tz) today
                 (- Z.of_nat (days - n)))) l
  = map (λ n, (toISODate today - Z.of_nat (days - n))%Z) l.
Proof. apply map_ext. intros n. apply toISODate_days_before. Qed.

(** X22. With [Math.random] in its range, [generateStockData] returns
    [days + 1] well-formed candles under the given symbol, whatever the
    base price and the variance are: every open is at least 1.00, every
    low at least 0.98, low is at most open and close, and these are at
    most high. The candle at index [n] carries the UTC date of the instant
    that [setDate] gives for the local day [days - n] days before [today].
    On a host at a fixed offset from UTC these are consecutive calendar
    days in ascending order, from [days] days before the UTC date of
    [today] up to that date. *)
Theorem generateStockData_candles (random : nat → number)
    (zone : Machine.Zone) (start : nat)
    (today : Z) (sym : string) (days : nat) (basePrice variance : number) :
  randomInRange random →
  let data :=
    generateStockData random zone start today sym days basePrice variance in
  length data = (days + 1)%nat
  ∧ Forall wellFormedCandle data
  ∧ Forall (λ x, symbol x = sym) data
  ∧ map sdp_date data
    = map (λ n, toISODate
                  (Machine.addDays zone today (- Z.of_nat (days - n))))
        (seq 0 (days + 1))
  ∧ ∀ tz, zone = Machine.fixedZone tz →
      map sdp_date data
      = map (λ n, (toISODate today - Z.of_nat (days - n))%Z)
          (seq 0 (days + 1))
      ∧ ascendingDates data
      ∧ last (map sdp_date data) = Some (toISODate today).
Proof.
  intros Hr data. subst data. unfold generateStockData.
  destruct (generateStockData_loop random zone start today sym days variance Hr
              (days + 1) 0 (basePrice, []))
    as (new & -> & Hlen & Hall & Hsyms & Hdates).
  cbn [snd app]. do 4 (split; [done|]). intros tz ->.
  split; [by rewrite Hdates, fixed_zone_days|]. split.
  - unfold ascendingDates. rewrite Hdates, fixed_zone_days.
    apply consecutive_days_ascend. lia.
  - rewrite Hdates, fixed_zone_days.
    replace (days + 1)%nat with (S days) by lia.
    rewrite seq_S, map_app. cbn [map]. rewrite last_snoc.
    do 2 f_equal. lia.
Qed.

Lemma sampleRandom_in_range : randomInRange sampleRandom.
Proof.
  intros k. unfold sampleRandom, Qcle, Qclt. cbn [this Q2Qc].
  rewrite !Qred_correct. unfold Qle, Qlt. simpl. lia.
Qed.

Lemma generateStockData_candles_witness :
  let zone := Machine.fixedZone (-300) in
  let data :=
    generateStockData sampleRandom zone 0 (sampleClock 0) "AAPL" 3
      (Q2Qc 150) (Q2Qc 50) in
  length data = (3 + 1)%nat
  ∧ Forall wellFormedCandle data
  ∧ Forall (λ x, symbol x = "AAPL") data
  ∧ map sdp_date data
    = map (λ n, toISODate
                  (Machine.addDays zone (sampleClock 0) (- Z.of_nat (3 - n))))
        (seq 0 (3 + 1))
  ∧ ∀ tz, zone = Machine.fixedZone tz →
      map sdp_date data
      = map (λ n, (toISODate (sampleClock 0) - Z.of_nat (3 - n))%Z)
          (seq 0 (3 + 1))
      ∧ ascendingDates data
      ∧ last (map sdp_date data) = Some (toISODate (sampleClock 0)).
Proof. apply generateStockData_candles, sampleRandom_in_range. Defined.

(** Where the clock changes the dates need not ascend: in New York, with
    [today] at 2024-03-12T23:30Z (19:30 local time, daylight time), the
    local day three days before is 2024-03-09 at 19:30 standard time,
    which is 2024-03-10T00:30Z: the first two candles are both dated
    2024-03-10. *)
Lemma generateStockData_across_clock_change :
  let today := (19794 * msPerDay + 23 * Machine.msPerHour + 1800000)%Z in
  let data :=
    generateStockData sampleRandom Machine.newYorkSpring2024 0 today "AAPL" 3
      (Q2Qc 150) (Q2Qc 50) in
  map sdp_date data = [19792; 19792; 19793; 19794]%Z
  ∧ ¬ ascendingDates data.
Proof.
  assert (H : map sdp_date
                (generateStockData sampleRandom Machine.newYorkSpring2024 0
                   (19794 * msPerDay + 23 * Machine.msPerHour + 1800000)
                   "AAPL" 3 (Q2Qc 150) (Q2Qc 50))
              = [19792; 19792; 19793; 19794]%Z)
    by (vm_compute; reflexivity).
  cbv zeta. split; [exact H|].
  unfold ascendingDates. rewrite H. intros Hs.
  apply StronglySorted_inv in Hs as [_ Hs].
  apply Forall_inv in Hs. lia.
Qed.

(** ** Looking a symbol up *)

Lemma getProperty_known (random : nat → number) (clock : nat → Z)
    (zone : Machine.Zone) (symbol : string) :
  symbol ∈ knownSymbols →
  ∃ k basePrice variance,
    getProperty (stockData random clock zone) symbol
    = Own (generateStockData random zone (k * 1830) (clock k) symbol 365
             basePrice variance).
Proof.
  intros H. unfold knownSymbols in H.
  repeat (apply elem_of_cons in H as [->|H]);
    [..|by apply elem_of_nil in H].
  all: unfold getProperty, stockData; cbn [list_find fst];
    repeat (rewrite decide_False by done); rewrite decide_True by done;
    cbn [fmap option_fmap option_map prod_map fst snd id];
    eexists _, _, _; reflexivity.
Qed.

Lemma getProperty_unknown (random : nat → number) (clock : nat → Z)
    (zone : Machine.Zone) (symbol : string) :
  symbol ∉ knownSymbols →
  getProperty (stockData random clock zone) symbol
  = if bool_decide (symbol ∈ objectPrototypeKeys) then Inherited else Absent.
Proof.
  intros H. unfold getProperty.
  assert (Hn : list_find (λ entry, entry.1 = symbol) (stockData random clock zone)
               = None).
  { apply list_find_None. unfold stockData.
    repeat (apply Forall_cons_2;
            [cbn [fst]; intros <-; apply H;
             apply (bool_decide_unpack _); vm_compute; exact I|]).
    apply Forall_nil_2. }
  by rewrite Hn.
Qed.

Lemma known_not_inherited (symbol : string) :
  symbol ∈ knownSymbols → symbol ∉ objectPrototypeKeys.
Proof.
  intros H. unfold knownSymbols in H.
  repeat (apply elem_of_cons in H as [->|H]);
    [..|by apply elem_of_nil in H];
    apply (proj1 (bool_decide_eq_false _)); vm_compute; reflexivity.
Qed.

(** What the table holds under a symbol it knows. *)
Lemma stockData_entry (random : nat → number) (clock : nat → Z)
    (zone : Machine.Zone) (sym : string) :
  randomInRange random → sym ∈ knownSymbols →
  ∃ data,
    getProperty (stockData random clock zone) sym = Own data
    ∧ length data = 366%nat
    ∧ Forall wellFormedCandle data
    ∧ Forall (λ x, symbol x = sym) data
    ∧ ∀ tz, zone = Machine.fixedZone tz → ascendingDates data.
Proof.
  intros Hr Hk.
  destruct (getProperty_known random clock zone sym Hk)
    as (k & basePrice & variance & ->).
  eexists. split; [reflexivity|]. unfold generateStockData.
  destruct (generateStockData_loop random zone (k * 1830) (clock k) sym 365
              variance Hr (365 + 1) 0 (basePrice, []))
    as (new & -> & Hlen & Hall & Hsyms & Hdates).
  cbn [snd app]. repeat split; try done.
  intros tz ->.
  unfold ascendingDates. rewrite Hdates, fixed_zone_days.
  apply consecutive_days_ascend. lia.
Qed.

Lemma slice_last_length {A} (n : nat) (l : list A) :
  length (slice_last n l)
  = (if (n =? 0)%nat then length l else n `min` length l)%nat.
Proof.
  unfold slice_last. destruct (n =? 0)%nat; [done|].
  rewrite length_drop. lia.
Qed.

Lemma slice_last_Forall {A} (P : A → Prop) (n : nat) (l : list A) :
  Forall P l → Forall P (slice_last n l).
Proof.
  intros H. unfold slice_last. destruct (n =? 0)%nat; [done|].
  by apply Forall_drop.
Qed.

Lemma slice_last_ascending (n : nat) (data : list StockDataPoint) :
  ascendingDates data → ascendingDates (slice_last n data).
Proof.
  unfold ascendingDates, slice_last. intros H.
  destruct (n =? 0)%nat; [done|].
  rewrite <- (take_drop (length data - n) data), map_app in H.
  by apply StronglySorted_app_1_r in H.
Qed.

(** X23. [fetchStockData] resolves for exactly the eight symbols of the
    table: with the last [days] of that symbol's 366 candles (all 366
    when [days] is 0 or above 366), well-formed, and on a host at a fixed
    offset from UTC in ascending order of date. For every other symbol it
    rejects, with the error "No data available for symbol: ..." unless
    the symbol names a property that the table inherits from
    [Object.prototype], for which the rejection is a TypeError. *)
Theorem fetchStockData_contract (random : nat → number) (clock : nat → Z)
    (zone : Machine.Zone) (sym : string) (days : nat) :
  randomInRange random →
  match fetchStockData random clock zone sym days with
  | Resolves data =>
      (sym ∈ knownSymbols)
      ∧ length data = (if (days =? 0)%nat then 366 else days `min` 366)%nat
      ∧ Forall wellFormedCandle data
      ∧ Forall (λ x, symbol x = sym) data
      ∧ ∀ tz, zone = Machine.fixedZone tz → ascendingDates data
  | Rejects (RejectedError message) =>
      (sym ∉ knownSymbols) ∧ (sym ∉ objectPrototypeKeys)
      ∧ message = "No data available for symbol: " +:+ sym
  | Rejects RejectedTypeError =>
      (sym ∉ knownSymbols) ∧ (sym ∈ objectPrototypeKeys)
  end.
Proof.
  intros Hr. unfold fetchStockData.
  destruct (decide (sym ∈ knownSymbols)) as [Hk|Hk].
  - destruct (stockData_entry random clock zone sym Hr Hk)
      as (data & -> & Hlen & Hwf & Hsym & Hasc).
    split; [done|]. rewrite slice_last_length, Hlen.
    split; [done|]. split; [by apply slice_last_Forall|].
    split; [by apply slice_last_Forall|].
    intros tz Hz. apply slice_last_ascending. by eapply Hasc.
  - rewrite (getProperty_unknown random clock zone sym Hk).
    case_bool_decide as Hi; done.
Qed.

Lemma fetchStockData_contract_witness :
  match fetchStockData sampleRandom sampleClock (Machine.fixedZone (-300))
          "MSFT" 30 with
  | Resolves data =>
      ("MSFT" ∈ knownSymbols)
      ∧ length data = (if (30 =? 0)%nat then 366 else 30 `min` 366)%nat
      ∧ Forall wellFormedCandle data
      ∧ Forall (λ x, symbol x = "MSFT") data
      ∧ ∀ tz, Machine.fixedZone (-300) = Machine.fixedZone tz →
          ascendingDates data
  | Rejects (RejectedError message) =>
      ("MSFT" ∉ knownSymbols) ∧ ("MSFT" ∉ objectPrototypeKeys)
      ∧ message = "No data available for symbol: " +:+ "MSFT"
  | Rejects RejectedTypeError =>
      ("MSFT" ∉ knownSymbols) ∧ ("MSFT" ∈ objectPrototypeKeys)
  end.
Proof. apply fetchStockData_contract, sampleRandom_in_range. Defined.

(** * The dashboard *)

Lemma generateAllPredictions_returns (tz : Z) (data : list StockDataPoint)
    (forecastDays : nat) :
  (7 ≤ length data)%nat →
  ∃ r, generateAllPredictions tz data forecastDays = Returns r.
Proof.
  intros Hlen. unfold generateAllPredictions.
  destruct (movingAveragePredict_returnsNormally tz data 7 forecastDays)
    as [ma ->]; [done | left; destruct data; simpl in *; [lia|done] |].
  destruct (exponentialSmoothingPredict_returnsNormally tz data
              (Q2Qc (3 # 10)) forecastDays) as [es ->]; [lia|].
  destruct (arimaPredict_returnsNormally tz data 3 1 1 forecastDays)
    as [ar ->]; [simpl; lia|].
  cbn [mbind outcome_bind]. eauto.
Qed.

Lemma generateAllPredictions_short (tz : Z) (data : list StockDataPoint)
    (forecastDays : nat) :
  (length data < 7)%nat →
  generateAllPredictions tz data forecastDays
  = Throws (Error "Not enough data points. Need at least 7 points.").
Proof.
  intros Hlen. unfold generateAllPredictions.
  by rewrite movingAveragePredict_short.
Qed.

(** X24. One run of the dashboard's prediction effect on training data
    that has arrived: it ends with [isPredicting] cleared and never
    changes the selected model (a model's name is no empty string, so the
    branch that would select the best model is not taken). On fewer than
    seven points it keeps the predictions and the recommendation it had
    and shows one "Prediction Error" toast; on seven or more it stores
    what [generateAllPredictions] returns and [determineBestModel] of it,
    and shows no toast. *)
Theorem dashboard_prediction_effect (tz : Z) (trainingData : list StockDataPoint)
    (forecastDays : nat) (st : Dashboard.State) :
  let st' :=
    Dashboard.generatePredictions tz (Some trainingData) false forecastDays st in
  Dashboard.isPredicting st' = false
  ∧ Dashboard.selectedModel st' = Dashboard.selectedModel st
  ∧ ((length trainingData < 7)%nat →
     Dashboard.predictions st' = Dashboard.predictions st
     ∧ Dashboard.bestModelInfo st' = Dashboard.bestModelInfo st
     ∧ Dashboard.toasts st'
       = Dashboard.toasts st
         ++ [ {| Dashboard.title := "Prediction Error";
                 Dashboard.description :=
                   "Failed to generate predictions. Please try again.";
                 Dashboard.variant := Some "destructive" |} ])
  ∧ ((7 ≤ length trainingData)%nat →
     ∃ r, generateAllPredictions tz trainingData forecastDays = Returns r
          ∧ Dashboard.predictions st' = Some r
          ∧ Dashboard.bestModelInfo st' = Some (determineBestModel r)
          ∧ Dashboard.toasts st' = Dashboard.toasts st).
Proof.
  intros st'. subst st'. unfold Dashboard.generatePredictions.
  assert (Hnot : notString (modelString (Dashboard.selectedModel st)) = false)
    by (by destruct (Dashboard.selectedModel st)).
  rewrite Hnot. cbv zeta.
  split; [|split; [|split]].
  - by destruct (generateAllPredictions tz trainingData forecastDays).
  - by destruct (generateAllPredictions tz trainingData forecastDays).
  - intros Hlen. by rewrite generateAllPredictions_short.
  - intros Hlen.
    destruct (generateAllPredictions_returns tz trainingData forecastDays Hlen)
      as [r ->].
    by exists r.
Qed.

Lemma dashboard_prediction_effect_witness :
  ∃ r,
    generateAllPredictions 0 sampleSeries 7 = Returns r
    ∧ Dashboard.predictions
        (Dashboard.generatePredictions 0 (Some sampleSeries) false 7
           {| Dashboard.predictions := None;
              Dashboard.bestModelInfo := None;
              Dashboard.selectedModel := EXPONENTIAL_SMOOTHING;
              Dashboard.isPredicting := false;
              Dashboard.toasts := [] |})
      = Some r
    ∧ Dashboard.bestModelInfo
        (Dashboard.generatePredictions 0 (Some sampleSeries) false 7
           {| Dashboard.predictions := None;
              Dashboard.bestModelInfo := None;
              Dashboard.selectedModel := EXPONENTIAL_SMOOTHING;
              Dashboard.isPredicting := false;
              Dashboard.toasts := [] |})
      = Some (determineBestModel r)
    ∧ Dashboard.toasts
        (Dashboard.generatePredictions 0 (Some sampleSeries) false 7
           {| Dashboard.predictions := None;
              Dashboard.bestModelInfo := None;
              Dashboard.selectedModel := EXPONENTIAL_SMOOTHING;
              Dashboard.isPredicting := false;
              Dashboard.toasts := [] |})
      = [].
Proof.
  destruct (dashboard_prediction_effect 0 sampleSeries 7
    {| Dashboard.predictions := None;
       Dashboard.bestModelInfo := None;
       Dashboard.selectedModel := EXPONENTIAL_SMOOTHING;
       Dashboard.isPredicting := false;
       Dashboard.toasts := [] |}) as (_ & _ & _ & H).
  apply H. simpl. lia.
Defined.

(** ** The training data of the dashboard *)

Lemma actuals_are_closes (data : list StockDataPoint) (k : nat)
    (rs : list PredictionResult) (P : number → Prop) :
  map datedActual (backtestPortion rs) = map datedClose (drop k data) →
  Forall (λ x, P (close x)) data →
  Forall (λ e, ∀ a, actual e = Some a → P a) rs.
Proof.
  intros Hmirror HP. apply Forall_forall. intros e He a Ha.
  assert (Hb : e ∈ backtestPortion rs).
  { unfold backtestPortion. apply list_elem_of_filter. split; [|done].
    rewrite Ha. eauto. }
  apply list_elem_of_lookup_1 in Hb as [j Hj].
  assert (Hd : (map datedActual (backtestPortion rs)) !! j
               = Some (datedActual e)).
  { to_fmap. by rewrite list_lookup_fmap, Hj. }
  rewrite Hmirror in Hd. revert Hd. to_fmap.
  rewrite list_lookup_fmap, lookup_drop.
  destruct (data !! (k + j)%nat) as [x|] eqn:Hx; [|done].
  cbn [fmap option_fmap option_map]. unfold datedClose, datedActual.
  rewrite Ha. intros [= _ <-].
  exact (Forall_lookup_1 _ _ _ _ HP Hx).
Qed.

(** X25. The training data of the dashboard always suffices: for a symbol
    of the table and a training window of at least seven days,
    [fetchStockData] resolves with [min(trainingWindow, 366)] candles, on
    which [generateAllPredictions] returns for every horizon and time
    zone; every actual value in its results is a close of at least 0.98,
    so that the percentage errors divide by positive numbers only. *)
Theorem dashboard_training_data_suffices (random : nat → number)
    (clock : nat → Z) (zone : Machine.Zone) (tz : Z) (symbol : string)
    (trainingWindow forecastDays : nat) :
  randomInRange random → symbol ∈ knownSymbols →
  (7 ≤ trainingWindow)%nat →
  ∃ data r,
    fetchStockData random clock zone symbol trainingWindow = Resolves data
    ∧ length data = (trainingWindow `min` 366)%nat
    ∧ generateAllPredictions tz data forecastDays = Returns r
    ∧ ∀ model,
        Forall (λ e, ∀ a, actual e = Some a → (Q2Qc (98 # 100) ≤ a)%Qc)
          (r model).
Proof.
  intros Hr Hk Hw. unfold fetchStockData.
  destruct (stockData_entry random clock zone symbol Hr Hk)
    as (full & -> & Hlen & Hwf & _ & _).
  set (data := slice_last trainingWindow full).
  assert (Hdlen : length data = (trainingWindow `min` 366)%nat).
  { subst data. rewrite slice_last_length, Hlen.
    destruct (Nat.eqb_spec trainingWindow 0); [lia | done]. }
  destruct (generateAllPredictions_returns tz data forecastDays) as [r Hgen];
    [lia|].
  exists data, r. split; [done|]. split; [done|]. split; [done|].
  assert (Hclose : Forall (λ x, (Q2Qc (98 # 100) ≤ close x)%Qc) data).
  { subst data. apply slice_last_Forall.
    eapply Forall_impl; [exact Hwf|].
    intros x (_ & _ & _ & _ & Hlow & _ & Hlc & _).
    by eapply Qcle_trans. }
  destruct (generateAllPredictions_inv _ _ _ _ Hgen)
    as (ma & es & ar & Hma & Hes & Har & ->).
  destruct (backtest_alignment_of_three tz data 7 (Q2Qc (3 # 10)) 3 1 1
              forecastDays ma es ar Hma Hes Har) as (Mma & Mes & Mar).
  intros []; eapply actuals_are_closes; eauto.
Qed.

Lemma dashboard_training_data_suffices_witness :
  ∃ data r,
    fetchStockData sampleRandom sampleClock (Machine.fixedZone (-300))
      "AAPL" 90 = Resolves data
    ∧ length data = (90 `min` 366)%nat
    ∧ generateAllPredictions (-300) data 7 = Returns r
    ∧ ∀ model,
        Forall (λ e, ∀ a, actual e = Some a → (Q2Qc (98 # 100) ≤ a)%Qc)
          (r model).
Proof.
  apply dashboard_training_data_suffices.
  - apply sampleRandom_in_range.
  - apply (bool_decide_unpack _). vm_compute. exact I.
  - lia.
Defined.

(** * The metrics of a symbol *)

Lemma fold_left_Math_max_upper (xs : list number) (a : number) :
  (a ≤ fold_left Math_max xs a)%Qc
  ∧ Forall (λ x, (x ≤ fold_left Math_max xs a)%Qc) xs.
Proof.
  revert a. induction xs as [|x xs IH]; intros a; simpl.
  - split; [apply Qcle_refl | constructor].
  - destruct (IH (Math_max a x)) as [H1 H2]. split.
    + eapply Qcle_trans; [apply Math_max_l | exact H1].
    + constructor; [|exact H2].
      eapply Qcle_trans; [apply Math_max_r | exact H1].
Qed.

Lemma fold_left_Math_min_lower (xs : list number) (a : number) :
  (fold_left Math_min xs a ≤ a)%Qc
  ∧ Forall (λ x, (fold_left Math_min xs a ≤ x)%Qc) xs.
Proof.
  revert a. induction xs as [|x xs IH]; intros a; simpl.
  - split; [apply Qcle_refl | constructor].
  - destruct (IH (Math_min a x)) as [H1 H2]. split.
    + eapply Qcle_trans; [exact H1 | apply Math_min_l].
    + constructor; [|exact H2].
      eapply Qcle_trans; [exact H1 | apply Math_min_r].
Qed.

Lemma Math_max_spread_upper (xs : list number) :
  Forall (λ x, (x ≤ Math_max_spread xs)%Qc) xs.
Proof.
  destruct xs as [|x xs]; [constructor|]. simpl.
  destruct (fold_left_Math_max_upper xs x). by constructor.
Qed.

Lemma Math_min_spread_lower (xs : list number) :
  Forall (λ x, (Math_min_spread xs ≤ x)%Qc) xs.
Proof.
  destruct xs as [|x xs]; [constructor|]. simpl.
  destruct (fold_left_Math_min_lower xs x). by constructor.
Qed.

Lemma fold_left_Math_min_bound (c : number) (xs : list number) (a : number) :
  (c ≤ a)%Qc → Forall (λ x, (c ≤ x)%Qc) xs →
  (c ≤ fold_left Math_min xs a)%Qc.
Proof.
  intros Ha Hxs. revert a Ha.
  induction Hxs as [|x xs Hx _ IH]; intros a Ha; simpl; [done|].
  apply IH. by apply Math_min_lower.
Qed.

Lemma Math_min_spread_bound (c : number) (xs : list number) :
  xs ≠ [] → Forall (λ x, (c ≤ x)%Qc) xs → (c ≤ Math_min_spread xs)%Qc.
Proof.
  intros Hne Hxs. destruct Hxs as [|x xs Hx Hxs]; [done|]. simpl.
  by apply fold_left_Math_min_bound.
Qed.

Lemma fromEnd_slice_last {A} (data : list A) (n : nat) (x : A) :
  fromEnd data 1 = Some x → x ∈ slice_last n data.
Proof.
  unfold fromEnd, slice_last. intros H.
  destruct (Nat.leb_spec 1 (length data)) as [Hlen|]; [|done].
  destruct (n =? 0)%nat eqn:Hn; [by eapply list_elem_of_lookup_2|].
  apply Nat.eqb_neq in Hn.
  apply list_elem_of_lookup.
  exists (length data - 1 - (length data - n))%nat.
  rewrite lookup_drop. rewrite <- H. f_equal. lia.
Qed.

Lemma Math_floor_whole (lo hi : Z) (x : number) :
  within (Q2Qc (inject_Z lo)) (Q2Qc (inject_Z hi)) x →
  ∃ v : Z, Math_floor x = Q2Qc (inject_Z v) ∧ (lo ≤ v ≤ hi)%Z.
Proof.
  intros [Hlo Hhi]. exists (Qfloor (this x)). split; [done|].
  unfold Qcle in Hlo, Hhi. cbn [this Q2Qc] in Hlo, Hhi.
  rewrite Qred_correct in Hlo, Hhi.
  split.
  - rewrite <- (Qfloor_Z lo). by apply Qfloor_resp_le.
  - rewrite <- (Qfloor_Z hi). by apply Qfloor_resp_le.
Qed.

Lemma market_cap_bounds (c r : number) :
  (0 ≤ c)%Qc → (0 ≤ r)%Qc → (r < 1)%Qc →
  within (Q2Qc 10000000000 * c) (Q2Qc 15000000000 * c)
    (c * (r * Q2Qc 5 + Q2Qc 10) * Q2Qc 1000000000)%Qc.
Proof. intros Hc H0 H1. qc_to_q. split; nra. Qed.

(** X26. [fetchStockMetrics] resolves for exactly the eight symbols of the
    table, and then the year's range holds the day's range, which holds the
    current price: 0.98 <= yearLow <= dayLow <= currentPrice <= dayHigh <=
    yearHigh. The average volume is a whole number from one million up to,
    not including, eleven million, and the market capitalisation lies
    between 10 and 15 billion times the current price. For every other
    symbol it rejects as [fetchStockData] does. *)
Theorem fetchStockMetrics_contract (random : nat → number) (clock : nat → Z)
    (zone : Machine.Zone) (k : nat) (symbol : string) :
  randomInRange random →
  match fetchStockMetrics random clock zone k symbol with
  | Resolves m =>
      (symbol ∈ knownSymbols)
      ∧ StockMetrics.symbol m = symbol
      ∧ (Q2Qc (98 # 100) ≤ StockMetrics.yearLow m)%Qc
      ∧ (StockMetrics.yearLow m ≤ StockMetrics.dayLow m)%Qc
      ∧ (StockMetrics.dayLow m ≤ StockMetrics.currentPrice m)%Qc
      ∧ (StockMetrics.currentPrice m ≤ StockMetrics.dayHigh m)%Qc
      ∧ (StockMetrics.dayHigh m ≤ StockMetrics.yearHigh m)%Qc
      ∧ within (Q2Qc 10000000000 * StockMetrics.currentPrice m)
          (Q2Qc 15000000000 * StockMetrics.currentPrice m)
          (StockMetrics.marketCap m)
      ∧ ∃ v : Z, StockMetrics.avgVolume m = Q2Qc (inject_Z v)
                 ∧ (1000000 ≤ v < 11000000)%Z
  | Rejects (RejectedError message) =>
      (symbol ∉ knownSymbols) ∧ (symbol ∉ objectPrototypeKeys)
      ∧ message = "No data available for symbol: " +:+ symbol
  | Rejects RejectedTypeError =>
      (symbol ∉ knownSymbols) ∧ (symbol ∈ objectPrototypeKeys)
  end.
Proof.
  intros Hr. unfold fetchStockMetrics.
  destruct (decide (symbol ∈ knownSymbols)) as [Hk|Hk].
  2:{ rewrite (getProperty_unknown random clock zone symbol Hk).
      case_bool_decide as Hi; done. }
  destruct (stockData_entry random clock zone symbol Hr Hk)
    as (data & -> & Hlen & Hwf & _ & _).
  destruct (fromEnd data 1) as [lastDay|] eqn:Hlast.
  2:{ unfold fromEnd in Hlast. rewrite Hlen in Hlast. simpl in Hlast.
      apply lookup_ge_None in Hlast. lia. }
  destruct (fromEnd data 2) as [previousDay|] eqn:Hprev.
  2:{ unfold fromEnd in Hprev. rewrite Hlen in Hprev. simpl in Hprev.
      apply lookup_ge_None in Hprev. lia. }
  cbv zeta. cbn [StockMetrics.symbol StockMetrics.yearLow StockMetrics.dayLow
    StockMetrics.currentPrice StockMetrics.dayHigh StockMetrics.yearHigh
    StockMetrics.marketCap StockMetrics.avgVolume].
  set (yearData := slice_last 365 data).
  assert (Hin : lastDay ∈ yearData) by by apply fromEnd_slice_last.
  assert (Hywf : Forall wellFormedCandle yearData)
    by by apply slice_last_Forall.
  assert (Hne : yearData ≠ []) by (intros E; rewrite E in Hin; inversion Hin).
  pose proof (proj1 (Forall_forall _ _) Hywf lastDay Hin)
    as (_ & _ & _ & _ & Hl98 & _ & Hlc & _ & Hch & _ & _).
  split; [done|]. split; [done|].
  split.
  { apply Math_min_spread_bound.
    - intros E. apply Hne. by apply map_eq_nil in E.
    - apply (proj2 (Forall_fmap _ _ _)). eapply Forall_impl; [exact Hywf|].
      intros x (_ & _ & _ & _ & H & _). exact H. }
  split.
  { apply (proj1 (Forall_forall _ _) (Math_min_spread_lower (map low yearData))).
    apply list_elem_of_In, in_map, list_elem_of_In, Hin. }
  split; [done|]. split; [done|].
  split.
  { apply (proj1 (Forall_forall _ _) (Math_max_spread_upper (map high yearData))).
    apply list_elem_of_In, in_map, list_elem_of_In, Hin. }
  split.
  { destruct (Hr k) as [H0 H1]. apply market_cap_bounds; [|done..].
    eapply Qcle_trans; [|exact Hlc]. eapply Qcle_trans; [|exact Hl98]. done. }
  rewrite (fold_left_sum volume yearData 0%Qc), Qcplus_0_l.
  assert (Hmean : within (Q2Qc (inject_Z 1000000)) (Q2Qc (inject_Z 10999999))
                    (mean (map volume yearData))).
  { apply mean_bounds.
    - intros E. apply Hne. by apply map_eq_nil in E.
    - apply (proj2 (Forall_fmap _ _ _)). eapply Forall_impl; [exact Hywf|].
      intros x (_ & _ & _ & _ & _ & _ & _ & _ & _ & _ & v & Hv & Hv1 & Hv2).
      unfold compose. rewrite Hv.
      unfold within, Qcle. cbn [this Q2Qc]. rewrite !Qred_correct.
      rewrite <- !Zle_Qle. lia. }
  unfold mean in Hmean. rewrite length_map in Hmean.
  destruct (Math_floor_whole _ _ _ Hmean) as (v & Hv & Hv1 & Hv2).
  exists v. split; [exact Hv | lia].
Qed.

Lemma fetchStockMetrics_contract_witness :
  match fetchStockMetrics sampleRandom sampleClock (Machine.fixedZone (-300))
          (8 * 1830) "NVDA" with
  | Resolves m =>
      ("NVDA" ∈ knownSymbols)
      ∧ StockMetrics.symbol m = "NVDA"
      ∧ (Q2Qc (98 # 100) ≤ StockMetrics.yearLow m)%Qc
      ∧ (StockMetrics.yearLow m ≤ StockMetrics.dayLow m)%Qc
      ∧ (StockMetrics.dayLow m ≤ StockMetrics.currentPrice m)%Qc
      ∧ (StockMetrics.currentPrice m ≤ StockMetrics.dayHigh m)%Qc
      ∧ (StockMetrics.dayHigh m ≤ StockMetrics.yearHigh m)%Qc
      ∧ within (Q2Qc 10000000000 * StockMetrics.currentPrice m)
          (Q2Qc 15000000000 * StockMetrics.currentPrice m)
          (StockMetrics.marketCap m)
      ∧ ∃ v : Z, StockMetrics.avgVolume m = Q2Qc (inject_Z v)
                 ∧ (1000000 ≤ v < 11000000)%Z
  | Rejects (RejectedError message) =>
      ("NVDA" ∉ knownSymbols) ∧ ("NVDA" ∉ objectPrototypeKeys)
      ∧ message = "No data available for symbol: " +:+ "NVDA"
  | Rejects RejectedTypeError =>
      ("NVDA" ∉ knownSymbols) ∧ ("NVDA" ∈ objectPrototypeKeys)
  end.
Proof. apply fetchStockMetrics_contract, sampleRandom_in_range. Defined.

(** * The prediction chart *)

Lemma findIndex_none {A} (f : A → bool) (a : list A) :
  Forall (λ x, f x = false) a → findIndex f a = (-1)%Z.
Proof.
  intros H. unfold findIndex.
  destruct (list_find _ a) as [[i x]|] eqn:Hf; [|done].
  apply list_find_Some in Hf as (Hi & Hx & _).
  apply (Forall_lookup_1 _ _ _ _ H) in Hi. congruence.
Qed.

Lemma findIndex_app {A} (f : A → bool) (a b : list A) (x : A) :
  Forall (λ x, f x = false) a → f x = true →
  findIndex f (a ++ x :: b) = Z.of_nat (length a).
Proof.
  intros Ha Hx. unfold findIndex.
  destruct (list_find _ (a ++ x :: b)) as [[i y]|] eqn:Hf.
  - apply list_find_Some in Hf as (Hi & Hy & Hmin). cbn [fst].
    destruct (Nat.lt_trichotomy i (length a)) as [Hlt|[->|Hgt]]; [|done|].
    + rewrite lookup_app_l in Hi by done.
      apply (Forall_lookup_1 _ _ _ _ Ha) in Hi. congruence.
    + exfalso. apply (Hmin (length a) x); [|done|done].
      by rewrite list_lookup_middle.
  - apply list_find_None in Hf.
    apply Forall_app in Hf as [_ Hf]. apply Forall_cons in Hf as [Hf _].
    done.
Qed.

(** What the chart computes on a sequence that carries actual values up
    to some entry and none from there on. *)
Lemma chart_of_split (bt fc : list PredictionResult) :
  Forall (λ r, is_Some (actual r)) bt →
  Forall (λ r, actual r = None) fc →
  predictionStartIndex (map chartPointOf (bt ++ fc))
  = (if fc is [] then (-1)%Z else Z.of_nat (length bt))
  ∧ predictionStartDate (map chartPointOf (bt ++ fc)) = pr_date <$> head fc.
Proof.
  intros Hbt Hfc.
  assert (Hb : Forall (λ p, strictlyNull (cp_actual p) = false)
                 (map chartPointOf bt)).
  { apply (proj2 (Forall_fmap _ _ _)). eapply Forall_impl; [exact Hbt|].
    intros r [a Ha]. unfold compose, chartPointOf. cbn [cp_actual].
    by rewrite Ha. }
  assert (Hidx : predictionStartIndex (map chartPointOf (bt ++ fc))
                 = (if fc is [] then (-1)%Z else Z.of_nat (length bt))).
  { unfold predictionStartIndex. rewrite map_app.
    destruct fc as [|r fc].
    - rewrite app_nil_r. by apply findIndex_none.
    - cbn [map]. rewrite findIndex_app; [by rewrite length_map | done |].
      apply Forall_cons in Hfc as [Hr _]. unfold chartPointOf.
      cbn [cp_actual]. by rewrite Hr. }
  split; [done|]. unfold predictionStartDate. cbv zeta. rewrite Hidx.
  destruct fc as [|r fc]; [done|].
  destruct (Z.leb_spec 0 (Z.of_nat (length bt))); [|lia].
  rewrite Nat2Z.id, map_app. cbn [map].
  replace (length bt) with (length (map chartPointOf bt))
    by by rewrite length_map.
  by rewrite list_lookup_middle.
Qed.

Lemma maForecast_head shift dl W forecastDays :
  head (maForecast shift dl W 0 forecastDays)
  = if forecastDays is 0%nat then None
    else Some {| pr_date := nextBusinessDayAfter shift dl;
                 actual := None;
                 predicted := toFixed2 (mean W);
                 modelName := MOVING_AVERAGE |}.
Proof. by destruct forecastDays. Qed.

(** The three result sequences of a call: a backtest with actual values,
    then one forecast entry per forecast day, the first of them on the
    business day after the last input date. *)
Lemma forecaster_results_split (tz : Z) (data : list StockDataPoint)
    (forecastDays : nat) (r : ForecastingModel → list PredictionResult)
    (model : ForecastingModel) :
  generateAllPredictions tz data forecastDays = Returns r →
  ∃ bt fc dl,
    r model = bt ++ fc
    ∧ last (map sdp_date data) = Some dl
    ∧ Forall (λ e, is_Some (actual e)) bt
    ∧ Forall (λ e, actual e = None) fc
    ∧ length fc = forecastDays
    ∧ pr_date <$> head fc
      = if forecastDays is 0%nat then None
        else Some (nextBusinessDayAfter (dayShift tz) dl).
Proof.
  intros H.
  destruct (generateAllPredictions_inv _ _ _ _ H)
    as (ma & es & ar & Hma & Hes & Har & ->).
  destruct (exponentialSmoothingPredict_inv _ _ _ _ _ Hes)
    as (Hlen & dl & Hdl & ->).
  destruct (arimaPredict_inv _ _ _ _ _ _ _ Har) as (_ & dl' & Hdl' & ->).
  rewrite Hdl in Hdl'. injection Hdl' as <-.
  destruct (movingAveragePredict_inv _ _ _ _ _ Hma)
    as (_ & [(dl' & Hdl' & ->)|(-> & _)]); [|done].
  rewrite Hdl in Hdl'. injection Hdl' as <-.
  destruct model.
  - eexists _, _, dl. split; [reflexivity|]. split; [done|].
    split; [apply maBacktest_actual|].
    split; [eapply Forall_impl; [apply maForecast_split|]; by intros ? []|].
    split; [apply maForecast_length|]. by destruct forecastDays.
  - eexists _, _, dl. split; [reflexivity|]. split; [done|].
    split; [apply esBacktest_actual|].
    split; [eapply Forall_impl; [apply esForecast_split|]; by intros ? []|].
    split; [apply esForecast_length|]. by destruct forecastDays.
  - eexists _, _, dl. split; [reflexivity|]. split; [done|].
    split; [apply arimaBacktestEntries_actual|].
    split;
      [eapply Forall_impl; [apply arimaForecastEntries_split|];
       by intros ? []|].
    split;
      [by rewrite arimaForecastEntries_length, arimaForecastValues_length|].
    pose proof (arimaForecastValues_length data 3 1 1 forecastDays) as Hl.
    destruct (arimaForecastValues data 3 1 1 forecastDays) as [|v vs];
      destruct forecastDays; done.
Qed.

(** X27. Given a result sequence of [generateAllPredictions], as its
    declared input type has it, [PredictionChart] finds where the
    forecast starts: [predictionStartIndex] is the sequence's length less
    [forecastDays], and [predictionStartDate] the date of the first
    forecast entry, which on a host at the fixed offset [tz] from UTC is
    what [getNextBusinessDay] returns for one business day after the last
    input date: the first day after it that the host's local calendar
    takes for a Monday to Friday (west of UTC this can be a Saturday).
    With no forecast day the index is -1 and the date [null]. *)
Theorem chart_finds_the_forecast (tz : Z) (data : list StockDataPoint)
    (forecastDays : nat) (r : ForecastingModel → list PredictionResult)
    (model : ForecastingModel) :
  generateAllPredictions tz data forecastDays = Returns r →
  predictionStartIndex (map chartPointOf (r model))
  = (if forecastDays is 0%nat then (-1)%Z
     else Z.of_nat (length (r model) - forecastDays))
  ∧ predictionStartDate (map chartPointOf (r model))
    = (if forecastDays is 0%nat then None
       else nextBusinessDayAfter (dayShift tz) <$> last (map sdp_date data))
  ∧ ∃ dl, last (map sdp_date data) = Some dl
          ∧ getNextBusinessDay tz (Some dl) 1
            = Returns (nextBusinessDayAfter (dayShift tz) dl).
Proof.
  intros H.
  destruct (forecaster_results_split tz data forecastDays r model H)
    as (bt & fc & dl & -> & Hdl & Hbt & Hfc & Hlen & Hhead).
  destruct (chart_of_split bt fc Hbt Hfc) as [-> ->].
  rewrite Hhead, Hdl, length_app, Hlen.
  split; [|split].
  - destruct forecastDays as [|n]; [by destruct fc|].
    destruct fc; [done|]. f_equal. lia.
  - destruct forecastDays as [|n]; [by destruct fc|]. by destruct fc.
  - exists dl. split; [done|]. by rewrite getNextBusinessDay_steps.
Qed.

Lemma chart_finds_the_forecast_witness :
  ∃ r,
    generateAllPredictions 0 sampleSeries 7 = Returns r
    ∧ predictionStartIndex (map chartPointOf (r ARIMA))
      = Z.of_nat (length (r ARIMA) - 7)
    ∧ predictionStartDate (map chartPointOf (r ARIMA))
      = nextBusinessDayAfter (dayShift 0) <$> last (map sdp_date sampleSeries)
    ∧ ∃ dl, last (map sdp_date sampleSeries) = Some dl
            ∧ getNextBusinessDay 0 (Some dl) 1
              = Returns (nextBusinessDayAfter (dayShift 0) dl).
Proof.
  eexists. split; [vm_compute; reflexivity|].
  apply (chart_finds_the_forecast 0 sampleSeries 7 _ ARIMA).
  vm_compute; reflexivity.
Defined.

(** X28. The dashboard hides the forecast from the chart: the objects
    that [mapPredictionsForChart] makes have no [actual], which is then
    [undefined] and never [=== null]. Whatever the dashboard's state,
    [PredictionChart] computes [predictionStartIndex = -1] and
    [predictionStartDate = null] on what it is handed, and so never draws
    the area that marks the predictions. *)
Theorem dashboard_chart_never_marks_predictions (st : Dashboard.State) :
  predictionStartIndex (chartPredictions st) = (-1)%Z
  ∧ predictionStartDate (chartPredictions st) = None.
Proof.
  assert (H : predictionStartIndex (chartPredictions st) = (-1)%Z).
  { apply findIndex_none. unfold chartPredictions.
    destruct (Dashboard.predictions st) as [predictions|]; [|constructor].
    destruct (notString _); [constructor|].
    by apply Forall_map_intro. }
  split; [done|]. unfold predictionStartDate. cbv zeta. by rewrite H.
Qed.

(** * The time range of the stock chart *)

Lemma timeRangeToDays_values (range : string) :
  timeRangeToDays range ∈ [30; 90; 180; 365; 365 * 5]%nat.
Proof.
  unfold timeRangeToDays.
  repeat (destruct (String.eqb range _); [set_solver|]). set_solver.
Qed.

(** X29. The query behind the stock chart: for a symbol of the table and
    whatever time range is selected, [fetchStockData] resolves with the
    last [timeRangeToDays(range)] candles the table has for the symbol,
    at least 30 and at most 366 of them; the range "5Y" asks for 1825
    days and gets the 366 there are, one more than "1Y". *)
Theorem time_range_query (random : nat → number) (clock : nat → Z)
    (zone : Machine.Zone) (symbol range : string) :
  randomInRange random → symbol ∈ knownSymbols →
  ∃ all data,
    getProperty (stockData random clock zone) symbol = Own all
    ∧ fetchStockData random clock zone symbol (timeRangeToDays range)
      = Resolves data
    ∧ data = drop (length all - timeRangeToDays range) all
    ∧ length data = (timeRangeToDays range `min` 366)%nat
    ∧ (30 ≤ length data ≤ 366)%nat
    ∧ (range = "5Y" → length data = 366%nat)
    ∧ (range = "1Y" → length data = 365%nat).
Proof.
  intros Hr Hk. unfold fetchStockData.
  destruct (stockData_entry random clock zone symbol Hr Hk)
    as (all & -> & Hlen & _).
  exists all, (slice_last (timeRangeToDays range) all).
  pose proof (timeRangeToDays_values range) as Hv.
  assert (Hpos : (timeRangeToDays range =? 0)%nat = false).
  { apply Nat.eqb_neq. intros E. rewrite E in Hv.
    revert Hv. apply (proj1 (bool_decide_eq_false _)). vm_compute.
    reflexivity. }
  assert (Hl : length (slice_last (timeRangeToDays range) all)
               = (timeRangeToDays range `min` 366)%nat)
    by (by rewrite slice_last_length, Hpos, Hlen).
  split; [done|]. split; [done|].
  split; [unfold slice_last; by rewrite Hpos|].
  split; [done|]. rewrite Hl.
  split.
  { repeat (apply elem_of_cons in Hv as [->|Hv]);
      [..|by apply elem_of_nil in Hv]; lia. }
  split; intros ->; vm_compute; reflexivity.
Qed.

Lemma time_range_query_witness :
  ∃ all data,
    getProperty (stockData sampleRandom sampleClock (Machine.fixedZone (-300)))
      "TSLA" = Own all
    ∧ fetchStockData sampleRandom sampleClock (Machine.fixedZone (-300))
        "TSLA" (timeRangeToDays "5Y")
      = Resolves data
    ∧ data = drop (length all - timeRangeToDays "5Y") all
    ∧ length data = (timeRangeToDays "5Y" `min` 366)%nat
    ∧ (30 ≤ length data ≤ 366)%nat
    ∧ ("5Y" = "5Y" → length data = 366%nat)
    ∧ ("5Y" = "1Y" → length data = 365%nat).
Proof.
  apply time_range_query.
  - apply sampleRandom_in_range.
  - apply (bool_decide_unpack _). vm_compute. exact I.
Defined.

(** * The module on the machine: its properties *)

(** ** Hosts at a fixed offset *)

(** On a host at a fixed offset the calendar of module [Machine] is the
    calendar of the first part. *)
Lemma machine_businessDayLoop_fixedZone (tz : Z) (steps : nat) :
  ∀ (t : Z) (added n : nat),
    Machine.businessDayLoop (Machine.fixedZone tz) steps t added n
    = businessDayLoop tz steps t added n.
Proof.
  induction steps as [|steps IH]; intros t added n; simpl; [done|].
  destruct (added <? n)%nat; [|done].
  assert (Ht : Machine.addOneDay (Machine.fixedZone tz) t = addOneDay t).
  { unfold Machine.addOneDay, Machine.addDays, Machine.localTime, addOneDay.
    simpl. lia. }
  rewrite Ht.
  assert (Hd : Machine.getDay (Machine.fixedZone tz) (addOneDay t)
               = getDay tz (addOneDay t)) by reflexivity.
  rewrite Hd. by rewrite !IH.
Qed.

Lemma machine_getNextBusinessDay_fixedZone (tz : Z) (d : date) (daysToAdd : nat) :
  Machine.getNextBusinessDay (Machine.fixedZone tz) (Some d) daysToAdd
  = Returns (nthBusinessDayAfter (dayShift tz) d daysToAdd).
Proof.
  pose proof (getNextBusinessDay_steps tz d daysToAdd) as H.
  unfold Machine.getNextBusinessDay, getNextBusinessDay in *.
  cbn [newDate fmap option_fmap option_map] in *.
  by rewrite machine_businessDayLoop_fixedZone.
Qed.

(** ** Backtest and forecast portions *)

Lemma machine_portions_of_backtest (l : list Machine.PredictionResult) :
  Forall (λ r, is_Some (Machine.actual r)) l →
  Machine.backtestPortion l = l ∧ Machine.forecastPortion l = [].
Proof.
  unfold Machine.backtestPortion, Machine.forecastPortion.
  induction 1 as [|r l Hr _ [IH1 IH2]]; [done|].
  rewrite filter_cons_True by done. rewrite IH1.
  rewrite filter_cons_False; [done|].
  destruct Hr as [x Hx]. congruence.
Qed.

Lemma machine_portions_of_forecast (l : list Machine.PredictionResult) :
  Forall (λ r, Machine.actual r = None) l →
  Machine.backtestPortion l = [] ∧ Machine.forecastPortion l = l.
Proof.
  unfold Machine.backtestPortion, Machine.forecastPortion.
  induction 1 as [|r l Hr _ [IH1 IH2]]; [done|].
  rewrite filter_cons_False.
  2: { rewrite Hr. by intros [x Hx]. }
  rewrite IH1. rewrite filter_cons_True by done. by rewrite IH2.
Qed.

Lemma machine_portions_of_result (bt fc : list Machine.PredictionResult) :
  Forall (λ r, is_Some (Machine.actual r)) bt →
  Forall (λ r, Machine.actual r = None) fc →
  Machine.backtestPortion (bt ++ fc) = bt
  ∧ Machine.forecastPortion (bt ++ fc) = fc.
Proof.
  intros Hb Hf.
  destruct (machine_portions_of_backtest bt Hb) as [E1 E2].
  destruct (machine_portions_of_forecast fc Hf) as [E3 E4].
  unfold Machine.backtestPortion, Machine.forecastPortion in *.
  rewrite !filter_app, E1, E2, E3, E4.
  by rewrite app_nil_r.
Qed.

(** ** Loops on any host *)

(** What holds of the state before a loop and is kept by every turn that
    returns, holds of the state the loop returns. *)
Lemma machine_for_each_invariant {St} (I : St → Prop)
    (body : nat → St → outcome St) :
  (∀ i s s', I s → body i s = Returns s' → I s') →
  ∀ idxs s s', I s → for_each idxs body s = Returns s' → I s'.
Proof.
  intros Hbody. induction idxs as [|i idxs IH]; intros s s' Hs H.
  - simpl in H. by injection H as <-.
  - cbn [for_each] in H.
    destruct (body i s) as [s1| |] eqn:E; cbn [mbind outcome_bind] in H;
      [|done..].
    eapply IH; [|exact H]. by eapply Hbody.
Qed.

Lemma machine_grows_refl (bt : list Machine.PredictionResult) :
  Machine.growsByForecasts bt bt.
Proof. exists []. by rewrite app_nil_r. Qed.

Lemma machine_grows_push (bt rs : list Machine.PredictionResult)
    (r : Machine.PredictionResult) :
  Machine.growsByForecasts bt rs → Machine.actual r = None →
  Machine.growsByForecasts bt (rs ++ [r]).
Proof.
  intros (fc & -> & Hfc) Hr. exists (fc ++ [r]).
  split; [by rewrite app_assoc|]. apply Forall_app. by split; [|constructor].
Qed.

Lemma machine_last_date (data : list Machine.StockDataPoint) :
  data ≠ [] → ∃ dl, last (map Machine.sdp_date data) = Some dl.
Proof. intros H. apply last_is_Some. by destruct data. Qed.

(** ** Closed form of [movingAveragePredict] *)

Lemma machine_ma_backtest_loop (data : list Machine.StockDataPoint)
    (windowSize : nat) :
  fold_left (λ results i,
      let window := slice (i - windowSize) i (map Machine.close data) in
      let avg :=
        (Machine.sum_reduce window / Machine.ofNat (length window))%D in
      results ++ [ {| Machine.pr_date := nth i (map Machine.sdp_date data) 0%Z;
                      Machine.actual :=
                        Some (Machine.at_ (map Machine.close data) i);
                      Machine.predicted := Machine.toFixed2 avg;
                      Machine.modelName := MOVING_AVERAGE |} ])
    (seq windowSize (length data - windowSize)) []
  = Machine.maBacktest data windowSize.
Proof.
  unfold Machine.maBacktest.
  by rewrite (fold_left_push
    (λ i, {| Machine.pr_date := nth i (map Machine.sdp_date data) 0%Z;
             Machine.actual := Some (Machine.at_ (map Machine.close data) i);
             Machine.predicted :=
               Machine.toFixed2
                 (Machine.mean (slice (i - windowSize) i (map Machine.close data)));
             Machine.modelName := MOVING_AVERAGE |})).
Qed.

Lemma machine_ma_forecast_loop (tz : Z) (dl : date) :
  ∀ (k a : nat) (results : list Machine.PredictionResult) (W : list Machine.number),
    for_each (seq a k)
      (λ i '(results, lastPredictions),
        nextDate ← Machine.getNextBusinessDay (Machine.fixedZone tz)
                     (Some dl) (i + 1);
        let avg := (Machine.sum_reduce lastPredictions
                      / Machine.ofNat (length lastPredictions))%D in
        let prediction := Machine.toFixed2 avg in
        Returns (results ++ [ {| Machine.pr_date := nextDate;
                                 Machine.actual := None;
                                 Machine.predicted := prediction;
                                 Machine.modelName := MOVING_AVERAGE |} ],
                 shift_push lastPredictions prediction))
      (results, W)
    = Returns (results
               ++ Machine.maForecast
                    (λ i, nthBusinessDayAfter (dayShift tz) dl (i + 1)) W a k,
               Nat.iter k Machine.maStep W).
Proof.
  unfold Machine.maForecast.
  induction k as [|k IH]; intros a results W.
  - simpl. by rewrite app_nil_r.
  - cbn [seq for_each].
    rewrite machine_getNextBusinessDay_fixedZone. cbn [mbind outcome_bind].
    fold (Machine.mean W). fold (Machine.maStep W).
    rewrite IH, Nat.iter_succ_r, <- app_assoc.
    do 3 f_equal. cbn [seq map app]. f_equal.
    + do 2 f_equal. lia.
    + rewrite <- seq_shift, map_map. apply map_ext; intros j.
      rewrite Nat.iter_succ_r. do 2 f_equal. lia.
Qed.

Lemma machine_movingAveragePredict_returns (tz : Z)
    (data : list Machine.StockDataPoint) (windowSize forecastDays : nat)
    (dl : date) :
  (windowSize ≤ length data)%nat →
  last (map Machine.sdp_date data) = Some dl →
  Machine.movingAveragePredict (Machine.fixedZone tz) data windowSize
    forecastDays
  = Returns (Machine.maBacktest data windowSize
             ++ Machine.maForecast
                  (λ i, nthBusinessDayAfter (dayShift tz) dl (i + 1))
                  (slice_last windowSize (map Machine.close data))
                  0 forecastDays).
Proof.
  intros Hlen Hlast. unfold Machine.movingAveragePredict.
  destruct (Nat.ltb_spec (length data) windowSize); [lia|].
  rewrite machine_ma_backtest_loop, Hlast, machine_ma_forecast_loop.
  reflexivity.
Qed.

(** On any host: when the forecast loop returns, it has appended
    [forecastDays] entries without an actual value, whose predictions are
    the rounded means of the windows. *)
Lemma machine_ma_forecast_any_zone (zone : Machine.Zone)
    (lastDate : option date) :
  ∀ (k a : nat) (results : list Machine.PredictionResult)
    (W : list Machine.number) st',
    for_each (seq a k)
      (λ i '(results, lastPredictions),
        nextDate ← Machine.getNextBusinessDay zone lastDate (i + 1);
        let avg := (Machine.sum_reduce lastPredictions
                      / Machine.ofNat (length lastPredictions))%D in
        let prediction := Machine.toFixed2 avg in
        Returns (results ++ [ {| Machine.pr_date := nextDate;
                                 Machine.actual := None;
                                 Machine.predicted := prediction;
                                 Machine.modelName := MOVING_AVERAGE |} ],
                 shift_push lastPredictions prediction))
      (results, W)
    = Returns st' →
    ∃ fc, st'.1 = results ++ fc
          ∧ Forall (λ r, Machine.actual r = None) fc
          ∧ map Machine.predicted fc
            = map (λ j, Machine.toFixed2
                          (Machine.mean (Nat.iter j Machine.maStep W)))
                (seq 0 k).
Proof.
  induction k as [|k IH]; intros a results W st' H.
  - simpl in H. injection H as <-. exists []. by rewrite app_nil_r.
  - cbn [seq for_each] in H.
    destruct (Machine.getNextBusinessDay zone lastDate (a + 1)) as [nd| |];
      cbn [mbind outcome_bind] in H; [|done..].
    apply IH in H as (fc & -> & Hnone & Hpred).
    eexists (_ :: fc). split; [by rewrite <- app_assoc|].
    split; [by constructor|].
    cbn [map seq Nat.iter nat_rect Machine.predicted]. f_equal.
    rewrite Hpred, <- seq_shift, map_map. apply map_ext. intros j.
    by rewrite Nat.iter_succ_r.
Qed.

Lemma machine_movingAveragePredict_inv (zone : Machine.Zone)
    (data : list Machine.StockDataPoint) (windowSize forecastDays : nat)
    (rs : list Machine.PredictionResult) :
  Machine.movingAveragePredict zone data windowSize forecastDays = Returns rs →
  ∃ fc, rs = Machine.maBacktest data windowSize ++ fc
        ∧ Forall (λ r, Machine.actual r = None) fc
        ∧ map Machine.predicted fc
          = map (λ j, Machine.toFixed2
                        (Machine.mean
                           (Nat.iter j Machine.maStep
                              (slice_last windowSize
                                 (map Machine.close data)))))
              (seq 0 forecastDays).
Proof.
  intros H. unfold Machine.movingAveragePredict in H.
  destruct (length data <? windowSize)%nat; [done|].
  rewrite machine_ma_backtest_loop in H.
  match type of H with
  | context [for_each ?l ?body ?st0] =>
      destruct (for_each l body st0) as [st'| |] eqn:E;
        cbn [mbind outcome_bind] in H; [|done..]
  end.
  injection H as <-. by apply machine_ma_forecast_any_zone in E.
Qed.

Lemma machine_maBacktest_actual data w :
  Forall (λ r, is_Some (Machine.actual r)) (Machine.maBacktest data w).
Proof. apply Forall_map_intro. intros i. simpl. eauto. Qed.

Lemma machine_maForecast_actual dates W a k :
  Forall (λ r, Machine.actual r = None) (Machine.maForecast dates W a k).
Proof. by apply Forall_map_intro. Qed.

Lemma machine_maWindow_iter (closes : list Machine.number) (w k : nat) :
  Machine.maWindow closes w k = Nat.iter k Machine.maStep (lastN w closes).
Proof. induction k as [|k IH]; simpl; [done|]. by rewrite IH. Qed.

Lemma machine_maForecast_lookup dates W a fd k :
  (k < fd)%nat →
  Machine.maForecast dates W a fd !! k
  = Some {| Machine.pr_date := dates (a + k)%nat;
            Machine.actual := None;
            Machine.predicted :=
              Machine.toFixed2 (Machine.mean (Nat.iter k Machine.maStep W));
            Machine.modelName := MOVING_AVERAGE |}.
Proof.
  intros Hk. unfold Machine.maForecast.
  change (map ?f ?l) with (f <$> l).
  by rewrite list_lookup_fmap, lookup_seq_lt.
Qed.

(** C5 (as amended), on the machine. For [windowSize >= 1] and a series at
    least that long, on every host: the [k]-th entry of the forecast
    horizon of [movingAveragePredict] (from 0) predicts the mean of the
    window [maWindow closes windowSize k] rounded to two decimals: the
    window starts as the last [windowSize] closes and each step drops its
    oldest element and appends the rounded prediction just emitted. The
    mean is the one the doubles give: the sum from the left, divided by
    the length. On a host at a fixed offset from UTC the call returns. *)
Theorem C5_moving_average_forecast (zone : Machine.Zone)
    (data : list Machine.StockDataPoint) (windowSize forecastDays k : nat) :
  (1 ≤ windowSize)%nat → (windowSize ≤ length data)%nat →
  (k < forecastDays)%nat →
  (∀ rs,
     Machine.movingAveragePredict zone data windowSize forecastDays
     = Returns rs →
     ∃ r,
       Machine.forecastPortion rs !! k = Some r
       ∧ Machine.predicted r
         = Machine.toFixed2
             (Machine.mean
                (Machine.maWindow (map Machine.close data) windowSize k)))
  ∧ (∀ tz, ∃ rs,
       Machine.movingAveragePredict (Machine.fixedZone tz) data windowSize
         forecastDays = Returns rs).
Proof.
  intros Hw Hlen Hk. split.
  - intros rs H.
    apply machine_movingAveragePredict_inv in H as (fc & -> & Hnone & Hpred).
    destruct (machine_portions_of_result _ _
                (machine_maBacktest_actual data windowSize) Hnone) as [_ ->].
    assert (Hfc : length fc = forecastDays).
    { apply (f_equal length) in Hpred.
      by rewrite !length_map, length_seq in Hpred. }
    destruct (lookup_lt_is_Some_2 fc k) as [r Hr]; [lia|].
    exists r. split; [done|].
    apply (f_equal (λ l, l !! k)) in Hpred. revert Hpred.
    change (map ?f ?l) with (f <$> l).
    rewrite !list_lookup_fmap, Hr, lookup_seq_lt by done.
    cbn [fmap option_fmap option_map]. intros [= ->].
    by rewrite machine_maWindow_iter, slice_last_lastN.
  - intros tz.
    destruct (machine_last_date data) as [dl Hdl];
      [destruct data; simpl in *; [lia | done]|].
    eexists. by apply machine_movingAveragePredict_returns.
Qed.

(** C5, counterexample. With [windowSize = 0] the window the claim
    describes is empty whatever the series, and its mean is NaN; the code
    starts from [closePrices.slice(-0)], the whole series: one close of 5
    forecasts 5.00, one close of 6 forecasts 6.00. *)
Lemma C5_counterexample_zero_window :
  Machine.maWindow (map Machine.close [Machine.samplePoint 19723 500]) 0 0 = []
  ∧ Machine.maWindow (map Machine.close [Machine.samplePoint 19723 600]) 0 0
    = []
  ∧ (∃ rs r,
       Machine.movingAveragePredict (Machine.fixedZone 0)
         [Machine.samplePoint 19723 500] 0 1 = Returns rs
       ∧ Machine.forecastPortion rs !! 0%nat = Some r
       ∧ Machine.predicted r = Machine.ofZ 5
       ∧ Machine.predicted r
         ≠ Machine.toFixed2
             (Machine.mean
                (Machine.maWindow
                   (map Machine.close [Machine.samplePoint 19723 500]) 0 0)))
  ∧ (∃ rs r,
       Machine.movingAveragePredict (Machine.fixedZone 0)
         [Machine.samplePoint 19723 600] 0 1 = Returns rs
       ∧ Machine.forecastPortion rs !! 0%nat = Some r
       ∧ Machine.predicted r = Machine.ofZ 6).
Proof.
  split; [done|]. split; [done|]. split.
  - eexists _, _. split; [vm_compute; reflexivity|].
    split; [vm_compute; reflexivity|].
    split; [vm_compute; reflexivity|].
    vm_compute. discriminate.
  - eexists _, _. split; [vm_compute; reflexivity|].
    split; [vm_compute; reflexivity|].
    vm_compute. reflexivity.
Qed.

(** C5, witness: the closes 100 and 101 with a window of two; the sixth
    forecast is 100.67. *)
Lemma C5_witness_window_of_two :
  ∃ rs r,
    Machine.movingAveragePredict (Machine.fixedZone 0)
      [Machine.samplePoint 19723 10000; Machine.samplePoint 19724 10100] 2 7
    = Returns rs
    ∧ Machine.forecastPortion rs !! 5%nat = Some r
    ∧ Machine.predicted r
      = Machine.toFixed2
          (Machine.mean
             (Machine.maWindow
                (map Machine.close
                   [Machine.samplePoint 19723 10000;
                    Machine.samplePoint 19724 10100]) 2 5))
    ∧ Machine.predicted r = Machine.ofRatio 10067 100.
Proof.
  destruct (C5_moving_average_forecast (Machine.fixedZone 0)
    [Machine.samplePoint 19723 10000; Machine.samplePoint 19724 10100] 2 7 5)
    as [Hany Hret]; [simpl; lia..|].
  destruct (Hret 0%Z) as [rs Hrs].
  destruct (Hany rs Hrs) as (r & Hr & Hp).
  exists rs, r. split; [exact Hrs|]. split; [exact Hr|]. split; [exact Hp|].
  rewrite Hp. vm_compute. reflexivity.
Defined.

(** ** A host whose clock changes (claim C3) *)

(** C3, the code at a failing input. In Africa/Cairo the clock goes
    forward at midnight on Friday 26 April 2024. The last input date
    2024-04-25 is read as midnight UTC, 02:00 local time; [setDate] moves
    to 02:00 local time on the 26th, which is 23:00 UTC on the 25th, a
    Friday for [getDay]; [toISOString] prints 2024-04-25. So
    [getNextBusinessDay('2024-04-25', 1)] is 2024-04-25, and the first
    forecast entry of each forecaster carries the last input date, not a
    later one. *)
Theorem C3_first_forecast_on_last_input_date :
  let data :=
    [Machine.samplePoint 19832 1000; Machine.samplePoint 19835 2000;
     Machine.samplePoint 19836 1500; Machine.samplePoint 19837 1800;
     Machine.samplePoint 19838 1700] in
  let firstForecast (rs : list Machine.PredictionResult) :=
    (λ r, (Machine.actual r, Machine.pr_date r)) <$> rs !! (length rs - 7)%nat in
  last (map Machine.sdp_date data) = Some 19838%Z
  ∧ Machine.getNextBusinessDay Machine.cairoSpring2024 (Some 19838%Z) 1
    = Returns 19838%Z
  ∧ (∃ rs,
       Machine.movingAveragePredict Machine.cairoSpring2024 data 2 7
       = Returns rs
       ∧ firstForecast rs = Some (None, 19838%Z))
  ∧ (∃ rs,
       Machine.exponentialSmoothingPredict Machine.cairoSpring2024 data
         (Machine.ofRatio 3 10) 7
       = Returns rs
       ∧ firstForecast rs = Some (None, 19838%Z))
  ∧ (∃ rs,
       Machine.arimaPredict Machine.cairoSpring2024 data 3 1 1 7 = Returns rs
       ∧ firstForecast rs = Some (None, 19838%Z)).
Proof.
  cbv zeta. split; [vm_compute; reflexivity|].
  split; [vm_compute; reflexivity|].
  split; [|split]; eexists; split; vm_compute; reflexivity.
Qed.

(** ** Closed form of the backtest of [exponentialSmoothingPredict] *)

(** A loop whose every turn appends one entry to the results appends as
    many entries as it has turns. *)
Lemma machine_for_each_emitting {St}
    (entry : nat → Machine.number → Machine.PredictionResult)
    (body : nat → St * list Machine.PredictionResult
            → outcome (St * list Machine.PredictionResult)) :
  (∀ i st results, ∃ st1 v,
      body i (st, results) = Returns (st1, results ++ [entry i v])) →
  ∀ (k a : nat) (st : St) (results : list Machine.PredictionResult),
    ∃ (st' : St) (preds : list Machine.number),
      length preds = k ∧
      for_each (seq a k) body (st, results)
      = Returns (st', results ++ imap (λ j v, entry (a + j)%nat v) preds).
Proof.
  intros Hbody. induction k as [|k IH]; intros a st results.
  - exists st, []. split; [done|]. simpl. by rewrite app_nil_r.
  - cbn [seq for_each].
    destruct (Hbody a st results) as (st1 & v & ->). cbn [mbind outcome_bind].
    destruct (IH (S a) st1 (results ++ [entry a v])) as (st' & preds & Hlen & ->).
    exists st', (v :: preds). split; [simpl; lia|].
    rewrite <- app_assoc. do 3 f_equal. cbn [imap app]. f_equal.
    + f_equal. lia.
    + apply imap_ext. intros j w _. simpl. f_equal. lia.
Qed.

Lemma machine_es_backtest_loop (alpha : Machine.number)
    (data : list Machine.StockDataPoint) :
  ∀ (k a : nat) (results : list Machine.PredictionResult),
    fold_left (λ '(forecast, results) i,
        let forecast :=
          (alpha * Machine.at_ (map Machine.close data) (i - 1)
           + (Machine.one - alpha) * forecast)%D in
        (forecast,
         results ++ [ {| Machine.pr_date := nth i (map Machine.sdp_date data) 0%Z;
                         Machine.actual :=
                           Some (Machine.at_ (map Machine.close data) i);
                         Machine.predicted := Machine.toFixed2 forecast;
                         Machine.modelName := EXPONENTIAL_SMOOTHING |} ]))
      (seq (S a) k) (Machine.esLevel alpha (map Machine.close data) a, results)
    = (Machine.esLevel alpha (map Machine.close data) (a + k),
       results
       ++ map (λ i, {| Machine.pr_date := nth i (map Machine.sdp_date data) 0%Z;
                       Machine.actual :=
                         Some (Machine.at_ (map Machine.close data) i);
                       Machine.predicted :=
                         Machine.toFixed2
                           (Machine.esLevel alpha (map Machine.close data) i);
                       Machine.modelName := EXPONENTIAL_SMOOTHING |})
              (seq (S a) k)).
Proof.
  induction k as [|k IH]; intros a results.
  - simpl. by rewrite Nat.add_0_r, app_nil_r.
  - cbn [seq fold_left]. rewrite Nat.sub_succ, Nat.sub_0_r.
    change (alpha * Machine.at_ (map Machine.close data) a
            + (Machine.one - alpha)
              * Machine.esLevel alpha (map Machine.close data) a)%D
      with (Machine.esLevel alpha (map Machine.close data) (S a)).
    rewrite IH, <- app_assoc. f_equal. f_equal. lia.
Qed.

(** The dated forecast entries of a model with the predicted values
    [preds], on a host at a fixed offset. *)
Lemma machine_forecast_entries_actual (model : ForecastingModel)
    (dates : nat → date) (preds : list Machine.number) :
  Forall (λ r, Machine.actual r = None)
    (imap (λ j v, {| Machine.pr_date := dates j;
                     Machine.actual := None;
                     Machine.predicted := v;
                     Machine.modelName := model |}) preds).
Proof. by apply Forall_imap_intro. Qed.

Lemma machine_exponentialSmoothingPredict_returns (tz : Z)
    (data : list Machine.StockDataPoint) (alpha : Machine.number)
    (forecastDays : nat) :
  (2 ≤ length data)%nat →
  ∃ fc,
    Machine.exponentialSmoothingPredict (Machine.fixedZone tz) data alpha
      forecastDays
    = Returns (Machine.esBacktest alpha data ++ fc)
    ∧ length fc = forecastDays
    ∧ Forall (λ r, Machine.actual r = None) fc.
Proof.
  intros Hlen.
  destruct (machine_last_date data) as [dl Hdl];
    [destruct data; simpl in *; [lia | done]|].
  unfold Machine.exponentialSmoothingPredict.
  destruct (Nat.ltb_spec (length data) 2); [lia|].
  change (Machine.at_ (map Machine.close data) 0)
    with (Machine.esLevel alpha (map Machine.close data) 0).
  rewrite machine_es_backtest_loop, Hdl. cbn [app].
  fold (Machine.esBacktest alpha data).
  set (entry := λ (i : nat) (v : Machine.number),
         {| Machine.pr_date := nthBusinessDayAfter (dayShift tz) dl (i + 1);
            Machine.actual := None;
            Machine.predicted := v;
            Machine.modelName := EXPONENTIAL_SMOOTHING |}).
  match goal with
  | |- context [for_each _ ?body (?st0, ?results0)] =>
      assert (Hbody : ∀ i s rs, ∃ s1 v,
                body i (s, rs) = Returns (s1, rs ++ [entry i v]));
        [|destruct (machine_for_each_emitting entry body Hbody forecastDays
                      0%nat st0 results0) as (st' & preds & Hl & Heq)]
  end.
  { intros i [forecast lastActual] results.
    rewrite machine_getNextBusinessDay_fixedZone. cbn [mbind outcome_bind].
    eexists _, _. reflexivity. }
  rewrite Heq. cbn [mbind outcome_bind snd].
  eexists. split; [reflexivity|]. split; [by rewrite length_imap|].
  by apply Forall_imap_intro.
Qed.

(** On any host: what [exponentialSmoothingPredict] returns is its
    backtest followed by entries without an actual value. *)
Lemma machine_exponentialSmoothingPredict_inv (zone : Machine.Zone)
    (data : list Machine.StockDataPoint) (alpha : Machine.number)
    (forecastDays : nat) (rs : list Machine.PredictionResult) :
  Machine.exponentialSmoothingPredict zone data alpha forecastDays
  = Returns rs →
  Machine.growsByForecasts (Machine.esBacktest alpha data) rs.
Proof.
  intros H. unfold Machine.exponentialSmoothingPredict in H.
  destruct (length data <? 2)%nat; [done|].
  change (Machine.at_ (map Machine.close data) 0)
    with (Machine.esLevel alpha (map Machine.close data) 0) in H.
  rewrite machine_es_backtest_loop in H. cbn [app] in H.
  fold (Machine.esBacktest alpha data) in H.
  match type of H with
  | context [for_each ?l ?body ?st0] =>
      destruct (for_each l body st0) as [[[forecast lastActual] results]| |]
        eqn:E;
        cbn [mbind outcome_bind snd] in H; [|done..];
        injection H as <-;
        apply (machine_for_each_invariant
                 (λ st, Machine.growsByForecasts
                          (Machine.esBacktest alpha data) st.2) body)
          with (s' := (forecast, lastActual, results)) in E; [exact E| |]
  end.
  - intros i [[f la] rs] s' Hrs Hb. cbn [snd] in Hrs.
    destruct (Machine.getNextBusinessDay zone _ _);
      cbn [mbind outcome_bind] in Hb; [|done..].
    injection Hb as <-. cbn [snd]. by apply machine_grows_push.
  - apply machine_grows_refl.
Qed.

Lemma machine_esBacktest_actual alpha data :
  Forall (λ r, is_Some (Machine.actual r)) (Machine.esBacktest alpha data).
Proof. apply Forall_map_intro. intros i. simpl. eauto. Qed.

Lemma machine_esBacktest_length alpha data :
  length (Machine.esBacktest alpha data) = (length data - 1)%nat.
Proof. unfold Machine.esBacktest. by rewrite length_map, length_seq. Qed.

(** The level at index [i >= 1] reads only the closes before index [i]. *)
Lemma machine_esLevel_reads_before (alpha : Machine.number)
    (closes closes' : list Machine.number) (i : nat) :
  (1 ≤ i)%nat → take i closes' = take i closes →
  Machine.esLevel alpha closes' i = Machine.esLevel alpha closes i.
Proof.
  intros Hi Ht.
  assert (Hnth : ∀ j, (j < i)%nat →
            Machine.at_ closes' j = Machine.at_ closes j).
  { intros j Hj. unfold Machine.at_. rewrite !nth_lookup.
    by rewrite <- (lookup_take_lt closes' i j), <- (lookup_take_lt closes i j), Ht
      by done. }
  clear Ht. induction i as [|i IH]; [lia|].
  simpl. rewrite (Hnth i) by lia. f_equal. f_equal.
  destruct i as [|i'].
  - simpl. apply Hnth. lia.
  - apply IH; [lia|]. intros j Hj. apply Hnth. lia.
Qed.

(** C6, on the machine. For a series of at least two points and every
    smoothing factor, on every host: the backtest portion of what
    [exponentialSmoothingPredict] returns has one entry for each index [i]
    from 1 to [n - 1], with the date and the close of index [i] and the
    predicted value [esLevel alpha closes i] rounded to two decimals. The
    level is seeded with [close[0]] and updated as
    [alpha * close[i-1] + (1 - alpha) * level] in double arithmetic, and
    so reads only closes before index [i]. On a host at a fixed offset
    from UTC the call returns. For the series [10, 20] and [alpha = 0.3]
    the backtest is the single entry with predicted 10.00 and actual
    20. *)
Theorem C6_exponential_smoothing_backtest (zone : Machine.Zone)
    (data : list Machine.StockDataPoint) (alpha : Machine.number)
    (forecastDays : nat) :
  (2 ≤ length data)%nat →
  (∀ rs,
     Machine.exponentialSmoothingPredict zone data alpha forecastDays
     = Returns rs →
     Machine.backtestPortion rs = take (length data - 1) rs
     ∧ Machine.backtestPortion rs
       = map (λ i, {| Machine.pr_date := nth i (map Machine.sdp_date data) 0%Z;
                      Machine.actual :=
                        Some (Machine.at_ (map Machine.close data) i);
                      Machine.predicted :=
                        Machine.toFixed2
                          (Machine.esLevel alpha (map Machine.close data) i);
                      Machine.modelName := EXPONENTIAL_SMOOTHING |})
             (seq 1 (length data - 1)))
  ∧ (∀ tz, ∃ rs,
       Machine.exponentialSmoothingPredict (Machine.fixedZone tz) data alpha
         forecastDays = Returns rs)
  ∧ (∀ i closes', (1 ≤ i)%nat →
       take i closes' = take i (map Machine.close data) →
       Machine.esLevel alpha closes' i
       = Machine.esLevel alpha (map Machine.close data) i)
  ∧ (∀ (x0 x1 : Machine.StockDataPoint) rs,
       Machine.close x0 = Machine.ofZ 10 → Machine.close x1 = Machine.ofZ 20 →
       Machine.exponentialSmoothingPredict zone [x0; x1]
         (Machine.ofRatio 3 10) forecastDays
       = Returns rs →
       Machine.backtestPortion rs
       = [ {| Machine.pr_date := Machine.sdp_date x1;
              Machine.actual := Some (Machine.ofZ 20);
              Machine.predicted := Machine.ofZ 10;
              Machine.modelName := EXPONENTIAL_SMOOTHING |} ]).
Proof.
  intros Hlen. split; [|split; [|split]].
  - intros rs H.
    apply machine_exponentialSmoothingPredict_inv in H as (fc & -> & Hnone).
    destruct (machine_portions_of_result _ _
                (machine_esBacktest_actual alpha data) Hnone) as [-> _].
    split; [|reflexivity].
    rewrite take_app_le by (rewrite machine_esBacktest_length; lia).
    symmetry. apply take_ge. rewrite machine_esBacktest_length. lia.
  - intros tz.
    destruct (machine_exponentialSmoothingPredict_returns tz data alpha
                forecastDays Hlen) as (fc & -> & _).
    by eexists.
  - intros i closes'. apply machine_esLevel_reads_before.
  - intros x0 x1 rs H0 H1 H.
    apply machine_exponentialSmoothingPredict_inv in H as (fc & -> & Hnone).
    destruct (machine_portions_of_result _ _
                (machine_esBacktest_actual (Machine.ofRatio 3 10) [x0; x1])
                Hnone) as [-> _].
    unfold Machine.esBacktest, Machine.at_.
    cbn [length map seq Nat.sub nth Machine.esLevel]. unfold Machine.at_.
    cbn [nth]. rewrite H0, H1. vm_compute. reflexivity.
Qed.

(** C6, witness: the two-point series of Scenario B, and the series 1, 6,
    1, 1, 2, whose fourth backtest entry predicts 1.73. *)
Lemma C6_witness_scenario_B :
  (∃ rs,
     Machine.exponentialSmoothingPredict (Machine.fixedZone 0)
       [Machine.samplePoint 19723 1000; Machine.samplePoint 19724 2000]
       (Machine.ofRatio 3 10) 7
     = Returns rs
     ∧ Machine.backtestPortion rs
       = [ {| Machine.pr_date := 19724;
              Machine.actual := Some (Machine.ofZ 20);
              Machine.predicted := Machine.ofZ 10;
              Machine.modelName := EXPONENTIAL_SMOOTHING |} ])
  ∧ (∃ rs,
       Machine.exponentialSmoothingPredict (Machine.fixedZone 0)
         [Machine.samplePoint 19723 100; Machine.samplePoint 19724 600;
          Machine.samplePoint 19725 100; Machine.samplePoint 19726 100;
          Machine.samplePoint 19727 200]
         (Machine.ofRatio 3 10) 7
       = Returns rs
       ∧ Machine.predicted <$> Machine.backtestPortion rs
         = [Machine.ofZ 1; Machine.ofRatio 250 100; Machine.ofRatio 205 100;
            Machine.ofRatio 173 100]).
Proof.
  split.
  - assert (Hlen : (2 ≤ length [Machine.samplePoint 19723 1000;
                                Machine.samplePoint 19724 2000])%nat)
      by (simpl; lia).
    destruct (C6_exponential_smoothing_backtest (Machine.fixedZone 0)
      [Machine.samplePoint 19723 1000; Machine.samplePoint 19724 2000]
      (Machine.ofRatio 3 10) 7 Hlen) as (_ & Hret & _ & H).
    destruct (Hret 0%Z) as [rs Hrs]. exists rs. split; [exact Hrs|].
    apply (H (Machine.samplePoint 19723 1000) (Machine.samplePoint 19724 2000));
      [vm_compute; reflexivity | vm_compute; reflexivity | exact Hrs].
  - assert (Hlen : (2 ≤ length
      [Machine.samplePoint 19723 100; Machine.samplePoint 19724 600;
       Machine.samplePoint 19725 100; Machine.samplePoint 19726 100;
       Machine.samplePoint 19727 200])%nat) by (simpl; lia).
    destruct (C6_exponential_smoothing_backtest (Machine.fixedZone 0) _
                (Machine.ofRatio 3 10) 7 Hlen) as (Hany & Hret & _).
    destruct (Hret 0%Z) as [rs Hrs]. exists rs. split; [exact Hrs|].
    destruct (Hany rs Hrs) as [_ ->]. vm_compute. reflexivity.
Defined.

(** ** Closed form of the backtest of [arimaPredict] *)

Lemma machine_at_replicate (n j : nat) (c : Machine.number) :
  (j < n)%nat → Machine.at_ (replicate n c) j = c.
Proof. intros H. unfold Machine.at_. by apply nth_replicate_lt. Qed.

(** Reading a list backwards from its end. *)
Lemma machine_backwards_reads (l : list Machine.number) (m : nat) :
  (m ≤ length l)%nat →
  map (λ j, Machine.at_ l (length l - j - 1)) (seq 0 m)
  = rev (drop (length l - m) l).
Proof.
  unfold Machine.at_. induction m as [|m IH]; intros Hm.
  - simpl. by rewrite Nat.sub_0_r, drop_all.
  - rewrite seq_S, map_app, IH by lia. simpl.
    destruct (lookup_lt_is_Some_2 l (length l - S m)) as [x Hx]; [lia|].
    rewrite (drop_S l x (length l - S m) Hx).
    replace (S (length l - S m)) with (length l - m)%nat by lia.
    simpl. f_equal. f_equal.
    replace (length l - m - 1)%nat with (length l - S m)%nat by lia.
    by rewrite nth_lookup, Hx.
Qed.

Lemma machine_weighted_fold (c : Machine.number)
    (coefficients values : nat → Machine.number) (l : list nat)
    (z : Machine.number) :
  (∀ j, In j l → coefficients j = c) →
  fold_left (λ acc j, (acc + coefficients j * values j)%D) l z
  = fold_left (λ acc x, (acc + c * x)%D) (map values l) z.
Proof.
  revert z. induction l as [|j l IH]; intros z H; simpl; [done|].
  rewrite (H j) by (by left). apply IH. intros k Hk. apply H. by right.
Qed.

Lemma machine_arComponentAt_uniform (c : Machine.number)
    (diffPrices : list Machine.number) (p i : nat) :
  (p ≤ i)%nat → (i ≤ length diffPrices)%nat →
  Machine.arComponentAt (replicate p c) diffPrices p i
  = Machine.weightedSum c (rev (slice (i - p) i diffPrices)).
Proof.
  intros Hp Hi. unfold Machine.arComponentAt, Machine.weightedSum.
  rewrite (machine_weighted_fold c
    (λ j, Machine.at_ (replicate p c) j)
    (λ j, Machine.at_ diffPrices (i - j - 1))).
  2: { intros j Hj. apply in_seq in Hj. apply machine_at_replicate. lia. }
  f_equal.
  rewrite (map_ext_in _
    (λ j, Machine.at_ (take i diffPrices)
            (length (take i diffPrices) - j - 1))).
  2: { intros j Hj. apply in_seq in Hj.
       rewrite length_take, Nat.min_l by lia.
       unfold Machine.at_. rewrite !nth_lookup, lookup_take_lt by lia. done. }
  rewrite machine_backwards_reads by (rewrite length_take; lia).
  rewrite length_take, Nat.min_l by lia.
  unfold slice. rewrite take_drop_commute.
  by replace (i - p + (i - (i - p)))%nat with i by lia.
Qed.

Lemma machine_maComponentAt_uniform (c : Machine.number)
    (errors : list Machine.number) (q : nat) :
  Machine.maComponentAt (replicate q c) errors q
  = Machine.weightedSum c (map Machine.or_zero (rev (lastN q errors))).
Proof.
  unfold Machine.maComponentAt, Machine.weightedSum.
  rewrite (machine_weighted_fold c
    (λ j, Machine.at_ (replicate q c) j)
    (λ j, Machine.or_zero (Machine.at_ errors (length errors - j - 1)))).
  2: { intros j Hj. apply in_seq in Hj. apply machine_at_replicate. lia. }
  f_equal.
  rewrite <- (map_map (λ j, Machine.at_ errors (length errors - j - 1))
                Machine.or_zero).
  rewrite machine_backwards_reads by lia.
  unfold lastN.
  by replace (length errors - q `min` length errors)%nat
    with (length errors - q)%nat by lia.
Qed.

Lemma machine_arimaResiduals_length (p q : nat)
    (diffSeries : list Machine.number) (i : nat) :
  length (Machine.arimaResiduals p q diffSeries i) = i.
Proof.
  induction i as [|i IH]; simpl; [done|]. rewrite length_app, IH. simpl. lia.
Qed.

(** The backtest loop computes the residuals and predictions the reference
    recursion describes. *)
Lemma machine_arimaBacktest_loop (p q : nat)
    (diffPrices : list Machine.number) :
  ∀ (k a : nat) (predictions : list Machine.number),
    (p `max` q + a + k ≤ length diffPrices)%nat →
    fold_left (λ '(errors, predictions) i,
        let arComponent :=
          Machine.arComponentAt
            (replicate p (Machine.one / Machine.ofNat p)%D) diffPrices p i in
        let maComponent :=
          Machine.maComponentAt
            (replicate q (Machine.one / Machine.ofNat q)%D) errors q in
        let prediction := (arComponent + maComponent)%D in
        let error := (Machine.at_ diffPrices i - prediction)%D in
        (errors ++ [error], predictions ++ [prediction]))
      (seq (p `max` q + a) k)
      (Machine.arimaResiduals p q diffPrices a, predictions)
    = (Machine.arimaResiduals p q diffPrices (a + k),
       predictions
       ++ map (λ i, Machine.arimaPrediction p q diffPrices
                      (Machine.arimaResiduals p q diffPrices i) (p `max` q + i))
              (seq a k)).
Proof.
  induction k as [|k IH]; intros a predictions Hk.
  - simpl. by rewrite Nat.add_0_r, app_nil_r.
  - cbn [seq fold_left].
    rewrite machine_arComponentAt_uniform, machine_maComponentAt_uniform by lia.
    fold (Machine.arimaPrediction p q diffPrices
            (Machine.arimaResiduals p q diffPrices a) (p `max` q + a)).
    change (Machine.arimaResiduals p q diffPrices a
            ++ [(Machine.at_ diffPrices (p `max` q + a)
                 - Machine.arimaPrediction p q diffPrices
                     (Machine.arimaResiduals p q diffPrices a)
                     (p `max` q + a))%D])
      with (Machine.arimaResiduals p q diffPrices (S a)).
    rewrite <- Nat.add_succ_r, IH by lia.
    rewrite <- app_assoc. f_equal. f_equal. lia.
Qed.

Lemma machine_arimaBacktest_uniform (p q : nat)
    (diffPrices : list Machine.number) :
  Machine.arimaBacktest (replicate p (Machine.one / Machine.ofNat p)%D)
    (replicate q (Machine.one / Machine.ofNat q)%D) diffPrices p q
  = (Machine.arimaResiduals p q diffPrices (length diffPrices - p `max` q),
     map (λ i, Machine.arimaPrediction p q diffPrices
                 (Machine.arimaResiduals p q diffPrices i) (p `max` q + i))
         (seq 0 (length diffPrices - p `max` q))).
Proof.
  unfold Machine.arimaBacktest.
  destruct (Nat.le_gt_cases (p `max` q) (length diffPrices)) as [Hle|Hgt].
  - pose proof (machine_arimaBacktest_loop p q diffPrices
      (length diffPrices - p `max` q) 0 []) as H.
    rewrite Nat.add_0_r in H. apply H. lia.
  - replace (length diffPrices - p `max` q)%nat with 0%nat by lia. reflexivity.
Qed.

Lemma machine_difference_length (l : list Machine.number) :
  length (Machine.difference l) = (length l - 1)%nat.
Proof. unfold Machine.difference. by rewrite length_imap, length_drop. Qed.

Lemma machine_differencing_length (d : nat) (l : list Machine.number) :
  length (Nat.iter d Machine.difference l) = (length l - d)%nat.
Proof.
  induction d as [|d IH]; simpl; [lia|].
  rewrite machine_difference_length, IH. lia.
Qed.

Lemma machine_arimaPredictions_length (data : list Machine.StockDataPoint)
    (p d q : nat) :
  length (Machine.arimaPredictions data p d q)
  = (length data - d - p `max` q)%nat.
Proof.
  unfold Machine.arimaPredictions.
  by rewrite length_map, length_seq, machine_differencing_length, length_map.
Qed.

Lemma machine_arimaUndiff_results (closePrices : list Machine.number)
    (dates : list date) (predictions : list Machine.number) (p d q : nat) :
  (Machine.arimaUndiff closePrices dates predictions p d q).2
  = Machine.arimaBacktestEntries closePrices dates predictions p d q.
Proof.
  unfold Machine.arimaUndiff, Machine.arimaBacktestEntries.
  rewrite (fold_left_push2
    (λ i, fold_left (λ undiffValue j,
            (undiffValue
             + Machine.at_ closePrices (i + p `max` q + d - j - 1))%D)
            (seq 0 d) (Machine.at_ predictions i))
    (λ i, {| Machine.pr_date := nth (i + p `max` q + d) dates 0%Z;
             Machine.actual :=
               Some (Machine.at_ closePrices (i + p `max` q + d));
             Machine.predicted :=
               Machine.toFixed2
                 (fold_left (λ undiffValue j,
                    (undiffValue
                     + Machine.at_ closePrices (i + p `max` q + d - j - 1))%D)
                    (seq 0 d) (Machine.at_ predictions i));
             Machine.modelName := ARIMA |})).
  reflexivity.
Qed.

Lemma machine_arimaBacktestEntries_actual closes dates predictions p d q :
  Forall (λ r, is_Some (Machine.actual r))
    (Machine.arimaBacktestEntries closes dates predictions p d q).
Proof. apply Forall_map_intro. intros i. simpl. eauto. Qed.

Lemma machine_arimaBacktestEntries_length closes dates predictions p d q :
  length (Machine.arimaBacktestEntries closes dates predictions p d q)
  = length predictions.
Proof.
  unfold Machine.arimaBacktestEntries. by rewrite length_map, length_seq.
Qed.

Lemma machine_arimaPredict_returns (tz : Z)
    (data : list Machine.StockDataPoint) (p d q forecastDays : nat) :
  (p `max` q + d + 1 ≤ length data)%nat →
  ∃ fc,
    Machine.arimaPredict (Machine.fixedZone tz) data p d q forecastDays
    = Returns
        (Machine.arimaBacktestEntries (map Machine.close data)
           (map Machine.sdp_date data)
           (Machine.arimaPredictions data p d q) p d q
         ++ fc)
    ∧ length fc = forecastDays
    ∧ Forall (λ r, Machine.actual r = None) fc.
Proof.
  intros Hlen.
  destruct (machine_last_date data) as [dl Hdl];
    [destruct data; simpl in *; [lia | done]|].
  unfold Machine.arimaPredict.
  destruct (Nat.ltb_spec (length data) (p `max` q + d + 1)); [lia|].
  rewrite machine_arimaBacktest_uniform.
  fold (Machine.arimaPredictions data p d q).
  pose proof (machine_arimaUndiff_results (map Machine.close data)
                (map Machine.sdp_date data)
                (Machine.arimaPredictions data p d q) p d q) as Hres.
  destruct (Machine.arimaUndiff _ _ _ _ _ _) as [undiff results].
  simpl in Hres. subst results. rewrite Hdl.
  set (entry := λ (i : nat) (v : Machine.number),
         {| Machine.pr_date := nthBusinessDayAfter (dayShift tz) dl (i + 1);
            Machine.actual := None;
            Machine.predicted := v;
            Machine.modelName := ARIMA |}).
  match goal with
  | |- context [for_each _ ?body (?st0, ?results0)] =>
      assert (Hbody : ∀ i s rs, ∃ s1 v,
                body i (s, rs) = Returns (s1, rs ++ [entry i v]));
        [|destruct (machine_for_each_emitting entry body Hbody forecastDays
                      0%nat st0 results0) as (st' & preds & Hl & Heq)]
  end.
  { intros i [[lastPredictions lastErrors] undiffPredictions] rs.
    rewrite machine_getNextBusinessDay_fixedZone. cbn [mbind outcome_bind].
    eexists _, _. reflexivity. }
  rewrite Heq. cbn [mbind outcome_bind snd].
  eexists. split; [reflexivity|]. split; [by rewrite length_imap|].
  by apply Forall_imap_intro.
Qed.

(** On any host: what [arimaPredict] returns is its backtest followed by
    entries without an actual value. *)
Lemma machine_arimaPredict_inv (zone : Machine.Zone)
    (data : list Machine.StockDataPoint) (p d q forecastDays : nat)
    (rs : list Machine.PredictionResult) :
  Machine.arimaPredict zone data p d q forecastDays = Returns rs →
  Machine.growsByForecasts
    (Machine.arimaBacktestEntries (map Machine.close data)
       (map Machine.sdp_date data) (Machine.arimaPredictions data p d q)
       p d q) rs.
Proof.
  intros H. unfold Machine.arimaPredict in H.
  destruct (length data <? p `max` q + d + 1)%nat; [done|].
  rewrite machine_arimaBacktest_uniform in H.
  fold (Machine.arimaPredictions data p d q) in H.
  pose proof (machine_arimaUndiff_results (map Machine.close data)
                (map Machine.sdp_date data)
                (Machine.arimaPredictions data p d q) p d q) as Hres.
  destruct (Machine.arimaUndiff _ _ _ _ _ _) as [undiff results0].
  cbn [snd] in Hres. subst results0.
  match type of H with
  | context [for_each ?l ?body ?st0] =>
      destruct (for_each l body st0) as [[[[lp le] up] results]| |] eqn:E;
        cbn [mbind outcome_bind snd] in H; [|done..];
        injection H as <-;
        apply (machine_for_each_invariant
                 (λ st, Machine.growsByForecasts
                          (Machine.arimaBacktestEntries
                             (map Machine.close data)
                             (map Machine.sdp_date data)
                             (Machine.arimaPredictions data p d q) p d q)
                          st.2) body)
          with (s' := (lp, le, up, results)) in E; [exact E| |]
  end.
  - intros i [[[lp0 le0] up0] rs] s' Hrs Hb. cbn [snd] in Hrs.
    destruct (Machine.getNextBusinessDay zone _ _);
      cbn [mbind outcome_bind] in Hb; [|done..].
    injection Hb as <-. cbn [snd]. by apply machine_grows_push.
  - apply machine_grows_refl.
Qed.

Lemma machine_difference_firstDifferences (l : list Machine.number) :
  Machine.difference l = Machine.firstDifferences l.
Proof.
  unfold Machine.difference, Machine.firstDifferences, Machine.at_.
  apply list_eq. intros k.
  change (map ?f ?l') with (f <$> l').
  rewrite list_lookup_imap, lookup_drop, list_lookup_fmap.
  destruct (decide (k < length l - 1)%nat) as [Hk|Hk].
  - rewrite lookup_seq_lt by done.
    rewrite (nth_lookup_Some l (1 + k) S754_nan) by lia.
    simpl. do 3 f_equal. lia.
  - rewrite (lookup_ge_None_2 l (1 + k)) by lia.
    rewrite (lookup_ge_None_2 (seq 0 (length l - 1))) by (rewrite length_seq; lia).
    done.
Qed.

(** C7 (as amended), on the machine. With [d = 1] and a series that meets
    the ARIMA minimum, on every host: the backtest entry number [i] of
    what [arimaPredict] returns belongs to the original index
    [t = max p q + 1 + i]: its actual is [close[t]] and its predicted is
    [pred_i + close[t-1]] rounded to two decimals, where [pred_i] is the
    sum of the [p] differenced values just before position [max p q + i],
    each under the weight [1/p], plus the sum of the last [q] residuals
    computed so far (fewer when fewer exist), each under the weight
    [1/q], and the residual [diff[max p q + i] - pred_i] is appended to
    the residual list; the code's backtest loop with the uniform weights
    yields exactly these residuals and predictions. The sums are the ones
    the doubles give, term by term from the most recent back. On a host
    at a fixed offset from UTC the call returns. *)
Theorem C7_arima_backtest (zone : Machine.Zone)
    (data : list Machine.StockDataPoint) (p q forecastDays i : nat) :
  (p `max` q + 1 + 1 ≤ length data)%nat →
  (i < length data - (p `max` q + 1))%nat →
  let closes := map Machine.close data in
  let diffSeries := Machine.firstDifferences closes in
  let t := (p `max` q + 1 + i)%nat in
  let pred_i :=
    Machine.arimaPrediction p q diffSeries
      (Machine.arimaResiduals p q diffSeries i) (p `max` q + i) in
  (∀ rs,
     Machine.arimaPredict zone data p 1 q forecastDays = Returns rs →
     rs !! i
     = Some {| Machine.pr_date := nth t (map Machine.sdp_date data) 0%Z;
               Machine.actual := Some (Machine.at_ closes t);
               Machine.predicted :=
                 Machine.toFixed2 (pred_i + Machine.at_ closes (t - 1))%D;
               Machine.modelName := ARIMA |})
  ∧ (∀ tz, ∃ rs,
       Machine.arimaPredict (Machine.fixedZone tz) data p 1 q forecastDays
       = Returns rs)
  ∧ pred_i
    = (Machine.weightedSum (Machine.one / Machine.ofNat p)
         (rev (slice (p `max` q + i - p) (p `max` q + i) diffSeries))
       + Machine.weightedSum (Machine.one / Machine.ofNat q)
           (map Machine.or_zero
              (rev (lastN q (Machine.arimaResiduals p q diffSeries i)))))%D
  ∧ Machine.arimaResiduals p q diffSeries (S i)
    = Machine.arimaResiduals p q diffSeries i
      ++ [(Machine.at_ diffSeries (p `max` q + i) - pred_i)%D]
  ∧ Machine.arimaBacktest (replicate p (Machine.one / Machine.ofNat p)%D)
      (replicate q (Machine.one / Machine.ofNat q)%D) diffSeries p q
    = (Machine.arimaResiduals p q diffSeries (length diffSeries - p `max` q),
       map (λ j, Machine.arimaPrediction p q diffSeries
                   (Machine.arimaResiduals p q diffSeries j) (p `max` q + j))
           (seq 0 (length diffSeries - p `max` q))).
Proof.
  intros Hlen Hi closes diffSeries t pred_i.
  split; [|split; [|split; [reflexivity | split;
    [reflexivity | apply machine_arimaBacktest_uniform]]]].
  2:{ intros tz.
      destruct (machine_arimaPredict_returns tz data p 1 q forecastDays Hlen)
        as (fc & -> & _ & _).
      by eexists. }
  intros rs H. apply machine_arimaPredict_inv in H as (fc & -> & _).
  assert (Hip : (i < length (Machine.arimaPredictions data p 1 q))%nat)
    by (rewrite machine_arimaPredictions_length; lia).
  rewrite lookup_app_l by (by rewrite machine_arimaBacktestEntries_length).
  unfold Machine.arimaBacktestEntries.
  change (map ?f ?l) with (f <$> l).
  rewrite list_lookup_fmap, lookup_seq_lt by done.
  cbn [fmap option_fmap option_map seq fold_left].
  replace (0 + i + p `max` q + 1)%nat with t by (unfold t; lia).
  replace (t - 0 - 1)%nat with (t - 1)%nat by lia.
  do 3 f_equal.
  unfold Machine.arimaPredictions. cbn [Nat.iter nat_rect].
  rewrite machine_difference_firstDifferences. fold closes. fold diffSeries.
  unfold Machine.at_ at 1. rewrite nth_lookup.
  change (map ?f ?l) with (f <$> l).
  rewrite list_lookup_fmap, lookup_seq_lt; [done|].
  unfold diffSeries, Machine.firstDifferences, closes.
  rewrite length_map, length_seq, length_map. lia.
Qed.

(** C7, witness: the closes 1.84, 2.17, 1.69, 1.25 with [p = 2], [q = 1];
    the one backtest entry predicts 1.61. *)
Lemma C7_witness_four_closes :
  ∃ rs,
    Machine.arimaPredict (Machine.fixedZone 0)
      [Machine.samplePoint 19723 184; Machine.samplePoint 19724 217;
       Machine.samplePoint 19725 169; Machine.samplePoint 19726 125]
      2 1 1 7
    = Returns rs
    ∧ (λ r, (Machine.pr_date r, Machine.actual r, Machine.predicted r))
        <$> rs !! 0%nat
      = Some (19726%Z, Some (Machine.ofRatio 125 100), Machine.ofRatio 161 100).
Proof.
  assert (Hlen : (2 `max` 1 + 1 + 1 ≤ length
    [Machine.samplePoint 19723 184; Machine.samplePoint 19724 217;
     Machine.samplePoint 19725 169; Machine.samplePoint 19726 125])%nat)
    by (simpl; lia).
  assert (Hi : (0 < length
    [Machine.samplePoint 19723 184; Machine.samplePoint 19724 217;
     Machine.samplePoint 19725 169; Machine.samplePoint 19726 125]
    - (2 `max` 1 + 1))%nat) by (simpl; lia).
  destruct (C7_arima_backtest (Machine.fixedZone 0) _ 2 1 7 0 Hlen Hi)
    as (Hany & Hret & _).
  destruct (Hret 0%Z) as [rs Hrs]. exists rs. split; [exact Hrs|].
  rewrite (Hany rs Hrs). vm_compute. reflexivity.
Defined.

(** C7, counterexample: the closes 8.12, 1.77, 2.53, 8.59, 5.59, 2.22
    with [p = 3], [d = 1], [q = 2]. The backtest entry for the last close
    predicts 5.28, the sum of the weighted terms as the doubles give it.
    The weight times the sum, as the claim words it, rounds to 5.29, in
    doubles and in exact arithmetic (where it is 5.285). *)
Lemma C7_counterexample_weight_times_sum :
  let data :=
    [Machine.samplePoint 19723 812; Machine.samplePoint 19724 177;
     Machine.samplePoint 19725 253; Machine.samplePoint 19726 859;
     Machine.samplePoint 19727 559; Machine.samplePoint 19730 222] in
  let closes := map Machine.close data in
  let diffSeries := Machine.firstDifferences closes in
  let exactCloses :=
    map Q2Qc [812 # 100; 177 # 100; 253 # 100; 859 # 100; 559 # 100;
              222 # 100]%Q in
  let exactDiffSeries := firstDifferences exactCloses in
  (∃ rs r,
     Machine.arimaPredict (Machine.fixedZone 0) data 3 1 2 0 = Returns rs
     ∧ rs !! 1%nat = Some r
     ∧ Machine.actual r = Some (Machine.ofRatio 222 100)
     ∧ Machine.predicted r = Machine.ofRatio 528 100)
  ∧ Machine.toFixed2
      (Machine.statedPrediction 3 2 diffSeries
         (Machine.statedResiduals 3 2 diffSeries 1) (3 `max` 2 + 1)
       + Machine.at_ closes 4)%D
    = Machine.ofRatio 529 100
  ∧ Machine.eqb (Machine.ofRatio 528 100) (Machine.ofRatio 529 100) = false
  ∧ (arimaPrediction 3 2 exactDiffSeries
       (arimaResiduals 3 2 exactDiffSeries 1) (3 `max` 2 + 1)
     + nth 4 exactCloses 0)%Qc
    = Q2Qc (5285 # 1000)
  ∧ toFixed2 (Q2Qc (5285 # 1000)) = Q2Qc (529 # 100).
Proof.
  cbv zeta. split; [|split; [|split; [|split]]].
  - eexists _, _. split; [vm_compute; reflexivity|].
    split; [reflexivity|]. split; vm_compute; reflexivity.
  - vm_compute. reflexivity.
  - vm_compute. reflexivity.
  - apply Qc_is_canon. vm_compute. reflexivity.
  - apply Qc_is_canon. vm_compute. reflexivity.
Qed.

(** ** Mean absolute error (claim C9) *)

Lemma machine_absoluteErrors_validPairs
    (predictions : list Machine.PredictionResult) :
  map (λ p, Machine.Math_abs
              (Machine.as_number (Machine.actual p) - Machine.predicted p)%D)
      (filter (λ p, is_Some (Machine.actual p)) predictions)
  = Machine.absoluteErrors predictions.
Proof.
  unfold Machine.absoluteErrors.
  induction predictions as [|r l IH]; [done|].
  destruct (Machine.actual r) as [a|] eqn:Ha.
  - rewrite filter_cons_True by (rewrite Ha; eauto).
    simpl. rewrite Ha. simpl. by rewrite IH.
  - rewrite filter_cons_False by (rewrite Ha; by intros [x Hx]).
    simpl. rewrite Ha. simpl. done.
Qed.

Lemma machine_fold_left_map {A} (f : A → Machine.number) (l : list A)
    (z : Machine.number) :
  fold_left (λ acc x, (acc + f x)%D) l z = fold_left Machine.add (map f l) z.
Proof. revert z. induction l as [|x l IH]; intros z; simpl; [done|]. apply IH. Qed.

(** [calculateMAE] in closed form. *)
Lemma machine_calculateMAE_mean (predictions : list Machine.PredictionResult) :
  Machine.calculateMAE predictions
  = match Machine.absoluteErrors predictions with
    | [] => Machine.zero
    | errors => Machine.toFixed2 (Machine.mean errors)
    end.
Proof.
  unfold Machine.calculateMAE, Machine.mean, Machine.sum_reduce.
  rewrite (machine_fold_left_map
    (λ p, Machine.Math_abs
            (Machine.as_number (Machine.actual p) - Machine.predicted p)%D)).
  rewrite <- (length_map
    (λ p, Machine.Math_abs
            (Machine.as_number (Machine.actual p) - Machine.predicted p)%D)
    (filter (λ p, is_Some (Machine.actual p)) predictions)).
  rewrite machine_absoluteErrors_validPairs.
  by destruct (Machine.absoluteErrors predictions).
Qed.

Lemma machine_absoluteErrors_cons (r : Machine.PredictionResult)
    (l : list Machine.PredictionResult) :
  Machine.absoluteErrors (r :: l)
  = match Machine.actual r with
    | Some a =>
        Machine.Math_abs (a - Machine.predicted r)%D :: Machine.absoluteErrors l
    | None => Machine.absoluteErrors l
    end.
Proof. unfold Machine.absoluteErrors. simpl. by destruct (Machine.actual r). Qed.

Lemma machine_absoluteErrors_backtestPortion
    (predictions : list Machine.PredictionResult) :
  Machine.absoluteErrors (Machine.backtestPortion predictions)
  = Machine.absoluteErrors predictions.
Proof.
  induction predictions as [|r l IH]; [done|].
  unfold Machine.backtestPortion in *.
  rewrite (machine_absoluteErrors_cons r l).
  destruct (Machine.actual r) as [a|] eqn:Ha.
  - rewrite filter_cons_True by (rewrite Ha; eauto).
    by rewrite machine_absoluteErrors_cons, Ha, IH.
  - rewrite filter_cons_False by (rewrite Ha; by intros [x Hx]).
    done.
Qed.

Lemma machine_calculateMAE_backtestPortion
    (predictions : list Machine.PredictionResult) :
  Machine.calculateMAE (Machine.backtestPortion predictions)
  = Machine.calculateMAE predictions.
Proof.
  by rewrite !machine_calculateMAE_mean, machine_absoluteErrors_backtestPortion.
Qed.

(** *** The sign of a result *)

Lemma machine_round_sign (m e : Z) (l : location) :
  Machine.signClear (binary_round_aux Machine.prec Machine.emax false m e l)
  = true.
Proof.
  unfold binary_round_aux.
  destruct (shr_fexp _ _ _ _ _) as [mrs e'].
  destruct (shr_fexp _ _ _ _ _) as [mrs' e''].
  destruct (shr_m mrs'); [done | | done].
  by destruct (Z.leb _ _).
Qed.

Lemma machine_normalize_sign (m e : Z) :
  (0 ≤ m)%Z →
  Machine.signClear (binary_normalize Machine.prec Machine.emax m e false)
  = true.
Proof.
  intros Hm. destruct m as [|m|m]; [done | | lia].
  unfold binary_normalize, binary_round.
  destruct (shl_align _ _ _) as [mz ez]. apply machine_round_sign.
Qed.

Lemma machine_signClear_notNegative (x : Machine.number) :
  Machine.signClear x = true → Machine.notNegative x = true.
Proof. by destruct x. Qed.

Lemma machine_ofNat_sign (n : nat) : Machine.signClear (Machine.ofNat n) = true.
Proof. apply machine_normalize_sign. lia. Qed.

Lemma machine_abs_sign (x : Machine.number) :
  Machine.signClear (Machine.Math_abs x) = true.
Proof. by destruct x. Qed.

Lemma machine_add_sign (x y : Machine.number) :
  Machine.notNegative x = true → Machine.notNegative y = true →
  Machine.notNegative (x + y)%D = true.
Proof.
  destruct x as [sx|sx| |sx mx ex], y as [sy|sy| |sy my ey];
    try done; simpl; intros Hx Hy;
    try (apply negb_true_iff in Hx); try (apply negb_true_iff in Hy);
    subst; try done.
  - by destruct sx, sy.
  - apply machine_signClear_notNegative.
    unfold Machine.add, SFadd. apply machine_normalize_sign.
    cbn [cond_Zopp]. lia.
Qed.

Lemma machine_div_sign (x y : Machine.number) :
  Machine.notNegative x = true → Machine.signClear y = true →
  Machine.notNegative (x / y)%D = true.
Proof.
  destruct x as [sx|sx| |sx mx ex], y as [sy|sy| |sy my ey];
    try done; simpl; intros Hx Hy;
    try (apply negb_true_iff in Hx); try (apply negb_true_iff in Hy);
    subst; try done.
  apply machine_signClear_notNegative.
  unfold Machine.div, SFdiv.
  destruct (SFdiv_core_binary _ _ _ _ _ _) as [[mz ez] lz].
  apply machine_round_sign.
Qed.

Lemma machine_toFixed2_sign (x : Machine.number) :
  Machine.notNegative x = true →
  Machine.notNegative (Machine.toFixed2 x) = true.
Proof.
  destruct x as [sx|sx| |sx mx ex]; try done. simpl. intros Hx.
  apply negb_true_iff in Hx. subst.
  destruct (Machine.atLeast1e21 mx ex); [done|].
  destruct (Machine.centsOf mx ex); try done.
  apply machine_signClear_notNegative.
  unfold SFdiv.
  destruct (SFdiv_core_binary _ _ _ _ _ _) as [[mz ez] lz].
  apply machine_round_sign.
Qed.

Lemma machine_sum_sign (l : list Machine.number) (z : Machine.number) :
  Machine.notNegative z = true →
  Forall (λ x, Machine.notNegative x = true) l →
  Machine.notNegative (fold_left Machine.add l z) = true.
Proof.
  intros Hz Hl. revert z Hz.
  induction Hl as [|x l Hx _ IH]; intros z Hz; simpl; [done|].
  apply IH. by apply machine_add_sign.
Qed.

Lemma machine_notNegative_cases (x : Machine.number) :
  Machine.notNegative x = true →
  Machine.isNaN x = true ∨ Machine.nonNegative x = true.
Proof.
  destruct x as [sx|sx| |sx mx ex]; simpl; intros Hx;
    try (apply negb_true_iff in Hx); subst; auto.
Qed.

Lemma machine_absoluteErrors_sign
    (predictions : list Machine.PredictionResult) :
  Forall (λ x, Machine.notNegative x = true)
    (Machine.absoluteErrors predictions).
Proof.
  induction predictions as [|r l IH]; [constructor|].
  rewrite machine_absoluteErrors_cons.
  destruct (Machine.actual r); [|done].
  constructor; [|done].
  apply machine_signClear_notNegative, machine_abs_sign.
Qed.

Lemma machine_calculateMAE_sign (predictions : list Machine.PredictionResult) :
  Machine.notNegative (Machine.calculateMAE predictions) = true.
Proof.
  rewrite machine_calculateMAE_mean.
  pose proof (machine_absoluteErrors_sign predictions) as H.
  destruct (Machine.absoluteErrors predictions) as [|e errors]; [done|].
  apply machine_toFixed2_sign, machine_div_sign;
    [by apply machine_sum_sign | apply machine_ofNat_sign].
Qed.

(** *** Scenario A *)

Lemma machine_constant_closes (data : list Machine.StockDataPoint)
    (c : Machine.number) :
  Forall (λ x, Machine.close x = c) data →
  map Machine.close data = replicate (length data) c.
Proof. induction 1 as [|x l Hx _ IH]; simpl; [done|]. by rewrite Hx, IH. Qed.

Lemma machine_scenario_A_backtest (data : list Machine.StockDataPoint) :
  length data = 10%nat →
  Forall (λ x, Machine.close x = Machine.ofZ 100) data →
  Forall (λ r, Machine.actual r = Some (Machine.ofZ 100)
               ∧ Machine.predicted r = Machine.ofZ 100)
    (Machine.maBacktest data 5).
Proof.
  intros Hlen Hc. apply Forall_map_seq. intros i Hi. simpl.
  rewrite (machine_constant_closes data _ Hc), Hlen.
  unfold Machine.at_. rewrite nth_replicate_lt by lia.
  rewrite slice_replicate by lia.
  split; [done|]. vm_compute. reflexivity.
Qed.

Lemma machine_calculateMAE_scenario_A (rs : list Machine.PredictionResult) :
  length rs = 5%nat →
  Forall (λ r, Machine.actual r = Some (Machine.ofZ 100)
               ∧ Machine.predicted r = Machine.ofZ 100) rs →
  Machine.calculateMAE rs = Machine.zero.
Proof.
  intros Hlen Hrs. rewrite machine_calculateMAE_mean.
  assert (He : Machine.absoluteErrors rs
               = replicate (length rs) Machine.zero).
  { clear Hlen. induction Hrs as [|r l [Ha Hp] _ IH]; [done|].
    rewrite machine_absoluteErrors_cons, Ha, Hp, IH. simpl. f_equal. }
  rewrite He, Hlen. vm_compute. reflexivity.
Qed.

(** C9 (as amended), on the machine. [calculateMAE] is the mean of
    [|actual - predicted|] over the entries that carry an actual value,
    rounded to two decimals; it is 0 when no entry carries one; and its
    result is not below 0 unless it is NaN. For ten closes of 100.00 the
    moving average with [windowSize = 5], on every host, backtests five
    points, predicts 100.00 at each, and its error over them is 0.00; on a
    host at a fixed offset from UTC the call returns. *)
Theorem C9_mean_absolute_error (predictions : list Machine.PredictionResult) :
  Machine.calculateMAE predictions
  = match Machine.absoluteErrors predictions with
    | [] => Machine.zero
    | errors => Machine.toFixed2 (Machine.mean errors)
    end
  ∧ length (Machine.absoluteErrors predictions)
    = length (Machine.backtestPortion predictions)
  ∧ (Machine.backtestPortion predictions = [] →
     Machine.calculateMAE predictions = Machine.zero)
  ∧ (Machine.isNaN (Machine.calculateMAE predictions) = true
     ∨ Machine.nonNegative (Machine.calculateMAE predictions) = true)
  ∧ (∀ (data : list Machine.StockDataPoint) (forecastDays : nat),
       length data = 10%nat →
       Forall (λ x, Machine.close x = Machine.ofZ 100) data →
       (∀ zone rs,
          Machine.movingAveragePredict zone data 5 forecastDays = Returns rs →
          length (Machine.backtestPortion rs) = 5%nat
          ∧ Forall (λ r, Machine.predicted r = Machine.ofZ 100)
              (Machine.backtestPortion rs)
          ∧ Machine.calculateMAE (Machine.backtestPortion rs) = Machine.zero
          ∧ Machine.calculateMAE rs = Machine.zero)
       ∧ ∀ tz, ∃ rs,
           Machine.movingAveragePredict (Machine.fixedZone tz) data 5
             forecastDays = Returns rs).
Proof.
  split; [apply machine_calculateMAE_mean|]. split.
  { rewrite <- machine_absoluteErrors_validPairs. by rewrite length_map. }
  split.
  { intros H. rewrite machine_calculateMAE_mean.
    by rewrite <- machine_absoluteErrors_backtestPortion, H. }
  split; [apply machine_notNegative_cases, machine_calculateMAE_sign|].
  intros data forecastDays Hlen Hc. split.
  2:{ intros tz.
      destruct (machine_last_date data) as [dl Hdl];
        [destruct data; simpl in *; [lia | done]|].
      eexists.
      apply (machine_movingAveragePredict_returns tz data 5 _ dl); [lia|done]. }
  intros zone rs H.
  apply machine_movingAveragePredict_inv in H as (fc & -> & Hnone & _).
  destruct (machine_portions_of_result _ _ (machine_maBacktest_actual data 5)
              Hnone) as [Hbt _].
  rewrite machine_calculateMAE_backtestPortion in *.
  rewrite <- (machine_calculateMAE_backtestPortion (_ ++ _)), Hbt.
  pose proof (machine_scenario_A_backtest data Hlen Hc) as HA.
  assert (Hfive : length (Machine.maBacktest data 5) = 5%nat).
  { unfold Machine.maBacktest. rewrite length_map, length_seq. lia. }
  split; [done|].
  split; [eapply Forall_impl; [exact HA | by intros r [_ ?]]|].
  assert (Machine.calculateMAE (Machine.maBacktest data 5) = Machine.zero)
    as Hz by (by apply machine_calculateMAE_scenario_A).
  done.
Qed.

(** C9, counterexample. With [windowSize = 0] every backtest entry of
    [movingAveragePredict] predicts the mean of an empty window, NaN; the
    mean absolute error of that result is NaN, which is not [>= 0]. *)
Lemma C9_counterexample_not_a_number :
  ∃ rs,
    Machine.movingAveragePredict (Machine.fixedZone 0)
      [Machine.samplePoint 19723 1000; Machine.samplePoint 19724 2000] 0 1
    = Returns rs
    ∧ Machine.predicted <$> Machine.backtestPortion rs = [S754_nan; S754_nan]
    ∧ Machine.calculateMAE rs = S754_nan
    ∧ Machine.nonNegative (Machine.calculateMAE rs) = false.
Proof.
  eexists. split; [vm_compute; reflexivity|].
  split; [vm_compute; reflexivity|]. split; vm_compute; reflexivity.
Qed.

(** C9, witness: Scenario A on ten consecutive days. *)
Lemma C9_witness_scenario_A :
  ∃ rs,
    Machine.movingAveragePredict (Machine.fixedZone 0)
      [Machine.samplePoint 19723 10000; Machine.samplePoint 19724 10000;
       Machine.samplePoint 19725 10000; Machine.samplePoint 19726 10000;
       Machine.samplePoint 19727 10000; Machine.samplePoint 19728 10000;
       Machine.samplePoint 19729 10000; Machine.samplePoint 19730 10000;
       Machine.samplePoint 19731 10000; Machine.samplePoint 19732 10000] 5 7
    = Returns rs
    ∧ length (Machine.backtestPortion rs) = 5%nat
    ∧ Forall (λ r, Machine.predicted r = Machine.ofZ 100)
        (Machine.backtestPortion rs)
    ∧ Machine.calculateMAE (Machine.backtestPortion rs) = Machine.zero
    ∧ Machine.calculateMAE rs = Machine.zero.
Proof.
  destruct (C9_mean_absolute_error []) as (_ & _ & _ & _ & H).
  destruct (H
    [Machine.samplePoint 19723 10000; Machine.samplePoint 19724 10000;
     Machine.samplePoint 19725 10000; Machine.samplePoint 19726 10000;
     Machine.samplePoint 19727 10000; Machine.samplePoint 19728 10000;
     Machine.samplePoint 19729 10000; Machine.samplePoint 19730 10000;
     Machine.samplePoint 19731 10000; Machine.samplePoint 19732 10000] 7)
    as [Hany Hret]; [reflexivity| |].
  { repeat (apply Forall_cons_2; [vm_compute; reflexivity|]).
    apply Forall_nil_2. }
  destruct (Hret 0%Z) as [rs Hrs]. exists rs. split; [exact Hrs|].
  by apply (Hany (Machine.fixedZone 0)).
Defined.

(** ** The model selector (claim C1) *)

(** The order of [<] on the numbers that are not NaN. *)
Ltac machine_order :=
  unfold Machine.ltb, Machine.leb, Machine.eqb, SFltb, SFleb, SFeqb,
    Machine.before;
  match goal with
  | |- ∀ x y : Machine.number, _ =>
      intros [sx|sx| |sx mx ex] [sy|sy| |sy my ey]; try done; intros _ _;
      try destruct sx; try destruct sy; cbn;
      try (destruct (Z.compare_spec ex ey);
           [subst;
            change (PosDef.Pos.compare_cont Eq mx my) with (Pos.compare mx my);
            destruct (Pos.compare_spec mx my); cbn | |]);
      split; intro; first [done | lia | exfalso; lia]
  end.

Lemma machine_ltb_spec :
  ∀ x y : Machine.number,
    Machine.isNaN x = false → Machine.isNaN y = false →
    Machine.ltb x y = true ↔ Machine.before (Machine.rank x) (Machine.rank y).
Proof. machine_order. Qed.

Lemma machine_leb_spec :
  ∀ x y : Machine.number,
    Machine.isNaN x = false → Machine.isNaN y = false →
    Machine.leb x y = true
    ↔ ¬ Machine.before (Machine.rank y) (Machine.rank x).
Proof. machine_order. Qed.

Lemma machine_eqb_spec :
  ∀ x y : Machine.number,
    Machine.isNaN x = false → Machine.isNaN y = false →
    Machine.eqb x y = true
    ↔ ¬ Machine.before (Machine.rank x) (Machine.rank y)
      ∧ ¬ Machine.before (Machine.rank y) (Machine.rank x).
Proof. machine_order. Qed.

Lemma machine_ltb_irrefl (x : Machine.number) : Machine.ltb x x = false.
Proof.
  unfold Machine.ltb, SFltb.
  destruct x as [sx|sx| |sx mx ex]; try destruct sx; try done; cbn;
    rewrite Z.compare_refl;
    change (PosDef.Pos.compare_cont Eq mx mx) with (Pos.compare mx mx);
    by rewrite Pos.compare_refl.
Qed.

Lemma machine_determineBestModel_metrics
    (predictions : ForecastingModel → list Machine.PredictionResult) :
  Machine.metrics (Machine.determineBestModel predictions)
  = [ (MOVING_AVERAGE,
       {| Machine.mae := Machine.calculateMAE (predictions MOVING_AVERAGE);
          Machine.mpe := Machine.calculateMPE (predictions MOVING_AVERAGE) |});
      (EXPONENTIAL_SMOOTHING,
       {| Machine.mae :=
            Machine.calculateMAE (predictions EXPONENTIAL_SMOOTHING);
          Machine.mpe :=
            Machine.calculateMPE (predictions EXPONENTIAL_SMOOTHING) |});
      (ARIMA,
       {| Machine.mae := Machine.calculateMAE (predictions ARIMA);
          Machine.mpe := Machine.calculateMPE (predictions ARIMA) |}) ].
Proof.
  unfold Machine.determineBestModel. cbn [fold_left].
  repeat match goal with
         | |- context [if ?b then _ else _] => destruct b
         end; reflexivity.
Qed.

Lemma machine_determineBestModel_bestModel
    (predictions : ForecastingModel → list Machine.PredictionResult) :
  Machine.bestModel (Machine.determineBestModel predictions)
  = Machine.firstMinimal (Machine.calculateMAE (predictions MOVING_AVERAGE))
      (Machine.calculateMAE (predictions EXPONENTIAL_SMOOTHING))
      (Machine.calculateMAE (predictions ARIMA)).
Proof.
  unfold Machine.determineBestModel, Machine.firstMinimal. cbn [fold_left].
  change (from_option Machine.mae S754_nan
            (Machine.metricsOf _ MOVING_AVERAGE))
    with (Machine.calculateMAE (predictions MOVING_AVERAGE)).
  rewrite machine_ltb_irrefl. simpl.
  destruct (Machine.ltb (Machine.calculateMAE (predictions EXPONENTIAL_SMOOTHING))
              (Machine.calculateMAE (predictions MOVING_AVERAGE)));
    simpl;
    match goal with
    | |- context [if ?b then _ else _] => by destruct b
    end.
Qed.

Lemma machine_firstMinimal_minimal (a b c : Machine.number)
    (predictionsMAE : ForecastingModel → Machine.number) :
  predictionsMAE MOVING_AVERAGE = a →
  predictionsMAE EXPONENTIAL_SMOOTHING = b →
  predictionsMAE ARIMA = c →
  Machine.isNaN a = false → Machine.isNaN b = false →
  Machine.isNaN c = false →
  (∀ model,
     Machine.leb (predictionsMAE (Machine.firstMinimal a b c))
       (predictionsMAE model) = true)
  ∧ (∀ model,
       Machine.eqb (predictionsMAE model)
         (predictionsMAE (Machine.firstMinimal a b c)) = true →
       (priority (Machine.firstMinimal a b c) ≤ priority model)%nat).
Proof.
  intros Ha Hb Hc Na Nb Nc. unfold Machine.firstMinimal.
  pose proof (machine_ltb_spec b a Nb Na) as Hba.
  pose proof (machine_ltb_spec c b Nc Nb) as Hcb.
  pose proof (machine_ltb_spec c a Nc Na) as Hca.
  destruct (Machine.ltb b a); destruct (Machine.ltb c b);
    destruct (Machine.ltb c a);
    (split; intros model; destruct model; rewrite ?Ha, ?Hb, ?Hc;
     rewrite ?machine_leb_spec, ?machine_eqb_spec by done;
     unfold Machine.before in *; simpl priority;
     intuition (try discriminate; lia)).
Qed.

(** C1 (as amended), on the machine. When none of the three mean absolute
    errors is NaN, the model [determineBestModel] returns has an error
    not above that of any of the three models, and among the models with
    that minimal error it is the first in the priority order
    MOVING_AVERAGE, EXPONENTIAL_SMOOTHING, ARIMA. Always, the returned
    metrics record holds the pair (mae, mpe) of exactly these three
    models. *)
Theorem C1_selector_consistency
    (predictions : ForecastingModel → list Machine.PredictionResult) :
  let recommendation := Machine.determineBestModel predictions in
  let best := Machine.bestModel recommendation in
  ((∀ model,
      Machine.isNaN (Machine.calculateMAE (predictions model)) = false) →
   (∀ model,
      Machine.leb (Machine.calculateMAE (predictions best))
        (Machine.calculateMAE (predictions model)) = true)
   ∧ (∀ model,
        Machine.eqb (Machine.calculateMAE (predictions model))
          (Machine.calculateMAE (predictions best)) = true →
        (priority best ≤ priority model)%nat))
  ∧ map fst (Machine.metrics recommendation)
    = [MOVING_AVERAGE; EXPONENTIAL_SMOOTHING; ARIMA]
  ∧ (∀ model,
       Machine.metricsOf (Machine.metrics recommendation) model
       = Some {| Machine.mae := Machine.calculateMAE (predictions model);
                 Machine.mpe := Machine.calculateMPE (predictions model) |}).
Proof.
  intros recommendation best. unfold best, recommendation.
  rewrite machine_determineBestModel_bestModel,
    machine_determineBestModel_metrics.
  split; [|split; [reflexivity | by intros []]].
  intros Hnum.
  exact (machine_firstMinimal_minimal _ _ _
           (λ m, Machine.calculateMAE (predictions m))
           eq_refl eq_refl eq_refl
           (Hnum MOVING_AVERAGE) (Hnum EXPONENTIAL_SMOOTHING) (Hnum ARIMA)).
Qed.

(** C1, counterexample. With [windowSize = 0] the moving average predicts
    NaN at every backtest entry and its error is NaN; no comparison with
    NaN holds, so the moving average stays the best model although the
    error of exponential smoothing on the same series is 10 and that of
    the empty ARIMA list is 0, and NaN is not [<=] either of them. *)
Lemma C1_counterexample_not_a_number :
  ∃ ma es,
    Machine.movingAveragePredict (Machine.fixedZone 0)
      [Machine.samplePoint 19723 1000; Machine.samplePoint 19724 2000] 0 1
    = Returns ma
    ∧ Machine.exponentialSmoothingPredict (Machine.fixedZone 0)
        [Machine.samplePoint 19723 1000; Machine.samplePoint 19724 2000]
        (Machine.ofRatio 3 10) 1
      = Returns es
    ∧ let predictions model :=
        match model with
        | MOVING_AVERAGE => ma
        | EXPONENTIAL_SMOOTHING => es
        | ARIMA => []
        end in
      Machine.bestModel (Machine.determineBestModel predictions)
      = MOVING_AVERAGE
      ∧ Machine.calculateMAE (predictions MOVING_AVERAGE) = S754_nan
      ∧ Machine.calculateMAE (predictions EXPONENTIAL_SMOOTHING)
        = Machine.ofZ 10
      ∧ Machine.calculateMAE (predictions ARIMA) = Machine.zero
      ∧ Machine.leb (Machine.calculateMAE (predictions MOVING_AVERAGE))
          (Machine.calculateMAE (predictions EXPONENTIAL_SMOOTHING)) = false.
Proof.
  eexists _, _. split; [vm_compute; reflexivity|].
  split; [vm_compute; reflexivity|].
  cbv zeta. repeat split; vm_compute; reflexivity.
Qed.

(** C1, witness: the three forecasters on five closes; exponential
    smoothing has the lowest error. *)
Lemma C1_witness_five_closes :
  ∃ ma es ar,
    Machine.movingAveragePredict (Machine.fixedZone 0)
      [Machine.samplePoint 19723 100; Machine.samplePoint 19724 600;
       Machine.samplePoint 19725 100; Machine.samplePoint 19726 100;
       Machine.samplePoint 19727 200] 2 1
    = Returns ma
    ∧ Machine.exponentialSmoothingPredict (Machine.fixedZone 0)
        [Machine.samplePoint 19723 100; Machine.samplePoint 19724 600;
         Machine.samplePoint 19725 100; Machine.samplePoint 19726 100;
         Machine.samplePoint 19727 200] (Machine.ofRatio 3 10) 1
      = Returns es
    ∧ Machine.arimaPredict (Machine.fixedZone 0)
        [Machine.samplePoint 19723 100; Machine.samplePoint 19724 600;
         Machine.samplePoint 19725 100; Machine.samplePoint 19726 100;
         Machine.samplePoint 19727 200] 1 1 1 1
      = Returns ar
    ∧ let predictions model :=
        match model with
        | MOVING_AVERAGE => ma
        | EXPONENTIAL_SMOOTHING => es
        | ARIMA => ar
        end in
      let best :=
        Machine.bestModel (Machine.determineBestModel predictions) in
      (∀ model,
         Machine.leb (Machine.calculateMAE (predictions best))
           (Machine.calculateMAE (predictions model)) = true)
      ∧ (∀ model,
           Machine.eqb (Machine.calculateMAE (predictions model))
             (Machine.calculateMAE (predictions best)) = true →
           (priority best ≤ priority model)%nat).
Proof.
  eexists _, _, _. split; [vm_compute; reflexivity|].
  split; [vm_compute; reflexivity|]. split; [vm_compute; reflexivity|].
  cbv zeta.
  match goal with
  | |- (∀ model, Machine.leb (Machine.calculateMAE (?f _)) _ = true) ∧ _ =>
      apply (proj1 (C1_selector_consistency f))
  end.
  intros []; vm_compute; reflexivity.
Defined.

(** * Every reported number is rounded to cents *)

Lemma machine_toFixed2_reported (x : Machine.number) :
  Machine.reportedValue (Machine.toFixed2 x).
Proof.
  destruct x as [s|s| |s m e]; simpl.
  - left. right. by exists 0%Z.
  - by right.
  - by right.
  - destruct (Machine.atLeast1e21 m e) eqn:E; [by right|]. left.
    destruct (Machine.centsOf m e) as [|n|n].
    + destruct s; [by left | right; by exists 0%Z].
    + right. destruct s; [by exists (Z.neg n) | by exists (Z.pos n)].
    + destruct s; [by left | right; by exists 0%Z].
Qed.

Lemma machine_zero_reported : Machine.reportedValue Machine.zero.
Proof. left. right. by exists 0%Z. Qed.

(** A loop turn that pushes one entry whose [predicted] went through
    [toFixed(2)]. *)
Ltac machine_pushes_rounded :=
  apply Forall_app; split; [assumption|];
  apply Forall_singleton; apply machine_toFixed2_reported.

(** X4. Every value the module reports is rounded to two decimals, on
    every host: the [predicted] field of every entry that any of the three
    forecasters returns, and both accuracy metrics, are whole numbers of
    cents (the double nearest to [n / 100] for an integer [n], or [-0]),
    unless the value is NaN, an infinity or of magnitude [10^21] or more,
    which [toFixed] leaves as they are. *)
Theorem reported_values_are_whole_cents (zone : Machine.Zone)
    (data : list Machine.StockDataPoint) (windowSize : nat)
    (alpha : Machine.number) (p d q forecastDays : nat)
    (predictions : list Machine.PredictionResult) :
  (∀ rs, Machine.movingAveragePredict zone data windowSize forecastDays
         = Returns rs →
         Forall (λ r, Machine.reportedValue (Machine.predicted r)) rs)
  ∧ (∀ rs, Machine.exponentialSmoothingPredict zone data alpha forecastDays
           = Returns rs →
           Forall (λ r, Machine.reportedValue (Machine.predicted r)) rs)
  ∧ (∀ rs, Machine.arimaPredict zone data p d q forecastDays = Returns rs →
           Forall (λ r, Machine.reportedValue (Machine.predicted r)) rs)
  ∧ Machine.reportedValue (Machine.calculateMAE predictions)
  ∧ Machine.reportedValue (Machine.calculateMPE predictions).
Proof.
  set (Q := λ r, Machine.reportedValue (Machine.predicted r)).
  split; [|split; [|split; [|split]]].
  - intros rs H. unfold Machine.movingAveragePredict in H.
    destruct (length data <? windowSize)%nat; [done|].
    rewrite machine_ma_backtest_loop in H.
    match type of H with
    | context [for_each ?l ?body ?st0] =>
        destruct (for_each l body st0) as [[results W]| |] eqn:E;
          cbn [mbind outcome_bind fst] in H; [|done..];
          injection H as <-;
          apply (machine_for_each_invariant (λ st, Forall Q st.1) body)
            with (s' := (results, W)) in E; [exact E| |]
    end.
    + intros i [rs W0] s' Hrs Hb. cbn [fst] in Hrs.
      destruct (Machine.getNextBusinessDay zone _ _);
        cbn [mbind outcome_bind] in Hb; [|done..].
      injection Hb as <-. cbn [fst]. machine_pushes_rounded.
    + cbn [fst]. apply Forall_map_intro. intros i.
      apply machine_toFixed2_reported.
  - intros rs H. unfold Machine.exponentialSmoothingPredict in H.
    destruct (length data <? 2)%nat; [done|].
    change (Machine.at_ (map Machine.close data) 0)
      with (Machine.esLevel alpha (map Machine.close data) 0) in H.
    rewrite machine_es_backtest_loop in H.
    match type of H with
    | context [for_each ?l ?body ?st0] =>
        destruct (for_each l body st0) as [[[forecast lastActual] results]| |]
          eqn:E;
          cbn [mbind outcome_bind snd] in H; [|done..];
          injection H as <-;
          apply (machine_for_each_invariant (λ st, Forall Q st.2) body)
            with (s' := (forecast, lastActual, results)) in E; [exact E| |]
    end.
    + intros i [[f la] rs] s' Hrs Hb. cbn [snd] in Hrs.
      destruct (Machine.getNextBusinessDay zone _ _);
        cbn [mbind outcome_bind] in Hb; [|done..].
      injection Hb as <-. cbn [snd]. machine_pushes_rounded.
    + cbn [snd app]. apply Forall_map_intro. intros i.
      apply machine_toFixed2_reported.
  - intros rs H. unfold Machine.arimaPredict in H.
    destruct (length data <? p `max` q + d + 1)%nat; [done|].
    destruct (Machine.arimaBacktest _ _ _ _ _) as [errors predictions0].
    pose proof (machine_arimaUndiff_results (map Machine.close data)
                  (map Machine.sdp_date data) predictions0 p d q) as Hres.
    destruct (Machine.arimaUndiff _ _ _ _ _ _) as [undiff results0].
    cbn [snd] in Hres. subst results0.
    match type of H with
    | context [for_each ?l ?body ?st0] =>
        destruct (for_each l body st0) as [[[[lp le] up] results]| |] eqn:E;
          cbn [mbind outcome_bind snd] in H; [|done..];
          injection H as <-;
          apply (machine_for_each_invariant (λ st, Forall Q st.2) body)
            with (s' := (lp, le, up, results)) in E; [exact E| |]
    end.
    + intros i [[[lp0 le0] up0] rs] s' Hrs Hb. cbn [snd] in Hrs.
      destruct (Machine.getNextBusinessDay zone _ _);
        cbn [mbind outcome_bind] in Hb; [|done..].
      injection Hb as <-. cbn [snd]. machine_pushes_rounded.
    + cbn [snd]. apply Forall_map_intro. intros i.
      apply machine_toFixed2_reported.
  - unfold Machine.calculateMAE. cbv zeta.
    destruct (_ =? _)%nat;
      [apply machine_zero_reported | apply machine_toFixed2_reported].
  - unfold Machine.calculateMPE. cbv zeta.
    destruct (_ =? _)%nat;
      [apply machine_zero_reported | apply machine_toFixed2_reported].
Qed.

Lemma reported_values_are_whole_cents_witness :
  ∃ rs,
    Machine.arimaPredict (Machine.fixedZone 0)
      [Machine.samplePoint 19730 1000; Machine.samplePoint 19731 1205;
       Machine.samplePoint 19732 1100; Machine.samplePoint 19733 1234] 1 1 1 3
    = Returns rs
    ∧ Forall (λ r, Machine.reportedValue (Machine.predicted r)) rs.
Proof.
  destruct (reported_values_are_whole_cents (Machine.fixedZone 0)
    [Machine.samplePoint 19730 1000; Machine.samplePoint 19731 1205;
     Machine.samplePoint 19732 1100; Machine.samplePoint 19733 1234]
    2 (Machine.ofRatio 3 10) 1 1 1 3 []) as (_ & _ & H & _).
  eexists. split; [|apply H]; vm_compute; reflexivity.
Defined.

(** * The rounding of doubles at sample inputs

    Three evaluations where the double and the exact rational part ways
    at a half cent. *)

(** The closes 27.57 and 139 with [alpha = 0.5]: the level after the last
    close is 83.285 in exact arithmetic and just below it as a double; the
    backtest entry predicts 27.57 and the four forecast entries all
    predict 83.28. *)
Lemma machine_flat_forecast_sample :
  ∃ rs,
    Machine.exponentialSmoothingPredict (Machine.fixedZone 0)
      [Machine.samplePoint 19730 2757; Machine.samplePoint 19731 13900]
      (Machine.ofRatio 1 2) 4
    = Returns rs
    ∧ map Machine.predicted rs
      = map (λ n, Machine.ofRatio n 100) [2757; 8328; 8328; 8328; 8328]%Z.
Proof. eexists. split; vm_compute; reflexivity. Qed.

(** One entry with the actual value 8 and the prediction 7.99: the
    percentage error is -0.125 in exact arithmetic; [calculateMPE] returns
    -0.12. *)
Lemma machine_calculateMPE_sample :
  Machine.calculateMPE
    [ {| Machine.pr_date := 19731; Machine.actual := Some (Machine.ofZ 8);
         Machine.predicted := Machine.ofRatio 799 100;
         Machine.modelName := MOVING_AVERAGE |} ]
  = Machine.ofRatio (-12) 100.
Proof. vm_compute. reflexivity. Qed.

(** Three entries whose absolute errors are 14.855 each in exact
    arithmetic: [calculateMAE] returns 14.85, between the whole cents
    14.85 and 14.86 that bound them. *)
Lemma machine_calculateMAE_sample :
  Machine.calculateMAE
    [ {| Machine.pr_date := 19731;
         Machine.actual := Some (Machine.ofRatio 37095 1000);
         Machine.predicted := Machine.ofRatio 2224 100;
         Machine.modelName := MOVING_AVERAGE |};
      {| Machine.pr_date := 19732;
         Machine.actual := Some (Machine.ofRatio 35125 1000);
         Machine.predicted := Machine.ofRatio 2027 100;
         Machine.modelName := MOVING_AVERAGE |};
      {| Machine.pr_date := 19733;
         Machine.actual := Some (Machine.ofRatio 24065 1000);
         Machine.predicted := Machine.ofRatio 921 100;
         Machine.modelName := MOVING_AVERAGE |} ]
  = Machine.ofRatio 1485 100.
Proof. vm_compute. reflexivity. Qed.
